(** * Ghost-layer exchange for partitioned structured grids

    A shallow embedding of the extent and mask algebra, the ghost peeler, the
    uniform and rectilinear geometry matchers, the link builder, the interface
    point-id computer and the hidden-ghost marker of
    [Parallel/DIY/vtkDIYGhostUtilities.cxx], with the properties the
    specification states about them.

    Conventions.
    - A C++ [int] is a [Z]. Signed overflow is undefined behaviour in C++, so
      the model describes the executions in which no [int] operation
      overflows. Conversions to narrower types ([unsigned char], the
      [static_cast<int>] of a [long]) are written out.
    - A C++ [double] is a binary64 primitive float.
    - [std::array<int, 6>] is the record [ExtentType]; [e.[i]] reads slot [i].
    - A [vtkUnsignedCharArray] or [vtkIdList] is a list and is read and
      written by position. *)

From Stdlib Require Import ZArith Lia Bool List.
From Stdlib Require Import Floats.
From stdpp Require Import base list gmap.

Local Open Scope Z_scope.

(** ** Extents *)

(** [ExtentType]: [x0,x1,y0,y1,z0,z1]. *)
Record ExtentType : Type := MkExtent
  { ext0 : Z; ext1 : Z; ext2 : Z; ext3 : Z; ext4 : Z; ext5 : Z }.

(** [extent[i]]. The source never indexes outside [0..5]; the model reads 0
    there. *)
Definition ext_at (e : ExtentType) (i : Z) : Z :=
  match i with
  | 0 => ext0 e | 1 => ext1 e | 2 => ext2 e
  | 3 => ext3 e | 4 => ext4 e | 5 => ext5 e
  | _ => 0
  end.

(** [extent[i] = v]; outside [0..5] the model leaves the extent as it is. *)
Definition ext_set (e : ExtentType) (i v : Z) : ExtentType :=
  match i with
  | 0 => MkExtent v (ext1 e) (ext2 e) (ext3 e) (ext4 e) (ext5 e)
  | 1 => MkExtent (ext0 e) v (ext2 e) (ext3 e) (ext4 e) (ext5 e)
  | 2 => MkExtent (ext0 e) (ext1 e) v (ext3 e) (ext4 e) (ext5 e)
  | 3 => MkExtent (ext0 e) (ext1 e) (ext2 e) v (ext4 e) (ext5 e)
  | 4 => MkExtent (ext0 e) (ext1 e) (ext2 e) (ext3 e) v (ext5 e)
  | 5 => MkExtent (ext0 e) (ext1 e) (ext2 e) (ext3 e) (ext4 e) v
  | _ => e
  end.

Notation "e .[ i ]" := (ext_at e i) (at level 1, left associativity, format "e .[ i ]").

(** The three index axes [i], [j], [k]. *)
Inductive Axis : Type := AxisX | AxisY | AxisZ.

Definition axis_index (a : Axis) : Z :=
  match a with AxisX => 0 | AxisY => 1 | AxisZ => 2 end.

Definition zero_extent : ExtentType := MkExtent 0 0 0 0 0 0.

(** The bounds of an extent on an axis. *)
Definition axis_min (e : ExtentType) (a : Axis) : Z :=
  match a with AxisX => e.[0] | AxisY => e.[2] | AxisZ => e.[4] end.

Definition axis_max (e : ExtentType) (a : Axis) : Z :=
  match a with AxisX => e.[1] | AxisY => e.[3] | AxisZ => e.[5] end.

(** [IsExtentValid]. *)
Definition IsExtentValid (extent : ExtentType) : bool :=
  (extent.[0] <=? extent.[1]) && (extent.[2] <=? extent.[3]) && (extent.[4] <=? extent.[5]).

(** [enum Adjacency]: the six faces, in the order of the slots of an
    extent. *)
Inductive Adjacency : Type := Left | Right | Front | Back | Bottom | Top.

Definition Adjacency_value (f : Adjacency) : Z :=
  match f with
  | Left => 0x01 | Right => 0x02 | Front => 0x04
  | Back => 0x08 | Bottom => 0x10 | Top => 0x20
  end.

(** The slot of an extent a face stands for, its bit position in a mask, the
    face across its axis, and its axis. *)
Definition face_index (f : Adjacency) : Z :=
  match f with
  | Left => 0 | Right => 1 | Front => 2 | Back => 3 | Bottom => 4 | Top => 5
  end.

Definition opposite (f : Adjacency) : Adjacency :=
  match f with
  | Left => Right | Right => Left | Front => Back
  | Back => Front | Bottom => Top | Top => Bottom
  end.

Definition face_axis (f : Adjacency) : Axis :=
  match f with
  | Left | Right => AxisX | Front | Back => AxisY | Bottom | Top => AxisZ
  end.

#[export] Instance Adjacency_eq_dec : EqDecision Adjacency.
Proof. solve_decision. Defined.

#[export] Instance Axis_eq_dec : EqDecision Axis.
Proof. solve_decision. Defined.

(** The two faces of an axis. *)
Definition lower_face (a : Axis) : Adjacency :=
  match a with AxisX => Left | AxisY => Front | AxisZ => Bottom end.

Definition upper_face (a : Axis) : Adjacency :=
  match a with AxisX => Right | AxisY => Back | AxisZ => Top end.

(** [enum Overlap]. *)
Inductive Overlap : Type := X | Y | XY | Z_ | XZ | YZ.

Definition Overlap_value (o : Overlap) : Z :=
  match o with
  | X => 0x01 | Y => 0x02 | XY => 0x03 | Z_ => 0x04 | XZ => 0x05 | YZ => 0x06
  end.

(** Conversion of an [int] to [unsigned char]. *)
Definition to_uchar (z : Z) : Z := z mod 256.

(** A C++ condition used as an integer. *)
Notation "[? b ]" := (Z.b2z b) (at level 0, b at level 99, format "[? b ]").

Definition neqb (a b : Z) : bool := negb (a =? b).

(** ** Adjacency and overlap masks *)

(** [ComputeAdjacencyAndOverlapMasks]: the pair
    [(adjacencyMask, overlapMask)] it stores through its two reference
    parameters. *)
Definition ComputeAdjacencyAndOverlapMasks (localExtent extent : ExtentType) : Z * Z :=
  let adjacencyMask := to_uchar
    (Z.land
      (Z.lor (Z.lor (Z.lor (Z.lor (Z.lor
        ([? localExtent.[0] =? extent.[1]] * Adjacency_value Left)
        ([? localExtent.[1] =? extent.[0]] * Adjacency_value Right))
        ([? localExtent.[2] =? extent.[3]] * Adjacency_value Front))
        ([? localExtent.[3] =? extent.[2]] * Adjacency_value Back))
        ([? localExtent.[4] =? extent.[5]] * Adjacency_value Bottom))
        ([? localExtent.[5] =? extent.[4]] * Adjacency_value Top))
      (Z.lor (Z.lor
        (Z.lor (Adjacency_value Left) (Adjacency_value Right)
           * [? neqb localExtent.[0] localExtent.[1]])
        (Z.lor (Adjacency_value Front) (Adjacency_value Back)
           * [? neqb localExtent.[2] localExtent.[3]]))
        (Z.lor (Adjacency_value Bottom) (Adjacency_value Top)
           * [? neqb localExtent.[4] localExtent.[5]]))) in
  let overlapMask := to_uchar
    (Z.lor (Z.lor
      [? (localExtent.[0] <? extent.[1]) && (extent.[0] <? localExtent.[1])]
      (Z.shiftl [? (localExtent.[2] <? extent.[3]) && (extent.[2] <? localExtent.[3])] 1))
      (Z.shiftl [? (localExtent.[4] <? extent.[5]) && (extent.[4] <? localExtent.[5])] 2)) in
  (adjacencyMask, overlapMask).

(** What the specification says of a face's adjacency bit: the local bound on
    that face meets the neighbour's bound on the opposite face, and the local
    extent is not degenerate on the face's axis. *)
Definition face_touches (A B : ExtentType) (f : Adjacency) : bool :=
  (A.[face_index f] =? B.[face_index (opposite f)])
  && negb (axis_min A (face_axis f) =? axis_max A (face_axis f)).

(** What the specification says of an axis' overlap bit: the two half-open
    intervals strictly overlap. *)
Definition axis_overlaps (A B : ExtentType) (a : Axis) : bool :=
  (axis_min A a <? axis_max B a) && (axis_min B a <? axis_max A a).

(** ** Block descriptors *)

(** [GridBlockStructure]: what a block knows of another block. The
    constructor [GridBlockStructure(extent, dim)] sets [Extent] and
    [DataDimension]; the other two fields are written during link-map
    computation. *)
Module GridBlockStructure.
Record t : Type := Make
  { Extent : ExtentType;
    DataDimension : Z;
    ExtentWithNewGhosts : ExtentType;
    AdjacencyMask : Z }.

Definition set_ExtentWithNewGhosts (e : ExtentType) (b : t) : t :=
  Make (Extent b) (DataDimension b) e (AdjacencyMask b).

Definition set_AdjacencyMask (m : Z) (b : t) : t :=
  Make (Extent b) (DataDimension b) (ExtentWithNewGhosts b) m.
End GridBlockStructure.

(** [GridInformation]: what a block knows of itself: its extent once the
    input's ghosts are peeled off, and the ghost thickness accumulated on each
    of its six sides. *)
Module GridInformation.
Record t : Type := Make
  { Extent : ExtentType;
    ExtentGhostThickness : ExtentType }.

Definition set_ExtentGhostThickness (g : ExtentType) (i : t) : t :=
  Make (Extent i) g.
End GridInformation.

(** The block families. The source selects [SynchronizeGridExtents] by
    overloading on the block-structure type, and reaches the fields of the
    base class [GridBlockStructure] through it. *)
Class GridBlock (BS : Type) : Type :=
  { grid : BS -> GridBlockStructure.t;
    with_grid : GridBlockStructure.t -> BS -> BS;
    SynchronizeGridExtents : BS -> BS -> option ExtentType }.

(** ** Link builder and ghost allocator *)

(** A C++ integer used as a condition. *)
Definition nz (z : Z) : bool := negb (z =? 0).

(** [AddGhostLayerToGrid]. The source multiplies [localOutputGhostLevels] by
    [-1.0] or [1.0] and converts the sum back to [int], which is exact. Its
    last statement, [AddGhostLayerOfGridPoints], only touches the
    [CoordinateGhosts] of a rectilinear block and does nothing for the other
    families; none of the fields modelled here is read or written by it. *)
Definition AddGhostLayerToGrid (idx outputGhostLevels : Z)
    (blockStructure : GridBlockStructure.t) (blockInformation : GridInformation.t)
  : GridBlockStructure.t * GridInformation.t :=
  let extent := GridBlockStructure.Extent blockStructure in
  let upperBound := nz (Z.rem idx 2) in
  let oppositeIdx := if upperBound then idx - 1 else idx + 1 in
  let localOutputGhostLevels :=
    Z.min outputGhostLevels (Z.abs (extent.[idx] - extent.[oppositeIdx])) in
  let thickness := GridInformation.ExtentGhostThickness blockInformation in
  let blockInformation' :=
    GridInformation.set_ExtentGhostThickness
      (ext_set thickness idx (Z.max thickness.[idx] localOutputGhostLevels))
      blockInformation in
  let withNewGhosts := GridBlockStructure.ExtentWithNewGhosts blockStructure in
  let blockStructure' :=
    GridBlockStructure.set_ExtentWithNewGhosts
      (ext_set withNewGhosts oppositeIdx
         (withNewGhosts.[oppositeIdx]
          + (if upperBound then -1 else 1) * localOutputGhostLevels))
      blockStructure in
  (blockStructure', blockInformation').

(** The three [switch] statements of [LinkGrid]: the slots of the local
    extent a mask stands for, [None] for the [default] label. *)
Definition face_switch (adjacencyMask : Z) : option Z :=
  match adjacencyMask with
  | 0x01 (* Left *) => Some 0
  | 0x02 (* Right *) => Some 1
  | 0x04 (* Front *) => Some 2
  | 0x08 (* Back *) => Some 3
  | 0x10 (* Bottom *) => Some 4
  | 0x20 (* Top *) => Some 5
  | _ => None
  end.

Definition edge_switch (adjacencyMask : Z) : option (Z * Z) :=
  match adjacencyMask with
  | 0x14 (* Front | Bottom *) => Some (2, 4)
  | 0x24 (* Front | Top *) => Some (2, 5)
  | 0x18 (* Back | Bottom *) => Some (3, 4)
  | 0x28 (* Back | Top *) => Some (3, 5)
  | 0x11 (* Left | Bottom *) => Some (0, 4)
  | 0x21 (* Left | Top *) => Some (0, 5)
  | 0x12 (* Right | Bottom *) => Some (1, 4)
  | 0x22 (* Right | Top *) => Some (1, 5)
  | 0x05 (* Left | Front *) => Some (0, 2)
  | 0x09 (* Left | Back *) => Some (0, 3)
  | 0x06 (* Right | Front *) => Some (1, 2)
  | 0x0a (* Right | Back *) => Some (1, 3)
  | _ => None
  end.

Definition corner_switch (adjacencyMask : Z) : option (Z * Z * Z) :=
  match adjacencyMask with
  | 0x15 (* Left | Front | Bottom *) => Some (0, 2, 4)
  | 0x25 (* Left | Front | Top *) => Some (0, 2, 5)
  | 0x19 (* Left | Back | Bottom *) => Some (0, 3, 4)
  | 0x29 (* Left | Back | Top *) => Some (0, 3, 5)
  | 0x16 (* Right | Front | Bottom *) => Some (1, 2, 4)
  | 0x26 (* Right | Front | Top *) => Some (1, 2, 5)
  | 0x1a (* Right | Back | Bottom *) => Some (1, 3, 4)
  | 0x2a (* Right | Back | Top *) => Some (1, 3, 5)
  | _ => None
  end.

(** The conditions of the first two branches of [LinkGrid]. *)
Definition faces_overlap (adjacencyMask overlapMask dim : Z) : bool :=
  ((((dim =? 3) && (overlapMask =? Overlap_value YZ))
    || ((dim =? 2) && nz (Z.land overlapMask (Overlap_value YZ)))
    || ((dim =? 1) && negb (nz overlapMask)))
   && nz (Z.land adjacencyMask (Z.lor (Adjacency_value Left) (Adjacency_value Right))))
  || ((((dim =? 3) && (overlapMask =? Overlap_value XZ))
       || ((dim =? 2) && nz (Z.land overlapMask (Overlap_value XZ))))
      && nz (Z.land adjacencyMask (Z.lor (Adjacency_value Front) (Adjacency_value Back))))
  || ((((dim =? 3) && (overlapMask =? Overlap_value XY))
       || ((dim =? 2) && nz (Z.land overlapMask (Overlap_value XY))))
      && nz (Z.land adjacencyMask (Z.lor (Adjacency_value Bottom) (Adjacency_value Top)))).

Definition edges_overlap (adjacencyMask overlapMask dim : Z) : bool :=
  ((((dim =? 3) && (overlapMask =? Overlap_value X)) || ((dim =? 2) && negb (nz overlapMask)))
   && nz (Z.land adjacencyMask (Z.lor (Adjacency_value Front) (Adjacency_value Back)))
   && nz (Z.land adjacencyMask (Z.lor (Adjacency_value Bottom) (Adjacency_value Top))))
  || ((((dim =? 3) && (overlapMask =? Overlap_value Y)) || ((dim =? 2) && negb (nz overlapMask)))
      && nz (Z.land adjacencyMask (Z.lor (Adjacency_value Left) (Adjacency_value Right)))
      && nz (Z.land adjacencyMask (Z.lor (Adjacency_value Bottom) (Adjacency_value Top))))
  || ((((dim =? 3) && (overlapMask =? Overlap_value Z_)) || ((dim =? 2) && negb (nz overlapMask)))
      && nz (Z.land adjacencyMask (Z.lor (Adjacency_value Left) (Adjacency_value Right)))
      && nz (Z.land adjacencyMask (Z.lor (Adjacency_value Front) (Adjacency_value Back)))).

(** What [LinkGrid] does with the neighbour under the iterator: it erases it
    from the block's map (logging an error when [logged]), or it keeps it,
    with the neighbour and the block's information updated. *)
Inductive LinkOutcome : Type :=
  | Erased (logged : bool)
  | Linked (blockStructure : GridBlockStructure.t) (blockInformation : GridInformation.t).

(** [LinkGrid], for the neighbour under the iterator. The caller adds the
    neighbour's gid to [localLinks] and advances the iterator when the
    outcome is [Linked]. *)
Definition LinkGrid (blockStructure : GridBlockStructure.t)
    (blockInformation : GridInformation.t)
    (adjacencyMask overlapMask outputGhostLevels dim : Z) : LinkOutcome :=
  if faces_overlap adjacencyMask overlapMask dim then
    match face_switch adjacencyMask with
    | None => Erased (negb (dim =? 1))
    | Some idx =>
        let '(bs, info) :=
          AddGhostLayerToGrid idx outputGhostLevels blockStructure blockInformation in
        Linked bs info
    end
  else if edges_overlap adjacencyMask overlapMask dim then
    match edge_switch adjacencyMask with
    | None => Erased (negb (dim =? 2))
    | Some (idx1, idx2) =>
        let '(bs, info) :=
          AddGhostLayerToGrid idx1 outputGhostLevels blockStructure blockInformation in
        let '(bs, info) := AddGhostLayerToGrid idx2 outputGhostLevels bs info in
        Linked bs info
    end
  else
    match corner_switch adjacencyMask with
    | None => Erased (negb (dim =? 3))
    | Some (idx1, idx2, idx3) =>
        let '(bs, info) :=
          AddGhostLayerToGrid idx1 outputGhostLevels blockStructure blockInformation in
        let '(bs, info) := AddGhostLayerToGrid idx2 outputGhostLevels bs info in
        let '(bs, info) := AddGhostLayerToGrid idx3 outputGhostLevels bs info in
        Linked bs info
    end.

(** The face a slot of an extent stands for. *)
Definition slot_face (i : Z) : Adjacency :=
  match i with
  | 0 => Left | 1 => Right | 2 => Front | 3 => Back | 4 => Bottom | _ => Top
  end.

(** The faces of the local block on which [LinkGrid] adds a ghost layer for
    a neighbour with these masks; [None] when it erases the neighbour. *)
Definition linked_faces (adjacencyMask overlapMask dim : Z) : option (list Adjacency) :=
  if faces_overlap adjacencyMask overlapMask dim then
    (fun idx => [slot_face idx]) <$> face_switch adjacencyMask
  else if edges_overlap adjacencyMask overlapMask dim then
    (fun '(idx1, idx2) => [slot_face idx1; slot_face idx2]) <$> edge_switch adjacencyMask
  else
    (fun '(idx1, idx2, idx3) => [slot_face idx1; slot_face idx2; slot_face idx3])
      <$> corner_switch adjacencyMask.

(** The depth a neighbour of extent [extent] offers on face [f] of the local
    block: its width along the axis of [f], cut at [outputGhostLevels]. *)
Definition neighbor_width (extent : ExtentType) (f : Adjacency) : Z :=
  Z.abs (extent.[face_index f] - extent.[face_index (opposite f)]).

Definition neighbor_depth (outputGhostLevels : Z) (extent : ExtentType) (f : Adjacency) : Z :=
  Z.min outputGhostLevels (neighbor_width extent f).

(** A run of [AddGhostLayerToGrid] calls, as [LinkGrid] chains them. *)
Definition add_layers (outputGhostLevels : Z) (faces : list Adjacency)
    (blockStructure : GridBlockStructure.t) (blockInformation : GridInformation.t)
  : GridBlockStructure.t * GridInformation.t :=
  fold_left (fun '(bs, info) g =>
               AddGhostLayerToGrid (face_index g) outputGhostLevels bs info)
    faces (blockStructure, blockInformation).

(** [UpdateOutputGridStructure]: the extent it sets on the output. *)
Definition UpdateOutputGridStructure (blockInformation : GridInformation.t) : ExtentType :=
  let ghostThickness := GridInformation.ExtentGhostThickness blockInformation in
  let outputExtent := GridInformation.Extent blockInformation in
  let outputExtent := ext_set outputExtent 0 (outputExtent.[0] - ghostThickness.[0]) in
  let outputExtent := ext_set outputExtent 1 (outputExtent.[1] + ghostThickness.[1]) in
  let outputExtent := ext_set outputExtent 2 (outputExtent.[2] - ghostThickness.[2]) in
  let outputExtent := ext_set outputExtent 3 (outputExtent.[3] + ghostThickness.[3]) in
  let outputExtent := ext_set outputExtent 4 (outputExtent.[4] - ghostThickness.[4]) in
  let outputExtent := ext_set outputExtent 5 (outputExtent.[5] + ghostThickness.[5]) in
  outputExtent.

(** ** Link-map computation *)

Section LinkMap.
Context {BS : Type} `{GridBlock BS}.

(** A block of the [diy::Master]: its own information, the descriptors of
    the other blocks keyed by their gid (a [std::map], listed here in the
    order its iterator visits them), and its two ghost marker arrays. *)
Record Block : Type := MkBlock
  { Information : GridInformation.t;
    BlockStructures : list (Z * BS);
    GhostCellArray : list Z;
    GhostPointArray : list Z }.

(** The state the loop over [blockStructures] carries: the entries already
    visited and kept, the block's information, the block's link set, and
    the number of errors logged. *)
Record LinkState : Type := MkLinkState
  { kept : list (Z * BS);
    information : GridInformation.t;
    localLinks : gset Z;
    logged_errors : nat }.

(** One turn of the loop over [blockStructures] in
    [ComputeGridLinkMapAndAllocateGhosts]. *)
Definition link_neighbor (localBlockStructure : BS) (localExtent : ExtentType)
    (outputGhostLevels dim : Z) (st : LinkState) (entry : Z * BS) : LinkState :=
  let '(gid, blockStructure) := entry in
  match SynchronizeGridExtents localBlockStructure blockStructure with
  | None => st
  | Some shiftedExtent =>
      let '(adjacencyMask, overlapMask) :=
        ComputeAdjacencyAndOverlapMasks localExtent shiftedExtent in
      let g := GridBlockStructure.set_AdjacencyMask adjacencyMask (grid blockStructure) in
      let g := GridBlockStructure.set_ExtentWithNewGhosts (GridBlockStructure.Extent g) g in
      match LinkGrid g (information st) adjacencyMask overlapMask outputGhostLevels dim with
      | Erased logged =>
          MkLinkState (kept st) (information st) (localLinks st)
            (if logged then S (logged_errors st) else logged_errors st)
      | Linked g' info' =>
          MkLinkState (kept st ++ [(gid, with_grid g' blockStructure)]) info'
            ({[gid]} ∪ localLinks st) (logged_errors st)
      end
  end.

(** The faces of the local block a neighbour is linked on: those of
    [linked_faces] at the masks of its shifted extent, none when the
    matcher rejects it or [LinkGrid] erases it. *)
Definition neighbor_faces (localBlockStructure : BS) (localExtent : ExtentType) (dim : Z)
    (blockStructure : BS) : list Adjacency :=
  match SynchronizeGridExtents localBlockStructure blockStructure with
  | None => []
  | Some shiftedExtent =>
      let '(adjacencyMask, overlapMask) :=
        ComputeAdjacencyAndOverlapMasks localExtent shiftedExtent in
      default [] (linked_faces adjacencyMask overlapMask dim)
  end.

(** The depths the neighbours linked on face [f] offer, in the order the
    loop visits them. *)
Definition contributions (localBlockStructure : BS) (localExtent : ExtentType)
    (outputGhostLevels dim : Z) (f : Adjacency) (blockStructures : list (Z * BS))
  : list Z :=
  omap (fun '(_, blockStructure) =>
          if decide (f ∈ neighbor_faces localBlockStructure localExtent dim blockStructure)
          then Some (neighbor_depth outputGhostLevels
                       (GridBlockStructure.Extent (grid blockStructure)) f)
          else None)
    blockStructures.

(** What the body of the loop over the local blocks leaves behind: the
    block, its link set, the extent set on its output (if it is set), and
    the number of errors logged. *)
Record LinkedBlock : Type := MkLinkedBlock
  { linked_block : Block;
    linked_links : gset Z;
    linked_output_extent : option ExtentType;
    linked_errors : nat }.

(** The body of the loop over the local blocks in
    [ComputeGridLinkMapAndAllocateGhosts]; [localBlockStructure] is the
    descriptor the source builds from the input and the block's
    information, [dim] is [output->GetDataDimension()]. The final
    [CloneGrid] copies field data and is not modelled. *)
Definition link_block (outputGhostLevels : Z) (localBlockStructure : BS) (dim : Z)
    (block : Block) : LinkedBlock :=
  let localExtent := GridInformation.Extent (Information block) in
  if (localExtent.[0] >? localExtent.[1]) || (localExtent.[2] >? localExtent.[3])
     || (localExtent.[4] >? localExtent.[5])
  then
    MkLinkedBlock
      (MkBlock (Information block) [] (GhostCellArray block) (GhostPointArray block))
      ∅ None 0
  else
    let st :=
      fold_left (link_neighbor localBlockStructure localExtent outputGhostLevels dim)
        (BlockStructures block) (MkLinkState [] (Information block) ∅ 0) in
    MkLinkedBlock
      (MkBlock (information st) (kept st) (GhostCellArray block) (GhostPointArray block))
      (localLinks st)
      (Some (UpdateOutputGridStructure (information st)))
      (logged_errors st).

(** [ComputeGridLinkMapAndAllocateGhosts] over the local blocks, each given
    with its local descriptor and the data dimension of its output. *)
Definition ComputeGridLinkMapAndAllocateGhosts (outputGhostLevels : Z)
    (blocks : list (BS * Z * Block)) : list LinkedBlock :=
  map (fun '(localBlockStructure, dim, block) =>
         link_block outputGhostLevels localBlockStructure dim block) blocks.
End LinkMap.

Arguments Block : clear implicits.
Arguments LinkState : clear implicits.
Arguments LinkedBlock : clear implicits.

(** ** Cursors, arrays and loops *)

(** [int ijk[3]] and [bool lock[3]]. *)
Record Vec3 (A : Type) : Type := MkVec3 { v0 : A; v1 : A; v2 : A }.
Arguments MkVec3 {A} _ _ _.
Arguments v0 {A} _.
Arguments v1 {A} _.
Arguments v2 {A} _.

Definition vget {A} (v : Vec3 A) (d : Axis) : A :=
  match d with AxisX => v0 v | AxisY => v1 v | AxisZ => v2 v end.

Definition vset {A} (v : Vec3 A) (d : Axis) (x : A) : Vec3 A :=
  match d with
  | AxisX => MkVec3 x (v1 v) (v2 v)
  | AxisY => MkVec3 (v0 v) x (v2 v)
  | AxisZ => MkVec3 (v0 v) (v1 v) x
  end.

(** [array->GetValue(id)]. Reading outside the array is undefined in the
    source; the model reads 0 there. *)
Definition GetValue (array : list Z) (id : Z) : Z :=
  if id <? 0 then 0 else default 0 (array !! Z.to_nat id).

(** [array->SetValue(id, val)]. Writing outside the array is undefined in the
    source; the model leaves the array as it is. *)
Definition SetValue (array : list Z) (id val : Z) : list Z :=
  if id <? 0 then array else <[Z.to_nat id := val]> array.

(** A [while] loop, run for at most [fuel] turns: [None] when the fuel runs
    out before the condition fails. *)
Fixpoint while_loop {S : Type} (cond : S -> bool) (body : S -> S) (fuel : nat) (s : S)
  : option S :=
  match fuel with
  | O => None
  | Datatypes.S fuel' => if cond s then while_loop cond body fuel' (body s) else Some s
  end.

(** The values [lo, lo+1, ..., hi-1] a counter takes in
    [for (i = lo; i < hi; ++i)]. *)
Definition zrange (lo hi : Z) : list Z :=
  map (fun n => lo + Z.of_nat n) (seq 0 (Z.to_nat (hi - lo))).

(** [for (i = lo; i < hi; ++i) body], threading the state. *)
Definition for_loop {S : Type} (lo hi : Z) (body : Z -> S -> S) (s : S) : S :=
  fold_left (fun s i => body i s) (zrange lo hi) s.

(** The values [g i j k] for the counters of three nested loops, [k]
    outermost and [i] innermost, each counter going over a half-open range:
    the row-major enumeration of a box. *)
Definition row_major {A : Type} (g : Z -> Z -> Z -> A) (ilo ihi jlo jhi klo khi : Z)
  : list A :=
  flat_map (fun k =>
    flat_map (fun j =>
      flat_map (fun i => [g i j k]) (zrange ilo ihi)) (zrange jlo jhi)) (zrange klo khi).

(** A run of [SetValue] calls that all write the value [val]. *)
Definition set_many (ids : list Z) (val : Z) (array : list Z) : list Z :=
  fold_left (fun array id => SetValue array id val) ids array.

(** A transformation of an array that amounts to such a run. *)
Definition writes (val : Z) (W : list Z -> list Z) : Prop :=
  exists ids, forall array, W array = set_many ids val array.

(** ** Ghost peeler *)

(** A structured grid as the peeler sees it: its extent, and the cell-ghost
    marker array [GetGhostArray(FIELD_ASSOCIATION_CELLS)] down-cast to
    [vtkUnsignedCharArray] ([None] for a null pointer). *)
Record Grid : Type := MkGrid
  { GetExtent : ExtentType;
    GetGhostArray : option (list Z) }.

Section Peeler.
(** [vtkStructuredData::ComputeCellIdForExtent], declared outside the
    translated sources: the id of the cell at [ijk] within an extent. *)
Variable ComputeCellIdForExtent : ExtentType -> Vec3 Z -> Z.

Section Cursor.
Variables (gridExtent : ExtentType) (ghosts : list Z).

Definition is_ghost (ijk : Vec3 Z) : bool :=
  nz (GetValue ghosts (ComputeCellIdForExtent gridExtent ijk)).

(** The condition of the first [while] loop. *)
Definition lower_cond (imin jmin kmin : Z) (s : Vec3 Z * Vec3 bool) : bool :=
  let '(ijk, lock) := s in
  (negb (v0 lock) || negb (v1 lock) || negb (v2 lock))
  && (v0 lock || (v0 ijk >? imin))
  && (v1 lock || (v1 ijk >? jmin))
  && (v2 lock || (v2 ijk >? kmin))
  && negb (is_ghost ijk).

(** One turn of [for (int dim = 0; dim < 3; ++dim)] in the first loop. *)
Definition lower_step (s : Vec3 Z * Vec3 bool) (dim : Axis) : Vec3 Z * Vec3 bool :=
  let '(ijk, lock) := s in
  if negb (vget lock dim) then
    let ijk := vset ijk dim (vget ijk dim - 1) in
    if is_ghost ijk
    then (vset ijk dim (vget ijk dim + 1), vset lock dim true)
    else (ijk, lock)
  else (ijk, lock).

Definition lower_body (s : Vec3 Z * Vec3 bool) : Vec3 Z * Vec3 bool :=
  fold_left lower_step [AxisX; AxisY; AxisZ] s.

(** The condition of the second [while] loop. *)
Definition upper_cond (imax jmax kmax : Z) (s : Vec3 Z * Vec3 bool) : bool :=
  let '(ijk, lock) := s in
  (negb (v0 lock) || negb (v1 lock) || negb (v2 lock))
  && (v0 lock || (v0 ijk <? imax - 1))
  && (v1 lock || (v1 ijk <? jmax - 1))
  && (v2 lock || (v2 ijk <? kmax - 1))
  && negb (is_ghost ijk).

(** One turn of [for (int dim = 0; dim < 3; ++dim)] in the second loop. *)
Definition upper_step (s : Vec3 Z * Vec3 bool) (dim : Axis) : Vec3 Z * Vec3 bool :=
  let '(ijk, lock) := s in
  if negb (vget lock dim) then
    let ijk := vset ijk dim (vget ijk dim + 1) in
    if is_ghost ijk
    then (vset ijk dim (vget ijk dim - 1), vset lock dim true)
    else (ijk, lock)
  else (ijk, lock).

Definition upper_body (s : Vec3 Z * Vec3 bool) : Vec3 Z * Vec3 bool :=
  fold_left upper_step [AxisX; AxisY; AxisZ] s.
End Cursor.

(** Turns that are enough for a loop whose cursor starts at [ijk] and
    cannot pass [bound]: each turn moves or locks an unlocked axis. *)
Definition peel_fuel (ijk bound : Vec3 Z) : nat :=
  Z.to_nat (Z.abs (v0 ijk - v0 bound) + Z.abs (v1 ijk - v1 bound)
            + Z.abs (v2 ijk - v2 bound)) + 4.

(** [PeelOffGhostLayers]. *)
Definition PeelOffGhostLayers (grid : Grid) (ghostLevel : Z) : option ExtentType :=
  match GetGhostArray grid with
  | None => Some (GetExtent grid)
  | Some ghosts =>
      let gridExtent := GetExtent grid in
      let imin := gridExtent.[0] in
      let imax := Z.max gridExtent.[1] (gridExtent.[0] + 1) in
      let jmin := gridExtent.[2] in
      let jmax := Z.max gridExtent.[3] (gridExtent.[2] + 1) in
      let kmin := gridExtent.[4] in
      let kmax := Z.max gridExtent.[5] (gridExtent.[4] + 1) in
      let lock := MkVec3 (gridExtent.[0] =? gridExtent.[1])
                    (gridExtent.[2] =? gridExtent.[3])
                    (gridExtent.[4] =? gridExtent.[5]) in
      let ijk := MkVec3 (Z.min (imin + ghostLevel) (imax - 1))
                   (Z.min (jmin + ghostLevel) (jmax - 1))
                   (Z.min (kmin + ghostLevel) (kmax - 1)) in
      match while_loop (lower_cond gridExtent ghosts imin jmin kmin)
              (lower_body gridExtent ghosts)
              (peel_fuel ijk (MkVec3 imin jmin kmin)) (ijk, lock) with
      | None => None
      | Some (lower, _) =>
          let ijk := MkVec3 (Z.max (imax - 1 - ghostLevel) imin)
                       (Z.max (jmax - 1 - ghostLevel) jmin)
                       (Z.max (kmax - 1 - ghostLevel) kmin) in
          match while_loop (upper_cond gridExtent ghosts imax jmax kmax)
                  (upper_body gridExtent ghosts)
                  (peel_fuel ijk (MkVec3 (imax - 1) (jmax - 1) (kmax - 1)))
                  (ijk, lock) with
          | None => None
          | Some (upper, _) =>
              Some (MkExtent
                      (v0 lower) (v0 upper + [? neqb gridExtent.[0] gridExtent.[1]])
                      (v1 lower) (v1 upper + [? neqb gridExtent.[2] gridExtent.[3]])
                      (v2 lower) (v2 upper + [? neqb gridExtent.[4] gridExtent.[5]]))
          end
      end
  end.
End Peeler.

(** The row-major numbering of the cells of an extent, one cell thick on a
    degenerate axis; the instance of [ComputeCellIdForExtent] the examples
    run on. *)
Definition row_major_cell_id (extent : ExtentType) (ijk : Vec3 Z) : Z :=
  let ni := Z.max (extent.[1] - extent.[0]) 1 in
  let nj := Z.max (extent.[3] - extent.[2]) 1 in
  ((v2 ijk - extent.[4]) * nj + (v1 ijk - extent.[2])) * ni + (v0 ijk - extent.[0]).

(** The row-major numbering of the points of an extent; the instance of
    [ComputePointIdForExtent] the examples run on. *)
Definition row_major_point_id (extent : ExtentType) (ijk : Vec3 Z) : Z :=
  let ni := extent.[1] - extent.[0] + 1 in
  let nj := extent.[3] - extent.[2] + 1 in
  ((v2 ijk - extent.[4]) * nj + (v1 ijk - extent.[2])) * ni + (v0 ijk - extent.[0]).

(** ** Interface point ids *)

(** A [vtkIdList] after [SetNumberOfIds(n)] and a run of
    [SetId(count, id)] with [count] going up from 0: the number of ids it
    holds, and the ids written, by position. *)
Record IdList : Type := MkIdList
  { NumberOfIds : Z;
    Ids : list Z }.

(** [blockStructures.at(gid)]: [None] where [std::map::at] throws. *)
Fixpoint map_at {A : Type} (m : list (Z * A)) (gid : Z) : option A :=
  match m with
  | [] => None
  | (g, a) :: m' => if g =? gid then Some a else map_at m' gid
  end.

Section InterfaceIds.
(** [vtkStructuredData::ComputePointIdForExtent], declared outside the
    translated sources: the id of the point at [ijk] within an extent. *)
Variable ComputePointIdForExtent : ExtentType -> Vec3 Z -> Z.

(** The bounds [imin, imax, jmin, jmax, kmin, kmax] of the loops of
    [ComputeGridInterfacePointIds]. *)
Definition interface_point_bounds (adjacencyMask : Z) (localExtent extent : ExtentType)
  : ExtentType :=
  let imin := Z.max extent.[0] localExtent.[0] in
  let imax := Z.min extent.[1] localExtent.[1] in
  let jmin := Z.max extent.[2] localExtent.[2] in
  let jmax := Z.min extent.[3] localExtent.[3] in
  let kmin := Z.max extent.[4] localExtent.[4] in
  let kmax := Z.min extent.[5] localExtent.[5] in
  let imax := if nz (Z.land adjacencyMask (Adjacency_value Right)) then imax - 1 else imax in
  let jmax := if nz (Z.land adjacencyMask (Adjacency_value Back)) then jmax - 1 else jmax in
  let kmax := if nz (Z.land adjacencyMask (Adjacency_value Top)) then kmax - 1 else kmax in
  MkExtent imin imax jmin jmax kmin kmax.

(** [ComputeGridInterfacePointIds]; [gridExtent] is [grid->GetExtent()].
    Its first parameter is an [unsigned char]. *)
Definition ComputeGridInterfacePointIds (adjacencyMask : Z)
    (localExtent extent gridExtent : ExtentType) : IdList :=
  let b := interface_point_bounds adjacencyMask localExtent extent in
  let '(imin, imax, jmin, jmax, kmin, kmax) :=
    (b.[0], b.[1], b.[2], b.[3], b.[4], b.[5]) in
  MkIdList
    ((imax - imin + 1) * (jmax - jmin + 1) * (kmax - kmin + 1))
    (for_loop kmin (kmax + 1) (fun k =>
       for_loop jmin (jmax + 1) (fun j =>
         for_loop imin (imax + 1) (fun i ids =>
           ids ++ [ComputePointIdForExtent gridExtent (MkVec3 i j k)]))) []).

Context {BS : Type} `{GridBlock BS}.

(** [ComputeInputGridInterfacePointIds]. *)
Definition ComputeInputGridInterfacePointIds (block : Block BS) (gid : Z)
    (gridExtent : ExtentType) : option IdList :=
  match map_at (BlockStructures block) gid with
  | None => None
  | Some blockStructure =>
      let adjacencyMask := GridBlockStructure.AdjacencyMask (grid blockStructure) in
      let extent := GridBlockStructure.ExtentWithNewGhosts (grid blockStructure) in
      let localExtent := GridInformation.Extent (Information block) in
      Some (ComputeGridInterfacePointIds adjacencyMask localExtent extent gridExtent)
  end.

(** [ComputeOutputGridInterfacePointIds]. *)
Definition ComputeOutputGridInterfacePointIds (block : Block BS) (gid : Z)
    (gridExtent : ExtentType) : option IdList :=
  match map_at (BlockStructures block) gid with
  | None => None
  | Some blockStructure =>
      let adjacencyMask := GridBlockStructure.AdjacencyMask (grid blockStructure) in
      let extent := GridBlockStructure.Extent (grid blockStructure) in
      let localExtent := gridExtent in
      Some (ComputeGridInterfacePointIds (to_uchar (Z.shiftl adjacencyMask 1))
              localExtent extent gridExtent)
  end.
End InterfaceIds.

(** ** Hidden ghosts *)

Section HiddenGhosts.
(** [vtkStructuredData::ComputeCellIdForExtent] and
    [ComputePointIdForExtent], and the marker values
    [vtkDataSetAttributes::HIDDENCELL] and [HIDDENPOINT], all declared
    outside the translated sources. *)
Variable ComputeCellIdForExtent : ExtentType -> Vec3 Z -> Z.
Variable ComputePointIdForExtent : ExtentType -> Vec3 Z -> Z.
Variables HIDDENCELL HIDDENPOINT : Z.

(** [FillGridCellArray]. *)
Definition FillGridCellArray (array : list Z) (gridExtent : ExtentType)
    (imin imax jmin jmax kmin kmax val : Z) : list Z :=
  for_loop kmin kmax (fun k =>
    for_loop jmin jmax (fun j =>
      for_loop imin imax (fun i array =>
        SetValue array (ComputeCellIdForExtent gridExtent (MkVec3 i j k)) val))) array.

(** [FillGridPointArray]. *)
Definition FillGridPointArray (array : list Z) (gridExtent : ExtentType)
    (imin imax jmin jmax kmin kmax val : Z) : list Z :=
  for_loop kmin (kmax + 1) (fun k =>
    for_loop jmin (jmax + 1) (fun j =>
      for_loop imin (imax + 1) (fun i array =>
        SetValue array (ComputePointIdForExtent gridExtent (MkVec3 i j k)) val))) array.

Context {BS : Type}.

(** The body of the loop of [FillGridHiddenGhosts], for the block whose
    output has extent [localExtent]. *)
Definition fill_hidden_ghosts (localExtent : ExtentType) (block : Block BS) : Block BS :=
  let ghostCellArray := GhostCellArray block in
  let ghostPointArray := GhostPointArray block in
  let localExtentWithNoGhosts := GridInformation.Extent (Information block) in
  let isDimensionDegenerate :=
    MkVec3 [? localExtent.[0] =? localExtent.[1]] [? localExtent.[2] =? localExtent.[3]]
      [? localExtent.[4] =? localExtent.[5]] in
  let '(ghostCellArray, ghostPointArray) :=
    if negb (nz (v0 isDimensionDegenerate)) then
      let c := FillGridCellArray ghostCellArray localExtent localExtent.[0]
                 localExtentWithNoGhosts.[0] localExtent.[2]
                 (localExtent.[3] + v1 isDimensionDegenerate) localExtent.[4]
                 (localExtent.[5] + v2 isDimensionDegenerate) HIDDENCELL in
      let c := FillGridCellArray c localExtent localExtentWithNoGhosts.[1]
                 localExtent.[1] localExtent.[2]
                 (localExtent.[3] + v1 isDimensionDegenerate) localExtent.[4]
                 (localExtent.[5] + v2 isDimensionDegenerate) HIDDENCELL in
      let p := FillGridPointArray ghostPointArray localExtent localExtent.[0]
                 (localExtentWithNoGhosts.[0] - 1) localExtent.[2] localExtent.[3]
                 localExtent.[4] localExtent.[5] HIDDENPOINT in
      let p := FillGridPointArray p localExtent (localExtentWithNoGhosts.[1] + 1)
                 localExtent.[1] localExtent.[2] localExtent.[3] localExtent.[4]
                 localExtent.[5] HIDDENPOINT in
      (c, p)
    else (ghostCellArray, ghostPointArray) in
  let '(ghostCellArray, ghostPointArray) :=
    if negb (nz (v1 isDimensionDegenerate)) then
      let c := FillGridCellArray ghostCellArray localExtent localExtent.[0]
                 (localExtent.[1] + v0 isDimensionDegenerate) localExtent.[2]
                 localExtentWithNoGhosts.[2] localExtent.[4]
                 (localExtent.[5] + v2 isDimensionDegenerate) HIDDENCELL in
      let c := FillGridCellArray c localExtent localExtent.[0]
                 (localExtent.[1] + v0 isDimensionDegenerate) localExtentWithNoGhosts.[3]
                 localExtent.[3] localExtent.[4]
                 (localExtent.[5] + v2 isDimensionDegenerate) HIDDENCELL in
      let p := FillGridPointArray ghostPointArray localExtent localExtent.[0]
                 localExtent.[1] localExtent.[2] (localExtentWithNoGhosts.[2] - 1)
                 localExtent.[4] localExtent.[5] HIDDENPOINT in
      let p := FillGridPointArray p localExtent localExtent.[0] localExtent.[1]
                 (localExtentWithNoGhosts.[3] + 1) localExtent.[3] localExtent.[4]
                 localExtent.[5] HIDDENPOINT in
      (c, p)
    else (ghostCellArray, ghostPointArray) in
  let '(ghostCellArray, ghostPointArray) :=
    if negb (nz (v2 isDimensionDegenerate)) then
      let c := FillGridCellArray ghostCellArray localExtent localExtent.[0]
                 (localExtent.[1] + v0 isDimensionDegenerate) localExtent.[2]
                 (localExtent.[3] + v1 isDimensionDegenerate) localExtent.[4]
                 localExtentWithNoGhosts.[4] HIDDENCELL in
      let c := FillGridCellArray c localExtent localExtent.[0]
                 (localExtent.[1] + v0 isDimensionDegenerate) localExtent.[2]
                 (localExtent.[3] + v1 isDimensionDegenerate) localExtentWithNoGhosts.[5]
                 localExtent.[5] HIDDENCELL in
      let p := FillGridPointArray ghostPointArray localExtent localExtent.[0]
                 localExtent.[1] localExtent.[2] localExtent.[3] localExtent.[4]
                 (localExtentWithNoGhosts.[4] - 1) HIDDENPOINT in
      let p := FillGridPointArray p localExtent localExtent.[0] localExtent.[1]
                 localExtent.[2] localExtent.[3] (localExtentWithNoGhosts.[5] + 1)
                 localExtent.[5] HIDDENPOINT in
      (c, p)
    else (ghostCellArray, ghostPointArray) in
  MkBlock (Information block) (BlockStructures block) ghostCellArray ghostPointArray.

(** [FillGridHiddenGhosts]: every output, given by its extent, with its
    block. *)
Definition FillGridHiddenGhosts (outputs : list (ExtentType * Block BS))
  : list (ExtentType * Block BS) :=
  map (fun '(localExtent, block) => (localExtent, fill_hidden_ghosts localExtent block))
    outputs.
End HiddenGhosts.

(** ** Uniform grids *)

(** [QuaternionType]: four doubles. *)
Record Vec4 (A : Type) : Type := MkVec4 { q0 : A; q1 : A; q2 : A; q3 : A }.
Arguments MkVec4 {A} _ _ _ _.
Arguments q0 {A} _.
Arguments q1 {A} _.
Arguments q2 {A} _.
Arguments q3 {A} _.

Definition VectorType : Type := Vec3 float.
Definition QuaternionType : Type := Vec4 float.

(** [ImageDataBlockStructure]: a [GridBlockStructure] with the geometry of a
    uniform grid. *)
Module ImageDataBlockStructure.
Record t : Type := Make
  { base : GridBlockStructure.t;
    Origin : VectorType;
    Spacing : VectorType;
    OrientationQuaternion : QuaternionType }.

Definition set_base (g : GridBlockStructure.t) (b : t) : t :=
  Make g (Origin b) (Spacing b) (OrientationQuaternion b).
End ImageDataBlockStructure.

(** Conversion of a [long] to [int]. *)
Definition to_int (z : Z) : Z := (z + 2 ^ 31) mod 2 ^ 32 - 2 ^ 31.

(** [std::lround]: the nearest integer, halfway cases away from zero. The
    result is unspecified for an infinity or a NaN; the model returns 0. *)
Definition lround (x : float) : Z :=
  match Prim2SF x with
  | S754_finite s m e =>
      let magnitude :=
        if 0 <=? e then Z.pos m * 2 ^ e
        else (2 * Z.pos m + 2 ^ (- e)) / 2 ^ (- e + 1) in
      if s then - magnitude else magnitude
  | _ => 0
  end.

(** Modelled from the spec: [VTK_DBL_EPSILON], a macro defined outside the
    translated sources; the machine epsilon of a double. *)
Definition VTK_DBL_EPSILON : float := 0x1p-52%float.

Section ImageDataMatcher.
(** [vtkMath::Dot], [vtkMath::SquaredNorm], [vtkMath::Dot<double, 4>] and
    [vtkMathUtilities::NearlyEqual], all declared outside the translated
    sources. *)
Variable Dot : VectorType -> VectorType -> float.
Variable SquaredNorm : VectorType -> float.
Variable Dot4 : QuaternionType -> QuaternionType -> float.
Variable NearlyEqual : float -> float -> bool.

(** [SynchronizeGridExtents] on two [ImageDataBlockStructure]: [None] for
    [false], otherwise the [shiftedExtent] it stores. *)
Definition SynchronizeGridExtents_ImageData
    (localBlockStructure blockStructure : ImageDataBlockStructure.t) : option ExtentType :=
  let localOrigin := ImageDataBlockStructure.Origin localBlockStructure in
  let localSpacing := ImageDataBlockStructure.Spacing localBlockStructure in
  let localQ := ImageDataBlockStructure.OrientationQuaternion localBlockStructure in
  let localDim :=
    GridBlockStructure.DataDimension (ImageDataBlockStructure.base localBlockStructure) in
  let extent := GridBlockStructure.Extent (ImageDataBlockStructure.base blockStructure) in
  let q := ImageDataBlockStructure.OrientationQuaternion blockStructure in
  let spacing := ImageDataBlockStructure.Spacing blockStructure in
  let dim := GridBlockStructure.DataDimension (ImageDataBlockStructure.base blockStructure) in
  if (extent.[0] >? extent.[1]) || (extent.[2] >? extent.[3]) || (extent.[4] >? extent.[5])
     || neqb dim localDim
     || negb (NearlyEqual (Dot spacing localSpacing) (SquaredNorm localSpacing))
     || negb (PrimFloat.ltb (PrimFloat.abs (Dot4 q localQ - 1)%float) VTK_DBL_EPSILON)
  then None
  else
    let origin := ImageDataBlockStructure.Origin blockStructure in
    let originDiff :=
      MkVec3 (to_int (lround ((v0 origin - v0 localOrigin) / v0 spacing)%float))
        (to_int (lround ((v1 origin - v1 localOrigin) / v1 spacing)%float))
        (to_int (lround ((v2 origin - v2 localOrigin) / v2 spacing)%float)) in
    Some (MkExtent (extent.[0] - v0 originDiff) (extent.[1] - v0 originDiff)
            (extent.[2] - v1 originDiff) (extent.[3] - v1 originDiff)
            (extent.[4] - v2 originDiff) (extent.[5] - v2 originDiff)).
End ImageDataMatcher.

(** Modelled from the spec: [vtkMath::Dot], [vtkMath::SquaredNorm],
    [vtkMath::Dot<double, 4>] and [vtkMathUtilities::NearlyEqual] are defined
    outside the translated sources. The dot products and the squared norm are
    the sums of the products of the components; two doubles are nearly equal
    when their difference, relative to either of them, is within the machine
    epsilon. *)
Definition vtkMath_Dot (a b : VectorType) : float :=
  (v0 a * v0 b + v1 a * v1 b + v2 a * v2 b)%float.

Definition vtkMath_SquaredNorm (v : VectorType) : float :=
  (v0 v * v0 v + v1 v * v1 v + v2 v * v2 v)%float.

Definition vtkMath_Dot4 (a b : QuaternionType) : float :=
  (q0 a * q0 b + q1 a * q1 b + q2 a * q2 b + q3 a * q3 b)%float.

Definition vtkMathUtilities_NearlyEqual (a b : float) : bool :=
  let absdiff := PrimFloat.abs (a - b)%float in
  PrimFloat.leb (absdiff / PrimFloat.abs a)%float VTK_DBL_EPSILON
  || PrimFloat.leb (absdiff / PrimFloat.abs b)%float VTK_DBL_EPSILON.

#[export] Instance ImageDataBlock : GridBlock ImageDataBlockStructure.t :=
  {| grid := ImageDataBlockStructure.base;
     with_grid := ImageDataBlockStructure.set_base;
     SynchronizeGridExtents :=
       SynchronizeGridExtents_ImageData vtkMath_Dot vtkMath_SquaredNorm vtkMath_Dot4
         vtkMathUtilities_NearlyEqual |}.

(** ** Rectilinear grids *)

(** [Comparator<IsIntegerT>], with the order of the value type. [value0]
    stands for what an array read outside its bounds returns, which the
    source leaves undefined. *)
Class Comparator (V : Type) : Type :=
  { less : V -> V -> bool;
    Equals : V -> V -> bool;
    value0 : V }.

(** [Comparator<true>]. *)
#[export] Instance Comparator_true : Comparator Z :=
  {| less := Z.ltb;
     Equals := fun localVal val => negb (nz (localVal - val));
     value0 := 0 |}.

(** [std::max] on doubles. *)
Definition fmax (a b : float) : float := if PrimFloat.ltb a b then b else a.

(** [Comparator<false>], at [double]: [epsilon()] is [2^-52] and [min()] is
    [2^-1022]. *)
#[export] Instance Comparator_false : Comparator float :=
  {| less := PrimFloat.ltb;
     Equals := fun val1 val2 =>
       PrimFloat.ltb (PrimFloat.abs (val1 - val2)%float)
         (fmax (0x1p-52 * fmax (PrimFloat.abs val1) (PrimFloat.abs val2))%float
            0x1p-1022%float);
     value0 := 0%float |}.

(** A loop that cannot take more than [turns] turns. *)
Fixpoint bounded_while {S : Type} (cond : S -> bool) (body : S -> S) (turns : nat) (s : S)
  : S :=
  match turns with
  | O => s
  | Datatypes.S turns' => if cond s then bounded_while cond body turns' (body s) else s
  end.

(** [RectilinearGridBlockStructure]: a [GridBlockStructure] with the three
    coordinate arrays of a rectilinear grid, here of one value type. *)
Module RectilinearGridBlockStructure.
Record t (V : Type) : Type := Make
  { base : GridBlockStructure.t;
    XCoordinates : list V;
    YCoordinates : list V;
    ZCoordinates : list V }.
Arguments Make {V} _ _ _ _.
Arguments base {V} _.
Arguments XCoordinates {V} _.
Arguments YCoordinates {V} _.
Arguments ZCoordinates {V} _.

Definition set_base {V} (g : GridBlockStructure.t) (b : t V) : t V :=
  Make g (XCoordinates b) (YCoordinates b) (ZCoordinates b).
End RectilinearGridBlockStructure.

(** The fields of [RectilinearGridFittingWorker] the fit writes. *)
Module RectilinearGridFittingWorker.
Record t : Type := Make
  { MinId : Z; MaxId : Z; LocalMinId : Z; LocalMaxId : Z; Overlaps : bool }.

(** The member initialisers. *)
Definition init : t := Make 0 (-1) 0 (-1) false.
End RectilinearGridFittingWorker.

Section RectilinearMatcher.
Context {V : Type} `{Comparator V}.
Import RectilinearGridFittingWorker.

Definition GetNumberOfTuples (array : list V) : Z := Z.of_nat (length array).

(** [array->GetValue(id)] on a coordinate array. *)
Definition GetCoordinate (array : list V) (id : Z) : V :=
  if id <? 0 then value0 else default value0 (array !! Z.to_nat id).

Definition greater (a b : V) : bool := less b a.

(** [SubArraysAreEqual]: its result and the worker after it. Each turn of
    its loop moves [lowerId] up, so it takes at most as many turns as
    [lowerArray] has entries. *)
Definition SubArraysAreEqual (w : t) (lowerArray upperArray : list V) (lowerId : Z)
  : bool * t :=
  let upperId := 0 in
  let '(lowerId, upperId) :=
    bounded_while
      (fun '(lowerId, upperId) =>
         (lowerId <? GetNumberOfTuples lowerArray)
         && (upperId <? GetNumberOfTuples upperArray)
         && Equals (GetCoordinate lowerArray lowerId) (GetCoordinate upperArray upperId))
      (fun '(lowerId, upperId) => (lowerId + 1, upperId + 1))
      (length lowerArray) (lowerId, upperId) in
  if lowerId =? GetNumberOfTuples lowerArray
  then (true, Make (MinId w) (lowerId - 1) (LocalMinId w) (upperId - 1) true)
  else (false, w).

(** [FitArrays]. Each turn of its loop moves [id] up, so it takes at most
    as many turns as [lowerMinArray] has entries. *)
Definition FitArrays (w : t) (lowerMaxArray upperMaxArray : list V) : t :=
  let lowerMinArray :=
    if greater (GetCoordinate lowerMaxArray 0) (GetCoordinate upperMaxArray 0)
    then upperMaxArray else lowerMaxArray in
  let upperMinArray :=
    if less (GetCoordinate lowerMaxArray 0) (GetCoordinate upperMaxArray 0)
    then upperMaxArray else lowerMaxArray in
  let id :=
    bounded_while
      (fun id =>
         (id <? GetNumberOfTuples lowerMinArray)
         && (less (GetCoordinate lowerMinArray id) (GetCoordinate upperMinArray 0)
             && negb (Equals (GetCoordinate lowerMinArray id)
                        (GetCoordinate upperMinArray 0))))
      (fun id => id + 1)
      (length lowerMinArray) 0 in
  let '(equal, w) := SubArraysAreEqual w lowerMinArray upperMinArray id in
  if equal then
    let w := Make id (MaxId w) 0 (LocalMaxId w) (Overlaps w) in
    if greater (GetCoordinate lowerMaxArray 0) (GetCoordinate upperMaxArray 0)
    then Make (MinId w) (LocalMaxId w) (LocalMinId w) (MaxId w) (Overlaps w)
    else w
  else w.

(** [RectilinearGridFittingWorker::operator()], on a worker built for the
    remote [array], called with the local array. Both arrays hold values of
    one type here; the source dispatches on the type of the local array and
    down-casts the remote one to it. *)
Definition fit (array localArray : list V) : t :=
  if greater (GetCoordinate localArray (GetNumberOfTuples localArray - 1))
       (GetCoordinate array (GetNumberOfTuples array - 1))
  then FitArrays init array localArray
  else
    let w := FitArrays init localArray array in
    Make (LocalMinId w) (LocalMaxId w) (MinId w) (MaxId w) (Overlaps w).

(** [SynchronizeGridExtents] on two [RectilinearGridBlockStructure]:
    [None] for [false], otherwise the [shiftedExtent] it stores. *)
Definition SynchronizeGridExtents_RectilinearGrid
    (localBlockStructure blockStructure : RectilinearGridBlockStructure.t V)
  : option ExtentType :=
  let extent :=
    GridBlockStructure.Extent (RectilinearGridBlockStructure.base blockStructure) in
  if neqb
       (GridBlockStructure.DataDimension
          (RectilinearGridBlockStructure.base localBlockStructure))
       (GridBlockStructure.DataDimension (RectilinearGridBlockStructure.base blockStructure))
     || (extent.[0] >? extent.[1]) || (extent.[2] >? extent.[3]) || (extent.[4] >? extent.[5])
  then None
  else
    let localExtent :=
      GridBlockStructure.Extent (RectilinearGridBlockStructure.base localBlockStructure) in
    let xWorker := fit (RectilinearGridBlockStructure.XCoordinates blockStructure)
                     (RectilinearGridBlockStructure.XCoordinates localBlockStructure) in
    let yWorker := fit (RectilinearGridBlockStructure.YCoordinates blockStructure)
                     (RectilinearGridBlockStructure.YCoordinates localBlockStructure) in
    let zWorker := fit (RectilinearGridBlockStructure.ZCoordinates blockStructure)
                     (RectilinearGridBlockStructure.ZCoordinates localBlockStructure) in
    if (negb (Overlaps xWorker) || negb (Overlaps yWorker) || negb (Overlaps zWorker))
       && (neqb (MinId xWorker) (MaxId xWorker) || neqb (MinId yWorker) (MaxId yWorker)
           || neqb (MinId zWorker) (MaxId zWorker))
    then None
    else
      let originDiff :=
        MkVec3 (extent.[0] + MinId xWorker - localExtent.[0] - LocalMinId xWorker)
          (extent.[2] + MinId yWorker - localExtent.[2] - LocalMinId yWorker)
          (extent.[4] + MinId zWorker - localExtent.[4] - LocalMinId zWorker) in
      Some (MkExtent (extent.[0] - v0 originDiff) (extent.[1] - v0 originDiff)
              (extent.[2] - v1 originDiff) (extent.[3] - v1 originDiff)
              (extent.[4] - v2 originDiff) (extent.[5] - v2 originDiff)).
End RectilinearMatcher.

#[export] Instance RectilinearGridBlock {V : Type} `{Comparator V}
  : GridBlock (RectilinearGridBlockStructure.t V) :=
  {| grid := RectilinearGridBlockStructure.base;
     with_grid := RectilinearGridBlockStructure.set_base;
     SynchronizeGridExtents := SynchronizeGridExtents_RectilinearGrid |}.

(** ** Descriptor exchange *)

(** What one [enqueue] call puts on the wire: a run of [int], a run of
    [double], or a coordinate array. The transport is a black box: what a
    block enqueues for a target in round 0 is what that target dequeues from
    it in round 1. *)
Inductive Buffer (V : Type) : Type :=
  | IntBuffer (values : list Z)
  | DoubleBuffer (values : list float)
  | ArrayBuffer (array : list V).
Arguments IntBuffer {V} _.
Arguments DoubleBuffer {V} _.
Arguments ArrayBuffer {V} _.

Definition extent_values (e : ExtentType) : list Z :=
  [e.[0]; e.[1]; e.[2]; e.[3]; e.[4]; e.[5]].

(** [srp.dequeue(blockId, ...)]: the first buffer queued from [gid], and the
    queue without it. *)
Fixpoint dequeue {V : Type} (queue : list (Z * Buffer V)) (gid : Z)
  : option (Buffer V * list (Z * Buffer V)) :=
  match queue with
  | [] => None
  | (g, b) :: queue' =>
      if g =? gid then Some (b, queue')
      else match dequeue queue' gid with
           | Some (b', rest) => Some (b', (g, b) :: rest)
           | None => None
           end
  end.

(** [blockStructures.emplace(gid, s)] on a [std::map]: the entry is added
    at its place in the order of the keys unless the key is there already. *)
Fixpoint emplace {A : Type} (m : list (Z * A)) (gid : Z) (s : A) : list (Z * A) :=
  match m with
  | [] => [(gid, s)]
  | (g, a) :: m' =>
      if gid <? g then (gid, s) :: (g, a) :: m'
      else if gid =? g then (g, a) :: m'
      else (g, a) :: emplace m' gid s
  end.

Section ExchangeImageData.
Context {V : Type}.

(** Round 0 of the lambda of [ExchangeBlockStructures] on [vtkImageData]:
    the buffers block [myBlockId] enqueues, each with its target, in
    order. [extent] is the block's [Information.Extent]; [q] is the
    quaternion of the input's direction matrix. *)
Definition enqueue_ImageData (myBlockId : Z) (out_link : list Z) (dimension : Z)
    (origin spacing : VectorType) (q : QuaternionType) (extent : ExtentType)
  : list (Z * Buffer V) :=
  fold_left
    (fun queue gid =>
       if neqb gid myBlockId then
         queue ++ [(gid, IntBuffer [dimension]);
                   (gid, DoubleBuffer [v0 origin; v1 origin; v2 origin]);
                   (gid, DoubleBuffer [v0 spacing; v1 spacing; v2 spacing]);
                   (gid, DoubleBuffer [q0 q; q1 q; q2 q; q3 q]);
                   (gid, IntBuffer (extent_values extent))]
       else queue)
    out_link [].

(** The constructor
    [ImageDataBlockStructure(extent, dim, origin, spacing, q)]. It leaves
    [ExtentWithNewGhosts] and [AdjacencyMask] unset; the model puts zeros
    there. *)
Definition ImageDataBlockStructure_new (extent : ExtentType) (dim : Z)
    (origin spacing : VectorType) (q : QuaternionType) : ImageDataBlockStructure.t :=
  ImageDataBlockStructure.Make (GridBlockStructure.Make extent dim zero_extent 0)
    origin spacing q.

(** The five [dequeue] calls for one source, and the descriptor built from
    them; [None] when the queue does not hold what the calls expect. *)
Definition dequeue_descriptor_ImageData (queue : list (Z * Buffer V)) (gid : Z)
  : option (ImageDataBlockStructure.t * list (Z * Buffer V)) :=
  match dequeue queue gid with
  | Some (IntBuffer [dimension], queue) =>
    match dequeue queue gid with
    | Some (DoubleBuffer [o0; o1; o2], queue) =>
      match dequeue queue gid with
      | Some (DoubleBuffer [s0; s1; s2], queue) =>
        match dequeue queue gid with
        | Some (DoubleBuffer [qw; qx; qy; qz], queue) =>
          match dequeue queue gid with
          | Some (IntBuffer [e0; e1; e2; e3; e4; e5], queue) =>
              Some (ImageDataBlockStructure_new (MkExtent e0 e1 e2 e3 e4 e5) dimension
                      (MkVec3 o0 o1 o2) (MkVec3 s0 s1 s2) (MkVec4 qw qx qy qz),
                    queue)
          | _ => None
          end
        | _ => None
        end
      | _ => None
      end
    | _ => None
    end
  | _ => None
  end.

(** Round 1 of the same lambda: the block's [BlockStructures] after it has
    dequeued the descriptor of every other block of its in-link. *)
Definition dequeue_ImageData (myBlockId : Z) (in_link : list Z)
    (queue : list (Z * Buffer V))
    (blockStructures : list (Z * ImageDataBlockStructure.t))
  : option (list (Z * ImageDataBlockStructure.t)) :=
  fold_left
    (fun state gid =>
       match state with
       | None => None
       | Some (queue, blockStructures) =>
           if neqb gid myBlockId then
             match dequeue_descriptor_ImageData queue gid with
             | Some (s, queue) => Some (queue, emplace blockStructures gid s)
             | None => None
             end
           else Some (queue, blockStructures)
       end)
    in_link (Some (queue, blockStructures))
  ≫= fun '(_, blockStructures) => Some blockStructures.

(** Round 0 of the lambda of [ExchangeBlockStructures] on
    [vtkRectilinearGrid]. [extent] and the three arrays are those of the
    block's [Information]. *)
Definition enqueue_RectilinearGrid (myBlockId : Z) (out_link : list Z) (dimension : Z)
    (extent : ExtentType) (xCoordinates yCoordinates zCoordinates : list V)
  : list (Z * Buffer V) :=
  fold_left
    (fun queue gid =>
       if neqb gid myBlockId then
         queue ++ [(gid, IntBuffer [dimension]);
                   (gid, IntBuffer (extent_values extent));
                   (gid, ArrayBuffer xCoordinates);
                   (gid, ArrayBuffer yCoordinates);
                   (gid, ArrayBuffer zCoordinates)]
       else queue)
    out_link [].
End ExchangeImageData.


(** ** Example data *)

(** The descriptor of a uniform block with unit spacing at the origin and
    the identity orientation. *)
Definition unit_image (extent : ExtentType) (dim : Z) : ImageDataBlockStructure.t :=
  ImageDataBlockStructure_new extent dim (MkVec3 0 0 0)%float (MkVec3 1 1 1)%float
    (MkVec4 1 0 0 0)%float.

(** A two-dimensional block [[0,4]x[0,4]] whose right face is shared by two
    neighbours: block 1, one cell wide, along the lower half, and block 2,
    five cells wide, along the upper half. *)
Definition two_on_a_face : Block ImageDataBlockStructure.t :=
  MkBlock (GridInformation.Make (MkExtent 0 4 0 4 0 0) zero_extent)
    [(1, unit_image (MkExtent 4 5 0 2 0 0) 2); (2, unit_image (MkExtent 4 9 2 4 0 0) 2)]
    [] [].

(** Two uniform blocks that differ only in their extents, the second of
    which has [min > max] on the first axis. *)
Definition cube_image : ImageDataBlockStructure.t := unit_image (MkExtent 0 4 0 4 0 4) 3.

Definition inverted_image : ImageDataBlockStructure.t := unit_image (MkExtent 5 4 0 4 0 4) 3.

(** The descriptor of a rectilinear block with integer coordinates. *)
Definition rectilinear (extent : ExtentType) (dim : Z) (x y z : list Z)
  : RectilinearGridBlockStructure.t Z :=
  RectilinearGridBlockStructure.Make (GridBlockStructure.Make extent dim zero_extent 0) x y z.

(** Two two-dimensional rectilinear blocks side by side: the x coordinates
    [0,1,2] of the first end where the x coordinates [2,3,4] of the second
    begin, and both have the y coordinates [0,1,2,3]. *)
Definition rectilinear_left : RectilinearGridBlockStructure.t Z :=
  rectilinear (MkExtent 0 2 0 3 0 0) 2 [0; 1; 2] [0; 1; 2; 3] [0].

Definition rectilinear_right : RectilinearGridBlockStructure.t Z :=
  rectilinear (MkExtent 0 2 0 3 0 0) 2 [2; 3; 4] [0; 1; 2; 3] [0].

(** The first of them again, declared three-dimensional. *)
Definition rectilinear_left_3d : RectilinearGridBlockStructure.t Z :=
  rectilinear (MkExtent 0 2 0 3 0 0) 3 [0; 1; 2] [0; 1; 2; 3] [0].

(** What block 0 finds in its queue when block 1, a uniform block of extent
    [[0,4]^3], has enqueued its descriptor for it. *)
Definition queue_from_block_1 : list (Z * Buffer Z) :=
  map (fun '(_, buffer) => (1, buffer))
    (enqueue_ImageData 1 [0; 1] 3 (MkVec3 0 0 0)%float (MkVec3 1 1 1)%float
       (MkVec4 1 0 0 0)%float (MkExtent 0 4 0 4 0 4)).

(** A block whose extent has [min > max] on the first axis, with the
    descriptor of one other block. *)
Definition inverted_block : Block ImageDataBlockStructure.t :=
  MkBlock (GridInformation.Make (MkExtent 1 0 0 0 0 0) zero_extent)
    [(1, cube_image)] [] [].

(** ** The two loops of the peeler as one *)

(** The loops of [PeelOffGhostLayers] differ in the direction the cursor
    moves ([fwd], undone by [back]) and in the test that leaves it room to
    move ([room bound c]). *)
Section PeelLoop.
Variable ghost : Vec3 Z -> bool.
Variables (fwd back : Z -> Z) (room : Z -> Z -> bool).

Definition peel_cond (bound : Vec3 Z) (s : Vec3 Z * Vec3 bool) : bool :=
  let '(ijk, lock) := s in
  (negb (v0 lock) || negb (v1 lock) || negb (v2 lock))
  && (v0 lock || room (v0 bound) (v0 ijk))
  && (v1 lock || room (v1 bound) (v1 ijk))
  && (v2 lock || room (v2 bound) (v2 ijk))
  && negb (ghost ijk).

Definition peel_step (s : Vec3 Z * Vec3 bool) (dim : Axis) : Vec3 Z * Vec3 bool :=
  let '(ijk, lock) := s in
  if negb (vget lock dim) then
    let ijk := vset ijk dim (fwd (vget ijk dim)) in
    if ghost ijk
    then (vset ijk dim (back (vget ijk dim)), vset lock dim true)
    else (ijk, lock)
  else (ijk, lock).

Definition peel_body (s : Vec3 Z * Vec3 bool) : Vec3 Z * Vec3 bool :=
  fold_left peel_step [AxisX; AxisY; AxisZ] s.
End PeelLoop.

(** The number of cells of an extent along an axis, one on a degenerate
    axis, and the cells of a grid of that extent. *)
Definition cells_along (extent : ExtentType) (a : Axis) : Z :=
  Z.max (axis_max extent a) (axis_min extent a + 1) - axis_min extent a.

Definition in_cell_box (extent : ExtentType) (ijk : Vec3 Z) : Prop :=
  forall a : Axis,
    axis_min extent a <= vget ijk a < axis_min extent a + cells_along extent a.

(** The cells in the outer layers of a grid: within [lo] cells of the lower
    bound or within [hi] cells of the upper bound on some axis. *)
Definition in_layers (extent : ExtentType) (lo hi : Vec3 Z) (ijk : Vec3 Z) : bool :=
  let layer a :=
    (vget ijk a <? axis_min extent a + vget lo a)
    || (axis_min extent a + cells_along extent a - vget hi a <=? vget ijk a) in
  layer AxisX || layer AxisY || layer AxisZ.

(** The cells of a sub-extent of a grid of extent [extent]: on an axis where
    the grid is degenerate it has the grid's single layer of cells. *)
Definition in_sub_extent (extent sub : ExtentType) (ijk : Vec3 Z) : Prop :=
  forall a : Axis,
    if decide (axis_min extent a = axis_max extent a)
    then vget ijk a = axis_min extent a
    else axis_min sub a <= vget ijk a < axis_max sub a.

(** What bounds the number of turns of a loop of the peeler whose cursor
    moves in direction [dir] (1 or -1) towards [bound]: the way left to each
    unlocked axis, and one more for locking it. *)
Definition axis_measure (dir : Z) (bound : Vec3 Z) (a : Axis) (c : Z) (l : bool) : nat :=
  if l then 0%nat else S (Z.to_nat (dir * (vget bound a - c))).

Definition peel_measure (dir : Z) (bound : Vec3 Z) (s : Vec3 Z * Vec3 bool) : nat :=
  (axis_measure dir bound AxisX (v0 (fst s)) (v0 (snd s))
   + axis_measure dir bound AxisY (v1 (fst s)) (v1 (snd s))
   + axis_measure dir bound AxisZ (v2 (fst s)) (v2 (snd s)))%nat.

(** The cursor [c] of an axis lies between its start and its bound, and has
    not moved if the axis was locked from the start. *)
Definition within (dir : Z) (bound start : Vec3 Z) (lock0 : Vec3 bool)
    (a : Axis) (c : Z) (l : bool) : Prop :=
  0 <= dir * (vget bound a - c) <= dir * (vget bound a - vget start a)
  /\ (vget lock0 a = true -> c = vget start a /\ l = true).

(** The cursor [c] of an axis lies between its start and its target. *)
Definition safe (dir : Z) (start target : Vec3 Z) (a : Axis) (c : Z) : Prop :=
  0 <= dir * (c - vget start a) <= dir * (vget target a - vget start a).

(** After [t] turns, an axis is locked at its target, or it has moved [t]
    steps from its start and has not passed its target. *)
Definition on_course (dir : Z) (start target : Vec3 Z) (lock0 : Vec3 bool) (t : Z)
    (a : Axis) (c : Z) (l : bool) : Prop :=
  (l = true /\ c = vget target a)
  \/ (l = false /\ vget lock0 a = false /\ c = vget start a + dir * t
      /\ 0 <= dir * (vget target a - c)).

(** The ghost layers [lo] and [hi] fit a grid and a ghost level: none on a
    degenerate axis; elsewhere each is at most [ghostLevel] thick, and
    [ghostLevel] cells from either bound lead into no layer of the opposite
    side. *)
Definition layers_fit (extent : ExtentType) (ghostLevel : Z) (lo hi : Vec3 Z) : Prop :=
  forall a : Axis,
    if decide (axis_min extent a = axis_max extent a)
    then vget lo a = 0 /\ vget hi a = 0
    else 0 <= vget lo a <= ghostLevel /\ 0 <= vget hi a <= ghostLevel
         /\ ghostLevel + vget lo a < cells_along extent a
         /\ ghostLevel + vget hi a < cells_along extent a.

(** The marked cells of a grid are exactly those of the layers [lo] and
    [hi]. *)
Definition marks_layers (ComputeCellIdForExtent : ExtentType -> Vec3 Z -> Z)
    (extent : ExtentType) (ghosts : list Z) (lo hi : Vec3 Z) : Prop :=
  forall ijk : Vec3 Z,
    in_cell_box extent ijk ->
    is_ghost ComputeCellIdForExtent extent ghosts ijk = in_layers extent lo hi ijk.

(** [sub] is a sub-extent of [extent] with cells: non-empty on every axis
    where [extent] is not degenerate. *)
Definition sub_extent_with_cells (extent sub : ExtentType) : Prop :=
  forall a : Axis,
    axis_min extent a <= axis_min sub a /\ axis_max sub a <= axis_max extent a
    /\ axis_min sub a <= axis_max sub a
    /\ (axis_min extent a <> axis_max extent a -> axis_min sub a < axis_max sub a).

(** A one-dimensional grid of six cells whose first and last cells are
    ghosts. *)
Definition line_grid : Grid := MkGrid (MkExtent 0 6 0 0 0 0) (Some [1; 0; 0; 0; 0; 1]).

(** ** Masks and links, by face and by axis *)

Definition all_faces : list Adjacency := [Left; Right; Front; Back; Bottom; Top].

(** The faces whose bit is set in an adjacency mask, in the order of their
    slots. *)
Definition faces_of_mask (adjacencyMask : Z) : list Adjacency :=
  List.filter (fun f => Z.testbit adjacencyMask (face_index f)) all_faces.

(** On axis [a] the masks have an adjacency bit or the overlap bit. *)
Definition axis_in_contact (adjacencyMask overlapMask : Z) (a : Axis) : bool :=
  Z.testbit adjacencyMask (face_index (lower_face a))
  || Z.testbit adjacencyMask (face_index (upper_face a))
  || Z.testbit overlapMask (axis_index a).

(** On every axis the masks have at most one of the two adjacency bits and
    the overlap bit. *)
Definition at_most_one (a b c : bool) : bool :=
  negb (a && b) && negb (a && c) && negb (b && c).

Definition masks_exclusive (adjacencyMask overlapMask : Z) : bool :=
  forallb (fun a =>
             at_most_one (Z.testbit adjacencyMask (face_index (lower_face a)))
               (Z.testbit adjacencyMask (face_index (upper_face a)))
               (Z.testbit overlapMask (axis_index a)))
    [AxisX; AxisY; AxisZ].

(** Whether [LinkGrid] logs an error when it erases a neighbour: the
    [default] label of the [switch] its masks lead to. *)
Definition link_logs_error (adjacencyMask overlapMask dim : Z) : bool :=
  if faces_overlap adjacencyMask overlapMask dim then negb (dim =? 1)
  else if edges_overlap adjacencyMask overlapMask dim then negb (dim =? 2)
  else negb (dim =? 3).

(** In three dimensions a neighbour is in contact with the block when the
    masks have a bit on every axis, one of them an adjacency bit. *)
Definition in_contact_3d (adjacencyMask overlapMask : Z) : bool :=
  axis_in_contact adjacencyMask overlapMask AxisX
  && axis_in_contact adjacencyMask overlapMask AxisY
  && axis_in_contact adjacencyMask overlapMask AxisZ
  && nz adjacencyMask.

(** The direction in which a slot of an extent moves outwards. *)
Definition outwards (f : Adjacency) : Z :=
  match f with
  | Left | Front | Bottom => -1
  | Right | Back | Top => 1
  end.

(** ** The loop over the neighbours, neighbour by neighbour *)

(** The neighbour's descriptor after the [AddGhostLayerToGrid] calls of a
    link on [faces]; they read nothing of the block's information. *)
Definition widened (outputGhostLevels : Z) (faces : list Adjacency)
    (blockStructure : GridBlockStructure.t) : GridBlockStructure.t :=
  fst (add_layers outputGhostLevels faces blockStructure
         (GridInformation.Make zero_extent zero_extent)).

Section LinkSummary.
Context {BS : Type} `{GridBlock BS}.
Variables (localBlockStructure : BS) (localExtent : ExtentType).
Variables (outputGhostLevels dim : Z).

(** The entry one turn of the loop leaves in [BlockStructures] for a
    neighbour, [None] when it erases the neighbour. *)
Definition linked_neighbor (entry : Z * BS) : option (Z * BS) :=
  let '(gid, blockStructure) := entry in
  match SynchronizeGridExtents localBlockStructure blockStructure with
  | None => None
  | Some shiftedExtent =>
      let '(adjacencyMask, overlapMask) :=
        ComputeAdjacencyAndOverlapMasks localExtent shiftedExtent in
      let g := GridBlockStructure.set_AdjacencyMask adjacencyMask (grid blockStructure) in
      let g := GridBlockStructure.set_ExtentWithNewGhosts (GridBlockStructure.Extent g) g in
      match linked_faces adjacencyMask overlapMask dim with
      | None => None
      | Some faces => Some (gid, with_grid (widened outputGhostLevels faces g) blockStructure)
      end
  end.

(** Whether one turn of the loop logs an error for a neighbour. *)
Definition neighbor_logs (entry : Z * BS) : bool :=
  match SynchronizeGridExtents localBlockStructure (snd entry) with
  | None => false
  | Some shiftedExtent =>
      let '(adjacencyMask, overlapMask) :=
        ComputeAdjacencyAndOverlapMasks localExtent shiftedExtent in
      match linked_faces adjacencyMask overlapMask dim with
      | None => link_logs_error adjacencyMask overlapMask dim
      | Some _ => false
      end
  end.
End LinkSummary.

(** ** The places the hidden markers are written at *)

(** The points of an extent. *)
Definition in_point_box (extent : ExtentType) (ijk : Vec3 Z) : Prop :=
  forall a : Axis, axis_min extent a <= vget ijk a <= axis_max extent a.

Section HiddenIds.
Variable ComputeCellIdForExtent : ExtentType -> Vec3 Z -> Z.
Variable ComputePointIdForExtent : ExtentType -> Vec3 Z -> Z.

(** The ids the [FillGridCellArray] calls of [fill_hidden_ghosts] write at,
    call after call. *)
Definition hidden_cell_ids (localExtent localExtentWithNoGhosts : ExtentType) : list Z :=
  let cell i j k := ComputeCellIdForExtent localExtent (MkVec3 i j k) in
  let d0 := [? localExtent.[0] =? localExtent.[1]] in
  let d1 := [? localExtent.[2] =? localExtent.[3]] in
  let d2 := [? localExtent.[4] =? localExtent.[5]] in
  (if negb (nz d0) then
     row_major cell localExtent.[0] localExtentWithNoGhosts.[0]
       localExtent.[2] (localExtent.[3] + d1) localExtent.[4] (localExtent.[5] + d2)
     ++ row_major cell localExtentWithNoGhosts.[1] localExtent.[1]
          localExtent.[2] (localExtent.[3] + d1) localExtent.[4] (localExtent.[5] + d2)
   else [])
  ++ (if negb (nz d1) then
        row_major cell localExtent.[0] (localExtent.[1] + d0)
          localExtent.[2] localExtentWithNoGhosts.[2] localExtent.[4] (localExtent.[5] + d2)
        ++ row_major cell localExtent.[0] (localExtent.[1] + d0)
             localExtentWithNoGhosts.[3] localExtent.[3] localExtent.[4] (localExtent.[5] + d2)
      else [])
  ++ (if negb (nz d2) then
        row_major cell localExtent.[0] (localExtent.[1] + d0)
          localExtent.[2] (localExtent.[3] + d1) localExtent.[4] localExtentWithNoGhosts.[4]
        ++ row_major cell localExtent.[0] (localExtent.[1] + d0)
             localExtent.[2] (localExtent.[3] + d1) localExtentWithNoGhosts.[5] localExtent.[5]
      else []).

(** The ids the [FillGridPointArray] calls of [fill_hidden_ghosts] write at,
    call after call. *)
Definition hidden_point_ids (localExtent localExtentWithNoGhosts : ExtentType) : list Z :=
  let point i j k := ComputePointIdForExtent localExtent (MkVec3 i j k) in
  let d0 := [? localExtent.[0] =? localExtent.[1]] in
  let d1 := [? localExtent.[2] =? localExtent.[3]] in
  let d2 := [? localExtent.[4] =? localExtent.[5]] in
  (if negb (nz d0) then
     row_major point localExtent.[0] (localExtentWithNoGhosts.[0] - 1 + 1)
       localExtent.[2] (localExtent.[3] + 1) localExtent.[4] (localExtent.[5] + 1)
     ++ row_major point (localExtentWithNoGhosts.[1] + 1) (localExtent.[1] + 1)
          localExtent.[2] (localExtent.[3] + 1) localExtent.[4] (localExtent.[5] + 1)
   else [])
  ++ (if negb (nz d1) then
        row_major point localExtent.[0] (localExtent.[1] + 1)
          localExtent.[2] (localExtentWithNoGhosts.[2] - 1 + 1)
          localExtent.[4] (localExtent.[5] + 1)
        ++ row_major point localExtent.[0] (localExtent.[1] + 1)
             (localExtentWithNoGhosts.[3] + 1) (localExtent.[3] + 1)
             localExtent.[4] (localExtent.[5] + 1)
      else [])
  ++ (if negb (nz d2) then
        row_major point localExtent.[0] (localExtent.[1] + 1)
          localExtent.[2] (localExtent.[3] + 1)
          localExtent.[4] (localExtentWithNoGhosts.[4] - 1 + 1)
        ++ row_major point localExtent.[0] (localExtent.[1] + 1)
             localExtent.[2] (localExtent.[3] + 1)
             (localExtentWithNoGhosts.[5] + 1) (localExtent.[5] + 1)
      else []).
End HiddenIds.

(** ** What a queue holds from one block *)

(** The buffers of a queue that come from block [gid], in the order they
    were queued. *)
Definition buffers_from {V : Type} (queue : list (Z * Buffer V)) (gid : Z) : list (Buffer V) :=
  omap (fun '(g, b) => if g =? gid then Some b else None) queue.

(** What block 0 finds in its queue when blocks 1 and 2 have each enqueued
    their descriptor for it, the buffers of the two interleaved. *)
Definition queue_from_blocks_1_2 : list (Z * Buffer Z) :=
  [(2, IntBuffer [3]); (1, IntBuffer [3]);
   (1, DoubleBuffer [0; 0; 0]%float); (2, DoubleBuffer [4; 0; 0]%float);
   (2, DoubleBuffer [1; 1; 1]%float); (1, DoubleBuffer [1; 1; 1]%float);
   (1, DoubleBuffer [1; 0; 0; 0]%float); (1, IntBuffer [0; 4; 0; 4; 0; 4]);
   (2, DoubleBuffer [1; 0; 0; 0]%float); (2, IntBuffer [0; 2; 0; 4; 0; 4])].

(** Two three-dimensional rectilinear blocks side by side along x: the x
    coordinates [0,1,2] of the first end with the value the x coordinates
    [2,3,4,5] of the second begin with, and both have the same y and z
    coordinates. The second is given in its own frame, with an extent that
    starts at 10. *)
Definition rectilinear_west : RectilinearGridBlockStructure.t Z :=
  rectilinear (MkExtent 0 2 0 3 0 1) 3 [0; 1; 2] [0; 1; 2; 3] [0; 5].

Definition rectilinear_east : RectilinearGridBlockStructure.t Z :=
  rectilinear (MkExtent 10 13 0 3 0 1) 3 [2; 3; 4; 5] [0; 1; 2; 3] [0; 5].

(** ** Interface cell ids *)

Section InterfaceCellIds.
(** [vtkStructuredData::ComputeCellIdForExtent], declared outside the
    translated sources. *)
Variable ComputeCellIdForExtent : ExtentType -> Vec3 Z -> Z.

(** The bounds [imin, imax, jmin, jmax, kmin, kmax] of the loops of
    [ComputeGridInterfaceCellIds]. *)
Definition interface_cell_bounds (localExtent extent : ExtentType) : ExtentType :=
  let imin := Z.max extent.[0] localExtent.[0] in
  let imax := Z.min extent.[1] localExtent.[1] + [? localExtent.[0] =? localExtent.[1]] in
  let jmin := Z.max extent.[2] localExtent.[2] in
  let jmax := Z.min extent.[3] localExtent.[3] + [? localExtent.[2] =? localExtent.[3]] in
  let kmin := Z.max extent.[4] localExtent.[4] in
  let kmax := Z.min extent.[5] localExtent.[5] + [? localExtent.[4] =? localExtent.[5]] in
  MkExtent imin imax jmin jmax kmin kmax.

(** [ComputeGridInterfaceCellIds]; [gridExtent] is [grid->GetExtent()]. *)
Definition ComputeGridInterfaceCellIds (localExtent extent gridExtent : ExtentType) : IdList :=
  let b := interface_cell_bounds localExtent extent in
  let '(imin, imax, jmin, jmax, kmin, kmax) :=
    (b.[0], b.[1], b.[2], b.[3], b.[4], b.[5]) in
  MkIdList
    ((imax - imin) * (jmax - jmin) * (kmax - kmin))
    (for_loop kmin kmax (fun k =>
       for_loop jmin jmax (fun j =>
         for_loop imin imax (fun i ids =>
           ids ++ [ComputeCellIdForExtent gridExtent (MkVec3 i j k)]))) []).

Context {BS : Type} `{GridBlock BS}.

(** [ComputeInputGridInterfaceCellIds]. *)
Definition ComputeInputGridInterfaceCellIds (block : Block BS) (gid : Z)
    (gridExtent : ExtentType) : option IdList :=
  match map_at (BlockStructures block) gid with
  | None => None
  | Some blockStructure =>
      let extent := GridBlockStructure.ExtentWithNewGhosts (grid blockStructure) in
      let localExtent := GridInformation.Extent (Information block) in
      Some (ComputeGridInterfaceCellIds localExtent extent gridExtent)
  end.

(** [ComputeOutputGridInterfaceCellIds]. *)
Definition ComputeOutputGridInterfaceCellIds (block : Block BS) (gid : Z)
    (gridExtent : ExtentType) : option IdList :=
  match map_at (BlockStructures block) gid with
  | None => None
  | Some blockStructure =>
      let extent := GridBlockStructure.Extent (grid blockStructure) in
      let localExtent := gridExtent in
      Some (ComputeGridInterfaceCellIds localExtent extent gridExtent)
  end.
End InterfaceCellIds.

(** ** Copies of tuples *)

(** [clone->SetTuple(dstId, srcId, source)] on one array of an attribute
    set, and [outputPoints->SetPoint(dstId, inputPoints->GetPoint(srcId))]:
    tuple [srcId] of [source] is written at place [dstId]. Reading or writing
    outside an array is undefined in the source; the model leaves the array
    as it is. *)
Definition SetTuple {T : Type} (array : list T) (dstId srcId : Z) (source : list T) : list T :=
  if (dstId <? 0) || (srcId <? 0) then array
  else match source !! Z.to_nat srcId with
       | Some tuple => <[Z.to_nat dstId := tuple]> array
       | None => array
       end.

(** A run of [SetTuple] calls from one source. *)
Definition copy_many {T : Type} (pairs : list (Z * Z)) (source array : list T) : list T :=
  fold_left (fun array '(dstId, srcId) => SetTuple array dstId srcId source) pairs array.

Section Clone.
(** [vtkStructuredData::ComputeCellIdForExtent] and
    [ComputePointIdForExtent], declared outside the translated sources. *)
Variable ComputeCellIdForExtent : ExtentType -> Vec3 Z -> Z.
Variable ComputePointIdForExtent : ExtentType -> Vec3 Z -> Z.
Context {T F : Type}.

(** What [CloneGrid] reads of a grid and writes of its clone: the extent,
    one array of the cell data, one array of the point data (every array of
    an attribute set is treated alike), and the field data. *)
Record GridData : Type := MkGridData
  { DataExtent : ExtentType;
    CellData : list T;
    PointData : list T;
    FieldData : F }.

(** [CloneGrid]. The arrays of [clone] are those [CopyStructure] and
    [SetNumberOfTuples] leave: of the clone's number of cells and points,
    with contents the source does not fix. *)
Definition CloneGrid (grid clone : GridData) : GridData :=
  let cloneExtent := DataExtent clone in
  let gridExtent := DataExtent grid in
  let imin := gridExtent.[0] in
  let imax := Z.max gridExtent.[1] (gridExtent.[0] + 1) in
  let jmin := gridExtent.[2] in
  let jmax := Z.max gridExtent.[3] (gridExtent.[2] + 1) in
  let kmin := gridExtent.[4] in
  let kmax := Z.max gridExtent.[5] (gridExtent.[4] + 1) in
  let cloneCellData :=
    for_loop kmin kmax (fun k =>
      for_loop jmin jmax (fun j =>
        for_loop imin imax (fun i cloneCellData =>
          SetTuple cloneCellData (ComputeCellIdForExtent cloneExtent (MkVec3 i j k))
            (ComputeCellIdForExtent gridExtent (MkVec3 i j k)) (CellData grid))))
      (CellData clone) in
  let imax := gridExtent.[1] in
  let jmax := gridExtent.[3] in
  let kmax := gridExtent.[5] in
  let clonePointData :=
    for_loop kmin (kmax + 1) (fun k =>
      for_loop jmin (jmax + 1) (fun j =>
        for_loop imin (imax + 1) (fun i clonePointData =>
          SetTuple clonePointData (ComputePointIdForExtent cloneExtent (MkVec3 i j k))
            (ComputePointIdForExtent gridExtent (MkVec3 i j k)) (PointData grid))))
      (PointData clone) in
  MkGridData cloneExtent cloneCellData clonePointData (FieldData grid).
End Clone.

Arguments GridData : clear implicits.
Arguments MkGridData {T F} _ _ _ _.

(** A line of two cells with data, and a clone of four cells around it. *)
Definition short_line : GridData Z unit :=
  MkGridData (MkExtent 1 3 0 0 0 0) [10; 11] [20; 21; 22] tt.

Definition long_line : GridData Z unit :=
  MkGridData (MkExtent 0 4 0 0 0 0) [0; 0; 0; 0] [0; 0; 0; 0; 0] tt.

(** ** The outer faces of a structured grid *)

(** [ijk[n] = x] on an [int ijk[3]]; outside [0..2] the model leaves the
    cursor as it is. *)
Definition vset_at (ijk : Vec3 Z) (n x : Z) : Vec3 Z :=
  match n with
  | 0 => MkVec3 x (v1 ijk) (v2 ijk)
  | 1 => MkVec3 (v0 ijk) x (v2 ijk)
  | 2 => MkVec3 (v0 ijk) (v1 ijk) x
  | _ => ijk
  end.

(** The slots [j] and [k] of an extent that [CopyOuterLayerGridPoints],
    [GridsFit] and [SweepGrids] sweep for the face of slot [i]. *)
Definition face_sweep_slots (i : Z) : Z * Z :=
  let j := Z.rem (i + 2) 6 in
  let j := j - Z.rem j 2 in
  let k := Z.rem (i + 4) 6 in
  let k := k - Z.rem k 2 in
  (j, k).

(** The constructor of [StructuredGridFittingWorker]: the extent it stores
    for face [i] of the neighbour, [this->Extent[i]]; [uninitialized] stands
    for what the member holds before. *)
Definition StructuredGridFittingWorker_Extent (uninitialized extent : ExtentType) (i : Z)
  : ExtentType :=
  let e := ext_set uninitialized i extent.[i] in
  let e := ext_set e (if nz (Z.rem i 2) then i - 1 else i + 1) extent.[i] in
  for_loop 0 6
    (fun j e => if neqb (Z.quot i 2) (Z.quot j 2) then ext_set e j extent.[j] else e) e.

Section OuterLayer.
(** [vtkStructuredData::ComputePointIdForExtent], declared outside the
    translated sources. *)
Variable ComputePointIdForExtent : ExtentType -> Vec3 Z -> Z.
Context {T : Type}.

(** [CopyOuterLayerGridPoints]: the number of points it asks for, and the
    points of [outputPoints] after it. [fresh] stands for the points
    [SetNumberOfPoints] leaves, [uninitialized] for the cursor before it is
    written. *)
Definition CopyOuterLayerGridPoints (inputPoints : list T) (inputExtent : ExtentType)
    (fresh : list T) (uninitialized : Vec3 Z) (extent : ExtentType) (i : Z) : Z * list T :=
  let '(j, k) := face_sweep_slots i in
  let numberOfPoints := (extent.[j + 1] - extent.[j] + 1) * (extent.[k + 1] - extent.[k] + 1) in
  let extent := ext_set extent (i + (if nz (Z.rem i 2) then -1 else 1)) extent.[i] in
  let ijk := vset_at uninitialized (Z.quot i 2) extent.[i] in
  (numberOfPoints,
   for_loop extent.[k] (extent.[k + 1] + 1)
     (fun y outputPoints =>
        let ijk := vset_at ijk (Z.quot k 2) y in
        for_loop extent.[j] (extent.[j + 1] + 1)
          (fun x outputPoints =>
             let ijk := vset_at ijk (Z.quot j 2) x in
             SetTuple outputPoints (ComputePointIdForExtent extent ijk)
               (ComputePointIdForExtent inputExtent ijk) inputPoints)
          outputPoints)
     fresh).
End OuterLayer.

(** The axis after an axis, in the order x, y, z, x. *)
Definition next_axis (a : Axis) : Axis :=
  match a with AxisX => AxisY | AxisY => AxisZ | AxisZ => AxisX end.

(** The extent of a face of an extent: the extent, flat at the bound of the
    face. *)
Definition face_of_extent (extent : ExtentType) (f : Adjacency) : ExtentType :=
  ext_set extent (face_index (opposite f)) extent.[face_index f].

(** The 2x2x2 points of the grid [[0,1]^3], numbered by their row-major id. *)
Definition cube_points : list Z := [0; 1; 2; 3; 4; 5; 6; 7].

(** The point at [c] on axis [a], at [x] on the next axis and at [y] on the
    one after. *)
Definition face_point (a : Axis) (c x y : Z) : Vec3 Z :=
  vset (vset (vset (MkVec3 0 0 0) a c) (next_axis a) x) (next_axis (next_axis a)) y.

(** * The 3D drawing context

    A shallow embedding of [Rendering/Context2D/vtkContext3D.cxx]. A device
    is known by its address; the world holds the reference count of every
    device and the calls the devices have received, in order. *)

Section Context3D.
(** [vtkVector3f]. *)
Context {P : Type}.

(** The calls [vtkContext3D] makes on its device. *)
Inductive DeviceCall : Type :=
  | DeviceEnd
  | DeviceDrawPoly (points : list P) (n : Z)
  | DeviceDrawPoints (points : list P) (n : Z)
  | DevicePushMatrix
  | DevicePopMatrix.

Record World : Type := MkWorld
  { ReferenceCount : Z -> Z;
    device_calls : list (Z * DeviceCall) }.

(** [vtkContext3D]: its [Device] ([None] for [NULL]) and its modification
    time. *)
Record vtkContext3D : Type := MkContext3D
  { Device : option Z;
    MTime : Z }.

(** The constructor, at modification time [mtime]. *)
Definition vtkContext3D_new (mtime : Z) : vtkContext3D := MkContext3D None mtime.

(** [device->Register(this)] and [device->Delete()]. *)
Definition Register (device : Z) (w : World) : World :=
  MkWorld (fun d => if d =? device then ReferenceCount w d + 1 else ReferenceCount w d)
    (device_calls w).

Definition Delete (device : Z) (w : World) : World :=
  MkWorld (fun d => if d =? device then ReferenceCount w d - 1 else ReferenceCount w d)
    (device_calls w).

(** A call made on the device. *)
Definition call (device : Z) (c : DeviceCall) (w : World) : World :=
  MkWorld (ReferenceCount w) (device_calls w ++ [(device, c)]).

(** [Modified()]. *)
Definition Modified (this : vtkContext3D) : vtkContext3D :=
  MkContext3D (Device this) (MTime this + 1).

Definition option_Z_eqb (a b : option Z) : bool :=
  match a, b with
  | None, None => true
  | Some x, Some y => x =? y
  | _, _ => false
  end.

(** [vtkContext3D::Begin]: its result, the context and the world after it;
    [None] where it calls [Register] through a null pointer. *)
Definition vtkContext3D_Begin (this : vtkContext3D) (w : World) (device : option Z)
  : option (bool * vtkContext3D * World) :=
  if option_Z_eqb (Device this) device then Some (true, this, w)
  else
    match device with
    | None => None
    | Some d => Some (true, Modified (MkContext3D (Some d) (MTime this)), Register d w)
    end.

(** [vtkContext3D::GetDevice]. *)
Definition vtkContext3D_GetDevice (this : vtkContext3D) : option Z := Device this.

(** [vtkContext3D::End]. *)
Definition vtkContext3D_End (this : vtkContext3D) (w : World) : bool * vtkContext3D * World :=
  match Device this with
  | Some d => (true, Modified (MkContext3D None (MTime this)), Delete d (call d DeviceEnd w))
  | None => (true, this, w)
  end.

(** A method that calls the device: undefined ([None]) without a device,
    where the source asserts or goes through a null pointer. *)
Definition on_device (this : vtkContext3D) (w : World) (c : DeviceCall) : option World :=
  match Device this with
  | Some d => Some (call d c w)
  | None => None
  end.

(** [vtkContext3D::DrawLine], [DrawPoint], [DrawPoints], [PushMatrix] and
    [PopMatrix]. *)
Definition vtkContext3D_DrawLine (this : vtkContext3D) (w : World) (start end_ : P)
  : option World :=
  on_device this w (DeviceDrawPoly [start; end_] 2).

Definition vtkContext3D_DrawPoint (this : vtkContext3D) (w : World) (point : P)
  : option World :=
  on_device this w (DeviceDrawPoints [point] 1).

Definition vtkContext3D_DrawPoints (this : vtkContext3D) (w : World) (points : list P) (n : Z)
  : option World :=
  on_device this w (DeviceDrawPoints points n).

Definition vtkContext3D_PushMatrix (this : vtkContext3D) (w : World) : option World :=
  on_device this w DevicePushMatrix.

Definition vtkContext3D_PopMatrix (this : vtkContext3D) (w : World) : option World :=
  on_device this w DevicePopMatrix.

(** The calls a client makes on the context. *)
Inductive ContextCall : Type :=
  | CallBegin (device : option Z)
  | CallEnd
  | CallDrawLine (start end_ : P)
  | CallDrawPoint (point : P)
  | CallDrawPoints (points : list P) (n : Z)
  | CallPushMatrix
  | CallPopMatrix.

(** One call, and a run of calls. *)
Definition context_step (s : vtkContext3D * World) (c : ContextCall)
  : option (vtkContext3D * World) :=
  let '(this, w) := s in
  match c with
  | CallBegin device =>
      match vtkContext3D_Begin this w device with
      | Some (_, this', w') => Some (this', w')
      | None => None
      end
  | CallEnd => let '(_, this', w') := vtkContext3D_End this w in Some (this', w')
  | CallDrawLine start end_ => (fun w' => (this, w')) <$> vtkContext3D_DrawLine this w start end_
  | CallDrawPoint point => (fun w' => (this, w')) <$> vtkContext3D_DrawPoint this w point
  | CallDrawPoints points n =>
      (fun w' => (this, w')) <$> vtkContext3D_DrawPoints this w points n
  | CallPushMatrix => (fun w' => (this, w')) <$> vtkContext3D_PushMatrix this w
  | CallPopMatrix => (fun w' => (this, w')) <$> vtkContext3D_PopMatrix this w
  end.

Fixpoint context_run (calls : list ContextCall) (s : vtkContext3D * World)
  : option (vtkContext3D * World) :=
  match calls with
  | [] => Some s
  | c :: calls' =>
      match context_step s c with
      | Some s' => context_run calls' s'
      | None => None
      end
  end.

(** The drawing calls, and the call each makes on the device. *)
Definition drawing_call (c : ContextCall) : option DeviceCall :=
  match c with
  | CallBegin _ | CallEnd => None
  | CallDrawLine start end_ => Some (DeviceDrawPoly [start; end_] 2)
  | CallDrawPoint point => Some (DeviceDrawPoints [point] 1)
  | CallDrawPoints points n => Some (DeviceDrawPoints points n)
  | CallPushMatrix => Some DevicePushMatrix
  | CallPopMatrix => Some DevicePopMatrix
  end.
End Context3D.

Arguments DeviceCall : clear implicits.
Arguments World : clear implicits.
Arguments ContextCall : clear implicits.

(** * Ghost points of the output

    Back to [Parallel/DIY/vtkDIYGhostUtilities.cxx]: the points of the
    output of a structured grid, and the ghost coordinates of a rectilinear
    grid. *)

Section OutputPoints.
(** [vtkStructuredData::ComputePointIdForExtent], declared outside the
    translated sources. *)
Variable ComputePointIdForExtent : ExtentType -> Vec3 Z -> Z.
Context {T : Type}.

(** [UpdateOutputGridPoints] on a structured grid: the number of points it
    asks for and the points it sets on the output. [inputPoints] and
    [inputExtent] are [blockInformation.InputPoints] and
    [blockInformation.Extent], [extent] is the output's extent, and [fresh]
    stands for the points [SetNumberOfPoints] leaves. *)
Definition UpdateOutputGridPoints_StructuredGrid (inputPoints : list T)
    (inputExtent extent : ExtentType) (fresh : list T) : Z * list T :=
  ((extent.[1] - extent.[0] + 1) * (extent.[3] - extent.[2] + 1)
   * (extent.[5] - extent.[4] + 1),
   for_loop inputExtent.[4] (inputExtent.[5] + 1) (fun k =>
     for_loop inputExtent.[2] (inputExtent.[3] + 1) (fun j =>
       for_loop inputExtent.[0] (inputExtent.[1] + 1) (fun i points =>
         SetTuple points (ComputePointIdForExtent extent (MkVec3 i j k))
           (ComputePointIdForExtent inputExtent (MkVec3 i j k)) inputPoints)))
     fresh).
End OutputPoints.

Section CoordinateGhosts.
Context {V : Type}.
(** [vtkDataArray::InsertTuples(dstStart, n, srcStart, source)], declared
    outside the translated sources: the array after it. *)
Variable InsertTuples : list V -> Z -> Z -> Z -> list V -> list V.

(** [GetNumberOfTuples] on a coordinate array of any value type. *)
Definition number_of_tuples (array : list V) : Z := Z.of_nat (length array).

(** [AddGhostLayerOfGridPoints] on a rectilinear grid: the ghost coordinates
    [blockInformation.CoordinateGhosts[extentIdx]] after it ([None] for a
    null pointer before it). [thickness] is
    [blockInformation.ExtentGhostThickness]; [coordinates] holds the three
    coordinate arrays of the neighbour. [NewInstance] gives an empty
    array. *)
Definition AddGhostLayerOfGridPoints_RectilinearGrid (extentIdx : Z) (thickness : ExtentType)
    (coordinateGhosts : option (list V)) (coordinates : Vec3 (list V)) : list V :=
  let layerThickness := thickness.[extentIdx] in
  let coords :=
    match Z.quot extentIdx 2 with
    | 0 => v0 coordinates
    | 1 => v1 coordinates
    | _ => v2 coordinates
    end in
  let coordinateGhosts := default [] coordinateGhosts in
  if number_of_tuples coordinateGhosts <? layerThickness then
    if negb (nz (Z.rem extentIdx 2)) then
      let tmp := [] in
      let tmp := InsertTuples tmp 0 (layerThickness - number_of_tuples coordinateGhosts)
                   (number_of_tuples coords - layerThickness - 1) coords in
      let tmp := InsertTuples tmp (number_of_tuples tmp) (number_of_tuples coordinateGhosts) 0
                   coordinateGhosts in
      tmp
    else
      InsertTuples coordinateGhosts (number_of_tuples coordinateGhosts)
        (layerThickness - number_of_tuples coordinateGhosts) 1 coords
  else coordinateGhosts.

(** [AppendGhostPointsForRectilinearGrid]: the array [coordinates] refers to
    after it. *)
Definition AppendGhostPointsForRectilinearGrid (coordinates : list V)
    (preCoordinates postCoordinates : option (list V)) : list V :=
  let coordinates :=
    match preCoordinates with
    | Some pre =>
        (* after the swap, [coordinates] is the ghost array *)
        InsertTuples pre (number_of_tuples pre) (number_of_tuples coordinates) 0 coordinates
    | None => coordinates
    end in
  match postCoordinates with
  | Some post =>
      InsertTuples coordinates (number_of_tuples coordinates) (number_of_tuples post) 0 post
  | None => coordinates
  end.
End CoordinateGhosts.

(** Copying [n] tuples of [source] from [srcStart] on to the places of an
    array from [dstStart] on, the array growing as needed; the instance of
    [InsertTuples] the examples run on. *)
Definition insert_tuples {V : Type} (array : list V) (dstStart n srcStart : Z) (source : list V)
  : list V :=
  take (Z.to_nat dstStart) array
  ++ take (Z.to_nat n) (drop (Z.to_nat srcStart) source)
  ++ drop (Z.to_nat (dstStart + n)) array.

Section PeeledCoordinates.
Variable ComputeCellIdForExtent : ExtentType -> Vec3 Z -> Z.
Context {V : Type}.
Variable InsertTuples : list V -> Z -> Z -> Z -> list V -> list V.

(** The first loop of [ExchangeBlockStructures] on rectilinear grids, for an
    input whose extent is valid (the others are skipped): the block's
    [Information.Extent] and its three coordinate arrays. [inputCoordinates]
    holds the coordinate arrays of the input. *)
Definition peel_rectilinear_block (input : Grid) (inputCoordinates : Vec3 (list V))
    (inputGhostLevels : Z) : option (ExtentType * Vec3 (list V)) :=
  let inputExtent := GetExtent input in
  match PeelOffGhostLayers ComputeCellIdForExtent input inputGhostLevels with
  | None => None
  | Some extent =>
      Some (extent,
            MkVec3
              (InsertTuples [] 0 (extent.[1] - extent.[0] + 1) (extent.[0] - inputExtent.[0])
                 (v0 inputCoordinates))
              (InsertTuples [] 0 (extent.[3] - extent.[2] + 1) (extent.[2] - inputExtent.[2])
                 (v1 inputCoordinates))
              (InsertTuples [] 0 (extent.[5] - extent.[4] + 1) (extent.[4] - inputExtent.[4])
                 (v2 inputCoordinates)))
  end.
End PeeledCoordinates.
(** * Properties *)

(** ** Extents *)

Lemma ext_at_set_same (e : ExtentType) (f : Adjacency) (v : Z) :
  (ext_set e (face_index f) v).[face_index f] = v.
Proof. destruct f; reflexivity. Qed.

Lemma ext_at_set_other (e : ExtentType) (f g : Adjacency) (v : Z) :
  f <> g -> (ext_set e (face_index f) v).[face_index g] = e.[face_index g].
Proof. destruct e, f, g; intros Hne; try reflexivity; congruence. Qed.

Lemma face_index_inj (f g : Adjacency) : face_index f = face_index g -> f = g.
Proof. destruct f, g; cbn; intros Heq; try reflexivity; discriminate. Qed.

Lemma axis_min_face (e : ExtentType) (a : Axis) : axis_min e a = e.[face_index (lower_face a)].
Proof. destruct a; reflexivity. Qed.

Lemma axis_max_face (e : ExtentType) (a : Axis) : axis_max e a = e.[face_index (upper_face a)].
Proof. destruct a; reflexivity. Qed.

Lemma IsExtentValid_spec (e : ExtentType) :
  IsExtentValid e = true <-> forall a, axis_min e a <= axis_max e a.
Proof.
  unfold IsExtentValid. rewrite !andb_true_iff, !Z.leb_le. split.
  - intros [[H0 H1] H2] a; destruct a; assumption.
  - intros Hall. pose proof (Hall AxisX). pose proof (Hall AxisY). pose proof (Hall AxisZ).
    auto.
Qed.

(** ** C1: adjacency and overlap masks *)

(** C1. For every two extents [A] (local) and [B] (shifted neighbour),
    [ComputeAdjacencyAndOverlapMasks] sets the adjacency bit of a face [f]
    exactly when [A[f] = B[opposite f]] and [A] is not degenerate on the axis
    of [f], sets the overlap bit of an axis exactly when [A.min < B.max] and
    [B.min < A.max] on it, and sets no other bit. *)
Theorem C1_adjacency_and_overlap_masks :
  forall A B : ExtentType,
    let masks := ComputeAdjacencyAndOverlapMasks A B in
    (forall f : Adjacency, Z.testbit (fst masks) (face_index f) = face_touches A B f)
    /\ (forall a : Axis, Z.testbit (snd masks) (axis_index a) = axis_overlaps A B a)
    /\ 0 <= fst masks < 64
    /\ 0 <= snd masks < 8.
Proof.
  intros [a0 a1 a2 a3 a4 a5] [b0 b1 b2 b3 b4 b5]; cbv zeta.
  unfold ComputeAdjacencyAndOverlapMasks, face_touches, axis_overlaps, neqb; cbn [fst snd].
  repeat split.
  - intros f; destruct f; cbn -[Z.testbit Z.eqb to_uchar Z.land Z.lor Z.b2z];
      destruct (a0 =? b1), (a1 =? b0), (a2 =? b3), (a3 =? b2), (a4 =? b5), (a5 =? b4),
        (a0 =? a1), (a2 =? a3), (a4 =? a5); reflexivity.
  - intros a; destruct a; cbn -[Z.testbit Z.ltb to_uchar Z.shiftl Z.lor Z.b2z];
      destruct (a0 <? b1), (b0 <? a1), (a2 <? b3), (b2 <? a3), (a4 <? b5), (b4 <? a5);
      reflexivity.
  - apply Z.mod_pos_bound; lia.
  - cbn -[Z.eqb to_uchar Z.land Z.lor Z.b2z].
    destruct (a0 =? b1), (a1 =? b0), (a2 =? b3), (a3 =? b2), (a4 =? b5), (a5 =? b4),
      (a0 =? a1), (a2 =? a3), (a4 =? a5); vm_compute; reflexivity.
  - apply Z.mod_pos_bound; lia.
  - cbn -[Z.ltb to_uchar Z.shiftl Z.lor Z.b2z].
    destruct (a0 <? b1), (b0 <? a1), (a2 <? b3), (b2 <? a3), (a4 <? b5), (b4 <? a5);
      vm_compute; reflexivity.
Qed.

(** ** C10: a grid without ghost array *)

(** C10. A grid that carries no cell-ghost marker array is returned its own
    extent, whatever the ghost level asked for. *)
Theorem C10_peel_without_ghost_array :
  forall (ComputeCellIdForExtent : ExtentType -> Vec3 Z -> Z) (extent : ExtentType)
         (ghostLevel : Z),
    PeelOffGhostLayers ComputeCellIdForExtent (MkGrid extent None) ghostLevel = Some extent.
Proof. intros; reflexivity. Qed.

(** ** The link builder *)

Lemma face_index_slot_face (i : Z) : 0 <= i < 6 -> face_index (slot_face i) = i.
Proof.
  intros Hi.
  assert (i = 0 \/ i = 1 \/ i = 2 \/ i = 3 \/ i = 4 \/ i = 5) as Hcases by lia.
  destruct Hcases as [-> | [-> | [-> | [-> | [-> | ->]]]]]; reflexivity.
Qed.

Ltac split_mask m :=
  destruct m as [|p|p]; try discriminate;
  do 7 (try (destruct p as [p|p|]; try discriminate)).

Lemma face_switch_range (m i : Z) : face_switch m = Some i -> 0 <= i < 6.
Proof. unfold face_switch. split_mask m; intros [= <-]; lia. Qed.

Lemma edge_switch_range (m i j : Z) :
  edge_switch m = Some (i, j) -> 0 <= i < 6 /\ 0 <= j < 6.
Proof. unfold edge_switch. split_mask m; intros [= <- <-]; lia. Qed.

Lemma corner_switch_range (m i j k : Z) :
  corner_switch m = Some (i, j, k) -> 0 <= i < 6 /\ 0 <= j < 6 /\ 0 <= k < 6.
Proof. unfold corner_switch. split_mask m; intros [= <- <- <-]; lia. Qed.

Section AddGhostLayer.
Variables (outputGhostLevels : Z).

(** What [AddGhostLayerToGrid] does on face [g]: the thickness of that side
    becomes the larger of what it was and the neighbour's depth, the other
    sides keep theirs, and the two extents it reads are left as they
    were. *)
Lemma AddGhostLayerToGrid_thickness (g f : Adjacency) bs info :
  let '(bs', info') := AddGhostLayerToGrid (face_index g) outputGhostLevels bs info in
  (GridInformation.ExtentGhostThickness info').[face_index f]
  = (if decide (f = g)
     then Z.max (GridInformation.ExtentGhostThickness info).[face_index f]
            (neighbor_depth outputGhostLevels (GridBlockStructure.Extent bs) f)
     else (GridInformation.ExtentGhostThickness info).[face_index f])
  /\ GridBlockStructure.Extent bs' = GridBlockStructure.Extent bs
  /\ GridInformation.Extent info' = GridInformation.Extent info.
Proof.
  unfold AddGhostLayerToGrid; cbn [GridInformation.ExtentGhostThickness
    GridInformation.set_ExtentGhostThickness GridBlockStructure.set_ExtentWithNewGhosts
    GridBlockStructure.Extent GridInformation.Extent].
  split; [| split; reflexivity].
  destruct (decide (f = g)) as [-> | Hne].
  - rewrite ext_at_set_same. unfold neighbor_depth, neighbor_width.
    destruct g; reflexivity.
  - rewrite ext_at_set_other by congruence. reflexivity.
Qed.

Lemma add_layers_thickness (faces : list Adjacency) (f : Adjacency) bs info :
  let '(bs', info') := add_layers outputGhostLevels faces bs info in
  (GridInformation.ExtentGhostThickness info').[face_index f]
  = (if decide (f ∈ faces)
     then Z.max (GridInformation.ExtentGhostThickness info).[face_index f]
            (neighbor_depth outputGhostLevels (GridBlockStructure.Extent bs) f)
     else (GridInformation.ExtentGhostThickness info).[face_index f])
  /\ GridBlockStructure.Extent bs' = GridBlockStructure.Extent bs
  /\ GridInformation.Extent info' = GridInformation.Extent info.
Proof.
  unfold add_layers. revert bs info.
  induction faces as [|g faces IH]; intros bs info; cbn [fold_left].
  - rewrite decide_False by apply not_elem_of_nil. auto.
  - pose proof (AddGhostLayerToGrid_thickness g f bs info) as Hstep.
    destruct (AddGhostLayerToGrid (face_index g) outputGhostLevels bs info) as [bs1 info1].
    destruct Hstep as (Ht & Hbs & Hinfo).
    specialize (IH bs1 info1).
    destruct (fold_left _ faces (bs1, info1)) as [bs' info'].
    destruct IH as (IHt & IHbs & IHinfo).
    split; [| split; congruence].
    rewrite IHt, Ht, Hbs.
    destruct (decide (f = g)) as [-> | Hne].
    + rewrite (decide_True (P := g ∈ g :: faces)) by left.
      destruct (decide (g ∈ faces)); lia.
    + destruct (decide (f ∈ faces)) as [Hin | Hnin].
      * rewrite decide_True by (right; exact Hin). reflexivity.
      * rewrite decide_False; [reflexivity |].
        intros Hin. apply elem_of_cons in Hin. tauto.
Qed.

(** [LinkGrid] erases the neighbour where [linked_faces] has no faces for
    it, and otherwise adds a ghost layer on each of these faces in turn. *)
Lemma LinkGrid_linked_faces bs info (adjacencyMask overlapMask dim : Z) :
  match linked_faces adjacencyMask overlapMask dim with
  | None => exists logged,
      LinkGrid bs info adjacencyMask overlapMask outputGhostLevels dim = Erased logged
  | Some faces =>
      LinkGrid bs info adjacencyMask overlapMask outputGhostLevels dim
      = (let '(bs', info') := add_layers outputGhostLevels faces bs info in Linked bs' info')
  end.
Proof.
  unfold linked_faces, LinkGrid, add_layers.
  destruct (faces_overlap adjacencyMask overlapMask dim).
  - destruct (face_switch adjacencyMask) as [i|] eqn:Hs; cbn [fmap option_fmap option_map].
    + apply face_switch_range in Hs. cbn [fold_left].
      rewrite face_index_slot_face by lia. reflexivity.
    + eauto.
  - destruct (edges_overlap adjacencyMask overlapMask dim).
    + destruct (edge_switch adjacencyMask) as [[i j]|] eqn:Hs;
        cbn [fmap option_fmap option_map].
      * apply edge_switch_range in Hs. cbn [fold_left].
        rewrite (face_index_slot_face i) by lia.
        destruct (AddGhostLayerToGrid i outputGhostLevels bs info) as [bs1 info1].
        rewrite (face_index_slot_face j) by lia. reflexivity.
      * eauto.
    + destruct (corner_switch adjacencyMask) as [[[i j] k]|] eqn:Hs;
        cbn [fmap option_fmap option_map].
      * apply corner_switch_range in Hs. cbn [fold_left].
        rewrite (face_index_slot_face i) by lia.
        destruct (AddGhostLayerToGrid i outputGhostLevels bs info) as [bs1 info1].
        rewrite (face_index_slot_face j) by lia.
        destruct (AddGhostLayerToGrid j outputGhostLevels bs1 info1) as [bs2 info2].
        rewrite (face_index_slot_face k) by lia. reflexivity.
      * eauto.
Qed.
End AddGhostLayer.

Section LinkMapProperties.
Context {BS : Type} `{GridBlock BS}.
Variables (localBlockStructure : BS) (localExtent : ExtentType).
Variables (outputGhostLevels dim : Z).

(** One turn of the loop over the neighbours: the thickness of side [f]
    grows to the neighbour's depth when the neighbour is linked on [f], and
    the block's own extent is never touched. *)
Lemma link_neighbor_thickness (f : Adjacency) (st : LinkState BS) (entry : Z * BS) :
  let st' := link_neighbor localBlockStructure localExtent outputGhostLevels dim st entry in
  (GridInformation.ExtentGhostThickness (information st')).[face_index f]
  = foldr Z.max (GridInformation.ExtentGhostThickness (information st)).[face_index f]
      (contributions localBlockStructure localExtent outputGhostLevels dim f [entry])
  /\ GridInformation.Extent (information st') = GridInformation.Extent (information st).
Proof.
  destruct entry as [gid blockStructure].
  unfold link_neighbor, contributions, neighbor_faces; cbn [omap list_omap].
  destruct (SynchronizeGridExtents localBlockStructure blockStructure) as [shifted|].
  2: { rewrite decide_False by apply not_elem_of_nil. cbn. auto. }
  destruct (ComputeAdjacencyAndOverlapMasks localExtent shifted) as [m o].
  set (g := GridBlockStructure.set_ExtentWithNewGhosts _ _).
  pose proof (LinkGrid_linked_faces outputGhostLevels g (information st) m o dim) as Hlink.
  destruct (linked_faces m o dim) as [faces|]; cbn [default from_option id].
  - rewrite Hlink.
    pose proof (add_layers_thickness outputGhostLevels faces f g (information st)) as Hadd.
    destruct (add_layers outputGhostLevels faces g (information st)) as [g' info'].
    destruct Hadd as (Ht & _ & Hinfo). cbn [information].
    split; [| exact Hinfo]. rewrite Ht.
    destruct (decide (f ∈ faces)); cbn [foldr]; [| reflexivity].
    subst g. cbn [GridBlockStructure.Extent GridBlockStructure.set_ExtentWithNewGhosts
                  GridBlockStructure.set_AdjacencyMask]. lia.
  - destruct Hlink as [logged ->]. cbn [information].
    rewrite decide_False by apply not_elem_of_nil. cbn. auto.
Qed.

Lemma contributions_cons (f : Adjacency) (entry : Z * BS) (entries : list (Z * BS)) :
  contributions localBlockStructure localExtent outputGhostLevels dim f (entry :: entries)
  = contributions localBlockStructure localExtent outputGhostLevels dim f [entry]
    ++ contributions localBlockStructure localExtent outputGhostLevels dim f entries.
Proof.
  unfold contributions; cbn [omap list_omap].
  destruct entry as [gid bs]. destruct (decide _); reflexivity.
Qed.

Lemma foldr_max_acc (cs : list Z) (a b : Z) :
  foldr Z.max (Z.max a b) cs = Z.max (foldr Z.max a cs) b.
Proof. induction cs as [|c cs IH]; cbn [foldr]; [reflexivity | rewrite IH; lia]. Qed.

Lemma foldr_max_app (cs1 cs2 : list Z) (a : Z) :
  foldr Z.max (foldr Z.max a cs1) cs2 = foldr Z.max a (cs1 ++ cs2).
Proof.
  induction cs1 as [|c cs1 IH]; cbn [foldr app]; [reflexivity |].
  rewrite <- IH, (Z.max_comm c), foldr_max_acc. lia.
Qed.

(** The whole loop over the neighbours. *)
Lemma link_loop_thickness (f : Adjacency) (entries : list (Z * BS)) (st : LinkState BS) :
  let st' :=
    fold_left (link_neighbor localBlockStructure localExtent outputGhostLevels dim)
      entries st in
  (GridInformation.ExtentGhostThickness (information st')).[face_index f]
  = foldr Z.max (GridInformation.ExtentGhostThickness (information st)).[face_index f]
      (contributions localBlockStructure localExtent outputGhostLevels dim f entries)
  /\ GridInformation.Extent (information st') = GridInformation.Extent (information st).
Proof.
  revert st. induction entries as [|entry entries IH]; intros st; cbn [fold_left].
  - split; reflexivity.
  - destruct (IH (link_neighbor localBlockStructure localExtent outputGhostLevels dim
                    st entry)) as [IHt IHe].
    destruct (link_neighbor_thickness f st entry) as [Ht He].
    cbv zeta. rewrite contributions_cons, <- foldr_max_app, <- Ht.
    split; [exact IHt | congruence].
Qed.

(** The largest element of a list, or the start value, is one of them. *)
Lemma foldr_max_elem (cs : list Z) (a : Z) :
  foldr Z.max a cs = a \/ foldr Z.max a cs ∈ cs.
Proof.
  induction cs as [|c cs IH]; cbn [foldr]; [left; reflexivity |].
  destruct (Z.max_spec c (foldr Z.max a cs)) as [[_ ->] | [_ ->]].
  - destruct IH as [IH | IH]; [left; exact IH | right; right; exact IH].
  - right; left.
Qed.

Lemma foldr_max_ge (cs : list Z) (a c : Z) :
  c ∈ cs -> c <= foldr Z.max a cs.
Proof.
  induction cs as [|c' cs IH]; cbn [foldr]; intros Hin.
  - apply elem_of_nil in Hin; contradiction.
  - apply elem_of_cons in Hin as [-> | Hin]; [lia | specialize (IH Hin); lia].
Qed.

Lemma foldr_max_le (cs : list Z) (a b : Z) :
  a <= b -> (forall c, c ∈ cs -> c <= b) -> foldr Z.max a cs <= b.
Proof.
  intros Ha Hcs. destruct (foldr_max_elem cs a) as [-> | Hin]; [exact Ha | auto].
Qed.

Lemma contributions_elem (f : Adjacency) (entries : list (Z * BS)) (c : Z) :
  c ∈ contributions localBlockStructure localExtent outputGhostLevels dim f entries
  <-> exists gid blockStructure,
        (gid, blockStructure) ∈ entries
        /\ f ∈ neighbor_faces localBlockStructure localExtent dim blockStructure
        /\ c = neighbor_depth outputGhostLevels
                 (GridBlockStructure.Extent (grid blockStructure)) f.
Proof.
  unfold contributions. rewrite list_elem_of_omap. split.
  - intros ([gid bs] & Hin & Hc). destruct (decide _) as [Hf|]; [| discriminate].
    injection Hc as <-. eauto.
  - intros (gid & bs & Hin & Hf & ->). exists (gid, bs). split; [exact Hin |].
    rewrite decide_True by exact Hf. reflexivity.
Qed.
End LinkMapProperties.

Lemma link_block_guard (e : ExtentType) :
  (e.[0] >? e.[1]) || (e.[2] >? e.[3]) || (e.[4] >? e.[5]) = negb (IsExtentValid e).
Proof.
  unfold IsExtentValid. rewrite !Z.gtb_ltb, !negb_andb, !Z.leb_antisym, !negb_involutive.
  reflexivity.
Qed.

Lemma foldr_max_init (cs : list Z) (a : Z) : a <= foldr Z.max a cs.
Proof. induction cs as [|c cs IH]; cbn [foldr]; lia. Qed.

(** The thickness of a side after [link_block], for a block with a valid
    extent. *)
Lemma link_block_thickness (BS : Type) (family : GridBlock BS) (outputGhostLevels : Z)
    (localBlockStructure : BS) (dim : Z) (block : Block BS) (f : Adjacency) :
  IsExtentValid (GridInformation.Extent (Information block)) = true ->
  (GridInformation.ExtentGhostThickness
     (Information
        (linked_block (link_block outputGhostLevels localBlockStructure dim block)))).[
    face_index f]
  = foldr Z.max (GridInformation.ExtentGhostThickness (Information block)).[face_index f]
      (contributions localBlockStructure (GridInformation.Extent (Information block))
         outputGhostLevels dim f (BlockStructures block))
  /\ forall c,
       c ∈ contributions localBlockStructure (GridInformation.Extent (Information block))
             outputGhostLevels dim f (BlockStructures block) ->
       c <= outputGhostLevels.
Proof.
  intros Hvalid. split.
  - unfold link_block.
    rewrite link_block_guard, Hvalid. cbn [negb linked_block Information].
    destruct (link_loop_thickness localBlockStructure
                (GridInformation.Extent (Information block)) outputGhostLevels dim f
                (BlockStructures block)
                (MkLinkState [] (Information block) ∅ 0)) as [Hloop _].
    exact Hloop.
  - intros c Hc. apply contributions_elem in Hc as (gid & bs & _ & _ & ->).
    unfold neighbor_depth. lia.
Qed.

(** ** C5: the ghost thickness of a side *)

(** C5 (amended). For every block with a valid extent and every face [f] of
    it, once the link builder has gone through the block's neighbours the
    thickness of side [f] is the largest of its start value and of
    [min(outputGhostLevels, width of the neighbour along the axis of f)] over
    the neighbours linked on [f]. So it is at least the depth of each of
    these neighbours, and, unless it kept its start value, it is the depth of
    one of them: it exceeds neither that neighbour's width nor
    [outputGhostLevels]. *)
Theorem C5_thickness_is_largest_linked_depth :
  forall (BS : Type) (family : GridBlock BS) (outputGhostLevels : Z)
         (localBlockStructure : BS) (dim : Z) (block : Block BS) (f : Adjacency),
    IsExtentValid (GridInformation.Extent (Information block)) = true ->
    let localExtent := GridInformation.Extent (Information block) in
    let t0 := GridInformation.ExtentGhostThickness (Information block) in
    let t := GridInformation.ExtentGhostThickness
               (Information
                  (linked_block (link_block outputGhostLevels localBlockStructure dim block))) in
    let depths := contributions localBlockStructure localExtent outputGhostLevels dim f
                    (BlockStructures block) in
    t.[face_index f] = foldr Z.max t0.[face_index f] depths
    /\ (forall gid blockStructure,
          (gid, blockStructure) ∈ BlockStructures block ->
          f ∈ neighbor_faces localBlockStructure localExtent dim blockStructure ->
          neighbor_depth outputGhostLevels
            (GridBlockStructure.Extent (grid blockStructure)) f <= t.[face_index f])
    /\ (t.[face_index f] = t0.[face_index f]
        \/ exists gid blockStructure,
             (gid, blockStructure) ∈ BlockStructures block
             /\ f ∈ neighbor_faces localBlockStructure localExtent dim blockStructure
             /\ t.[face_index f]
                = Z.min outputGhostLevels
                    (neighbor_width (GridBlockStructure.Extent (grid blockStructure)) f)).
Proof.
  intros BS family G localBS dim block f Hvalid localExtent t0 t depths.
  assert (t.[face_index f] = foldr Z.max t0.[face_index f] depths) as Ht
    by exact (proj1 (link_block_thickness BS family G localBS dim block f Hvalid)).
  split; [exact Ht |]. split.
  - intros gid bs Hin Hf. rewrite Ht. apply foldr_max_ge.
    apply contributions_elem. eauto.
  - rewrite Ht. destruct (foldr_max_elem depths t0.[face_index f]) as [Heq | Hin].
    + left; exact Heq.
    + right. apply contributions_elem in Hin as (gid & bs & Hin & Hf & Hc).
      exists gid, bs. auto.
Qed.

(** The block [[0,4]x[0,4]] with two neighbours on its right face and three
    ghost levels asked for: the right side gets the depth of the wider
    neighbour. *)
Lemma C5_thickness_witness :
  IsExtentValid (GridInformation.Extent (Information two_on_a_face)) = true
  /\ (GridInformation.ExtentGhostThickness
        (Information
           (linked_block
              (link_block 3 (unit_image (MkExtent 0 4 0 4 0 0) 2) 2 two_on_a_face)))).[
      face_index Right]
     = foldr Z.max 0
         (contributions (unit_image (MkExtent 0 4 0 4 0 0) 2) (MkExtent 0 4 0 4 0 0) 3 2 Right
            (BlockStructures two_on_a_face)).
Proof.
  split; [reflexivity |].
  exact (proj1 (C5_thickness_is_largest_linked_depth _ _ 3
                  (unit_image (MkExtent 0 4 0 4 0 0) 2) 2 two_on_a_face Right eq_refl)).
Defined.

(** The claim as stated fails where two neighbours of different widths are
    linked on the same face: both neighbours of [two_on_a_face] are linked on
    its right face, the thickness of that side becomes 3, and neighbour 1 is
    only one cell wide. *)
Lemma C5_counterexample :
  let localBlockStructure := unit_image (MkExtent 0 4 0 4 0 0) 2 in
  let t := GridInformation.ExtentGhostThickness
             (Information
                (linked_block (link_block 3 localBlockStructure 2 two_on_a_face))) in
  ~ (forall gid blockStructure,
       (gid, blockStructure) ∈ BlockStructures two_on_a_face ->
       Right ∈ neighbor_faces localBlockStructure (MkExtent 0 4 0 4 0 0) 2 blockStructure ->
       t.[face_index Right]
       <= neighbor_width (GridBlockStructure.Extent (grid blockStructure)) Right).
Proof.
  intros localBlockStructure t Hall.
  specialize (Hall 1 (unit_image (MkExtent 4 5 0 2 0 0) 2)).
  assert (t.[face_index Right] = 3) as Ht by (vm_compute; reflexivity).
  assert (neighbor_faces localBlockStructure (MkExtent 0 4 0 4 0 0) 2
            (unit_image (MkExtent 4 5 0 2 0 0) 2) = [Right]) as Hfaces
    by (vm_compute; reflexivity).
  rewrite Ht, Hfaces in Hall.
  assert (3 <= 1) as Habsurd.
  { apply Hall; [left | left]. }
  lia.
Qed.

(** ** C6: the output extent *)

Lemma UpdateOutputGridStructure_axis (info : GridInformation.t) (a : Axis) :
  axis_min (UpdateOutputGridStructure info) a
  = axis_min (GridInformation.Extent info) a
    - axis_min (GridInformation.ExtentGhostThickness info) a
  /\ axis_max (UpdateOutputGridStructure info) a
     = axis_max (GridInformation.Extent info) a
       + axis_max (GridInformation.ExtentGhostThickness info) a.
Proof. destruct a; split; reflexivity. Qed.

(** C6. For every block with a valid extent whose thickness accumulator
    starts at zero, and every [outputGhostLevels >= 0], the extent set on the
    output once all neighbours are processed is the peeled extent widened by
    the accumulated thickness on each side; so on each axis the output is
    wider than the peeled extent by the two thicknesses of that axis, which
    is at most [2 * outputGhostLevels]. *)
Theorem C6_output_extent_widened_by_thickness :
  forall (BS : Type) (family : GridBlock BS) (outputGhostLevels : Z)
         (localBlockStructure : BS) (dim : Z) (block : Block BS),
    IsExtentValid (GridInformation.Extent (Information block)) = true ->
    GridInformation.ExtentGhostThickness (Information block) = zero_extent ->
    0 <= outputGhostLevels ->
    let linked := link_block outputGhostLevels localBlockStructure dim block in
    let peeled := GridInformation.Extent (Information block) in
    let t := GridInformation.ExtentGhostThickness (Information (linked_block linked)) in
    exists outputExtent,
      linked_output_extent linked = Some outputExtent
      /\ GridInformation.Extent (Information (linked_block linked)) = peeled
      /\ forall a : Axis,
           axis_min outputExtent a = axis_min peeled a - axis_min t a
           /\ axis_max outputExtent a = axis_max peeled a + axis_max t a
           /\ (axis_max outputExtent a - axis_min outputExtent a)
              - (axis_max peeled a - axis_min peeled a)
              = axis_min t a + axis_max t a
           /\ Z.abs (axis_max outputExtent a - axis_min outputExtent a)
              - Z.abs (axis_max peeled a - axis_min peeled a)
              = axis_min t a + axis_max t a
           /\ 0 <= axis_min t a /\ 0 <= axis_max t a
           /\ axis_min t a + axis_max t a <= 2 * outputGhostLevels.
Proof.
  intros BS family G localBS dim block Hvalid Hzero HG linked peeled t.
  assert (forall f : Adjacency, 0 <= t.[face_index f] <= G) as Hbound.
  { intros f.
    destruct (link_block_thickness BS family G localBS dim block f Hvalid) as [Heq Hdepth].
    fold linked in Heq. fold t in Heq. rewrite Heq, Hzero.
    replace (zero_extent.[face_index f]) with 0 by (destruct f; reflexivity).
    split; [apply foldr_max_init |].
    apply foldr_max_le; [exact HG |]. intros c Hc. apply Hdepth in Hc. lia. }
  assert (GridInformation.Extent (Information (linked_block linked)) = peeled
          /\ linked_output_extent linked
             = Some (UpdateOutputGridStructure (Information (linked_block linked))))
    as [Hext Hout].
  { subst linked peeled. unfold link_block.
    rewrite link_block_guard, Hvalid. cbn [negb linked_block Information linked_output_extent].
    destruct (link_loop_thickness localBS (GridInformation.Extent (Information block)) G dim
                Left (BlockStructures block)
                (MkLinkState [] (Information block) ∅ 0)) as [_ Hloop].
    split; [exact Hloop | reflexivity]. }
  exists (UpdateOutputGridStructure (Information (linked_block linked))).
  split; [exact Hout |]. split; [exact Hext |]. intros a.
  destruct (UpdateOutputGridStructure_axis (Information (linked_block linked)) a)
    as [Hmin Hmax].
  rewrite Hext in Hmin, Hmax. fold t in Hmin, Hmax.
  pose proof (Hbound (lower_face a)) as Hlo. pose proof (Hbound (upper_face a)) as Hhi.
  rewrite <- axis_min_face in Hlo. rewrite <- axis_max_face in Hhi.
  apply IsExtentValid_spec with (a := a) in Hvalid. fold peeled in Hvalid.
  repeat split; lia.
Qed.

(** The block with two neighbours on its right face, three ghost levels:
    the output extent is [[0,7]x[0,4]]. *)
Lemma C6_output_extent_witness :
  let linked := link_block 3 (unit_image (MkExtent 0 4 0 4 0 0) 2) 2 two_on_a_face in
  IsExtentValid (GridInformation.Extent (Information two_on_a_face)) = true
  /\ GridInformation.ExtentGhostThickness (Information two_on_a_face) = zero_extent
  /\ 0 <= 3
  /\ exists outputExtent,
       linked_output_extent linked = Some outputExtent
       /\ axis_max outputExtent AxisX
          = 4 + axis_max (GridInformation.ExtentGhostThickness
                            (Information (linked_block linked))) AxisX.
Proof.
  cbv zeta. split; [reflexivity |]. split; [reflexivity |]. split; [lia |].
  destruct (C6_output_extent_widened_by_thickness _ _ 3
              (unit_image (MkExtent 0 4 0 4 0 0) 2) 2 two_on_a_face
              eq_refl eq_refl ltac:(lia)) as (outputExtent & Hout & _ & Haxes).
  exists outputExtent. split; [exact Hout |].
  exact (proj1 (proj2 (Haxes AxisX))).
Defined.

(** ** Loops over index ranges *)

Lemma zrange_length (lo hi : Z) : length (zrange lo hi) = Z.to_nat (hi - lo).
Proof. unfold zrange. rewrite length_map, length_seq. reflexivity. Qed.

Lemma zrange_lookup (lo hi : Z) (n : nat) :
  (n < Z.to_nat (hi - lo))%nat -> zrange lo hi !! n = Some (lo + Z.of_nat n).
Proof.
  intros Hn. unfold zrange. rewrite list_lookup_fmap, lookup_seq_lt by exact Hn.
  reflexivity.
Qed.

Lemma for_loop_append {A : Type} (F : Z -> list A) (body : Z -> list A -> list A)
    (lo hi : Z) (acc : list A) :
  (forall i acc, body i acc = acc ++ F i) ->
  for_loop lo hi body acc = acc ++ flat_map F (zrange lo hi).
Proof.
  intros Hbody. unfold for_loop. generalize (zrange lo hi) as l. intros l. revert acc.
  induction l as [|i l IH]; intros acc; cbn [fold_left flat_map].
  - rewrite app_nil_r. reflexivity.
  - rewrite IH, Hbody, <- app_assoc. reflexivity.
Qed.

(** A list made of blocks of one length is read block by block. *)
Lemma flat_map_lookup_block {A B : Type} (F : A -> list B) (l : list A) (n : nat)
    (i j : nat) (x : A) :
  (forall y, length (F y) = n) ->
  l !! i = Some x -> (j < n)%nat ->
  flat_map F l !! (i * n + j)%nat = F x !! j.
Proof.
  intros Hlen. revert i. induction l as [|y l IH]; intros i Hx Hj; [discriminate |].
  cbn [flat_map]. destruct i as [|i].
  - injection Hx as ->. cbn [Nat.mul Nat.add].
    apply lookup_app_l. rewrite Hlen. exact Hj.
  - cbn in Hx. rewrite lookup_app_r by (rewrite Hlen; lia).
    rewrite Hlen. replace (S i * n + j - n)%nat with (i * n + j)%nat by lia.
    apply IH; assumption.
Qed.

Lemma flat_map_length_block {A B : Type} (F : A -> list B) (l : list A) (n : nat) :
  (forall y, length (F y) = n) -> length (flat_map F l) = (length l * n)%nat.
Proof.
  intros Hlen. induction l as [|y l IH]; cbn [flat_map length]; [reflexivity |].
  rewrite length_app, Hlen, IH. lia.
Qed.

(** ** Bits of a mask *)

Lemma nz_land_pow2 (m k : Z) : 0 <= k -> nz (Z.land m (2 ^ k)) = Z.testbit m k.
Proof.
  intros Hk. unfold nz. destruct (Z.testbit m k) eqn:Hbit.
  - apply negb_true_iff, Z.eqb_neq. intros Hzero.
    assert (Z.testbit (Z.land m (2 ^ k)) k = true) as Hk'.
    { rewrite Z.land_spec, Hbit, Z.pow2_bits_true by exact Hk. reflexivity. }
    rewrite Hzero, Z.bits_0 in Hk'. discriminate.
  - apply negb_false_iff, Z.eqb_eq. apply Z.bits_inj'. intros n Hn.
    rewrite Z.land_spec, Z.bits_0, Z.pow2_bits_eqb by exact Hk.
    destruct (Z.eqb_spec k n) as [<- | Hne]; [rewrite Hbit; reflexivity |].
    apply andb_false_r.
Qed.

Lemma nz_land_face (m : Z) (f : Adjacency) :
  nz (Z.land m (Adjacency_value f)) = Z.testbit m (face_index f).
Proof.
  destruct f; cbn [Adjacency_value face_index].
  - apply (nz_land_pow2 m 0); lia.
  - apply (nz_land_pow2 m 1); lia.
  - apply (nz_land_pow2 m 2); lia.
  - apply (nz_land_pow2 m 3); lia.
  - apply (nz_land_pow2 m 4); lia.
  - apply (nz_land_pow2 m 5); lia.
Qed.

(** Shifting a mask left by one bit moves the bit of the lower face of an
    axis onto the bit of its upper face. *)
Lemma shifted_mask_bit (m : Z) (a : Axis) :
  Z.testbit (to_uchar (Z.shiftl m 1)) (face_index (upper_face a))
  = Z.testbit m (face_index (lower_face a)).
Proof.
  unfold to_uchar. change 256 with (2 ^ 8).
  rewrite Z.mod_pow2_bits_low by (destruct a; cbn; lia).
  rewrite Z.shiftl_spec by (destruct a; cbn; lia).
  destruct a; reflexivity.
Qed.

(** Three nested loops that each append one value: the values come out in
    row-major order, the innermost counter running fastest. *)
Section NestedRanges.
Context {A : Type} (g : Z -> Z -> Z -> A).
Variables (ilo ihi jlo jhi klo khi : Z).

Lemma nested_for_loops :
  for_loop klo khi (fun k =>
    for_loop jlo jhi (fun j =>
      for_loop ilo ihi (fun i ids => ids ++ [g i j k]))) [] = row_major g ilo ihi jlo jhi klo khi.
Proof.
  unfold row_major.
  rewrite (for_loop_append
             (fun k => flat_map (fun j => flat_map (fun i => [g i j k]) (zrange ilo ihi))
                         (zrange jlo jhi))); [reflexivity |].
  intros k acc.
  rewrite (for_loop_append (fun j => flat_map (fun i => [g i j k]) (zrange ilo ihi)));
    [reflexivity |].
  intros j acc'.
  apply (for_loop_append (fun i => [g i j k])). reflexivity.
Qed.

Lemma row_length :
  forall j k, length (flat_map (fun i => [g i j k]) (zrange ilo ihi)) = Z.to_nat (ihi - ilo).
Proof.
  intros j k. rewrite (flat_map_length_block _ _ 1%nat) by reflexivity.
  rewrite zrange_length. lia.
Qed.

Lemma plane_length :
  forall k,
    length (flat_map (fun j => flat_map (fun i => [g i j k]) (zrange ilo ihi))
              (zrange jlo jhi))
    = (Z.to_nat (jhi - jlo) * Z.to_nat (ihi - ilo))%nat.
Proof.
  intros k. rewrite (flat_map_length_block _ _ (Z.to_nat (ihi - ilo)))
    by (intros j; apply row_length).
  rewrite zrange_length. reflexivity.
Qed.

Lemma row_major_length :
  Z.of_nat (length (row_major g ilo ihi jlo jhi klo khi))
  = Z.max 0 (ihi - ilo) * Z.max 0 (jhi - jlo) * Z.max 0 (khi - klo).
Proof.
  unfold row_major.
  rewrite (flat_map_length_block _ _ (Z.to_nat (jhi - jlo) * Z.to_nat (ihi - ilo)))
    by apply plane_length.
  rewrite zrange_length, !Nat2Z.inj_mul.
  replace (Z.of_nat (Z.to_nat (khi - klo))) with (Z.max 0 (khi - klo)) by lia.
  replace (Z.of_nat (Z.to_nat (jhi - jlo))) with (Z.max 0 (jhi - jlo)) by lia.
  replace (Z.of_nat (Z.to_nat (ihi - ilo))) with (Z.max 0 (ihi - ilo)) by lia.
  ring.
Qed.

Lemma row_major_lookup (di dj dk : Z) :
  0 <= di < ihi - ilo -> 0 <= dj < jhi - jlo -> 0 <= dk < khi - klo ->
  row_major g ilo ihi jlo jhi klo khi !! Z.to_nat ((dk * (jhi - jlo) + dj) * (ihi - ilo) + di)
  = Some (g (ilo + di) (jlo + dj) (klo + dk)).
Proof.
  intros Hi Hj Hk. unfold row_major.
  replace (Z.to_nat ((dk * (jhi - jlo) + dj) * (ihi - ilo) + di))
    with (Z.to_nat dk * (Z.to_nat (jhi - jlo) * Z.to_nat (ihi - ilo))
          + (Z.to_nat dj * Z.to_nat (ihi - ilo) + (Z.to_nat di * 1 + 0)))%nat.
  2: { assert (0 <= (dk * (jhi - jlo) + dj) * (ihi - ilo) + di) as Hnonneg.
       { apply Z.add_nonneg_nonneg; [| lia].
         apply Z.mul_nonneg_nonneg; [| lia].
         apply Z.add_nonneg_nonneg; [| lia].
         apply Z.mul_nonneg_nonneg; lia. }
       apply Nat2Z.inj.
       repeat (rewrite Nat2Z.inj_add || rewrite Nat2Z.inj_mul).
       rewrite !Z2Nat.id by lia. change (Z.of_nat 1) with 1. change (Z.of_nat 0) with 0.
       ring. }
  rewrite (flat_map_lookup_block _ _ _ _ _ (klo + dk)).
  - rewrite (flat_map_lookup_block _ _ _ _ _ (jlo + dj)).
    + rewrite (flat_map_lookup_block _ _ _ _ _ (ilo + di)); [reflexivity | reflexivity | |].
      * rewrite zrange_lookup by lia. f_equal. lia.
      * lia.
    + intros j. apply row_length.
    + rewrite zrange_lookup by lia. f_equal. lia.
    + lia.
  - intros k. apply plane_length.
  - rewrite zrange_lookup by lia. f_equal. lia.
  - assert (Z.to_nat dj < Z.to_nat (jhi - jlo))%nat by lia.
    assert (Z.to_nat di < Z.to_nat (ihi - ilo))%nat by lia. nia.
Qed.
End NestedRanges.

(** ** C7: interface point ids *)

Lemma interface_point_bounds_axis (adjacencyMask : Z) (localExtent extent : ExtentType)
    (a : Axis) :
  axis_min (interface_point_bounds adjacencyMask localExtent extent) a
  = Z.max (axis_min extent a) (axis_min localExtent a)
  /\ axis_max (interface_point_bounds adjacencyMask localExtent extent) a
     = Z.min (axis_max extent a) (axis_max localExtent a)
       - [? Z.testbit adjacencyMask (face_index (upper_face a))].
Proof.
  unfold interface_point_bounds. rewrite !nz_land_face.
  destruct a; cbn [axis_min axis_max ext_at ext0 ext1 ext2 ext3 ext4 ext5 upper_face];
    (split; [reflexivity |]);
    match goal with |- context [Z.testbit ?m ?k] => destruct (Z.testbit m k) end;
    cbn [Z.b2z]; lia.
Qed.

(** C7. [ComputeGridInterfacePointIds] goes over the closed box in which the
    two extents meet, with the upper bound of an axis lowered by one when the
    mask has the bit of the upper face of that axis (Right, Back, Top), and
    lists the ids of its points in row-major order: the point at offset
    [(di, dj, dk)] in the box is at position [(dk * nj + dj) * ni + di]. The
    output-side variant runs the same computation on the mask shifted left by
    one bit (as an [unsigned char]), which lowers the upper bound of an axis
    exactly when the stored mask has the bit of the lower face of that axis
    (Left, Front, Bottom). *)
Theorem C7_interface_point_ids :
  forall (ComputePointIdForExtent : ExtentType -> Vec3 Z -> Z) (adjacencyMask : Z)
         (localExtent extent gridExtent : ExtentType),
    let b := interface_point_bounds adjacencyMask localExtent extent in
    let ids := ComputeGridInterfacePointIds ComputePointIdForExtent adjacencyMask
                 localExtent extent gridExtent in
    let ni := axis_max b AxisX - axis_min b AxisX + 1 in
    let nj := axis_max b AxisY - axis_min b AxisY + 1 in
    let nk := axis_max b AxisZ - axis_min b AxisZ + 1 in
    (forall a : Axis,
       axis_min b a = Z.max (axis_min extent a) (axis_min localExtent a)
       /\ axis_max b a
          = Z.min (axis_max extent a) (axis_max localExtent a)
            - [? Z.testbit adjacencyMask (face_index (upper_face a))])
    /\ Ids ids
       = row_major (fun i j k => ComputePointIdForExtent gridExtent (MkVec3 i j k))
           (axis_min b AxisX) (axis_max b AxisX + 1)
           (axis_min b AxisY) (axis_max b AxisY + 1)
           (axis_min b AxisZ) (axis_max b AxisZ + 1)
    /\ NumberOfIds ids = ni * nj * nk
    /\ Z.of_nat (length (Ids ids)) = Z.max 0 ni * Z.max 0 nj * Z.max 0 nk
    /\ (forall di dj dk : Z,
          0 <= di < ni -> 0 <= dj < nj -> 0 <= dk < nk ->
          Ids ids !! Z.to_nat ((dk * nj + dj) * ni + di)
          = Some (ComputePointIdForExtent gridExtent
                    (MkVec3 (axis_min b AxisX + di) (axis_min b AxisY + dj)
                       (axis_min b AxisZ + dk))))
    /\ (forall a : Axis,
          axis_max (interface_point_bounds (to_uchar (Z.shiftl adjacencyMask 1))
                      localExtent extent) a
          = Z.min (axis_max extent a) (axis_max localExtent a)
            - [? Z.testbit adjacencyMask (face_index (lower_face a))])
    /\ (forall (BS : Type) (family : GridBlock BS) (block : Block BS) (gid : Z),
          ComputeOutputGridInterfacePointIds ComputePointIdForExtent block gid gridExtent
          = (fun blockStructure =>
               ComputeGridInterfacePointIds ComputePointIdForExtent
                 (to_uchar (Z.shiftl (GridBlockStructure.AdjacencyMask (grid blockStructure)) 1))
                 gridExtent (GridBlockStructure.Extent (grid blockStructure)) gridExtent)
            <$> map_at (BlockStructures block) gid).
Proof.
  intros pid m localExtent extent gridExtent b ids ni nj nk.
  assert (Ids ids
          = row_major (fun i j k => pid gridExtent (MkVec3 i j k))
              (axis_min b AxisX) (axis_max b AxisX + 1)
              (axis_min b AxisY) (axis_max b AxisY + 1)
              (axis_min b AxisZ) (axis_max b AxisZ + 1)) as Hids.
  { subst ids. unfold ComputeGridInterfacePointIds. fold b. cbn [Ids].
    apply (nested_for_loops (fun i j k => pid gridExtent (MkVec3 i j k))). }
  split; [intros a; apply interface_point_bounds_axis |].
  split; [exact Hids |].
  split; [reflexivity |].
  split.
  { rewrite Hids, row_major_length. subst ni nj nk. f_equal; [f_equal |]; f_equal; lia. }
  split.
  { intros di dj dk Hi Hj Hk. rewrite Hids. subst ni nj nk.
    pose proof (row_major_lookup (fun i j k => pid gridExtent (MkVec3 i j k))
                  (axis_min b AxisX) (axis_max b AxisX + 1)
                  (axis_min b AxisY) (axis_max b AxisY + 1)
                  (axis_min b AxisZ) (axis_max b AxisZ + 1) di dj dk) as Hlookup.
    replace (axis_max b AxisX + 1 - axis_min b AxisX)
      with (axis_max b AxisX - axis_min b AxisX + 1) in Hlookup by lia.
    replace (axis_max b AxisY + 1 - axis_min b AxisY)
      with (axis_max b AxisY - axis_min b AxisY + 1) in Hlookup by lia.
    replace (axis_max b AxisZ + 1 - axis_min b AxisZ)
      with (axis_max b AxisZ - axis_min b AxisZ + 1) in Hlookup by lia.
    apply Hlookup; assumption. }
  split.
  { intros a.
    rewrite (proj2 (interface_point_bounds_axis _ localExtent extent a)), shifted_mask_bit.
    reflexivity. }
  intros BS family block gid. unfold ComputeOutputGridInterfacePointIds.
  destruct (map_at (BlockStructures block) gid); reflexivity.
Qed.

(** The block [[0,4]x[0,4]] and a neighbour on its right whose extent with
    new ghosts starts at 2: the interface is the box [[2,3]x[0,4]], and the
    point at offset [(1, 2, 0)] in it is listed at position 5. *)
Lemma C7_interface_point_ids_witness :
  let ids := ComputeGridInterfacePointIds row_major_point_id (Adjacency_value Right)
               (MkExtent 0 4 0 4 0 0) (MkExtent 2 8 0 4 0 0) (MkExtent 0 4 0 4 0 0) in
  0 <= 1 < 2 /\ 0 <= 2 < 5 /\ 0 <= 0 < 1
  /\ Ids ids !! 5%nat = Some (row_major_point_id (MkExtent 0 4 0 4 0 0) (MkVec3 3 2 0)).
Proof.
  cbv zeta. split; [lia |]. split; [lia |]. split; [lia |].
  exact (proj1 (proj2 (proj2 (proj2 (proj2
           (C7_interface_point_ids row_major_point_id (Adjacency_value Right)
              (MkExtent 0 4 0 4 0 0) (MkExtent 2 8 0 4 0 0) (MkExtent 0 4 0 4 0 0))))))
           1 2 0 ltac:(vm_compute; split; [discriminate | reflexivity])
           ltac:(vm_compute; split; [discriminate | reflexivity])
           ltac:(vm_compute; split; [discriminate | reflexivity])).
Defined.

(** ** C9: hidden ghosts *)

Lemma SetValue_length (array : list Z) (id val : Z) :
  length (SetValue array id val) = length array.
Proof. unfold SetValue. destruct (id <? 0); [reflexivity | apply length_insert]. Qed.

Lemma SetValue_twice (array : list Z) (id val : Z) :
  SetValue (SetValue array id val) id val = SetValue array id val.
Proof.
  unfold SetValue. destruct (id <? 0); [reflexivity |].
  apply list_insert_insert_eq.
Qed.

Lemma SetValue_commute (array : list Z) (id1 id2 val : Z) :
  SetValue (SetValue array id1 val) id2 val = SetValue (SetValue array id2 val) id1 val.
Proof.
  unfold SetValue. destruct (id1 <? 0), (id2 <? 0); try reflexivity.
  destruct (decide (Z.to_nat id1 = Z.to_nat id2)) as [-> | Hne]; [reflexivity |].
  apply list_insert_insert_ne. congruence.
Qed.

Lemma set_many_cons (id : Z) (ids : list Z) (val : Z) (array : list Z) :
  set_many (id :: ids) val array = set_many ids val (SetValue array id val).
Proof. reflexivity. Qed.

Lemma set_many_SetValue (ids : list Z) (val id : Z) (array : list Z) :
  set_many ids val (SetValue array id val) = SetValue (set_many ids val array) id val.
Proof.
  unfold set_many. revert array.
  induction ids as [|id' ids IH]; intros array; cbn [fold_left]; [reflexivity |].
  rewrite <- IH, SetValue_commute. reflexivity.
Qed.

(** Writing one value at the same places a second time changes nothing. *)
Lemma set_many_twice (ids : list Z) (val : Z) (array : list Z) :
  set_many ids val (set_many ids val array) = set_many ids val array.
Proof.
  revert array. induction ids as [|id ids IH]; intros array; [reflexivity |].
  rewrite !set_many_cons, <- set_many_SetValue, SetValue_twice. apply IH.
Qed.

Lemma writes_twice (val : Z) (W : list Z -> list Z) (array : list Z) :
  writes val W -> W (W array) = W array.
Proof. intros [ids HW]. rewrite !HW. apply set_many_twice. Qed.

Lemma writes_id (val : Z) : writes val (fun array => array).
Proof. exists []. reflexivity. Qed.

Lemma writes_compose (val : Z) (W1 W2 : list Z -> list Z) :
  writes val W1 -> writes val W2 -> writes val (fun array => W2 (W1 array)).
Proof.
  intros [ids1 H1] [ids2 H2]. exists (ids1 ++ ids2). intros array.
  rewrite H2, H1. unfold set_many. rewrite fold_left_app. reflexivity.
Qed.

Lemma for_loop_fold {S B : Type} (step : S -> B -> S) (F : Z -> list B)
    (body : Z -> S -> S) (lo hi : Z) (s : S) :
  (forall i s, body i s = fold_left step (F i) s) ->
  for_loop lo hi body s = fold_left step (flat_map F (zrange lo hi)) s.
Proof.
  intros Hbody. unfold for_loop. generalize (zrange lo hi) as l. intros l. revert s.
  induction l as [|i l IH]; intros s; cbn [fold_left flat_map]; [reflexivity |].
  rewrite fold_left_app, <- Hbody. apply IH.
Qed.

(** Three nested loops that each write [val] at the id of their cursor. *)
Lemma nested_writes (id_of : Z -> Z -> Z -> Z) (ilo ihi jlo jhi klo khi val : Z) :
  writes val
    (for_loop klo khi (fun k =>
       for_loop jlo jhi (fun j =>
         for_loop ilo ihi (fun i array => SetValue array (id_of i j k) val)))).
Proof.
  exists (row_major id_of ilo ihi jlo jhi klo khi). intros array.
  unfold set_many, row_major.
  apply (for_loop_fold (fun array id => SetValue array id val)). intros k array'.
  apply (for_loop_fold (fun array id => SetValue array id val)). intros j array''.
  apply (for_loop_fold (fun array id => SetValue array id val)). reflexivity.
Qed.

Section HiddenGhostsProperties.
Variable ComputeCellIdForExtent : ExtentType -> Vec3 Z -> Z.
Variable ComputePointIdForExtent : ExtentType -> Vec3 Z -> Z.
Variables HIDDENCELL HIDDENPOINT : Z.

Lemma FillGridCellArray_writes (gridExtent : ExtentType) (imin imax jmin jmax kmin kmax val : Z) :
  writes val (fun array =>
    FillGridCellArray ComputeCellIdForExtent array gridExtent imin imax jmin jmax kmin kmax val).
Proof.
  apply (nested_writes (fun i j k => ComputeCellIdForExtent gridExtent (MkVec3 i j k))).
Qed.

Lemma FillGridPointArray_writes (gridExtent : ExtentType) (imin imax jmin jmax kmin kmax val : Z) :
  writes val (fun array =>
    FillGridPointArray ComputePointIdForExtent array gridExtent imin imax jmin jmax kmin kmax
      val).
Proof.
  apply (nested_writes (fun i j k => ComputePointIdForExtent gridExtent (MkVec3 i j k))).
Qed.

(** Splits a chain of fills into its links. *)
Ltac writes_tac :=
  lazymatch goal with
  | |- writes _ (fun array => array) => apply writes_id
  | |- writes ?v (fun array =>
         FillGridCellArray ?c (@?W array) ?E ?i0 ?i1 ?j0 ?j1 ?k0 ?k1 ?val) =>
      apply (writes_compose v W (fun x => FillGridCellArray c x E i0 i1 j0 j1 k0 k1 val));
      [writes_tac | apply FillGridCellArray_writes]
  | |- writes ?v (fun array =>
         FillGridPointArray ?c (@?W array) ?E ?i0 ?i1 ?j0 ?j1 ?k0 ?k1 ?val) =>
      apply (writes_compose v W (fun x => FillGridPointArray c x E i0 i1 j0 j1 k0 k1 val));
      [writes_tac | apply FillGridPointArray_writes]
  end.

(** What [fill_hidden_ghosts] does to the two marker arrays is fixed by the
    two extents: it writes the hidden markers at places that do not depend
    on what the arrays hold. *)
Lemma fill_hidden_ghosts_writes (localExtent localExtentWithNoGhosts : ExtentType) :
  exists Wc Wp : list Z -> list Z,
    writes HIDDENCELL Wc /\ writes HIDDENPOINT Wp
    /\ forall (BS : Type) (thickness : ExtentType) (structures : list (Z * BS))
              (cells points : list Z),
         fill_hidden_ghosts ComputeCellIdForExtent ComputePointIdForExtent
           HIDDENCELL HIDDENPOINT localExtent
           (MkBlock (GridInformation.Make localExtentWithNoGhosts thickness) structures
              cells points)
         = MkBlock (GridInformation.Make localExtentWithNoGhosts thickness) structures
             (Wc cells) (Wp points).
Proof.
  unfold fill_hidden_ghosts;
    cbn [GhostCellArray GhostPointArray Information BlockStructures GridInformation.Extent
         v0 v1 v2].
  destruct (localExtent.[0] =? localExtent.[1]), (localExtent.[2] =? localExtent.[3]),
    (localExtent.[4] =? localExtent.[5]); cbn [Z.b2z nz Z.eqb negb Pos.eqb];
    (do 2 eexists; (split; [| split]); [ | | intros; reflexivity]; writes_tac).
Qed.

Lemma fill_hidden_ghosts_twice (BS : Type) (localExtent : ExtentType) (block : Block BS) :
  fill_hidden_ghosts ComputeCellIdForExtent ComputePointIdForExtent HIDDENCELL HIDDENPOINT
    localExtent
    (fill_hidden_ghosts ComputeCellIdForExtent ComputePointIdForExtent HIDDENCELL HIDDENPOINT
       localExtent block)
  = fill_hidden_ghosts ComputeCellIdForExtent ComputePointIdForExtent HIDDENCELL HIDDENPOINT
      localExtent block.
Proof.
  destruct block as [[noGhosts thickness] structures cells points].
  destruct (fill_hidden_ghosts_writes localExtent noGhosts) as (Wc & Wp & Hc & Hp & Hfill).
  rewrite !Hfill, (writes_twice _ _ _ Hc), (writes_twice _ _ _ Hp). reflexivity.
Qed.
End HiddenGhostsProperties.

(** C9. Hidden-ghost painting is idempotent: running [FillGridHiddenGhosts]
    on its own result leaves every block, and so its cell-ghost and
    point-ghost arrays, as the first run left them. *)
Theorem C9_hidden_ghost_painting_idempotent :
  forall (ComputeCellIdForExtent ComputePointIdForExtent : ExtentType -> Vec3 Z -> Z)
         (HIDDENCELL HIDDENPOINT : Z) (BS : Type) (outputs : list (ExtentType * Block BS)),
    FillGridHiddenGhosts ComputeCellIdForExtent ComputePointIdForExtent HIDDENCELL HIDDENPOINT
      (FillGridHiddenGhosts ComputeCellIdForExtent ComputePointIdForExtent HIDDENCELL
         HIDDENPOINT outputs)
    = FillGridHiddenGhosts ComputeCellIdForExtent ComputePointIdForExtent HIDDENCELL HIDDENPOINT
        outputs.
Proof.
  intros cid pid hc hp BS outputs. unfold FillGridHiddenGhosts.
  rewrite map_map. apply map_ext. intros [localExtent block].
  rewrite fill_hidden_ghosts_twice. reflexivity.
Qed.

(** ** C3: the matcher of uniform grids *)

Lemma orb_false_iff4 (a b c d : bool) :
  a || b || c || d = true <-> a = true \/ b = true \/ c = true \/ d = true.
Proof. destruct a, b, c, d; cbn; intuition congruence. Qed.

(** C3 (amended). The uniform-grid matcher returns no match exactly when the
    remote extent has [min > max] on some axis, or the two data dimensions
    differ, or [NearlyEqual] rejects the dot product of the two spacings
    against the squared norm of the local spacing, or the inner product of
    the two quaternions is not within the machine epsilon of 1; otherwise it
    returns the remote extent translated, on each axis, by the negated shift
    [lround((remoteOrigin - localOrigin) / spacing)] converted to [int]. *)
Theorem C3_uniform_matcher :
  forall (Dot : VectorType -> VectorType -> float) (SquaredNorm : VectorType -> float)
         (Dot4 : QuaternionType -> QuaternionType -> float)
         (NearlyEqual : float -> float -> bool)
         (localBlockStructure blockStructure : ImageDataBlockStructure.t),
    let localGrid := ImageDataBlockStructure.base localBlockStructure in
    let remoteGrid := ImageDataBlockStructure.base blockStructure in
    let extent := GridBlockStructure.Extent remoteGrid in
    let origin := ImageDataBlockStructure.Origin blockStructure in
    let localOrigin := ImageDataBlockStructure.Origin localBlockStructure in
    let spacing := ImageDataBlockStructure.Spacing blockStructure in
    let localSpacing := ImageDataBlockStructure.Spacing localBlockStructure in
    let q := ImageDataBlockStructure.OrientationQuaternion blockStructure in
    let localQ := ImageDataBlockStructure.OrientationQuaternion localBlockStructure in
    let shift := fun a : Axis =>
      to_int (lround ((vget origin a - vget localOrigin a) / vget spacing a)%float) in
    let result :=
      SynchronizeGridExtents_ImageData Dot SquaredNorm Dot4 NearlyEqual
        localBlockStructure blockStructure in
    (result = None
     <-> IsExtentValid extent = false
         \/ GridBlockStructure.DataDimension remoteGrid
            <> GridBlockStructure.DataDimension localGrid
         \/ NearlyEqual (Dot spacing localSpacing) (SquaredNorm localSpacing) = false
         \/ PrimFloat.ltb (PrimFloat.abs (Dot4 q localQ - 1)%float) VTK_DBL_EPSILON = false)
    /\ (result = None
        \/ exists shiftedExtent,
             result = Some shiftedExtent
             /\ forall a : Axis,
                  axis_min shiftedExtent a = axis_min extent a - shift a
                  /\ axis_max shiftedExtent a = axis_max extent a - shift a).
Proof.
  intros Dot SquaredNorm Dot4 NearlyEqual localBS bs.
  intros localGrid remoteGrid extent origin localOrigin spacing localSpacing q localQ shift
    result.
  subst result. unfold SynchronizeGridExtents_ImageData.
  fold localGrid remoteGrid. fold extent. fold origin localOrigin spacing localSpacing q localQ.
  rewrite (link_block_guard extent).
  destruct (negb (IsExtentValid extent)
            || neqb (GridBlockStructure.DataDimension remoteGrid)
                 (GridBlockStructure.DataDimension localGrid)
            || negb (NearlyEqual (Dot spacing localSpacing) (SquaredNorm localSpacing))
            || negb (PrimFloat.ltb (PrimFloat.abs (Dot4 q localQ - 1)%float)
                       VTK_DBL_EPSILON)) eqn:Hguard.
  - split; [| left; reflexivity].
    apply orb_false_iff4 in Hguard.
    rewrite !negb_true_iff in Hguard. unfold neqb in Hguard.
    rewrite negb_true_iff, Z.eqb_neq in Hguard.
    split; [intros _; exact Hguard | reflexivity].
  - split.
    + split; [discriminate |]. intros Hrej. exfalso.
      apply not_true_iff_false in Hguard. apply Hguard, orb_false_iff4.
      rewrite !negb_true_iff. unfold neqb. rewrite negb_true_iff, Z.eqb_neq. exact Hrej.
    + right. eexists. split; [reflexivity |].
      intros a; destruct a; split; reflexivity.
Qed.

(** Two blocks of one geometry and one origin, with extents [[0,4]^3] and
    [[4,8]x[0,4]^2]: they match, and the second extent is not moved. *)
Lemma C3_uniform_matcher_witness :
  SynchronizeGridExtents_ImageData vtkMath_Dot vtkMath_SquaredNorm vtkMath_Dot4
    vtkMathUtilities_NearlyEqual cube_image (unit_image (MkExtent 4 8 0 4 0 4) 3)
  = Some (MkExtent 4 8 0 4 0 4).
Proof.
  destruct (C3_uniform_matcher vtkMath_Dot vtkMath_SquaredNorm vtkMath_Dot4
              vtkMathUtilities_NearlyEqual cube_image (unit_image (MkExtent 4 8 0 4 0 4) 3))
    as [_ [Hnone | (shifted & Hsome & _)]].
  - vm_compute in Hnone. discriminate Hnone.
  - rewrite Hsome. vm_compute in Hsome. symmetry. exact Hsome.
Defined.

(** The claim as stated fails on a remote extent with [min > max]: the
    matcher returns no match although the dimensions are equal, the spacings
    pass [NearlyEqual] and the quaternions agree. *)
Lemma C3_counterexample :
  let result :=
    SynchronizeGridExtents_ImageData vtkMath_Dot vtkMath_SquaredNorm vtkMath_Dot4
      vtkMathUtilities_NearlyEqual cube_image inverted_image in
  ~ (result = None
     <-> GridBlockStructure.DataDimension (ImageDataBlockStructure.base inverted_image)
         <> GridBlockStructure.DataDimension (ImageDataBlockStructure.base cube_image)
         \/ vtkMathUtilities_NearlyEqual
              (vtkMath_Dot (ImageDataBlockStructure.Spacing inverted_image)
                 (ImageDataBlockStructure.Spacing cube_image))
              (vtkMath_SquaredNorm (ImageDataBlockStructure.Spacing cube_image)) = false
         \/ PrimFloat.ltb
              (PrimFloat.abs
                 (vtkMath_Dot4 (ImageDataBlockStructure.OrientationQuaternion inverted_image)
                    (ImageDataBlockStructure.OrientationQuaternion cube_image) - 1)%float)
              VTK_DBL_EPSILON = false).
Proof.
  intros result [Hrejects _].
  assert (result = None) as Hnone by (vm_compute; reflexivity).
  destruct (Hrejects Hnone) as [Hdim | [Hspacing | Hquaternion]].
  - apply Hdim. reflexivity.
  - vm_compute in Hspacing. discriminate Hspacing.
  - vm_compute in Hquaternion. discriminate Hquaternion.
Qed.

(** ** C4: the matcher of rectilinear grids *)

Lemma neqb_true (a b : Z) : neqb a b = true <-> a <> b.
Proof. unfold neqb. rewrite negb_true_iff. apply Z.eqb_neq. Qed.

Lemma neqb_false (a b : Z) : neqb a b = false <-> a = b.
Proof. unfold neqb. rewrite negb_false_iff. apply Z.eqb_eq. Qed.

Section RectilinearProperties.
Context {V : Type} `{Comparator V}.
Import RectilinearGridFittingWorker.

Lemma SubArraysAreEqual_worker (w : t) (lowerArray upperArray : list V) (lowerId : Z) :
  let '(equal, w') := SubArraysAreEqual w lowerArray upperArray lowerId in
  if equal then Overlaps w' = true else w' = w.
Proof.
  unfold SubArraysAreEqual.
  destruct (bounded_while _ _ _ _) as [lowerId' upperId'].
  destruct (lowerId' =? GetNumberOfTuples lowerArray); reflexivity.
Qed.

Lemma FitArrays_no_overlap (lowerMaxArray upperMaxArray : list V) :
  Overlaps (FitArrays init lowerMaxArray upperMaxArray) = false ->
  FitArrays init lowerMaxArray upperMaxArray = init.
Proof.
  unfold FitArrays.
  set (lowerMinArray := if greater _ _ then upperMaxArray else lowerMaxArray).
  set (upperMinArray := if less _ _ then upperMaxArray else lowerMaxArray).
  set (id := bounded_while _ _ _ _).
  pose proof (SubArraysAreEqual_worker init lowerMinArray upperMinArray id) as Hsub.
  destruct (SubArraysAreEqual init lowerMinArray upperMinArray id) as [[|] w].
  - destruct (greater _ _); cbn [Overlaps]; rewrite Hsub; discriminate.
  - intros _. exact Hsub.
Qed.

(** A fitter that reports no overlap has kept the values its fields were
    initialised with. *)
Lemma fit_no_overlap (array localArray : list V) :
  Overlaps (fit array localArray) = false ->
  MinId (fit array localArray) = 0 /\ MaxId (fit array localArray) = -1.
Proof.
  unfold fit. destruct (greater _ _).
  - intros Hno. rewrite (FitArrays_no_overlap _ _ Hno). split; reflexivity.
  - cbn [Overlaps MinId MaxId]. intros Hno.
    rewrite (FitArrays_no_overlap _ _ Hno). split; reflexivity.
Qed.
End RectilinearProperties.

(** C4 (amended). The rectilinear-grid matcher declares two blocks matched
    exactly when their data dimensions are equal, the remote extent has
    [min <= max] on every axis, and all three axis fitters report an overlap
    (a fitter that reports none has [MinId = 0] and [MaxId = -1], so the
    degenerate-overlap alternative of the test never applies). On a match
    the remote extent is translated, on each axis, by
    [localExtent[2a] + LocalMinId - remoteExtent[2a] - MinId], where [MinId]
    and [LocalMinId] are the fitter's indices into the remote and the local
    array. *)
Theorem C4_rectilinear_matcher :
  forall (V : Type) (comparator : Comparator V)
         (localBlockStructure blockStructure : RectilinearGridBlockStructure.t V),
    let localGrid := RectilinearGridBlockStructure.base localBlockStructure in
    let remoteGrid := RectilinearGridBlockStructure.base blockStructure in
    let extent := GridBlockStructure.Extent remoteGrid in
    let localExtent := GridBlockStructure.Extent localGrid in
    let worker := fun a : Axis =>
      match a with
      | AxisX => fit (RectilinearGridBlockStructure.XCoordinates blockStructure)
                   (RectilinearGridBlockStructure.XCoordinates localBlockStructure)
      | AxisY => fit (RectilinearGridBlockStructure.YCoordinates blockStructure)
                   (RectilinearGridBlockStructure.YCoordinates localBlockStructure)
      | AxisZ => fit (RectilinearGridBlockStructure.ZCoordinates blockStructure)
                   (RectilinearGridBlockStructure.ZCoordinates localBlockStructure)
      end in
    let shift := fun a : Axis =>
      axis_min localExtent a + RectilinearGridFittingWorker.LocalMinId (worker a)
      - axis_min extent a - RectilinearGridFittingWorker.MinId (worker a) in
    let result := SynchronizeGridExtents_RectilinearGrid localBlockStructure blockStructure in
    ((exists shiftedExtent, result = Some shiftedExtent)
     <-> GridBlockStructure.DataDimension localGrid = GridBlockStructure.DataDimension remoteGrid
         /\ IsExtentValid extent = true
         /\ forall a : Axis, RectilinearGridFittingWorker.Overlaps (worker a) = true)
    /\ (result = None
        \/ exists shiftedExtent,
             result = Some shiftedExtent
             /\ forall a : Axis,
                  axis_min shiftedExtent a = axis_min extent a + shift a
                  /\ axis_max shiftedExtent a = axis_max extent a + shift a).
Proof.
  intros V comparator localBS bs localGrid remoteGrid extent localExtent worker shift result.
  subst result. unfold SynchronizeGridExtents_RectilinearGrid.
  fold localGrid remoteGrid. fold extent localExtent.
  change (fit (RectilinearGridBlockStructure.XCoordinates bs)
            (RectilinearGridBlockStructure.XCoordinates localBS)) with (worker AxisX).
  change (fit (RectilinearGridBlockStructure.YCoordinates bs)
            (RectilinearGridBlockStructure.YCoordinates localBS)) with (worker AxisY).
  change (fit (RectilinearGridBlockStructure.ZCoordinates bs)
            (RectilinearGridBlockStructure.ZCoordinates localBS)) with (worker AxisZ).
  rewrite <- !orb_assoc, (orb_assoc (extent.[0] >? extent.[1])), (link_block_guard extent).
  destruct (neqb (GridBlockStructure.DataDimension localGrid)
              (GridBlockStructure.DataDimension remoteGrid)) eqn:Hdim; cbn [orb].
  { apply neqb_true in Hdim. split; [| left; reflexivity].
    split; [intros [s Hs]; discriminate Hs | intros [Hd _]; contradiction]. }
  apply neqb_false in Hdim.
  destruct (IsExtentValid extent) eqn:Hvalid; cbn [negb].
  2: { split; [| left; reflexivity].
       split; [intros [s Hs]; discriminate Hs | intros (_ & Hv & _); discriminate Hv]. }
  assert (forall a, RectilinearGridFittingWorker.Overlaps (worker a) = false ->
                    neqb (RectilinearGridFittingWorker.MinId (worker a))
                      (RectilinearGridFittingWorker.MaxId (worker a)) = true) as Hinit.
  { intros a Hno. unfold worker in Hno |- *. destruct a;
      destruct (fit_no_overlap _ _ Hno) as [-> ->]; reflexivity. }
  destruct (RectilinearGridFittingWorker.Overlaps (worker AxisX)) eqn:Hx;
    [| rewrite (Hinit AxisX Hx)];
    (destruct (RectilinearGridFittingWorker.Overlaps (worker AxisY)) eqn:Hy;
       [| rewrite (Hinit AxisY Hy)]);
    (destruct (RectilinearGridFittingWorker.Overlaps (worker AxisZ)) eqn:Hz;
       [| rewrite (Hinit AxisZ Hz)]);
    cbn [negb orb andb]; rewrite ?orb_true_r; cbn [andb].
  1: { split.
       - split; [intros _ | eauto].
         split; [exact Hdim |]. split; [reflexivity |]. intros a; destruct a; assumption.
       - right. eexists. split; [reflexivity |].
         intros a; destruct a; subst shift; cbn [axis_min axis_max ext_at ext0 ext1 ext2
           ext3 ext4 ext5 v0 v1 v2]; split; lia. }
  all: split; [| left; reflexivity];
    (split; [intros [s Hs]; discriminate Hs |]); intros (_ & _ & Hall);
    first [ specialize (Hall AxisX); congruence
          | specialize (Hall AxisY); congruence
          | specialize (Hall AxisZ); congruence ].
Qed.

(** The two blocks side by side: they match, and the extent [[0,2]x[0,3]] of
    the right one becomes [[2,4]x[0,3]] in the frame of the left one. *)
Lemma C4_rectilinear_matcher_witness :
  SynchronizeGridExtents_RectilinearGrid rectilinear_left rectilinear_right
  = Some (MkExtent 2 4 0 3 0 0).
Proof.
  destruct (C4_rectilinear_matcher Z Comparator_true rectilinear_left rectilinear_right)
    as [_ [Hnone | (shifted & Hsome & _)]].
  - vm_compute in Hnone. discriminate Hnone.
  - rewrite Hsome. vm_compute in Hsome. symmetry. exact Hsome.
Defined.

(** The claim as stated fails twice. All three fitters report an overlap
    between [rectilinear_left_3d] and [rectilinear_right], and yet they do
    not match, their data dimensions being 3 and 2. And where
    [rectilinear_left] and [rectilinear_right] match, the overlap starts at
    index 2 of the local x coordinates and at index 0 of the remote ones, and
    the remote extent is moved by [+2] on the x axis, not by
    [localExtent[0] + remoteMinId - remoteExtent[0] - localMinId = -2]. *)
Lemma C4_counterexample :
  let worker := fun (localBlockStructure blockStructure : RectilinearGridBlockStructure.t Z)
                    (a : Axis) =>
    match a with
    | AxisX => fit (RectilinearGridBlockStructure.XCoordinates blockStructure)
                 (RectilinearGridBlockStructure.XCoordinates localBlockStructure)
    | AxisY => fit (RectilinearGridBlockStructure.YCoordinates blockStructure)
                 (RectilinearGridBlockStructure.YCoordinates localBlockStructure)
    | AxisZ => fit (RectilinearGridBlockStructure.ZCoordinates blockStructure)
                 (RectilinearGridBlockStructure.ZCoordinates localBlockStructure)
    end in
  ~ ((exists shiftedExtent,
        SynchronizeGridExtents_RectilinearGrid rectilinear_left_3d rectilinear_right
        = Some shiftedExtent)
     <-> (forall a, RectilinearGridFittingWorker.Overlaps
                      (worker rectilinear_left_3d rectilinear_right a) = true)
         \/ (forall a,
               RectilinearGridFittingWorker.Overlaps
                 (worker rectilinear_left_3d rectilinear_right a) = false
               <-> RectilinearGridFittingWorker.MinId
                     (worker rectilinear_left_3d rectilinear_right a)
                   = RectilinearGridFittingWorker.MaxId
                       (worker rectilinear_left_3d rectilinear_right a)))
  /\ (let xWorker := worker rectilinear_left rectilinear_right AxisX in
      let remoteMinId := RectilinearGridFittingWorker.MinId xWorker in
      let localMinId := RectilinearGridFittingWorker.LocalMinId xWorker in
      let localExtent :=
        GridBlockStructure.Extent (RectilinearGridBlockStructure.base rectilinear_left) in
      let remoteExtent :=
        GridBlockStructure.Extent (RectilinearGridBlockStructure.base rectilinear_right) in
      remoteMinId = 0 /\ localMinId = 2
      /\ GetCoordinate (RectilinearGridBlockStructure.XCoordinates rectilinear_right)
           remoteMinId
         = GetCoordinate (RectilinearGridBlockStructure.XCoordinates rectilinear_left)
             localMinId
      /\ exists shiftedExtent,
           SynchronizeGridExtents_RectilinearGrid rectilinear_left rectilinear_right
           = Some shiftedExtent
           /\ shiftedExtent.[0] - remoteExtent.[0] = 2
           /\ shiftedExtent.[0] - remoteExtent.[0]
              <> localExtent.[0] + remoteMinId - remoteExtent.[0] - localMinId).
Proof.
  intros worker. split.
  - intros [_ Hmatch].
    destruct Hmatch as [shifted Hshifted].
    + left. intros a; destruct a; vm_compute; reflexivity.
    + vm_compute in Hshifted. discriminate Hshifted.
  - cbv zeta. split; [vm_compute; reflexivity |]. split; [vm_compute; reflexivity |].
    split; [vm_compute; reflexivity |].
    exists (MkExtent 2 4 0 3 0 0).
    split; [vm_compute; reflexivity |]. split; [vm_compute; reflexivity |].
    vm_compute. discriminate.
Qed.

(** ** C8: a block with an invalid extent *)

Lemma fold_left_append {A B : Type} (F : B -> list A) (body : list A -> B -> list A)
    (l : list B) (acc : list A) :
  (forall acc x, body acc x = acc ++ F x) ->
  fold_left body l acc = acc ++ flat_map F l.
Proof.
  intros Hbody. revert acc.
  induction l as [|x l IH]; intros acc; cbn [fold_left flat_map].
  - rewrite app_nil_r. reflexivity.
  - rewrite IH, Hbody, <- app_assoc. reflexivity.
Qed.

Lemma enqueue_ImageData_flat_map (V : Type) (myBlockId : Z) (out_link : list Z)
    (dimension : Z) (origin spacing : VectorType) (q : QuaternionType) (extent : ExtentType) :
  enqueue_ImageData (V := V) myBlockId out_link dimension origin spacing q extent
  = flat_map (fun gid =>
      if neqb gid myBlockId then
        [(gid, IntBuffer [dimension]);
         (gid, DoubleBuffer [v0 origin; v1 origin; v2 origin]);
         (gid, DoubleBuffer [v0 spacing; v1 spacing; v2 spacing]);
         (gid, DoubleBuffer [q0 q; q1 q; q2 q; q3 q]);
         (gid, IntBuffer (extent_values extent))]
      else []) out_link.
Proof.
  unfold enqueue_ImageData. rewrite fold_left_append with (F := fun gid =>
      if neqb gid myBlockId then
        [(gid, IntBuffer [dimension]);
         (gid, DoubleBuffer [v0 origin; v1 origin; v2 origin]);
         (gid, DoubleBuffer [v0 spacing; v1 spacing; v2 spacing]);
         (gid, DoubleBuffer [q0 q; q1 q; q2 q; q3 q]);
         (gid, IntBuffer (extent_values extent))]
      else []); [reflexivity |].
  intros acc gid. destruct (neqb gid myBlockId); [reflexivity |].
  rewrite app_nil_r. reflexivity.
Qed.

Lemma enqueue_RectilinearGrid_flat_map (V : Type) (myBlockId : Z) (out_link : list Z)
    (dimension : Z) (extent : ExtentType) (xCoordinates yCoordinates zCoordinates : list V) :
  enqueue_RectilinearGrid myBlockId out_link dimension extent xCoordinates yCoordinates
    zCoordinates
  = flat_map (fun gid =>
      if neqb gid myBlockId then
        [(gid, IntBuffer [dimension]);
         (gid, IntBuffer (extent_values extent));
         (gid, ArrayBuffer xCoordinates);
         (gid, ArrayBuffer yCoordinates);
         (gid, ArrayBuffer zCoordinates)]
      else []) out_link.
Proof.
  unfold enqueue_RectilinearGrid. rewrite fold_left_append with (F := fun gid =>
      if neqb gid myBlockId then
        [(gid, IntBuffer [dimension]);
         (gid, IntBuffer (extent_values extent));
         (gid, ArrayBuffer xCoordinates);
         (gid, ArrayBuffer yCoordinates);
         (gid, ArrayBuffer zCoordinates)]
      else []); [reflexivity |].
  intros acc gid. destruct (neqb gid myBlockId); [reflexivity |].
  rewrite app_nil_r. reflexivity.
Qed.

(** C8 (amended). For every block whose extent has [min > max] on some axis:
    link-map computation clears the block's [BlockStructures], gives it no
    link and no output extent, logs no error and leaves its information as
    it was; the descriptor round is not guarded, so the block still enqueues
    its extent, invalid as it is, for every other block of its out-link, on
    uniform and on rectilinear grids alike; and the matchers of the peers
    return no match for a remote extent with [min > max], so that no peer
    links to the block. *)
Theorem C8_block_with_invalid_extent :
  forall (BS : Type) (family : GridBlock BS) (outputGhostLevels : Z)
         (localBlockStructure : BS) (dim : Z) (block : Block BS),
    IsExtentValid (GridInformation.Extent (Information block)) = false ->
    let extent := GridInformation.Extent (Information block) in
    let linked := link_block outputGhostLevels localBlockStructure dim block in
    (BlockStructures (linked_block linked) = []
     /\ linked_links linked = ∅
     /\ linked_output_extent linked = None
     /\ linked_errors linked = 0%nat
     /\ Information (linked_block linked) = Information block)
    /\ (forall (V : Type) (myBlockId : Z) (out_link : list Z) (dimension : Z)
               (origin spacing : VectorType) (q : QuaternionType) (gid : Z),
          gid ∈ out_link -> gid <> myBlockId ->
          (gid, IntBuffer (extent_values extent))
          ∈ enqueue_ImageData (V := V) myBlockId out_link dimension origin spacing q extent)
    /\ (forall (V : Type) (myBlockId : Z) (out_link : list Z) (dimension : Z)
               (xCoordinates yCoordinates zCoordinates : list V) (gid : Z),
          gid ∈ out_link -> gid <> myBlockId ->
          (gid, IntBuffer (extent_values extent))
          ∈ enqueue_RectilinearGrid myBlockId out_link dimension extent xCoordinates
              yCoordinates zCoordinates)
    /\ (forall (Dot : VectorType -> VectorType -> float) (SquaredNorm : VectorType -> float)
               (Dot4 : QuaternionType -> QuaternionType -> float)
               (NearlyEqual : float -> float -> bool)
               (peer remote : ImageDataBlockStructure.t),
          GridBlockStructure.Extent (ImageDataBlockStructure.base remote) = extent ->
          SynchronizeGridExtents_ImageData Dot SquaredNorm Dot4 NearlyEqual peer remote = None)
    /\ (forall (V : Type) (comparator : Comparator V)
               (peer remote : RectilinearGridBlockStructure.t V),
          GridBlockStructure.Extent (RectilinearGridBlockStructure.base remote) = extent ->
          SynchronizeGridExtents_RectilinearGrid peer remote = None).
Proof.
  intros BS family G localBS dim block Hinvalid extent linked.
  split.
  { subst linked. unfold link_block. rewrite link_block_guard, Hinvalid. cbn.
    destruct block as [info structures cells points]. repeat split. }
  split.
  { intros V me out_link dimension origin spacing q gid Hin Hne.
    rewrite enqueue_ImageData_flat_map. apply list_elem_of_In, in_flat_map.
    exists gid. split; [apply list_elem_of_In; exact Hin |].
    unfold neqb. rewrite (proj2 (Z.eqb_neq gid me) Hne). cbn [negb].
    do 4 right. left. reflexivity. }
  split.
  { intros V me out_link dimension xs ys zs gid Hin Hne.
    rewrite enqueue_RectilinearGrid_flat_map. apply list_elem_of_In, in_flat_map.
    exists gid. split; [apply list_elem_of_In; exact Hin |].
    unfold neqb. rewrite (proj2 (Z.eqb_neq gid me) Hne). cbn [negb].
    right. left. reflexivity. }
  split.
  { intros Dot SquaredNorm Dot4 NearlyEqual peer remote Hextent.
    unfold SynchronizeGridExtents_ImageData.
    rewrite Hextent, (link_block_guard extent). subst extent. rewrite Hinvalid.
    reflexivity. }
  intros V comparator peer remote Hextent.
  unfold SynchronizeGridExtents_RectilinearGrid.
  rewrite Hextent, <- !orb_assoc, (orb_assoc (extent.[0] >? extent.[1])),
    (link_block_guard extent).
  subst extent. rewrite Hinvalid, orb_true_r. reflexivity.
Qed.

(** [inverted_block], with the descriptor of block 1 in its map: the map is
    cleared, and block 1 is still sent the extent [[1,0]x[0,0]x[0,0]]. *)
Lemma C8_block_with_invalid_extent_witness :
  IsExtentValid (GridInformation.Extent (Information inverted_block)) = false
  /\ BlockStructures
       (linked_block (link_block 1 (unit_image (MkExtent 1 0 0 0 0 0) 3) 3 inverted_block))
     = []
  /\ (1, IntBuffer [1; 0; 0; 0; 0; 0])
     ∈ enqueue_ImageData (V := Z) 0 [0; 1] 3 (MkVec3 0 0 0)%float (MkVec3 1 1 1)%float
         (MkVec4 1 0 0 0)%float (MkExtent 1 0 0 0 0 0).
Proof.
  pose proof (C8_block_with_invalid_extent _ _ 1 (unit_image (MkExtent 1 0 0 0 0 0) 3) 3
                inverted_block eq_refl) as (Hcleared & Hsent & _).
  split; [reflexivity |]. split; [exact (proj1 Hcleared) |].
  apply (Hsent Z 0 [0; 1] 3 (MkVec3 0 0 0)%float (MkVec3 1 1 1)%float
           (MkVec4 1 0 0 0)%float 1).
  - right; left.
  - discriminate.
Defined.

(** The claim as stated fails in the descriptor round: a block 0 whose
    extent has [min > max] enqueues five buffers for block 1, and dequeues
    and stores the descriptor block 1 enqueued for it. *)
Lemma C8_counterexample :
  let extent := MkExtent 1 0 0 0 0 0 in
  let sent :=
    enqueue_ImageData (V := Z) 0 [0; 1] 3 (MkVec3 0 0 0)%float (MkVec3 1 1 1)%float
      (MkVec4 1 0 0 0)%float extent in
  let received := dequeue_ImageData 0 [0; 1] queue_from_block_1 [] in
  IsExtentValid extent = false
  /\ length sent = 5%nat
  /\ received = Some [(1, cube_image)]
  /\ ~ (sent = [] /\ received = Some []).
Proof.
  cbv zeta. split; [reflexivity |]. split; [reflexivity |].
  split; [vm_compute; reflexivity |].
  intros [Hsent _]. vm_compute in Hsent. discriminate Hsent.
Qed.

(** * Further properties *)

(** ** Loops *)

Lemma while_loop_terminates {S : Type} (cond : S -> bool) (body : S -> S) (measure : S -> nat) :
  (forall s, cond s = true -> (measure (body s) < measure s)%nat) ->
  forall (fuel : nat) (s : S),
    (measure s < fuel)%nat -> exists s', while_loop cond body fuel s = Some s'.
Proof.
  intros Hdecrease fuel. induction fuel as [|fuel IH]; intros s Hfuel; [lia |].
  cbn [while_loop]. destruct (cond s) eqn:Hcond; [| eauto].
  apply IH. specialize (Hdecrease s Hcond). lia.
Qed.

Lemma while_loop_invariant {S : Type} (cond : S -> bool) (body : S -> S) (I : S -> Prop) :
  (forall s, I s -> cond s = true -> I (body s)) ->
  forall (fuel : nat) (s s' : S),
    I s -> while_loop cond body fuel s = Some s' -> I s' /\ cond s' = false.
Proof.
  intros Hbody fuel. induction fuel as [|fuel IH]; intros s s' HI Hloop; [discriminate |].
  cbn [while_loop] in Hloop. destruct (cond s) eqn:Hcond.
  - apply (IH (body s)); auto.
  - injection Hloop as <-. auto.
Qed.

(** ** Cursors *)

Lemma vget_vset_same {A : Type} (v : Vec3 A) (d : Axis) (x : A) : vget (vset v d x) d = x.
Proof. destruct d; reflexivity. Qed.

Lemma vget_vset_other {A : Type} (v : Vec3 A) (d a : Axis) (x : A) :
  a <> d -> vget (vset v d x) a = vget v a.
Proof. destruct d, a; intros Hne; try reflexivity; congruence. Qed.

Lemma vec3_ext {A : Type} (v w : Vec3 A) : (forall a, vget v a = vget w a) -> v = w.
Proof.
  intros Hall. destruct v, w.
  pose proof (Hall AxisX) as H0. pose proof (Hall AxisY) as H1. pose proof (Hall AxisZ) as H2.
  cbn in H0, H1, H2. congruence.
Qed.

Section PeelLoopProperties.
Variable ghost : Vec3 Z -> bool.
Variables (fwd back : Z -> Z) (room : Z -> Z -> bool).

Lemma peel_step_other (ijk : Vec3 Z) (lock : Vec3 bool) (d a : Axis) :
  a <> d ->
  vget (fst (peel_step ghost fwd back (ijk, lock) d)) a = vget ijk a
  /\ vget (snd (peel_step ghost fwd back (ijk, lock) d)) a = vget lock a.
Proof.
  intros Hne. unfold peel_step.
  destruct (vget lock d); cbn [negb]; [auto |].
  destruct (ghost _); cbn [fst snd]; rewrite ?vget_vset_other by exact Hne; auto.
Qed.

Lemma peel_step_cases (ijk : Vec3 Z) (lock : Vec3 bool) (d : Axis) :
  let s' := peel_step ghost fwd back (ijk, lock) d in
  (vget lock d = true /\ vget (fst s') d = vget ijk d /\ vget (snd s') d = true)
  \/ (vget lock d = false /\ ghost (vset ijk d (fwd (vget ijk d))) = true
      /\ vget (fst s') d = back (fwd (vget ijk d)) /\ vget (snd s') d = true)
  \/ (vget lock d = false /\ ghost (vset ijk d (fwd (vget ijk d))) = false
      /\ vget (fst s') d = fwd (vget ijk d) /\ vget (snd s') d = false).
Proof.
  cbv zeta. unfold peel_step.
  destruct (vget lock d) eqn:Hlock; cbn [negb fst snd]; [left; auto |].
  destruct (ghost _) eqn:Hghost; cbn [fst snd]; rewrite ?vget_vset_same; right;
    [left | right]; auto.
Qed.

(** A turn of the loop treats the axes one after the other; what holds of
    each axis after its own step holds of all of them after the turn,
    provided the step of an axis only relies on the other cursors being in
    a range [Safe] that holds before and after their steps. *)
Lemma peel_body_axiswise (Safe : Axis -> Z -> Prop) (Q Q' : Axis -> Z -> bool -> Prop) :
  (forall a c l, Q a c l -> Safe a c) ->
  (forall a c l, Q' a c l -> Safe a c) ->
  (forall ijk lock d,
     (forall a, a <> d -> Safe a (vget ijk a)) ->
     Q d (vget ijk d) (vget lock d) ->
     Q' d (vget (fst (peel_step ghost fwd back (ijk, lock) d)) d)
       (vget (snd (peel_step ghost fwd back (ijk, lock) d)) d)) ->
  forall ijk lock,
    (forall a, Q a (vget ijk a) (vget lock a)) ->
    forall a, Q' a (vget (fst (peel_body ghost fwd back (ijk, lock))) a)
                (vget (snd (peel_body ghost fwd back (ijk, lock))) a).
Proof.
  intros HQ HQ' Hstep ijk lock HQall.
  unfold peel_body; cbn [fold_left].
  pose proof (Hstep ijk lock AxisX) as H1.
  pose proof (peel_step_other ijk lock AxisX) as O1.
  destruct (peel_step ghost fwd back (ijk, lock) AxisX) as [ijk1 lock1]; cbn [fst snd] in *.
  assert (Q' AxisX (vget ijk1 AxisX) (vget lock1 AxisX)) as HX.
  { apply H1; [| apply HQall]. intros a Ha. eapply HQ, HQall. }
  pose proof (Hstep ijk1 lock1 AxisY) as H2.
  pose proof (peel_step_other ijk1 lock1 AxisY) as O2.
  destruct (peel_step ghost fwd back (ijk1, lock1) AxisY) as [ijk2 lock2]; cbn [fst snd] in *.
  assert (Q' AxisY (vget ijk2 AxisY) (vget lock2 AxisY)) as HY.
  { apply H2.
    - intros a Ha. destruct a; [eapply HQ'; exact HX | congruence |].
      destruct (O1 AxisZ ltac:(discriminate)) as [-> _]. eapply HQ, HQall.
    - destruct (O1 AxisY ltac:(discriminate)) as [-> ->]. apply HQall. }
  pose proof (Hstep ijk2 lock2 AxisZ) as H3.
  pose proof (peel_step_other ijk2 lock2 AxisZ) as O3.
  destruct (peel_step ghost fwd back (ijk2, lock2) AxisZ) as [ijk3 lock3]; cbn [fst snd] in *.
  assert (Q' AxisZ (vget ijk3 AxisZ) (vget lock3 AxisZ)) as HZ.
  { apply H3.
    - intros a Ha. destruct a; [| eapply HQ'; exact HY | congruence].
      destruct (O2 AxisX ltac:(discriminate)) as [-> _]. eapply HQ'; exact HX.
    - destruct (O2 AxisZ ltac:(discriminate)) as [-> ->].
      destruct (O1 AxisZ ltac:(discriminate)) as [-> ->]. apply HQall. }
  intros a; destruct a.
  - destruct (O3 AxisX ltac:(discriminate)) as [-> ->].
    destruct (O2 AxisX ltac:(discriminate)) as [-> ->]. exact HX.
  - destruct (O3 AxisY ltac:(discriminate)) as [-> ->]. exact HY.
  - exact HZ.
Qed.
End PeelLoopProperties.

Section PeelDirected.
Variable ghost : Vec3 Z -> bool.
Variables (fwd back : Z -> Z) (room : Z -> Z -> bool).
Variables (dir : Z) (bound start : Vec3 Z) (lock0 : Vec3 bool).
Hypothesis Hdir : dir = 1 \/ dir = -1.
Hypothesis Hfwd : forall c, fwd c = c + dir.
Hypothesis Hback : forall c, back c = c - dir.
Hypothesis Hroom : forall b c, room b c = (0 <? dir * (b - c)).

Lemma peel_cond_true (ijk : Vec3 Z) (lock : Vec3 bool) :
  peel_cond ghost room bound (ijk, lock) = true ->
  (exists a, vget lock a = false)
  /\ (forall a, vget lock a = false -> 0 < dir * (vget bound a - vget ijk a))
  /\ ghost ijk = false.
Proof.
  unfold peel_cond. rewrite !andb_true_iff, !orb_true_iff, !negb_true_iff, !Hroom, !Z.ltb_lt.
  intros ((((Hsome & H0) & H1) & H2) & Hghost). split; [| split; [| exact Hghost]].
  - destruct Hsome as [[Hsome | Hsome] | Hsome];
      [exists AxisX | exists AxisY | exists AxisZ]; exact Hsome.
  - intros a Ha. destruct a; cbn [vget] in *;
      [destruct H0 | destruct H1 | destruct H2]; congruence || assumption.
Qed.

Lemma peel_cond_false (ijk : Vec3 Z) (lock : Vec3 bool) :
  peel_cond ghost room bound (ijk, lock) = false ->
  (forall a, vget lock a = true)
  \/ (exists a, vget lock a = false /\ dir * (vget bound a - vget ijk a) <= 0)
  \/ ghost ijk = true.
Proof.
  unfold peel_cond. rewrite !Hroom.
  destruct (v0 lock) eqn:L0, (v1 lock) eqn:L1, (v2 lock) eqn:L2; cbn [negb orb andb];
    try (intros _; left; intros a; destruct a; assumption);
    repeat match goal with
           | |- context [0 <? ?x] => destruct (Z.ltb_spec 0 x); cbn [andb]
           end;
    try (intros Hg; apply negb_false_iff in Hg; right; right; exact Hg);
    intros _; right; left;
    first [ exists AxisX; split; [assumption | cbn [vget]; lia]
          | exists AxisY; split; [assumption | cbn [vget]; lia]
          | exists AxisZ; split; [assumption | cbn [vget]; lia] ].
Qed.

(** *** The loops come to an end *)

Lemma peel_body_decreases (s : Vec3 Z * Vec3 bool) :
  peel_cond ghost room bound s = true ->
  (peel_measure dir bound (peel_body ghost fwd back s) < peel_measure dir bound s)%nat.
Proof.
  destruct s as [ijk lock]. intros Hcond.
  apply peel_cond_true in Hcond as ((u & Hu) & Hroom' & _).
  pose proof (peel_body_axiswise ghost fwd back (fun _ _ => True)
                (fun a c l => c = vget ijk a /\ l = vget lock a)
                (fun a c l =>
                   (axis_measure dir bound a c l <= axis_measure dir bound a (vget ijk a) (vget lock a))%nat
                   /\ (vget lock a = false ->
                       (axis_measure dir bound a c l < axis_measure dir bound a (vget ijk a) (vget lock a))%nat))
                (fun _ _ _ _ => I) (fun _ _ _ _ => I)) as Haxis.
  assert (forall a,
            (axis_measure dir bound a (vget (fst (peel_body ghost fwd back (ijk, lock))) a)
               (vget (snd (peel_body ghost fwd back (ijk, lock))) a)
             <= axis_measure dir bound a (vget ijk a) (vget lock a))%nat
            /\ (vget lock a = false ->
                (axis_measure dir bound a (vget (fst (peel_body ghost fwd back (ijk, lock))) a)
                   (vget (snd (peel_body ghost fwd back (ijk, lock))) a)
                 < axis_measure dir bound a (vget ijk a) (vget lock a))%nat)) as Hall.
  { apply Haxis; [| auto].
    intros ijk' lock' d _ [Hc Hl].
    destruct (peel_step_cases ghost fwd back ijk' lock' d)
      as [(Hlock & -> & ->) | [(Hlock & _ & -> & ->) | (Hlock & _ & -> & ->)]];
      rewrite <- Hl, <- Hc, Hlock.
    - split; [lia | discriminate].
    - unfold axis_measure. split; intros; lia.
    - rewrite Hl in Hlock. specialize (Hroom' d Hlock). rewrite <- Hc in Hroom'.
      unfold axis_measure. rewrite Hfwd. split; intros; lia. }
  unfold peel_measure; cbn [fst snd].
  pose proof (Hall AxisX) as [HX HX']. pose proof (Hall AxisY) as [HY HY'].
  pose proof (Hall AxisZ) as [HZ HZ']. cbn [vget] in *.
  destruct u; cbn [vget] in Hu;
    [specialize (HX' Hu) | specialize (HY' Hu) | specialize (HZ' Hu)]; lia.
Qed.

Lemma peel_loop_terminates (fuel : nat) (s : Vec3 Z * Vec3 bool) :
  (peel_measure dir bound s < fuel)%nat ->
  exists s', while_loop (peel_cond ghost room bound) (peel_body ghost fwd back) fuel s = Some s'.
Proof. apply while_loop_terminates, peel_body_decreases. Qed.

(** *** The cursor stays between its start and its bound *)

Hypothesis Hstart : forall a, 0 <= dir * (vget bound a - vget start a).

Lemma peel_loop_within (fuel : nat) (s' : Vec3 Z * Vec3 bool) :
  while_loop (peel_cond ghost room bound) (peel_body ghost fwd back) fuel (start, lock0)
  = Some s' ->
  forall a, within dir bound start lock0 a (vget (fst s') a) (vget (snd s') a).
Proof.
  intros Hloop.
  apply (while_loop_invariant _ _
           (fun s => forall a, within dir bound start lock0 a (vget (fst s) a) (vget (snd s) a)))
    in Hloop as [Hfinal _]; [exact Hfinal | |].
  - intros [ijk lock] Hinv Hcond. cbn [fst snd] in Hinv.
    apply peel_cond_true in Hcond as (_ & Hroom' & _).
    apply (peel_body_axiswise ghost fwd back (fun _ _ => True)
             (fun a c l => within dir bound start lock0 a c l /\ (l = false -> 0 < dir * (vget bound a - c)))
             (within dir bound start lock0)); [auto | auto | | auto].
    intros ijk' lock' d _ [[Hrange Hlocked] Hroom''].
    destruct (peel_step_cases ghost fwd back ijk' lock' d)
      as [(Hlock & -> & ->) | [(Hlock & _ & -> & ->) | (Hlock & _ & -> & ->)]].
    + rewrite Hlock in Hlocked. split; assumption.
    + assert (vget lock0 d = true -> False) as Hfree
        by (intros Hl; destruct (Hlocked Hl); congruence).
      rewrite Hback, Hfwd. split; [lia | intros Hl; tauto].
    + assert (vget lock0 d = true -> False) as Hfree
        by (intros Hl; destruct (Hlocked Hl); congruence).
      specialize (Hroom'' Hlock). rewrite Hfwd. split; [lia | intros Hl; tauto].
  - intros a. cbn [fst snd]. split; [specialize (Hstart a); lia | auto].
Qed.
End PeelDirected.

(** ** The ghost peeler *)

Lemma gtb_room (b c : Z) : (c >? b) = (0 <? -1 * (b - c)).
Proof. rewrite Z.gtb_ltb. destruct (Z.ltb_spec b c), (Z.ltb_spec 0 (-1 * (b - c))); lia. Qed.

Lemma ltb_room (b c : Z) : (c <? b) = (0 <? 1 * (b - c)).
Proof. destruct (Z.ltb_spec c b), (Z.ltb_spec 0 (1 * (b - c))); lia. Qed.

Lemma peel_fuel_enough (dir : Z) (ijk bound : Vec3 Z) (lock : Vec3 bool) :
  dir = 1 \/ dir = -1 ->
  (peel_measure dir bound (ijk, lock) < peel_fuel ijk bound)%nat.
Proof.
  intros Hdir. unfold peel_measure, peel_fuel, axis_measure; cbn [fst snd vget].
  destruct (v0 lock), (v1 lock), (v2 lock), Hdir as [-> | ->]; lia.
Qed.

Section PeelProperties.
Variable ComputeCellIdForExtent : ExtentType -> Vec3 Z -> Z.
Variables (extent : ExtentType) (ghosts : list Z) (ghostLevel : Z).

(** The bounds, the start cursors and the locks of the two loops. *)
Let mins : Vec3 Z := MkVec3 extent.[0] extent.[2] extent.[4].
Let maxs : Vec3 Z :=
  MkVec3 (Z.max extent.[1] (extent.[0] + 1) - 1) (Z.max extent.[3] (extent.[2] + 1) - 1)
    (Z.max extent.[5] (extent.[4] + 1) - 1).
Let lock0 : Vec3 bool :=
  MkVec3 (extent.[0] =? extent.[1]) (extent.[2] =? extent.[3]) (extent.[4] =? extent.[5]).
Let lower0 : Vec3 Z :=
  MkVec3 (Z.min (v0 mins + ghostLevel) (v0 maxs)) (Z.min (v1 mins + ghostLevel) (v1 maxs))
    (Z.min (v2 mins + ghostLevel) (v2 maxs)).
Let upper0 : Vec3 Z :=
  MkVec3 (Z.max (v0 maxs - ghostLevel) (v0 mins)) (Z.max (v1 maxs - ghostLevel) (v1 mins))
    (Z.max (v2 maxs - ghostLevel) (v2 mins)).
Let ghost : Vec3 Z -> bool := is_ghost ComputeCellIdForExtent extent ghosts.
Let lower_loop (fuel : nat) : option (Vec3 Z * Vec3 bool) :=
  while_loop (peel_cond ghost (fun b c => c >? b) mins)
    (peel_body ghost (fun c => c - 1) (fun c => c + 1)) fuel (lower0, lock0).
Let upper_loop (fuel : nat) : option (Vec3 Z * Vec3 bool) :=
  while_loop (peel_cond ghost (fun b c => c <? b) maxs)
    (peel_body ghost (fun c => c + 1) (fun c => c - 1)) fuel (upper0, lock0).

(** [PeelOffGhostLayers] in terms of the two loops: both come to an end
    within their fuel, whatever the array holds. *)
Lemma PeelOffGhostLayers_loops :
  exists lower lockL upper lockU,
    lower_loop (peel_fuel lower0 mins) = Some (lower, lockL)
    /\ upper_loop (peel_fuel upper0 maxs) = Some (upper, lockU)
    /\ PeelOffGhostLayers ComputeCellIdForExtent (MkGrid extent (Some ghosts)) ghostLevel
       = Some (MkExtent
                 (v0 lower) (v0 upper + [? neqb extent.[0] extent.[1]])
                 (v1 lower) (v1 upper + [? neqb extent.[2] extent.[3]])
                 (v2 lower) (v2 upper + [? neqb extent.[4] extent.[5]])).
Proof.
  destruct (peel_loop_terminates ghost (fun c => c - 1) (fun c => c + 1) (fun b c => c >? b)
              (-1) mins ltac:(auto) ltac:(intros; cbv beta; lia) gtb_room
              (peel_fuel lower0 mins) (lower0, lock0)
              (peel_fuel_enough (-1) lower0 mins lock0 ltac:(auto)))
    as [[lower lockL] Hlower].
  destruct (peel_loop_terminates ghost (fun c => c + 1) (fun c => c - 1) (fun b c => c <? b)
              1 maxs ltac:(auto) ltac:(intros; cbv beta; lia) ltac:(intros; apply ltb_room)
              (peel_fuel upper0 maxs) (upper0, lock0)
              (peel_fuel_enough 1 upper0 maxs lock0 ltac:(auto)))
    as [[upper lockU] Hupper].
  change (lower_loop (peel_fuel lower0 mins) = Some (lower, lockL)) in Hlower.
  change (upper_loop (peel_fuel upper0 maxs) = Some (upper, lockU)) in Hupper.
  exists lower, lockL, upper, lockU.
  split; [exact Hlower |]. split; [exact Hupper |].
  unfold PeelOffGhostLayers; cbn [GetGhostArray GetExtent].
  replace (Z.max extent.[1] (extent.[0] + 1) - 1 - ghostLevel) with (v0 maxs - ghostLevel)
    by reflexivity.
  replace (Z.max extent.[3] (extent.[2] + 1) - 1 - ghostLevel) with (v1 maxs - ghostLevel)
    by reflexivity.
  replace (Z.max extent.[5] (extent.[4] + 1) - 1 - ghostLevel) with (v2 maxs - ghostLevel)
    by reflexivity.
  change (while_loop _ _ _ (MkVec3 (Z.min _ _) _ _, _))
    with (lower_loop (peel_fuel lower0 mins)).
  rewrite Hlower.
  change (while_loop _ _ _ _) with (upper_loop (peel_fuel upper0 maxs)).
  rewrite Hupper. reflexivity.
Qed.

Hypothesis Hvalid : IsExtentValid extent = true.
Hypothesis Hlevel : 0 <= ghostLevel.

Lemma lower_loop_within (fuel : nat) (lower : Vec3 Z) (lockL : Vec3 bool) :
  lower_loop fuel = Some (lower, lockL) ->
  forall a, within (-1) mins lower0 lock0 a (vget lower a) (vget lockL a).
Proof.
  intros Hloop.
  apply (peel_loop_within ghost (fun c => c - 1) (fun c => c + 1) (fun b c => c >? b)
           (-1) mins lower0 lock0 ltac:(auto) ltac:(intros; cbv beta; lia)
           ltac:(intros; cbv beta; lia) gtb_room) with (fuel := fuel) (s' := (lower, lockL));
    [| exact Hloop].
  intros a; destruct a; cbn; lia.
Qed.

Lemma upper_loop_within (fuel : nat) (upper : Vec3 Z) (lockU : Vec3 bool) :
  upper_loop fuel = Some (upper, lockU) ->
  forall a, within 1 maxs upper0 lock0 a (vget upper a) (vget lockU a).
Proof.
  intros Hloop.
  apply (peel_loop_within ghost (fun c => c + 1) (fun c => c - 1) (fun b c => c <? b)
           1 maxs upper0 lock0 ltac:(auto) ltac:(intros; cbv beta; lia)
           ltac:(intros; cbv beta; lia) ltac:(intros; apply ltb_room))
    with (fuel := fuel) (s' := (upper, lockU)); [| exact Hloop].
  intros a; destruct a; cbn; lia.
Qed.

(** The peeled extent lies within the grid's extent, at most
    [min(ghostLevel, width - 1)] from each of its bounds, and a degenerate
    axis keeps its bounds. *)
Lemma PeelOffGhostLayers_bounds :
  exists peeled,
    PeelOffGhostLayers ComputeCellIdForExtent (MkGrid extent (Some ghosts)) ghostLevel
    = Some peeled
    /\ forall a : Axis,
         axis_min extent a <= axis_min peeled a
           <= axis_min extent a + Z.min ghostLevel (cells_along extent a - 1)
         /\ axis_max extent a - Z.min ghostLevel (cells_along extent a - 1)
              <= axis_max peeled a <= axis_max extent a
         /\ (axis_min extent a = axis_max extent a ->
             axis_min peeled a = axis_min extent a /\ axis_max peeled a = axis_max extent a).
Proof.
  destruct PeelOffGhostLayers_loops as (lower & lockL & upper & lockU & HL & HU & ->).
  eexists. split; [reflexivity |].
  pose proof (lower_loop_within _ _ _ HL) as HwL.
  pose proof (upper_loop_within _ _ _ HU) as HwU.
  pose proof (proj1 (IsExtentValid_spec extent) Hvalid) as Hle.
  intros a. specialize (HwL a). specialize (HwU a). specialize (Hle a).
  unfold within in HwL, HwU. unfold cells_along.
  destruct a; cbn [axis_min axis_max vget lock0 lower0 upper0 mins maxs v0 v1 v2
                   ext_at ext0 ext1 ext2 ext3 ext4 ext5] in *;
    revert HwL HwU; unfold neqb;
    match goal with
    | |- context [ ?x =? ?y ] => destruct (Z.eqb_spec x y)
    end; cbn [negb Z.b2z]; intros [HL1 HL2] [HU1 HU2];
    try (destruct (HL2 eq_refl) as [HL3 _]; destruct (HU2 eq_refl) as [HU3 _]); lia.
Qed.
End PeelProperties.

(** *** Where the cursor stops when the ghosts are layers *)

Section PeelExact.
Variable ghost : Vec3 Z -> bool.
Variables (fwd back : Z -> Z) (room : Z -> Z -> bool).
Variables (dir : Z) (bound start target : Vec3 Z) (lock0 : Vec3 bool).
Hypothesis Hdir : dir = 1 \/ dir = -1.
Hypothesis Hfwd : forall c, fwd c = c + dir.
Hypothesis Hback : forall c, back c = c - dir.
Hypothesis Hroom : forall b c, room b c = (0 <? dir * (b - c)).
Hypothesis Hrange :
  forall a, 0 <= dir * (vget target a - vget start a)
            /\ 0 <= dir * (vget bound a - vget target a).
Hypothesis Hlocked : forall a, vget lock0 a = true -> vget target a = vget start a.
Hypothesis Huniform :
  forall a b, vget lock0 a = false -> vget lock0 b = false ->
              dir * (vget bound a - vget start a) = dir * (vget bound b - vget start b).
Hypothesis Hsafe :
  forall ijk, (forall a, safe dir start target a (vget ijk a)) -> ghost ijk = false.
Hypothesis Hbeyond :
  forall ijk d,
    (forall a, a <> d -> safe dir start target a (vget ijk a)) ->
    vget ijk d = vget target d + dir ->
    0 < dir * (vget bound d - vget target d) ->
    ghost ijk = true.

Lemma on_course_safe (t : Z) (a : Axis) (c : Z) (l : bool) :
  0 <= t -> on_course dir start target lock0 t a c l -> safe dir start target a c.
Proof.
  intros Ht Hcourse. unfold safe. destruct (Hrange a) as [Hr _].
  destruct Hcourse as [[_ ->] | (_ & _ & -> & Hc)]; destruct Hdir as [-> | ->]; lia.
Qed.

Lemma safe_vset (ijk : Vec3 Z) (d : Axis) (x : Z) :
  (forall a, a <> d -> safe dir start target a (vget ijk a)) ->
  safe dir start target d x ->
  forall a, safe dir start target a (vget (vset ijk d x) a).
Proof.
  intros Hothers Hd a. destruct (decide (a = d)) as [-> | Hne].
  - rewrite vget_vset_same. exact Hd.
  - rewrite vget_vset_other by exact Hne. auto.
Qed.

Lemma peel_body_on_course (t : Z) (ijk : Vec3 Z) (lock : Vec3 bool) :
  0 <= t ->
  (forall a, on_course dir start target lock0 t a (vget ijk a) (vget lock a)) ->
  peel_cond ghost room bound (ijk, lock) = true ->
  forall a, on_course dir start target lock0 (t + 1) a
              (vget (fst (peel_body ghost fwd back (ijk, lock))) a)
              (vget (snd (peel_body ghost fwd back (ijk, lock))) a).
Proof.
  intros Ht Hcourse Hcond.
  apply peel_cond_true with (dir := dir) in Hcond as (_ & Hroom' & _); [| exact Hroom].
  apply (peel_body_axiswise ghost fwd back (safe dir start target)
           (fun a c l => on_course dir start target lock0 t a c l
                         /\ (l = false -> 0 < dir * (vget bound a - c)))
           (on_course dir start target lock0 (t + 1))).
  - intros a c l [Hc _]. exact (on_course_safe t a c l Ht Hc).
  - intros a c l Hc. apply (on_course_safe (t + 1) a c l); [lia | exact Hc].
  - intros ijk' lock' d Hothers [Hc Hr].
    destruct (peel_step_cases ghost fwd back ijk' lock' d)
      as [(Hlock & -> & ->) | [(Hlock & Hghost & -> & ->) | (Hlock & Hghost & -> & ->)]].
    + left. destruct Hc as [[_ Hc] | (Hl & _)]; [auto | congruence].
    + left. split; [reflexivity |]. rewrite Hback, Hfwd.
      destruct Hc as [[Hl _] | (_ & Hl0 & Hc & Hpast)]; [congruence |].
      destruct (decide (vget ijk' d = vget target d)) as [Heq | Hne]; [lia |].
      exfalso. rewrite Hsafe in Hghost; [discriminate |].
      apply safe_vset; [exact Hothers |]. rewrite Hfwd. unfold safe.
      destruct (Hrange d) as [Hr1 _]. destruct Hdir as [-> | ->]; lia.
    + right. specialize (Hr Hlock). rewrite Hfwd.
      destruct Hc as [[Hl _] | (_ & Hl0 & Hc & Hpast)]; [congruence |].
      split; [reflexivity |]. split; [exact Hl0 |]. split; [lia |].
      destruct (decide (vget ijk' d = vget target d)) as [Heq | Hne]; [| lia].
      exfalso. rewrite (Hbeyond (vset ijk' d (fwd (vget ijk' d))) d) in Hghost;
        [discriminate | | |].
      * intros a Ha. rewrite vget_vset_other by exact Ha. auto.
      * rewrite vget_vset_same, Hfwd, Heq. reflexivity.
      * rewrite <- Heq. exact Hr.
  - intros a. split; [apply Hcourse |]. apply Hroom'.
Qed.

(** The loop stops with every cursor on its target. *)
Lemma peel_loop_exact (fuel : nat) (s' : Vec3 Z * Vec3 bool) :
  while_loop (peel_cond ghost room bound) (peel_body ghost fwd back) fuel (start, lock0)
  = Some s' ->
  fst s' = target.
Proof.
  intros Hloop.
  apply (while_loop_invariant _ _
           (fun s => exists t, 0 <= t
                               /\ forall a, on_course dir start target lock0 t a
                                              (vget (fst s) a) (vget (snd s) a)))
    in Hloop as [(t & Ht & Hcourse) Hexit].
  - destruct s' as [ijk lock]. cbn [fst snd] in *. apply vec3_ext. intros a.
    assert (forall a, safe dir start target a (vget ijk a)) as Hsafe_all
      by (intros b; exact (on_course_safe t b _ _ Ht (Hcourse b))).
    apply peel_cond_false with (dir := dir) in Hexit
      as [Hall | [(u & Hu & Hstuck) | Hghost]]; [| | | exact Hroom].
    + destruct (Hcourse a) as [[_ Hc] | (Hl & _)]; [exact Hc |].
      rewrite Hall in Hl. discriminate.
    + destruct (Hcourse u) as [[Hl _] | (_ & Hu0 & Hcu & Hpu)]; [congruence |].
      destruct (Hrange u) as [_ Hru].
      destruct (Hcourse a) as [[_ Hc] | (_ & Ha0 & Hca & Hpa)]; [exact Hc |].
      destruct (Hrange a) as [_ Hra].
      pose proof (Huniform a u Ha0 Hu0) as Hsame.
      destruct Hdir as [-> | ->]; lia.
    + rewrite Hsafe in Hghost by exact Hsafe_all. discriminate.
  - intros [ijk lock] (t & Ht & Hcourse) Hcond. exists (t + 1). split; [lia |].
    cbn [fst snd] in Hcourse. apply peel_body_on_course; assumption.
  - exists 0. split; [lia |]. intros a. cbn [fst snd].
    destruct (vget lock0 a) eqn:Hl.
    + left. split; [reflexivity |]. symmetry. apply Hlocked. exact Hl.
    + right. split; [reflexivity |]. split; [exact Hl |]. split; [lia |].
      destruct (Hrange a) as [Hr _]. lia.
Qed.
End PeelExact.

Section PeelLayers.
Variable ComputeCellIdForExtent : ExtentType -> Vec3 Z -> Z.
Variables (extent : ExtentType) (ghosts : list Z) (ghostLevel : Z) (lo hi : Vec3 Z).
Hypothesis Hvalid : IsExtentValid extent = true.
Hypothesis Hlevel : 0 <= ghostLevel.
Hypothesis Hfit : layers_fit extent ghostLevel lo hi.
Hypothesis Hmarks : marks_layers ComputeCellIdForExtent extent ghosts lo hi.

Let mins : Vec3 Z := MkVec3 extent.[0] extent.[2] extent.[4].
Let maxs : Vec3 Z :=
  MkVec3 (Z.max extent.[1] (extent.[0] + 1) - 1) (Z.max extent.[3] (extent.[2] + 1) - 1)
    (Z.max extent.[5] (extent.[4] + 1) - 1).
Let lock0 : Vec3 bool :=
  MkVec3 (extent.[0] =? extent.[1]) (extent.[2] =? extent.[3]) (extent.[4] =? extent.[5]).
Let lower0 : Vec3 Z :=
  MkVec3 (Z.min (v0 mins + ghostLevel) (v0 maxs)) (Z.min (v1 mins + ghostLevel) (v1 maxs))
    (Z.min (v2 mins + ghostLevel) (v2 maxs)).
Let upper0 : Vec3 Z :=
  MkVec3 (Z.max (v0 maxs - ghostLevel) (v0 mins)) (Z.max (v1 maxs - ghostLevel) (v1 mins))
    (Z.max (v2 maxs - ghostLevel) (v2 mins)).
Let lower_target : Vec3 Z :=
  MkVec3 (v0 mins + v0 lo) (v1 mins + v1 lo) (v2 mins + v2 lo).
Let upper_target : Vec3 Z :=
  MkVec3 (v0 maxs - v0 hi) (v1 maxs - v1 hi) (v2 maxs - v2 hi).
Let ghost : Vec3 Z -> bool := is_ghost ComputeCellIdForExtent extent ghosts.

(** The facts of an axis the proofs below rest on. *)
Lemma axis_facts (a : Axis) :
  vget mins a = axis_min extent a
  /\ vget maxs a = axis_min extent a + cells_along extent a - 1
  /\ axis_min extent a <= axis_max extent a
  /\ 0 <= ghostLevel
  /\ (if vget lock0 a
      then axis_min extent a = axis_max extent a /\ cells_along extent a = 1
           /\ vget lo a = 0 /\ vget hi a = 0
      else axis_min extent a < axis_max extent a
           /\ cells_along extent a = axis_max extent a - axis_min extent a
           /\ 0 <= vget lo a <= ghostLevel /\ 0 <= vget hi a <= ghostLevel
           /\ ghostLevel + vget lo a < cells_along extent a
           /\ ghostLevel + vget hi a < cells_along extent a).
Proof.
  pose proof (proj1 (IsExtentValid_spec extent) Hvalid a) as Hle.
  specialize (Hfit a). unfold cells_along in *.
  destruct a; cbn [vget mins maxs lock0 v0 v1 v2 axis_min axis_max] in *;
    (split; [reflexivity |]); (split; [lia |]); (split; [exact Hle |]);
    (split; [exact Hlevel |]);
    match goal with
    | |- context [ ?x =? ?y ] => destruct (Z.eqb_spec x y) as [Heq | Hne]
    end;
    [ rewrite decide_True in Hfit by exact Heq | rewrite decide_False in Hfit by exact Hne
    | rewrite decide_True in Hfit by exact Heq | rewrite decide_False in Hfit by exact Hne
    | rewrite decide_True in Hfit by exact Heq | rewrite decide_False in Hfit by exact Hne ];
    lia.
Qed.

Lemma in_layers_false (ijk : Vec3 Z) :
  (forall a, axis_min extent a + vget lo a <= vget ijk a
             < axis_min extent a + cells_along extent a - vget hi a) ->
  in_layers extent lo hi ijk = false.
Proof.
  intros Hall. unfold in_layers.
  pose proof (Hall AxisX) as HX. pose proof (Hall AxisY) as HY. pose proof (Hall AxisZ) as HZ.
  rewrite !orb_false_iff, !Z.ltb_ge, !Z.leb_gt. lia.
Qed.

Lemma in_layers_true (ijk : Vec3 Z) (a : Axis) :
  vget ijk a < axis_min extent a + vget lo a
  \/ axis_min extent a + cells_along extent a - vget hi a <= vget ijk a ->
  in_layers extent lo hi ijk = true.
Proof.
  intros Ha. unfold in_layers. rewrite !orb_true_iff, !Z.ltb_lt, !Z.leb_le.
  destruct a; tauto.
Qed.

Lemma lower_loop_exact (fuel : nat) (s' : Vec3 Z * Vec3 bool) :
  while_loop (peel_cond ghost (fun b c => c >? b) mins)
    (peel_body ghost (fun c => c - 1) (fun c => c + 1)) fuel (lower0, lock0) = Some s' ->
  fst s' = lower_target.
Proof.
  apply (peel_loop_exact ghost (fun c => c - 1) (fun c => c + 1) (fun b c => c >? b) (-1)
           mins lower0 lower_target lock0 ltac:(auto) ltac:(intros; cbv beta; lia)
           ltac:(intros; cbv beta; lia) gtb_room).
  - intros a. pose proof (axis_facts a) as (Hmin & Hmax & _ & HG & Hax).
    destruct a; cbn [vget lower0 lower_target v0 v1 v2] in *;
      match type of Hax with context [if ?l then _ else _] => destruct l end; lia.
  - intros a Hl. pose proof (axis_facts a) as (Hmin & Hmax & _ & HG & Hax). rewrite Hl in Hax.
    destruct a; cbn [vget lower0 lower_target v0 v1 v2] in *; lia.
  - intros a b Ha Hb.
    pose proof (axis_facts a) as (Hmina & Hmaxa & _ & HG & Haxa). rewrite Ha in Haxa.
    pose proof (axis_facts b) as (Hminb & Hmaxb & _ & _ & Haxb). rewrite Hb in Haxb.
    destruct a, b; cbn [vget lower0 v0 v1 v2] in *; lia.
  - intros ijk Hsafe. unfold ghost. rewrite Hmarks.
    + apply in_layers_false. intros a. specialize (Hsafe a). unfold safe in Hsafe.
      pose proof (axis_facts a) as (Hmin & Hmax & _ & HG & Hax).
      destruct a; cbn [vget lower0 lower_target v0 v1 v2] in *;
        match type of Hax with context [if ?l then _ else _] => destruct l end; lia.
    + intros a. specialize (Hsafe a). unfold safe in Hsafe.
      pose proof (axis_facts a) as (Hmin & Hmax & _ & HG & Hax).
      destruct a; cbn [vget lower0 lower_target v0 v1 v2] in *;
        match type of Hax with context [if ?l then _ else _] => destruct l end; lia.
  - intros ijk d Hothers Hd Hroom. unfold ghost. rewrite Hmarks.
    + apply (in_layers_true ijk d). left.
      pose proof (axis_facts d) as (Hmin & _).
      destruct d; cbn [vget lower_target v0 v1 v2] in *; lia.
    + intros a. pose proof (axis_facts a) as (Hmin & Hmax & _ & HG & Hax).
      destruct (decide (a = d)) as [-> | Hne].
      * destruct d; cbn [vget lower0 lower_target v0 v1 v2] in *;
          match type of Hax with context [if ?l then _ else _] => destruct l end; lia.
      * specialize (Hothers a Hne). unfold safe in Hothers.
        destruct a; cbn [vget lower0 lower_target v0 v1 v2] in *;
          match type of Hax with context [if ?l then _ else _] => destruct l end; lia.
Qed.

Lemma upper_loop_exact (fuel : nat) (s' : Vec3 Z * Vec3 bool) :
  while_loop (peel_cond ghost (fun b c => c <? b) maxs)
    (peel_body ghost (fun c => c + 1) (fun c => c - 1)) fuel (upper0, lock0) = Some s' ->
  fst s' = upper_target.
Proof.
  apply (peel_loop_exact ghost (fun c => c + 1) (fun c => c - 1) (fun b c => c <? b) 1
           maxs upper0 upper_target lock0 ltac:(auto) ltac:(intros; cbv beta; lia)
           ltac:(intros; cbv beta; lia) ltac:(intros; apply ltb_room)).
  - intros a. pose proof (axis_facts a) as (Hmin & Hmax & _ & HG & Hax).
    destruct a; cbn [vget upper0 upper_target v0 v1 v2] in *;
      match type of Hax with context [if ?l then _ else _] => destruct l end; lia.
  - intros a Hl. pose proof (axis_facts a) as (Hmin & Hmax & _ & HG & Hax). rewrite Hl in Hax.
    destruct a; cbn [vget upper0 upper_target v0 v1 v2] in *; lia.
  - intros a b Ha Hb.
    pose proof (axis_facts a) as (Hmina & Hmaxa & _ & HG & Haxa). rewrite Ha in Haxa.
    pose proof (axis_facts b) as (Hminb & Hmaxb & _ & _ & Haxb). rewrite Hb in Haxb.
    destruct a, b; cbn [vget upper0 v0 v1 v2] in *; lia.
  - intros ijk Hsafe. unfold ghost. rewrite Hmarks.
    + apply in_layers_false. intros a. specialize (Hsafe a). unfold safe in Hsafe.
      pose proof (axis_facts a) as (Hmin & Hmax & _ & HG & Hax).
      destruct a; cbn [vget upper0 upper_target v0 v1 v2] in *;
        match type of Hax with context [if ?l then _ else _] => destruct l end; lia.
    + intros a. specialize (Hsafe a). unfold safe in Hsafe.
      pose proof (axis_facts a) as (Hmin & Hmax & _ & HG & Hax).
      destruct a; cbn [vget upper0 upper_target v0 v1 v2] in *;
        match type of Hax with context [if ?l then _ else _] => destruct l end; lia.
  - intros ijk d Hothers Hd Hroom. unfold ghost. rewrite Hmarks.
    + apply (in_layers_true ijk d). right.
      pose proof (axis_facts d) as (Hmin & Hmax & _).
      destruct d; cbn [vget upper_target v0 v1 v2] in *; lia.
    + intros a. pose proof (axis_facts a) as (Hmin & Hmax & _ & HG & Hax).
      destruct (decide (a = d)) as [-> | Hne].
      * destruct d; cbn [vget upper0 upper_target v0 v1 v2] in *;
          match type of Hax with context [if ?l then _ else _] => destruct l end; lia.
      * specialize (Hothers a Hne). unfold safe in Hothers.
        destruct a; cbn [vget upper0 upper_target v0 v1 v2] in *;
          match type of Hax with context [if ?l then _ else _] => destruct l end; lia.
Qed.
(** With ghosts in layers that fit, the peeled extent is the grid's extent
    without the layers. *)
Lemma PeelOffGhostLayers_layers :
  PeelOffGhostLayers ComputeCellIdForExtent (MkGrid extent (Some ghosts)) ghostLevel
  = Some (MkExtent (extent.[0] + v0 lo) (extent.[1] - v0 hi)
                   (extent.[2] + v1 lo) (extent.[3] - v1 hi)
                   (extent.[4] + v2 lo) (extent.[5] - v2 hi)).
Proof.
  destruct (PeelOffGhostLayers_loops ComputeCellIdForExtent extent ghosts ghostLevel)
    as (lower & lockL & upper & lockU & HL & HU & ->).
  apply lower_loop_exact in HL. apply upper_loop_exact in HU. cbn [fst] in HL, HU.
  subst lower upper.
  pose proof (axis_facts AxisX) as (_ & HmaxX & _ & _ & HX).
  pose proof (axis_facts AxisY) as (_ & HmaxY & _ & _ & HY).
  pose proof (axis_facts AxisZ) as (_ & HmaxZ & _ & _ & HZ).
  cbn [vget lock0 lower_target upper_target v0 v1 v2 axis_min axis_max mins] in *.
  unfold neqb.
  destruct (extent.[0] =? extent.[1]), (extent.[2] =? extent.[3]), (extent.[4] =? extent.[5]);
    cbn [negb Z.b2z]; f_equal; f_equal; lia.
Qed.

(** No cell of the extent without the layers is marked. *)
Lemma layers_removed_ghost_free (peeled : ExtentType) (ijk : Vec3 Z) :
  (forall a, axis_min peeled a = axis_min extent a + vget lo a
             /\ axis_max peeled a = axis_max extent a - vget hi a) ->
  in_sub_extent extent peeled ijk ->
  is_ghost ComputeCellIdForExtent extent ghosts ijk = false.
Proof.
  intros Hpeeled Hin.
  assert (Hcell : forall a, axis_min extent a + vget lo a <= vget ijk a
                            < axis_min extent a + cells_along extent a - vget hi a).
  { intros a. specialize (Hin a). specialize (Hpeeled a).
    pose proof (axis_facts a) as (_ & _ & _ & _ & Hax).
    destruct (decide (axis_min extent a = axis_max extent a)) as [Heq | Hne];
      destruct (vget lock0 a); lia. }
  rewrite Hmarks.
  - apply in_layers_false. exact Hcell.
  - intros a. specialize (Hcell a). pose proof (axis_facts a) as (_ & _ & _ & _ & Hax).
    destruct (vget lock0 a); lia.
Qed.

(** The cell at the lowest corner of a sub-extent, moved to [x] along [d]. *)
Lemma corner_cell (sub : ExtentType) (d : Axis) (x : Z) :
  sub_extent_with_cells extent sub ->
  axis_min sub d <= x < axis_max sub d ->
  exists ijk, vget ijk d = x /\ in_cell_box extent ijk /\ in_sub_extent extent sub ijk.
Proof.
  intros Hsub Hx.
  pose (pick := fun a => if decide (axis_min extent a = axis_max extent a)
                         then axis_min extent a else axis_min sub a).
  assert (Hd : axis_min extent d <> axis_max extent d).
  { intros Heq. specialize (Hsub d). lia. }
  exists (vset (MkVec3 (pick AxisX) (pick AxisY) (pick AxisZ)) d x).
  split; [apply vget_vset_same |].
  assert (Hother : forall a, a <> d ->
            vget (vset (MkVec3 (pick AxisX) (pick AxisY) (pick AxisZ)) d x) a = pick a).
  { intros a Hne. rewrite vget_vset_other by exact Hne. destruct a; reflexivity. }
  split; intros a; pose proof (Hsub a) as Ha;
    pose proof (axis_facts a) as (_ & _ & _ & _ & Hax);
    (destruct (decide (a = d)) as [-> | Hne];
     [ rewrite vget_vset_same | rewrite (Hother a Hne); unfold pick ]);
    repeat match goal with
    | |- context [decide (?p = ?q)] => destruct (decide (p = q))
    end;
    destruct (vget lock0 _); lia.
Qed.

(** A sub-extent with cells none of which is marked lies within the extent
    without the layers. *)
Lemma layers_removed_largest (sub : ExtentType) (a : Axis) :
  sub_extent_with_cells extent sub ->
  (forall ijk, in_sub_extent extent sub ijk ->
               is_ghost ComputeCellIdForExtent extent ghosts ijk = false) ->
  axis_min extent a + vget lo a <= axis_min sub a
  /\ axis_max sub a <= axis_max extent a - vget hi a.
Proof.
  intros Hsub Hfree. pose proof (Hsub a) as Ha.
  pose proof (axis_facts a) as (_ & _ & _ & _ & Hax).
  destruct (vget lock0 a) eqn:Hl; [lia |].
  assert (Hcells : axis_min sub a < axis_max sub a) by lia.
  split.
  - destruct (Z_le_gt_dec (axis_min extent a + vget lo a) (axis_min sub a)) as [| Hgt];
      [assumption | exfalso].
    destruct (corner_cell sub a (axis_min sub a) Hsub ltac:(lia)) as (ijk & Hc & Hbox & Hin).
    specialize (Hfree ijk Hin). rewrite Hmarks in Hfree by exact Hbox.
    rewrite (in_layers_true ijk a) in Hfree; [discriminate | left; lia].
  - destruct (Z_le_gt_dec (axis_max sub a) (axis_max extent a - vget hi a)) as [| Hgt];
      [assumption | exfalso].
    destruct (corner_cell sub a (axis_max sub a - 1) Hsub ltac:(lia))
      as (ijk & Hc & Hbox & Hin).
    specialize (Hfree ijk Hin). rewrite Hmarks in Hfree by exact Hbox.
    rewrite (in_layers_true ijk a) in Hfree; [discriminate | right; lia].
Qed.
End PeelLayers.

Lemma line_grid_layers_fit :
  layers_fit (MkExtent 0 6 0 0 0 0) 1 (MkVec3 1 0 0) (MkVec3 1 0 0).
Proof. intros a. destruct a; vm_compute; repeat split; discriminate. Qed.

Lemma line_grid_marks_layers :
  marks_layers row_major_cell_id (MkExtent 0 6 0 0 0 0) [1; 0; 0; 0; 0; 1]
    (MkVec3 1 0 0) (MkVec3 1 0 0).
Proof.
  intros [i j k] Hbox.
  pose proof (Hbox AxisX) as HX. pose proof (Hbox AxisY) as HY. pose proof (Hbox AxisZ) as HZ.
  cbv -[Z.le Z.lt Z.add Z.sub Z.max] in HX, HY, HZ.
  assert (j = 0) as -> by lia. assert (k = 0) as -> by lia.
  assert (i = 0 \/ i = 1 \/ i = 2 \/ i = 3 \/ i = 4 \/ i = 5) as Hi by lia.
  destruct Hi as [-> | [-> | [-> | [-> | [-> | ->]]]]]; reflexivity.
Qed.

(** X1: on a grid with a valid extent and a ghost array, whatever the array
    holds, and for a ghost level that is not negative, both loops of
    [PeelOffGhostLayers] come to an end and the extent returned lies within
    the grid's extent, each bound moved inwards by at most the smaller of
    the ghost level and the number of cells along the axis minus one; on a
    degenerate axis both bounds are kept. *)
Theorem X1_peel_moves_bounds_inwards_by_at_most_ghost_level
    (ComputeCellIdForExtent : ExtentType -> Vec3 Z -> Z)
    (extent : ExtentType) (ghosts : list Z) (ghostLevel : Z) :
  IsExtentValid extent = true ->
  0 <= ghostLevel ->
  exists peeled,
    PeelOffGhostLayers ComputeCellIdForExtent (MkGrid extent (Some ghosts)) ghostLevel
    = Some peeled
    /\ forall a : Axis,
         axis_min extent a <= axis_min peeled a
           <= axis_min extent a + Z.min ghostLevel (cells_along extent a - 1)
         /\ axis_max extent a - Z.min ghostLevel (cells_along extent a - 1)
              <= axis_max peeled a <= axis_max extent a
         /\ (axis_min extent a = axis_max extent a ->
             axis_min peeled a = axis_min extent a /\ axis_max peeled a = axis_max extent a).
Proof.
  intros Hvalid Hlevel. apply PeelOffGhostLayers_bounds; assumption.
Qed.

Lemma X1_peel_moves_bounds_inwards_witness :
  exists peeled,
    PeelOffGhostLayers row_major_cell_id
      (MkGrid (MkExtent 0 6 0 0 0 0) (Some [1; 1; 1; 0; 1; 1])) 2 = Some peeled
    /\ forall a : Axis,
         axis_min (MkExtent 0 6 0 0 0 0) a <= axis_min peeled a
           <= axis_min (MkExtent 0 6 0 0 0 0) a
              + Z.min 2 (cells_along (MkExtent 0 6 0 0 0 0) a - 1)
         /\ axis_max (MkExtent 0 6 0 0 0 0) a
            - Z.min 2 (cells_along (MkExtent 0 6 0 0 0 0) a - 1)
              <= axis_max peeled a <= axis_max (MkExtent 0 6 0 0 0 0) a
         /\ (axis_min (MkExtent 0 6 0 0 0 0) a = axis_max (MkExtent 0 6 0 0 0 0) a ->
             axis_min peeled a = axis_min (MkExtent 0 6 0 0 0 0) a
             /\ axis_max peeled a = axis_max (MkExtent 0 6 0 0 0 0) a).
Proof.
  apply (X1_peel_moves_bounds_inwards_by_at_most_ghost_level row_major_cell_id
           (MkExtent 0 6 0 0 0 0) [1; 1; 1; 0; 1; 1] 2); [reflexivity | lia].
Defined.

(** X2: with a ghost level of zero [PeelOffGhostLayers] returns the extent of
    the grid as it is, whatever its ghost array marks, when that extent is
    valid. *)
Theorem X2_peel_with_ghost_level_zero
    (ComputeCellIdForExtent : ExtentType -> Vec3 Z -> Z)
    (extent : ExtentType) (ghosts : list Z) :
  IsExtentValid extent = true ->
  PeelOffGhostLayers ComputeCellIdForExtent (MkGrid extent (Some ghosts)) 0 = Some extent.
Proof.
  intros Hvalid.
  destruct (PeelOffGhostLayers_bounds ComputeCellIdForExtent extent ghosts 0 Hvalid
              ltac:(lia)) as (peeled & -> & Hbounds).
  f_equal.
  pose proof (Hbounds AxisX) as HX. pose proof (Hbounds AxisY) as HY.
  pose proof (Hbounds AxisZ) as HZ.
  unfold cells_along in *. destruct peeled, extent.
  cbn [axis_min axis_max ext_at ext0 ext1 ext2 ext3 ext4 ext5] in *.
  f_equal; lia.
Qed.

Lemma X2_peel_with_ghost_level_zero_witness :
  PeelOffGhostLayers row_major_cell_id
    (MkGrid (MkExtent 0 6 0 0 0 0) (Some [1; 1; 1; 0; 1; 1])) 0
  = Some (MkExtent 0 6 0 0 0 0).
Proof.
  apply (X2_peel_with_ghost_level_zero row_major_cell_id (MkExtent 0 6 0 0 0 0)
           [1; 1; 1; 0; 1; 1]); reflexivity.
Defined.

(** X3: when the ghost array marks exactly the [lo] lowest and the [hi]
    highest layers of cells of each axis, no layer is thicker than the ghost
    level, and the ghost level plus a layer stays below the number of cells
    of the axis, [PeelOffGhostLayers] returns the grid's extent with its lower
    bounds raised by [lo] and its upper bounds lowered by [hi]. *)
Theorem X3_peel_removes_the_ghost_layers
    (ComputeCellIdForExtent : ExtentType -> Vec3 Z -> Z)
    (extent : ExtentType) (ghosts : list Z) (ghostLevel : Z) (lo hi : Vec3 Z) :
  IsExtentValid extent = true ->
  0 <= ghostLevel ->
  layers_fit extent ghostLevel lo hi ->
  marks_layers ComputeCellIdForExtent extent ghosts lo hi ->
  PeelOffGhostLayers ComputeCellIdForExtent (MkGrid extent (Some ghosts)) ghostLevel
  = Some (MkExtent (extent.[0] + v0 lo) (extent.[1] - v0 hi)
                   (extent.[2] + v1 lo) (extent.[3] - v1 hi)
                   (extent.[4] + v2 lo) (extent.[5] - v2 hi)).
Proof.
  intros Hvalid Hlevel Hfit Hmarks. apply PeelOffGhostLayers_layers; assumption.
Qed.

Lemma X3_peel_removes_the_ghost_layers_witness :
  PeelOffGhostLayers row_major_cell_id line_grid 1 = Some (MkExtent 1 5 0 0 0 0).
Proof.
  apply (X3_peel_removes_the_ghost_layers row_major_cell_id (MkExtent 0 6 0 0 0 0)
           [1; 0; 0; 0; 0; 1] 1 (MkVec3 1 0 0) (MkVec3 1 0 0));
    [reflexivity | lia | exact line_grid_layers_fit | exact line_grid_marks_layers].
Defined.

(** X4: under the conditions of X3 the extent [PeelOffGhostLayers] returns
    holds no marked cell, and it is the largest such: every sub-extent of the
    grid's extent that has cells, none of them marked, lies within it. *)
Theorem X4_peeled_extent_is_the_largest_without_ghosts
    (ComputeCellIdForExtent : ExtentType -> Vec3 Z -> Z)
    (extent : ExtentType) (ghosts : list Z) (ghostLevel : Z) (lo hi : Vec3 Z) :
  IsExtentValid extent = true ->
  0 <= ghostLevel ->
  layers_fit extent ghostLevel lo hi ->
  marks_layers ComputeCellIdForExtent extent ghosts lo hi ->
  exists peeled,
    PeelOffGhostLayers ComputeCellIdForExtent (MkGrid extent (Some ghosts)) ghostLevel
    = Some peeled
    /\ (forall ijk, in_sub_extent extent peeled ijk ->
                    is_ghost ComputeCellIdForExtent extent ghosts ijk = false)
    /\ (forall sub,
          sub_extent_with_cells extent sub ->
          (forall ijk, in_sub_extent extent sub ijk ->
                       is_ghost ComputeCellIdForExtent extent ghosts ijk = false) ->
          forall a : Axis,
            axis_min peeled a <= axis_min sub a /\ axis_max sub a <= axis_max peeled a).
Proof.
  intros Hvalid Hlevel Hfit Hmarks.
  eexists. split; [apply PeelOffGhostLayers_layers; eassumption |].
  assert (Hpeeled : forall a,
            axis_min (MkExtent (extent.[0] + v0 lo) (extent.[1] - v0 hi)
                        (extent.[2] + v1 lo) (extent.[3] - v1 hi)
                        (extent.[4] + v2 lo) (extent.[5] - v2 hi)) a
            = axis_min extent a + vget lo a
            /\ axis_max (MkExtent (extent.[0] + v0 lo) (extent.[1] - v0 hi)
                           (extent.[2] + v1 lo) (extent.[3] - v1 hi)
                           (extent.[4] + v2 lo) (extent.[5] - v2 hi)) a
               = axis_max extent a - vget hi a).
  { intros a. destruct a; split; reflexivity. }
  split.
  - intros ijk Hin.
    apply (layers_removed_ghost_free ComputeCellIdForExtent extent ghosts ghostLevel lo hi
             Hvalid Hlevel Hfit Hmarks _ ijk Hpeeled Hin).
  - intros sub Hsub Hfree a. destruct (Hpeeled a) as [-> ->].
    apply (layers_removed_largest ComputeCellIdForExtent extent ghosts ghostLevel lo hi
             Hvalid Hlevel Hfit Hmarks sub a Hsub Hfree).
Qed.

Lemma X4_peeled_extent_is_the_largest_witness :
  exists peeled,
    PeelOffGhostLayers row_major_cell_id line_grid 1 = Some peeled
    /\ (forall ijk, in_sub_extent (MkExtent 0 6 0 0 0 0) peeled ijk ->
                    is_ghost row_major_cell_id (MkExtent 0 6 0 0 0 0) [1; 0; 0; 0; 0; 1] ijk
                    = false)
    /\ (forall sub,
          sub_extent_with_cells (MkExtent 0 6 0 0 0 0) sub ->
          (forall ijk, in_sub_extent (MkExtent 0 6 0 0 0 0) sub ijk ->
                       is_ghost row_major_cell_id (MkExtent 0 6 0 0 0 0)
                         [1; 0; 0; 0; 0; 1] ijk = false) ->
          forall a : Axis,
            axis_min peeled a <= axis_min sub a /\ axis_max sub a <= axis_max peeled a).
Proof.
  apply (X4_peeled_extent_is_the_largest_without_ghosts row_major_cell_id
           (MkExtent 0 6 0 0 0 0) [1; 0; 0; 0; 0; 1] 1 (MkVec3 1 0 0) (MkVec3 1 0 0));
    [reflexivity | lia | exact line_grid_layers_fit | exact line_grid_marks_layers].
Defined.

(** ** Masks, face by face *)

Lemma adjacency_bit (A B : ExtentType) (f : Adjacency) :
  Z.testbit (fst (ComputeAdjacencyAndOverlapMasks A B)) (face_index f) = face_touches A B f.
Proof.
  destruct A as [a0 a1 a2 a3 a4 a5], B as [b0 b1 b2 b3 b4 b5].
  unfold ComputeAdjacencyAndOverlapMasks, face_touches, neqb; cbn [fst snd].
  destruct f; cbn -[Z.testbit Z.eqb to_uchar Z.land Z.lor Z.b2z];
    destruct (a0 =? b1), (a1 =? b0), (a2 =? b3), (a3 =? b2), (a4 =? b5), (a5 =? b4),
      (a0 =? a1), (a2 =? a3), (a4 =? a5); reflexivity.
Qed.

Lemma overlap_bit (A B : ExtentType) (a : Axis) :
  Z.testbit (snd (ComputeAdjacencyAndOverlapMasks A B)) (axis_index a) = axis_overlaps A B a.
Proof.
  destruct A as [a0 a1 a2 a3 a4 a5], B as [b0 b1 b2 b3 b4 b5].
  unfold ComputeAdjacencyAndOverlapMasks, axis_overlaps; cbn [fst snd].
  destruct a; cbn -[Z.testbit Z.ltb to_uchar Z.shiftl Z.lor Z.b2z];
    destruct (a0 <? b1), (b0 <? a1), (a2 <? b3), (b2 <? a3), (a4 <? b5), (b4 <? a5);
    reflexivity.
Qed.

Lemma masks_range (A B : ExtentType) :
  0 <= fst (ComputeAdjacencyAndOverlapMasks A B) < 64
  /\ 0 <= snd (ComputeAdjacencyAndOverlapMasks A B) < 8.
Proof.
  destruct A as [a0 a1 a2 a3 a4 a5], B as [b0 b1 b2 b3 b4 b5].
  unfold ComputeAdjacencyAndOverlapMasks, neqb; cbn [fst snd].
  repeat split.
  - apply Z.mod_pos_bound; lia.
  - cbn -[Z.eqb to_uchar Z.land Z.lor Z.b2z].
    destruct (a0 =? b1), (a1 =? b0), (a2 =? b3), (a3 =? b2), (a4 =? b5), (a5 =? b4),
      (a0 =? a1), (a2 =? a3), (a4 =? a5); vm_compute; reflexivity.
  - apply Z.mod_pos_bound; lia.
  - cbn -[Z.ltb to_uchar Z.shiftl Z.lor Z.b2z].
    destruct (a0 <? b1), (b0 <? a1), (a2 <? b3), (b2 <? a3), (a4 <? b5), (b4 <? a5);
      vm_compute; reflexivity.
Qed.

(** On an axis, two valid extents touch on one side at most, and do not
    overlap where they touch. *)
Lemma axis_bits_exclusive (A B : ExtentType) (a : Axis) :
  IsExtentValid A = true -> IsExtentValid B = true ->
  at_most_one
    (Z.testbit (fst (ComputeAdjacencyAndOverlapMasks A B)) (face_index (lower_face a)))
    (Z.testbit (fst (ComputeAdjacencyAndOverlapMasks A B)) (face_index (upper_face a)))
    (Z.testbit (snd (ComputeAdjacencyAndOverlapMasks A B)) (axis_index a)) = true.
Proof.
  intros HA HB.
  pose proof (proj1 (IsExtentValid_spec A) HA a) as HAa.
  pose proof (proj1 (IsExtentValid_spec B) HB a) as HBa.
  rewrite !adjacency_bit, overlap_bit. unfold face_touches, axis_overlaps, at_most_one.
  destruct a; cbn [lower_face upper_face face_index opposite face_axis axis_min axis_max] in *;
    repeat match goal with
    | |- context [ ?x =? ?y ] => destruct (Z.eqb_spec x y)
    | |- context [ ?x <? ?y ] => destruct (Z.ltb_spec x y)
    end; cbn [andb negb]; first [reflexivity | lia].
Qed.

Lemma masks_exclusive_valid (A B : ExtentType) :
  IsExtentValid A = true -> IsExtentValid B = true ->
  masks_exclusive (fst (ComputeAdjacencyAndOverlapMasks A B))
    (snd (ComputeAdjacencyAndOverlapMasks A B)) = true.
Proof.
  intros HA HB. unfold masks_exclusive. cbn [forallb].
  rewrite !axis_bits_exclusive by assumption. reflexivity.
Qed.

(** X5: for two valid extents, on each axis the masks of
    [ComputeAdjacencyAndOverlapMasks] hold at most one of the three bits of
    the axis: the neighbour touches the lower face, or the upper face, or
    overlaps, never two of these at once. *)
Theorem X5_masks_hold_one_bit_per_axis (A B : ExtentType) (a : Axis) :
  IsExtentValid A = true ->
  IsExtentValid B = true ->
  let adjacencyMask := fst (ComputeAdjacencyAndOverlapMasks A B) in
  let overlapMask := snd (ComputeAdjacencyAndOverlapMasks A B) in
  (Z.testbit adjacencyMask (face_index (lower_face a)) = true ->
   Z.testbit adjacencyMask (face_index (upper_face a)) = false
   /\ Z.testbit overlapMask (axis_index a) = false)
  /\ (Z.testbit adjacencyMask (face_index (upper_face a)) = true ->
      Z.testbit overlapMask (axis_index a) = false).
Proof.
  intros HA HB. cbv zeta.
  pose proof (axis_bits_exclusive A B a HA HB) as Hone. unfold at_most_one in Hone.
  destruct (Z.testbit _ (face_index (lower_face a))),
    (Z.testbit _ (face_index (upper_face a))), (Z.testbit _ (axis_index a));
    cbn in Hone; try discriminate; split; intros; try split; congruence.
Qed.

Lemma X5_masks_hold_one_bit_per_axis_witness :
  let adjacencyMask :=
    fst (ComputeAdjacencyAndOverlapMasks (MkExtent 0 4 0 4 0 4) (MkExtent 4 8 0 4 0 4)) in
  let overlapMask :=
    snd (ComputeAdjacencyAndOverlapMasks (MkExtent 0 4 0 4 0 4) (MkExtent 4 8 0 4 0 4)) in
  (Z.testbit adjacencyMask (face_index (lower_face AxisX)) = true ->
   Z.testbit adjacencyMask (face_index (upper_face AxisX)) = false
   /\ Z.testbit overlapMask (axis_index AxisX) = false)
  /\ (Z.testbit adjacencyMask (face_index (upper_face AxisX)) = true ->
      Z.testbit overlapMask (axis_index AxisX) = false).
Proof.
  apply (X5_masks_hold_one_bit_per_axis (MkExtent 0 4 0 4 0 4) (MkExtent 4 8 0 4 0 4) AxisX);
    reflexivity.
Defined.

(** ** The faces a neighbour is linked on *)

Lemma face_switch_faces (m i : Z) :
  face_switch m = Some i -> [slot_face i] = faces_of_mask m.
Proof. unfold face_switch. split_mask m; intros [= <-]; reflexivity. Qed.

Lemma edge_switch_faces (m i j : Z) :
  edge_switch m = Some (i, j) -> [slot_face i; slot_face j] = faces_of_mask m.
Proof. unfold edge_switch. split_mask m; intros [= <- <-]; reflexivity. Qed.

Lemma corner_switch_faces (m i j k : Z) :
  corner_switch m = Some (i, j, k) ->
  [slot_face i; slot_face j; slot_face k] = faces_of_mask m.
Proof. unfold corner_switch. split_mask m; intros [= <- <- <-]; reflexivity. Qed.

(** The faces [LinkGrid] adds a layer on are those of the bits of the
    adjacency mask, whatever the overlap mask and the dimension. *)
Lemma linked_faces_of_mask (adjacencyMask overlapMask dim : Z) (faces : list Adjacency) :
  linked_faces adjacencyMask overlapMask dim = Some faces ->
  faces = faces_of_mask adjacencyMask /\ (1 <= length faces <= 3)%nat.
Proof.
  unfold linked_faces.
  destruct (faces_overlap adjacencyMask overlapMask dim).
  - destruct (face_switch adjacencyMask) as [i|] eqn:Hs; [| discriminate].
    intros [= <-]. split; [exact (face_switch_faces _ _ Hs) | cbn; lia].
  - destruct (edges_overlap adjacencyMask overlapMask dim).
    + destruct (edge_switch adjacencyMask) as [[i j]|] eqn:Hs; [| discriminate].
      intros [= <-]. split; [exact (edge_switch_faces _ _ _ Hs) | cbn; lia].
    + destruct (corner_switch adjacencyMask) as [[[i j] k]|] eqn:Hs; [| discriminate].
      intros [= <-]. split; [exact (corner_switch_faces _ _ _ _ Hs) | cbn; lia].
Qed.

(** Where [linked_faces] has no faces, [LinkGrid] erases the neighbour and
    logs as [link_logs_error] says. *)
Lemma LinkGrid_erased bs info (adjacencyMask overlapMask outputGhostLevels dim : Z) :
  linked_faces adjacencyMask overlapMask dim = None ->
  LinkGrid bs info adjacencyMask overlapMask outputGhostLevels dim
  = Erased (link_logs_error adjacencyMask overlapMask dim).
Proof.
  unfold linked_faces, LinkGrid, link_logs_error.
  destruct (faces_overlap adjacencyMask overlapMask dim).
  - destruct (face_switch adjacencyMask); [discriminate | reflexivity].
  - destruct (edges_overlap adjacencyMask overlapMask dim).
    + destruct (edge_switch adjacencyMask) as [[i j]|]; [discriminate | reflexivity].
    + destruct (corner_switch adjacencyMask) as [[[i j] k]|]; [discriminate | reflexivity].
Qed.

Lemma LinkGrid_linked bs info bs' info' (adjacencyMask overlapMask outputGhostLevels dim : Z) :
  LinkGrid bs info adjacencyMask overlapMask outputGhostLevels dim = Linked bs' info' ->
  linked_faces adjacencyMask overlapMask dim = Some (faces_of_mask adjacencyMask)
  /\ add_layers outputGhostLevels (faces_of_mask adjacencyMask) bs info = (bs', info').
Proof.
  intros Hlink.
  pose proof (LinkGrid_linked_faces outputGhostLevels bs info adjacencyMask overlapMask dim)
    as Hfaces.
  destruct (linked_faces adjacencyMask overlapMask dim) as [faces|] eqn:Hl.
  - destruct (linked_faces_of_mask _ _ _ _ Hl) as [-> _]. split; [reflexivity |].
    rewrite Hlink in Hfaces.
    destruct (add_layers outputGhostLevels (faces_of_mask adjacencyMask) bs info).
    congruence.
  - destruct Hfaces as [logged Hfaces]. congruence.
Qed.

Lemma zrange_elem (lo hi x : Z) : lo <= x < hi -> In x (zrange lo hi).
Proof.
  intros Hx. unfold zrange. apply in_map_iff. exists (Z.to_nat (x - lo)).
  split; [lia | apply in_seq; lia].
Qed.

(** The masks of three dimensions, one by one: where each axis holds one bit
    at most, [LinkGrid] links exactly the neighbours in contact and logs
    nothing for the others. *)
Lemma link_3d_table :
  forallb (fun adjacencyMask =>
    forallb (fun overlapMask =>
      implb (masks_exclusive adjacencyMask overlapMask)
        (match linked_faces adjacencyMask overlapMask 3 with
         | Some _ => in_contact_3d adjacencyMask overlapMask
         | None => negb (in_contact_3d adjacencyMask overlapMask)
                   && negb (link_logs_error adjacencyMask overlapMask 3)
         end))
      (zrange 0 8))
    (zrange 0 64) = true.
Proof. vm_compute. reflexivity. Qed.

Lemma link_3d (A B : ExtentType) :
  IsExtentValid A = true -> IsExtentValid B = true ->
  let adjacencyMask := fst (ComputeAdjacencyAndOverlapMasks A B) in
  let overlapMask := snd (ComputeAdjacencyAndOverlapMasks A B) in
  match linked_faces adjacencyMask overlapMask 3 with
  | Some faces =>
      faces = faces_of_mask adjacencyMask
      /\ in_contact_3d adjacencyMask overlapMask = true
  | None =>
      in_contact_3d adjacencyMask overlapMask = false
      /\ link_logs_error adjacencyMask overlapMask 3 = false
  end.
Proof.
  intros HA HB. cbv zeta.
  pose proof (masks_exclusive_valid A B HA HB) as Hex.
  destruct (masks_range A B) as [Hadj Hov].
  pose proof link_3d_table as Htable.
  rewrite forallb_forall in Htable. specialize (Htable _ (zrange_elem 0 64 _ Hadj)).
  rewrite forallb_forall in Htable. specialize (Htable _ (zrange_elem 0 8 _ Hov)).
  rewrite Hex in Htable. cbn [implb] in Htable.
  destruct (linked_faces _ _ 3) as [faces|] eqn:Hl.
  - split; [exact (proj1 (linked_faces_of_mask _ _ _ _ Hl)) | exact Htable].
  - apply andb_true_iff in Htable as [H1 H2].
    split; [apply negb_true_iff, H1 | apply negb_true_iff, H2].
Qed.

(** X6: whenever [LinkGrid] keeps a neighbour, whatever the masks and the
    dimension, it has added a ghost layer on exactly the faces whose bit is
    set in the adjacency mask, in the order of their slots, and there are
    one, two or three of them. *)
Theorem X6_link_adds_layers_on_the_faces_of_the_mask
    (bs bs' : GridBlockStructure.t) (info info' : GridInformation.t)
    (adjacencyMask overlapMask outputGhostLevels dim : Z) :
  LinkGrid bs info adjacencyMask overlapMask outputGhostLevels dim = Linked bs' info' ->
  add_layers outputGhostLevels (faces_of_mask adjacencyMask) bs info = (bs', info')
  /\ (1 <= length (faces_of_mask adjacencyMask) <= 3)%nat.
Proof.
  intros Hlink. destruct (LinkGrid_linked _ _ _ _ _ _ _ _ Hlink) as [Hfaces Hadd].
  split; [exact Hadd |]. exact (proj2 (linked_faces_of_mask _ _ _ _ Hfaces)).
Qed.

Lemma X6_link_adds_layers_witness :
  add_layers 2 (faces_of_mask 0x12)
    (GridBlockStructure.Make (MkExtent 4 8 0 4 (-4) 0) 3 (MkExtent 4 8 0 4 (-4) 0) 0x12)
    (GridInformation.Make (MkExtent 0 4 0 4 0 4) zero_extent)
  = (GridBlockStructure.Make (MkExtent 4 8 0 4 (-4) 0) 3 (MkExtent 2 8 0 4 (-4) 2) 0x12,
     GridInformation.Make (MkExtent 0 4 0 4 0 4) (MkExtent 0 2 0 0 2 0))
  /\ (1 <= length (faces_of_mask 0x12) <= 3)%nat.
Proof.
  apply (X6_link_adds_layers_on_the_faces_of_the_mask
           (GridBlockStructure.Make (MkExtent 4 8 0 4 (-4) 0) 3 (MkExtent 4 8 0 4 (-4) 0) 0x12)
           _ (GridInformation.Make (MkExtent 0 4 0 4 0 4) zero_extent) _ 0x12 0x02 2 3).
  reflexivity.
Defined.

(** X7: in three dimensions, with the masks of two valid extents, [LinkGrid]
    keeps the neighbour exactly when the masks hold a bit on every axis and
    an adjacency bit on one of them at least, adding a layer on the faces of
    the adjacency bits; it erases every other neighbour without logging an
    error. *)
Theorem X7_link_in_three_dimensions
    (A B : ExtentType) (bs : GridBlockStructure.t) (info : GridInformation.t)
    (outputGhostLevels : Z) :
  IsExtentValid A = true ->
  IsExtentValid B = true ->
  let adjacencyMask := fst (ComputeAdjacencyAndOverlapMasks A B) in
  let overlapMask := snd (ComputeAdjacencyAndOverlapMasks A B) in
  LinkGrid bs info adjacencyMask overlapMask outputGhostLevels 3
  = if in_contact_3d adjacencyMask overlapMask
    then let '(bs', info') :=
           add_layers outputGhostLevels (faces_of_mask adjacencyMask) bs info in
         Linked bs' info'
    else Erased false.
Proof.
  intros HA HB. cbv zeta.
  pose proof (link_3d A B HA HB) as H3. cbv zeta in H3.
  pose proof (LinkGrid_linked_faces outputGhostLevels bs info
                (fst (ComputeAdjacencyAndOverlapMasks A B))
                (snd (ComputeAdjacencyAndOverlapMasks A B)) 3) as Hfaces.
  destruct (linked_faces _ _ 3) as [faces|] eqn:Hl.
  - destruct H3 as [-> ->]. exact Hfaces.
  - destruct H3 as [-> Hsilent].
    rewrite (LinkGrid_erased bs info _ _ outputGhostLevels 3 Hl), Hsilent. reflexivity.
Qed.

Lemma X7_link_in_three_dimensions_witness :
  LinkGrid
    (GridBlockStructure.Make (MkExtent 4 8 0 4 (-4) 0) 3 (MkExtent 4 8 0 4 (-4) 0) 0x12)
    (GridInformation.Make (MkExtent 0 4 0 4 0 4) zero_extent)
    (fst (ComputeAdjacencyAndOverlapMasks (MkExtent 0 4 0 4 0 4) (MkExtent 4 8 0 4 (-4) 0)))
    (snd (ComputeAdjacencyAndOverlapMasks (MkExtent 0 4 0 4 0 4) (MkExtent 4 8 0 4 (-4) 0)))
    2 3
  = Linked
      (GridBlockStructure.Make (MkExtent 4 8 0 4 (-4) 0) 3 (MkExtent 2 8 0 4 (-4) 2) 0x12)
      (GridInformation.Make (MkExtent 0 4 0 4 0 4) (MkExtent 0 2 0 0 2 0)).
Proof.
  apply (X7_link_in_three_dimensions (MkExtent 0 4 0 4 0 4) (MkExtent 4 8 0 4 (-4) 0)
           (GridBlockStructure.Make (MkExtent 4 8 0 4 (-4) 0) 3 (MkExtent 4 8 0 4 (-4) 0) 0x12)
           (GridInformation.Make (MkExtent 0 4 0 4 0 4) zero_extent) 2); reflexivity.
Defined.

(** ** What a link does to the neighbour's descriptor *)

Lemma neighbor_width_opposite (extent : ExtentType) (f : Adjacency) :
  neighbor_width extent (opposite f) = neighbor_width extent f.
Proof. unfold neighbor_width. destruct f; cbn [opposite face_index]; lia. Qed.

Lemma opposite_involutive (f : Adjacency) : opposite (opposite f) = f.
Proof. destruct f; reflexivity. Qed.

Lemma AddGhostLayerToGrid_neighbour (outputGhostLevels : Z) (g f : Adjacency) bs info :
  let bs' := fst (AddGhostLayerToGrid (face_index g) outputGhostLevels bs info) in
  (GridBlockStructure.ExtentWithNewGhosts bs').[face_index f]
  = (GridBlockStructure.ExtentWithNewGhosts bs).[face_index f]
    + (if decide (opposite f = g)
       then outwards f * Z.min outputGhostLevels (neighbor_width (GridBlockStructure.Extent bs) f)
       else 0)
  /\ GridBlockStructure.Extent bs' = GridBlockStructure.Extent bs
  /\ GridBlockStructure.DataDimension bs' = GridBlockStructure.DataDimension bs
  /\ GridBlockStructure.AdjacencyMask bs' = GridBlockStructure.AdjacencyMask bs.
Proof.
  unfold AddGhostLayerToGrid; cbn [fst GridBlockStructure.ExtentWithNewGhosts
    GridBlockStructure.set_ExtentWithNewGhosts GridBlockStructure.Extent
    GridBlockStructure.DataDimension GridBlockStructure.AdjacencyMask].
  split; [| repeat split].
  replace (if nz (Z.rem (face_index g) 2) then face_index g - 1 else face_index g + 1)
    with (face_index (opposite g)) by (destruct g; reflexivity).
  replace (if nz (Z.rem (face_index g) 2) then -1 else 1)
    with (outwards (opposite g)) by (destruct g; reflexivity).
  destruct (decide (opposite f = g)) as [<- | Hne].
  - rewrite opposite_involutive, ext_at_set_same.
    rewrite <- (neighbor_width_opposite _ f). unfold neighbor_width.
    rewrite opposite_involutive. reflexivity.
  - rewrite ext_at_set_other; [lia |].
    intros Heq. apply Hne. rewrite <- Heq. apply opposite_involutive.
Qed.

Lemma add_layers_cons (outputGhostLevels : Z) (g : Adjacency) (faces : list Adjacency) bs info :
  add_layers outputGhostLevels (g :: faces) bs info
  = add_layers outputGhostLevels faces
      (fst (AddGhostLayerToGrid (face_index g) outputGhostLevels bs info))
      (snd (AddGhostLayerToGrid (face_index g) outputGhostLevels bs info)).
Proof.
  unfold add_layers; cbn [fold_left].
  destruct (AddGhostLayerToGrid (face_index g) outputGhostLevels bs info); reflexivity.
Qed.

Lemma add_layers_neighbour (outputGhostLevels : Z) (faces : list Adjacency) (f : Adjacency)
    bs info :
  NoDup faces ->
  let bs' := fst (add_layers outputGhostLevels faces bs info) in
  (GridBlockStructure.ExtentWithNewGhosts bs').[face_index f]
  = (GridBlockStructure.ExtentWithNewGhosts bs).[face_index f]
    + (if decide (opposite f ∈ faces)
       then outwards f * Z.min outputGhostLevels (neighbor_width (GridBlockStructure.Extent bs) f)
       else 0)
  /\ GridBlockStructure.Extent bs' = GridBlockStructure.Extent bs
  /\ GridBlockStructure.DataDimension bs' = GridBlockStructure.DataDimension bs
  /\ GridBlockStructure.AdjacencyMask bs' = GridBlockStructure.AdjacencyMask bs.
Proof.
  intros Hnodup. revert bs info.
  induction Hnodup as [|g faces Hnotin Hnodup IH]; intros bs info; cbv zeta.
  - rewrite decide_False by apply not_elem_of_nil. cbn. repeat split; lia.
  - rewrite add_layers_cons.
    destruct (AddGhostLayerToGrid_neighbour outputGhostLevels g f bs info)
      as (Hs & He & Hd & Hm).
    destruct (IH (fst (AddGhostLayerToGrid (face_index g) outputGhostLevels bs info))
                (snd (AddGhostLayerToGrid (face_index g) outputGhostLevels bs info)))
      as (IHs & IHe & IHd & IHm).
    split; [| repeat split; congruence].
    rewrite IHs, Hs, He.
    destruct (decide (opposite f = g)) as [Heq | Hne].
    + rewrite (decide_True (P := opposite f ∈ g :: faces)) by (rewrite Heq; left).
      rewrite decide_False by (rewrite Heq; exact Hnotin). lia.
    + destruct (decide (opposite f ∈ faces)) as [Hin | Hnin].
      * rewrite decide_True by (right; exact Hin). lia.
      * rewrite decide_False; [lia |].
        intros Hin. apply elem_of_cons in Hin. tauto.
Qed.

Lemma faces_of_mask_elem (adjacencyMask : Z) (f : Adjacency) :
  f ∈ faces_of_mask adjacencyMask <-> Z.testbit adjacencyMask (face_index f) = true.
Proof.
  unfold faces_of_mask. rewrite list_elem_of_In, filter_In. split.
  - intros [_ Hbit]. exact Hbit.
  - intros Hbit. split; [| exact Hbit]. destruct f; cbn; tauto.
Qed.

Lemma faces_of_mask_NoDup (adjacencyMask : Z) : NoDup (faces_of_mask adjacencyMask).
Proof.
  unfold faces_of_mask. apply NoDup_ListNoDup, List.NoDup_filter.
  unfold all_faces. repeat constructor; cbn; intuition discriminate.
Qed.

(** X8: when [LinkGrid] keeps a neighbour, the neighbour's
    [ExtentWithNewGhosts] is moved outwards by the smaller of
    [outputGhostLevels] and the neighbour's width on each side that faces a
    face of the adjacency mask, and by nothing on the other sides; the
    block's thickness grows to that depth on the faces of the mask and
    stays on the others; the neighbour's extent, dimension and mask and the
    block's extent are left as they were. *)
Theorem X8_link_widens_the_neighbour_towards_the_block
    (bs bs' : GridBlockStructure.t) (info info' : GridInformation.t)
    (adjacencyMask overlapMask outputGhostLevels dim : Z) :
  LinkGrid bs info adjacencyMask overlapMask outputGhostLevels dim = Linked bs' info' ->
  (forall f : Adjacency,
     (GridBlockStructure.ExtentWithNewGhosts bs').[face_index f]
     = (GridBlockStructure.ExtentWithNewGhosts bs).[face_index f]
       + (if Z.testbit adjacencyMask (face_index (opposite f))
          then outwards f
               * Z.min outputGhostLevels (neighbor_width (GridBlockStructure.Extent bs) f)
          else 0)
     /\ (GridInformation.ExtentGhostThickness info').[face_index f]
        = (if Z.testbit adjacencyMask (face_index f)
           then Z.max (GridInformation.ExtentGhostThickness info).[face_index f]
                  (Z.min outputGhostLevels (neighbor_width (GridBlockStructure.Extent bs) f))
           else (GridInformation.ExtentGhostThickness info).[face_index f]))
  /\ GridBlockStructure.Extent bs' = GridBlockStructure.Extent bs
  /\ GridBlockStructure.DataDimension bs' = GridBlockStructure.DataDimension bs
  /\ GridBlockStructure.AdjacencyMask bs' = GridBlockStructure.AdjacencyMask bs
  /\ GridInformation.Extent info' = GridInformation.Extent info.
Proof.
  intros Hlink. destruct (LinkGrid_linked _ _ _ _ _ _ _ _ Hlink) as [_ Hadd].
  pose proof (fun f => add_layers_neighbour outputGhostLevels (faces_of_mask adjacencyMask) f
                         bs info (faces_of_mask_NoDup adjacencyMask)) as Hn.
  pose proof (fun f => add_layers_thickness outputGhostLevels (faces_of_mask adjacencyMask) f
                         bs info) as Ht.
  rewrite Hadd in Hn, Ht. cbn [fst] in Hn.
  split; [| destruct (Hn Left) as (_ & He & Hd & Hm); destruct (Ht Left) as (_ & _ & Hi);
            auto].
  intros f. destruct (Hn f) as (Hs & _). destruct (Ht f) as (Hth & _).
  rewrite Hs, Hth. unfold neighbor_depth. split.
  - destruct (decide (opposite f ∈ faces_of_mask adjacencyMask)) as [Hin | Hnin].
    + apply faces_of_mask_elem in Hin. rewrite Hin. reflexivity.
    + rewrite faces_of_mask_elem in Hnin. apply not_true_is_false in Hnin.
      rewrite Hnin. reflexivity.
  - destruct (decide (f ∈ faces_of_mask adjacencyMask)) as [Hin | Hnin].
    + apply faces_of_mask_elem in Hin. rewrite Hin. reflexivity.
    + rewrite faces_of_mask_elem in Hnin. apply not_true_is_false in Hnin.
      rewrite Hnin. reflexivity.
Qed.

Lemma X8_link_widens_the_neighbour_witness :
  (forall f : Adjacency,
     (MkExtent 2 8 0 4 (-4) 2).[face_index f]
     = (MkExtent 4 8 0 4 (-4) 0).[face_index f]
       + (if Z.testbit 0x12 (face_index (opposite f))
          then outwards f * Z.min 2 (neighbor_width (MkExtent 4 8 0 4 (-4) 0) f)
          else 0)
     /\ (MkExtent 0 2 0 0 2 0).[face_index f]
        = (if Z.testbit 0x12 (face_index f)
           then Z.max zero_extent.[face_index f]
                  (Z.min 2 (neighbor_width (MkExtent 4 8 0 4 (-4) 0) f))
           else zero_extent.[face_index f]))
  /\ MkExtent 4 8 0 4 (-4) 0 = MkExtent 4 8 0 4 (-4) 0
  /\ 3 = 3
  /\ 0x12 = 0x12
  /\ MkExtent 0 4 0 4 0 4 = MkExtent 0 4 0 4 0 4.
Proof.
  apply (X8_link_widens_the_neighbour_towards_the_block
           (GridBlockStructure.Make (MkExtent 4 8 0 4 (-4) 0) 3 (MkExtent 4 8 0 4 (-4) 0) 0x12)
           (GridBlockStructure.Make (MkExtent 4 8 0 4 (-4) 0) 3 (MkExtent 2 8 0 4 (-4) 2) 0x12)
           (GridInformation.Make (MkExtent 0 4 0 4 0 4) zero_extent)
           (GridInformation.Make (MkExtent 0 4 0 4 0 4) (MkExtent 0 2 0 0 2 0))
           0x12 0x02 2 3).
  reflexivity.
Defined.

(** ** The loop over the neighbours *)

Ltac links_tac :=
  apply set_eq; intros ?; unfold option_list, option_rect; cbn [map fst app];
  rewrite ?list_to_set_cons, ?list_to_set_nil;
  rewrite ?elem_of_union, ?elem_of_list_to_set, ?elem_of_cons, ?elem_of_nil,
    ?elem_of_singleton, ?elem_of_empty;
  tauto.

Lemma add_layers_widened (outputGhostLevels : Z) (faces : list Adjacency) bs info :
  fst (add_layers outputGhostLevels faces bs info) = widened outputGhostLevels faces bs.
Proof.
  unfold widened. generalize (GridInformation.Make zero_extent zero_extent) as info0.
  revert bs info. induction faces as [|g faces IH]; intros bs info info0; [reflexivity |].
  rewrite !add_layers_cons. apply IH.
Qed.

Lemma map_at_is_Some {A : Type} (m : list (Z * A)) (gid : Z) :
  is_Some (map_at m gid) <-> gid ∈ map fst m.
Proof.
  induction m as [|[g a] m IH]; cbn [map_at map fst].
  - split; [intros [x Hx]; discriminate | intros Hin; apply elem_of_nil in Hin; tauto].
  - rewrite elem_of_cons. destruct (Z.eqb_spec g gid) as [-> | Hne].
    + split; [left; reflexivity | eauto].
    + rewrite IH. split; [tauto | intros [Heq | Hin]; [congruence | exact Hin]].
Qed.



Section LinkSummaryProperties.
Context {BS : Type} `{GridBlock BS}.
Variables (localBlockStructure : BS) (localExtent : ExtentType).
Variables (outputGhostLevels dim : Z).

(** One turn of the loop, in terms of the neighbour alone. *)
Lemma link_neighbor_summary (st : LinkState BS) (entry : Z * BS) :
  let st' := link_neighbor localBlockStructure localExtent outputGhostLevels dim st entry in
  let new := option_list (linked_neighbor localBlockStructure localExtent outputGhostLevels
                            dim entry) in
  kept st' = kept st ++ new
  /\ localLinks st' = list_to_set (map fst new) ∪ localLinks st
  /\ logged_errors st'
     = (logged_errors st
        + (if neighbor_logs localBlockStructure localExtent dim entry then 1 else 0))%nat.
Proof.
  destruct entry as [gid blockStructure].
  unfold link_neighbor, linked_neighbor, neighbor_logs; cbn [snd].
  destruct (SynchronizeGridExtents localBlockStructure blockStructure) as [shifted|].
  2: { cbn. rewrite app_nil_r. split; [reflexivity |]. split; [links_tac | lia]. }
  destruct (ComputeAdjacencyAndOverlapMasks localExtent shifted) as [m o].
  set (g := GridBlockStructure.set_ExtentWithNewGhosts _ _).
  pose proof (LinkGrid_linked_faces outputGhostLevels g (information st) m o dim) as Hlink.
  destruct (linked_faces m o dim) as [faces|] eqn:Hfaces.
  - rewrite Hlink.
    rewrite <- (add_layers_widened outputGhostLevels faces g (information st)).
    destruct (add_layers outputGhostLevels faces g (information st)) as [g' info'].
    cbn. split; [reflexivity |]. split; [links_tac | lia].
  - rewrite (LinkGrid_erased g (information st) m o outputGhostLevels dim Hfaces).
    cbn. rewrite app_nil_r. split; [reflexivity |]. split; [links_tac |].
    destruct (link_logs_error m o dim); lia.
Qed.

(** The whole loop: what is left in [BlockStructures], the link set and the
    errors logged. *)
Lemma link_loop_summary (entries : list (Z * BS)) (st : LinkState BS) :
  let st' :=
    fold_left (link_neighbor localBlockStructure localExtent outputGhostLevels dim)
      entries st in
  let new := omap (linked_neighbor localBlockStructure localExtent outputGhostLevels dim)
               entries in
  kept st' = kept st ++ new
  /\ localLinks st' = list_to_set (map fst new) ∪ localLinks st
  /\ logged_errors st'
     = (logged_errors st
        + length (List.filter (neighbor_logs localBlockStructure localExtent dim) entries))%nat.
Proof.
  revert st. induction entries as [|entry entries IH]; intros st; cbn [fold_left].
  - cbn. rewrite app_nil_r. split; [reflexivity |]. split; [links_tac | lia].
  - destruct (IH (link_neighbor localBlockStructure localExtent outputGhostLevels dim
                    st entry)) as (IHk & IHl & IHe).
    destruct (link_neighbor_summary st entry) as (Hk & Hl & He).
    cbv zeta. rewrite IHk, IHl, IHe, Hk, Hl, He. cbn [omap list_omap List.filter].
    destruct (linked_neighbor localBlockStructure localExtent outputGhostLevels dim entry)
      as [[gid bs]|]; cbn [option_list app map fst];
      (split; [rewrite <- ?app_assoc; reflexivity |]);
      (split; [links_tac |]);
      destruct (neighbor_logs localBlockStructure localExtent dim entry); cbn [length]; lia.
Qed.
End LinkSummaryProperties.

(** [link_block] on a block with a valid extent, in terms of its
    neighbours. *)
Lemma link_block_summary (BS : Type) (family : GridBlock BS) (outputGhostLevels : Z)
    (localBlockStructure : BS) (dim : Z) (block : Block BS) :
  IsExtentValid (GridInformation.Extent (Information block)) = true ->
  let r := link_block outputGhostLevels localBlockStructure dim block in
  BlockStructures (linked_block r)
  = omap (linked_neighbor localBlockStructure (GridInformation.Extent (Information block))
            outputGhostLevels dim) (BlockStructures block)
  /\ linked_links r = list_to_set (map fst (BlockStructures (linked_block r)))
  /\ linked_errors r
     = length (List.filter (neighbor_logs localBlockStructure
                              (GridInformation.Extent (Information block)) dim)
                 (BlockStructures block)).
Proof.
  intros Hvalid. unfold link_block. rewrite link_block_guard, Hvalid.
  cbn [negb linked_block linked_links linked_errors BlockStructures].
  destruct (link_loop_summary localBlockStructure
              (GridInformation.Extent (Information block)) outputGhostLevels dim
              (BlockStructures block) (MkLinkState [] (Information block) ∅ 0))
    as (Hk & Hl & He).
  cbn [kept localLinks logged_errors app] in Hk, Hl, He.
  rewrite Hk, Hl, He. split; [reflexivity |]. split; [links_tac | lia].
Qed.

(** X9: after the link-map computation of a block, a gid is in the block's
    link set exactly when [BlockStructures] still holds a descriptor for it,
    so that [BlockStructures.at(gid)] does not throw for a gid of the link
    set; this holds for blocks with an invalid extent too, where both are
    empty. *)
Theorem X9_link_set_matches_the_descriptors_kept
    (BS : Type) (family : GridBlock BS) (outputGhostLevels : Z)
    (localBlockStructure : BS) (dim : Z) (block : Block BS) (gid : Z) :
  let r := link_block outputGhostLevels localBlockStructure dim block in
  gid ∈ linked_links r <-> is_Some (map_at (BlockStructures (linked_block r)) gid).
Proof.
  cbv zeta. rewrite map_at_is_Some.
  destruct (IsExtentValid (GridInformation.Extent (Information block))) eqn:Hvalid.
  - destruct (link_block_summary BS family outputGhostLevels localBlockStructure dim block
                Hvalid) as (_ & -> & _).
    apply elem_of_list_to_set.
  - unfold link_block. rewrite link_block_guard, Hvalid.
    cbn [negb linked_block linked_links BlockStructures map].
    split; [intros Hin; apply elem_of_empty in Hin; tauto
           | intros Hin; apply elem_of_nil in Hin; tauto].
Qed.


Lemma filter_none {A : Type} (p : A -> bool) (l : list A) :
  (forall x, p x = false) -> List.filter p l = [].
Proof.
  intros Hp. induction l as [|x l IH]; cbn [List.filter]; [reflexivity |].
  rewrite Hp. exact IH.
Qed.

(** The information of a block with a valid extent after [link_block], and
    the extent set on its output. *)
Lemma link_block_information (BS : Type) (family : GridBlock BS) (outputGhostLevels : Z)
    (localBlockStructure : BS) (dim : Z) (block : Block BS) :
  IsExtentValid (GridInformation.Extent (Information block)) = true ->
  let r := link_block outputGhostLevels localBlockStructure dim block in
  GridInformation.Extent (Information (linked_block r))
  = GridInformation.Extent (Information block)
  /\ (forall f,
        (GridInformation.ExtentGhostThickness (Information (linked_block r))).[face_index f]
        = foldr Z.max (GridInformation.ExtentGhostThickness (Information block)).[face_index f]
            (contributions localBlockStructure (GridInformation.Extent (Information block))
               outputGhostLevels dim f (BlockStructures block)))
  /\ linked_output_extent r = Some (UpdateOutputGridStructure (Information (linked_block r))).
Proof.
  intros Hvalid. unfold link_block. rewrite link_block_guard, Hvalid.
  cbn [negb linked_block Information linked_output_extent].
  split; [| split; [| reflexivity]].
  - exact (proj2 (link_loop_thickness localBlockStructure
                    (GridInformation.Extent (Information block)) outputGhostLevels dim Left
                    (BlockStructures block) (MkLinkState [] (Information block) ∅ 0))).
  - intros f.
    exact (proj1 (link_loop_thickness localBlockStructure
                    (GridInformation.Extent (Information block)) outputGhostLevels dim f
                    (BlockStructures block) (MkLinkState [] (Information block) ∅ 0))).
Qed.



(** ** Three dimensions: no error *)

Lemma SynchronizeGridExtents_ImageData_valid (Dot : VectorType -> VectorType -> float)
    (SquaredNorm : VectorType -> float) (Dot4 : QuaternionType -> QuaternionType -> float)
    (NearlyEqual : float -> float -> bool)
    (localBlockStructure blockStructure : ImageDataBlockStructure.t) (shifted : ExtentType) :
  SynchronizeGridExtents_ImageData Dot SquaredNorm Dot4 NearlyEqual localBlockStructure
    blockStructure = Some shifted ->
  IsExtentValid shifted = true.
Proof.
  unfold SynchronizeGridExtents_ImageData.
  set (extent := GridBlockStructure.Extent (ImageDataBlockStructure.base blockStructure)).
  destruct (_ || _) eqn:Hguard; [discriminate |]. intros [= <-].
  apply orb_false_iff in Hguard as [Hguard _]. apply orb_false_iff in Hguard as [Hguard _].
  apply orb_false_iff in Hguard as [Hguard _].
  rewrite link_block_guard in Hguard. apply negb_false_iff in Hguard.
  apply IsExtentValid_spec. intros a.
  pose proof (proj1 (IsExtentValid_spec extent) Hguard a) as Ha.
  destruct a; cbn [axis_min axis_max ext_at ext0 ext1 ext2 ext3 ext4 ext5] in *; lia.
Qed.

Lemma SynchronizeGridExtents_RectilinearGrid_valid (V : Type) (cmp : Comparator V)
    (localBlockStructure blockStructure : RectilinearGridBlockStructure.t V)
    (shifted : ExtentType) :
  SynchronizeGridExtents_RectilinearGrid localBlockStructure blockStructure = Some shifted ->
  IsExtentValid shifted = true.
Proof.
  unfold SynchronizeGridExtents_RectilinearGrid.
  set (extent := GridBlockStructure.Extent (RectilinearGridBlockStructure.base blockStructure)).
  destruct (_ || _ || _ || _) eqn:Hguard; [discriminate |].
  destruct (_ && _); [discriminate |]. intros [= <-].
  rewrite <- !orb_assoc in Hguard. apply orb_false_iff in Hguard as [_ Hguard].
  rewrite orb_assoc, link_block_guard in Hguard. apply negb_false_iff in Hguard.
  apply IsExtentValid_spec. intros a.
  pose proof (proj1 (IsExtentValid_spec extent) Hguard a) as Ha.
  destruct a; cbn [axis_min axis_max ext_at ext0 ext1 ext2 ext3 ext4 ext5] in *; lia.
Qed.

(** With a matcher that returns valid extents only, the link-map computation
    of a three-dimensional block logs no error. *)
Lemma link_block_3d_no_error (BS : Type) (family : GridBlock BS) (outputGhostLevels : Z)
    (localBlockStructure : BS) (block : Block BS) :
  (forall blockStructure shifted,
     SynchronizeGridExtents localBlockStructure blockStructure = Some shifted ->
     IsExtentValid shifted = true) ->
  linked_errors (link_block outputGhostLevels localBlockStructure 3 block) = 0%nat.
Proof.
  intros Hmatcher.
  destruct (IsExtentValid (GridInformation.Extent (Information block))) eqn:Hvalid.
  - destruct (link_block_summary BS family outputGhostLevels localBlockStructure 3 block
                Hvalid) as (_ & _ & ->).
    rewrite filter_none; [reflexivity |].
    intros [gid blockStructure]. unfold neighbor_logs; cbn [snd].
    destruct (SynchronizeGridExtents localBlockStructure blockStructure) as [shifted|] eqn:Hs;
      [| reflexivity].
    pose proof (link_3d _ shifted Hvalid (Hmatcher _ _ Hs)) as H3. cbv zeta in H3.
    destruct (ComputeAdjacencyAndOverlapMasks _ shifted) as [m o]. cbn [fst snd] in H3.
    destruct (linked_faces m o 3); [reflexivity | exact (proj2 H3)].
  - unfold link_block. rewrite link_block_guard, Hvalid. reflexivity.
Qed.

(** X11: the link-map computation of a three-dimensional block of a uniform
    or of a rectilinear grid logs no error, whatever the block and its
    neighbours are: a neighbour the block is not in contact with is erased
    silently. *)
Theorem X11_no_error_in_three_dimensions :
  (forall (outputGhostLevels : Z) (localBlockStructure : ImageDataBlockStructure.t)
          (block : Block ImageDataBlockStructure.t),
     linked_errors (link_block outputGhostLevels localBlockStructure 3 block) = 0%nat)
  /\ (forall (V : Type) (cmp : Comparator V) (outputGhostLevels : Z)
             (localBlockStructure : RectilinearGridBlockStructure.t V)
             (block : Block (RectilinearGridBlockStructure.t V)),
        linked_errors (link_block outputGhostLevels localBlockStructure 3 block) = 0%nat).
Proof.
  split.
  - intros G localBlockStructure block. apply link_block_3d_no_error.
    intros blockStructure shifted.
    apply SynchronizeGridExtents_ImageData_valid.
  - intros V cmp G localBlockStructure block. apply link_block_3d_no_error.
    intros blockStructure shifted.
    apply SynchronizeGridExtents_RectilinearGrid_valid.
Qed.

(** ** Where the hidden markers go *)

Lemma set_many_length (ids : list Z) (val : Z) (array : list Z) :
  length (set_many ids val array) = length array.
Proof.
  revert array. induction ids as [|id ids IH]; intros array; [reflexivity |].
  rewrite set_many_cons, IH. apply SetValue_length.
Qed.

Lemma set_many_app (ids1 ids2 : list Z) (val : Z) (array : list Z) :
  set_many (ids1 ++ ids2) val array = set_many ids2 val (set_many ids1 val array).
Proof. unfold set_many. apply fold_left_app. Qed.

Lemma GetValue_SetValue (array : list Z) (id id' val : Z) :
  GetValue (SetValue array id' val) id
  = if decide (id = id' /\ 0 <= id < Z.of_nat (length array)) then val else GetValue array id.
Proof.
  unfold GetValue, SetValue.
  destruct (Z.ltb_spec id 0) as [Hneg | Hpos].
  { rewrite decide_False by lia. reflexivity. }
  destruct (Z.ltb_spec id' 0) as [Hneg' | Hpos'].
  { rewrite decide_False by lia. reflexivity. }
  destruct (decide (id = id')) as [-> | Hne].
  - destruct (decide (id' < Z.of_nat (length array))) as [Hin | Hout].
    + rewrite decide_True by lia. rewrite list_lookup_insert_eq by lia. reflexivity.
    + rewrite decide_False by lia. rewrite !lookup_ge_None_2; [reflexivity | lia |].
      rewrite length_insert. lia.
  - rewrite decide_False by tauto. rewrite list_lookup_insert_ne by lia. reflexivity.
Qed.

(** A run of writes of one value: the places written read that value, the
    others what they held. *)
Lemma set_many_hit (ids : list Z) (val : Z) (array : list Z) (id : Z) :
  id ∈ ids -> 0 <= id < Z.of_nat (length array) ->
  GetValue (set_many ids val array) id = val.
Proof.
  intros Hin Hrange. revert array Hrange.
  induction ids as [|id' ids IH]; intros array Hrange.
  - apply elem_of_nil in Hin. contradiction.
  - rewrite set_many_cons, set_many_SetValue, GetValue_SetValue, set_many_length.
    destruct (decide (id = id')) as [-> | Hne].
    + rewrite decide_True by (split; [reflexivity | exact Hrange]). reflexivity.
    + rewrite decide_False by tauto.
      apply elem_of_cons in Hin as [Heq | Hin]; [contradiction |]. apply IH; assumption.
Qed.

Lemma set_many_miss (ids : list Z) (val : Z) (array : list Z) (id : Z) :
  id ∉ ids -> GetValue (set_many ids val array) id = GetValue array id.
Proof.
  revert array. induction ids as [|id' ids IH]; intros array Hnotin; [reflexivity |].
  rewrite set_many_cons, set_many_SetValue, GetValue_SetValue.
  rewrite not_elem_of_cons in Hnotin. destruct Hnotin as [Hne Hnotin].
  rewrite decide_False by tauto. apply IH. exact Hnotin.
Qed.

Lemma zrange_elem_iff (lo hi x : Z) : x ∈ zrange lo hi <-> lo <= x < hi.
Proof.
  rewrite list_elem_of_In. split; [| apply zrange_elem].
  unfold zrange. rewrite in_map_iff. intros (n & <- & Hn). apply in_seq in Hn. lia.
Qed.

Lemma row_major_elem {A : Type} (g : Z -> Z -> Z -> A) (ilo ihi jlo jhi klo khi : Z) (x : A) :
  x ∈ row_major g ilo ihi jlo jhi klo khi
  <-> exists i j k, ilo <= i < ihi /\ jlo <= j < jhi /\ klo <= k < khi /\ x = g i j k.
Proof.
  unfold row_major. rewrite list_elem_of_In, in_flat_map. split.
  - intros (k & Hk & Hx). apply in_flat_map in Hx as (j & Hj & Hx).
    apply in_flat_map in Hx as (i & Hi & Hx).
    apply list_elem_of_In, zrange_elem_iff in Hk, Hj, Hi.
    destruct Hx as [<- | []]. exists i, j, k. auto.
  - intros (i & j & k & Hi & Hj & Hk & ->).
    exists k. split; [apply zrange_elem; exact Hk |].
    apply in_flat_map. exists j. split; [apply zrange_elem; exact Hj |].
    apply in_flat_map. exists i. split; [apply zrange_elem; exact Hi |]. left. reflexivity.
Qed.

Lemma nested_set_many (id_of : Z -> Z -> Z -> Z) (ilo ihi jlo jhi klo khi val : Z)
    (array : list Z) :
  for_loop klo khi (fun k =>
    for_loop jlo jhi (fun j =>
      for_loop ilo ihi (fun i array => SetValue array (id_of i j k) val))) array
  = set_many (row_major id_of ilo ihi jlo jhi klo khi) val array.
Proof.
  unfold set_many, row_major.
  apply (for_loop_fold (fun array id => SetValue array id val)). intros k array'.
  apply (for_loop_fold (fun array id => SetValue array id val)). intros j array''.
  apply (for_loop_fold (fun array id => SetValue array id val)). reflexivity.
Qed.

Section HiddenIdsProperties.
Variable ComputeCellIdForExtent : ExtentType -> Vec3 Z -> Z.
Variable ComputePointIdForExtent : ExtentType -> Vec3 Z -> Z.
Variables HIDDENCELL HIDDENPOINT : Z.

Lemma FillGridCellArray_set_many (array : list Z) (gridExtent : ExtentType)
    (imin imax jmin jmax kmin kmax val : Z) :
  FillGridCellArray ComputeCellIdForExtent array gridExtent imin imax jmin jmax kmin kmax val
  = set_many (row_major (fun i j k => ComputeCellIdForExtent gridExtent (MkVec3 i j k))
                imin imax jmin jmax kmin kmax) val array.
Proof.
  apply (nested_set_many (fun i j k => ComputeCellIdForExtent gridExtent (MkVec3 i j k))).
Qed.

Lemma FillGridPointArray_set_many (array : list Z) (gridExtent : ExtentType)
    (imin imax jmin jmax kmin kmax val : Z) :
  FillGridPointArray ComputePointIdForExtent array gridExtent imin imax jmin jmax kmin kmax val
  = set_many (row_major (fun i j k => ComputePointIdForExtent gridExtent (MkVec3 i j k))
                imin (imax + 1) jmin (jmax + 1) kmin (kmax + 1)) val array.
Proof.
  apply (nested_set_many (fun i j k => ComputePointIdForExtent gridExtent (MkVec3 i j k))).
Qed.

(** [fill_hidden_ghosts] as two runs of writes. *)
Lemma fill_hidden_ghosts_ids (BS : Type) (localExtent : ExtentType) (block : Block BS) :
  fill_hidden_ghosts ComputeCellIdForExtent ComputePointIdForExtent HIDDENCELL HIDDENPOINT
    localExtent block
  = MkBlock (Information block) (BlockStructures block)
      (set_many (hidden_cell_ids ComputeCellIdForExtent localExtent
                   (GridInformation.Extent (Information block)))
         HIDDENCELL (GhostCellArray block))
      (set_many (hidden_point_ids ComputePointIdForExtent localExtent
                   (GridInformation.Extent (Information block)))
         HIDDENPOINT (GhostPointArray block)).
Proof.
  unfold fill_hidden_ghosts, hidden_cell_ids, hidden_point_ids; cbn [v0 v1 v2].
  destruct (localExtent.[0] =? localExtent.[1]), (localExtent.[2] =? localExtent.[3]),
    (localExtent.[4] =? localExtent.[5]); cbn [Z.b2z nz Z.eqb negb Pos.eqb app];
    rewrite ?FillGridCellArray_set_many, ?FillGridPointArray_set_many, ?app_nil_r,
      ?set_many_app; reflexivity.
Qed.
End HiddenIdsProperties.

Section HiddenMarks.
Variable ComputeCellIdForExtent : ExtentType -> Vec3 Z -> Z.
Variables (E N : ExtentType).
Hypothesis Hcontain :
  forall a, axis_min E a <= axis_min N a /\ axis_min N a <= axis_max N a
            /\ axis_max N a <= axis_max E a.

Lemma box_bounds :
  (E.[0] <= N.[0] /\ N.[0] <= N.[1] /\ N.[1] <= E.[1])
  /\ (E.[2] <= N.[2] /\ N.[2] <= N.[3] /\ N.[3] <= E.[3])
  /\ (E.[4] <= N.[4] /\ N.[4] <= N.[5] /\ N.[5] <= E.[5]).
Proof. exact (conj (Hcontain AxisX) (conj (Hcontain AxisY) (Hcontain AxisZ))). Qed.

Lemma in_cell_box_spec (ijk : Vec3 Z) :
  in_cell_box E ijk
  <-> (E.[0] <= v0 ijk < E.[1] + [? E.[0] =? E.[1]])
      /\ (E.[2] <= v1 ijk < E.[3] + [? E.[2] =? E.[3]])
      /\ (E.[4] <= v2 ijk < E.[5] + [? E.[4] =? E.[5]]).
Proof.
  destruct box_bounds as (HX & HY & HZ).
  unfold in_cell_box, cells_along. split.
  - intros Hbox. pose proof (Hbox AxisX) as BX. pose proof (Hbox AxisY) as BY.
    pose proof (Hbox AxisZ) as BZ. cbn [axis_min axis_max vget] in BX, BY, BZ.
    destruct (Z.eqb_spec E.[0] E.[1]), (Z.eqb_spec E.[2] E.[3]), (Z.eqb_spec E.[4] E.[5]);
      cbn [Z.b2z]; lia.
  - intros (BX & BY & BZ) a.
    destruct (Z.eqb_spec E.[0] E.[1]), (Z.eqb_spec E.[2] E.[3]), (Z.eqb_spec E.[4] E.[5]);
      cbn [Z.b2z] in *; destruct a; cbn [axis_min axis_max vget]; lia.
Qed.

Lemma in_sub_extent_spec (ijk : Vec3 Z) :
  in_cell_box E ijk ->
  in_sub_extent E N ijk
  <-> (E.[0] = E.[1] \/ N.[0] <= v0 ijk < N.[1])
      /\ (E.[2] = E.[3] \/ N.[2] <= v1 ijk < N.[3])
      /\ (E.[4] = E.[5] \/ N.[4] <= v2 ijk < N.[5]).
Proof.
  intros Hbox. apply in_cell_box_spec in Hbox as (BX & BY & BZ).
  unfold in_sub_extent. split.
  - intros Hsub. pose proof (Hsub AxisX) as SX. pose proof (Hsub AxisY) as SY.
    pose proof (Hsub AxisZ) as SZ. cbn [axis_min axis_max vget] in SX, SY, SZ.
    destruct (decide (E.[0] = E.[1])), (decide (E.[2] = E.[3])), (decide (E.[4] = E.[5]));
      tauto.
  - intros (SX & SY & SZ) a.
    destruct a; cbn [axis_min axis_max vget];
      match goal with |- context [decide (?x = ?y)] => destruct (decide (x = y)) as [Heq|] end;
      try tauto;
      match goal with |- context [ ?x =? ?y ] => fail | _ => idtac end.
    + rewrite Heq, Z.eqb_refl in BX. cbn [Z.b2z] in BX. lia.
    + rewrite Heq, Z.eqb_refl in BY. cbn [Z.b2z] in BY. lia.
    + rewrite Heq, Z.eqb_refl in BZ. cbn [Z.b2z] in BZ. lia.
Qed.

Hypothesis Hinj :
  forall ijk ijk', in_cell_box E ijk -> in_cell_box E ijk' ->
                   ComputeCellIdForExtent E ijk = ComputeCellIdForExtent E ijk' -> ijk = ijk'.

Ltac flags :=
  destruct (Z.eqb_spec E.[0] E.[1]), (Z.eqb_spec E.[2] E.[3]), (Z.eqb_spec E.[4] E.[5]);
  cbn [Z.b2z nz Z.eqb negb Pos.eqb] in *.

(** The places [fill_hidden_ghosts] writes the cell marker at are the cells
    outside the extent without ghosts. *)
Lemma hidden_cell_ids_elem (ijk : Vec3 Z) :
  in_cell_box E ijk ->
  ComputeCellIdForExtent E ijk ∈ hidden_cell_ids ComputeCellIdForExtent E N
  <-> ~ in_sub_extent E N ijk.
Proof.
  intros Hbox. rewrite (in_sub_extent_spec ijk Hbox).
  pose proof (proj1 (in_cell_box_spec ijk) Hbox) as (BX & BY & BZ).
  destruct box_bounds as (HX & HY & HZ).
  unfold hidden_cell_ids. rewrite !elem_of_app. split.
  - assert (Hcell : forall i j k,
              E.[0] <= i < E.[1] + [? E.[0] =? E.[1]] ->
              E.[2] <= j < E.[3] + [? E.[2] =? E.[3]] ->
              E.[4] <= k < E.[5] + [? E.[4] =? E.[5]] ->
              ComputeCellIdForExtent E ijk = ComputeCellIdForExtent E (MkVec3 i j k) ->
              v0 ijk = i /\ v1 ijk = j /\ v2 ijk = k).
    { intros i j k Hi Hj Hk Heq.
      rewrite (Hinj ijk (MkVec3 i j k) Hbox); [auto | | exact Heq].
      apply in_cell_box_spec. auto. }
    intros [Hin | [Hin | Hin]];
      (destruct (negb (nz _)) eqn:Hflag in Hin;
       [| apply elem_of_nil in Hin; contradiction]);
      apply elem_of_app in Hin as [Hin | Hin];
      apply row_major_elem in Hin as (i & j & k & Hi & Hj & Hk & Heq);
      flags; try discriminate;
      (apply Hcell in Heq as (Ei & Ej & Ek); [| flags; lia ..]); lia.
  - intros Hout.
    assert (Hside : (E.[0] <> E.[1] /\ (v0 ijk < N.[0] \/ N.[1] <= v0 ijk))
                    \/ (E.[2] <> E.[3] /\ (v1 ijk < N.[2] \/ N.[3] <= v1 ijk))
                    \/ (E.[4] <> E.[5] /\ (v2 ijk < N.[4] \/ N.[5] <= v2 ijk))) by lia.
    assert (Hid : ComputeCellIdForExtent E ijk
                  = ComputeCellIdForExtent E (MkVec3 (v0 ijk) (v1 ijk) (v2 ijk)))
      by (destruct ijk; reflexivity).
    destruct Hside as [[Hne [Hlo | Hhi]] | [[Hne [Hlo | Hhi]] | [Hne [Hlo | Hhi]]]].
    + left. flags; try contradiction; apply elem_of_app; left; apply row_major_elem;
        exists (v0 ijk), (v1 ijk), (v2 ijk); repeat split; first [lia | exact Hid].
    + left. flags; try contradiction; apply elem_of_app; right; apply row_major_elem;
        exists (v0 ijk), (v1 ijk), (v2 ijk); repeat split; first [lia | exact Hid].
    + right; left. flags; try contradiction; apply elem_of_app; left; apply row_major_elem;
        exists (v0 ijk), (v1 ijk), (v2 ijk); repeat split; first [lia | exact Hid].
    + right; left. flags; try contradiction; apply elem_of_app; right; apply row_major_elem;
        exists (v0 ijk), (v1 ijk), (v2 ijk); repeat split; first [lia | exact Hid].
    + right; right. flags; try contradiction; apply elem_of_app; left; apply row_major_elem;
        exists (v0 ijk), (v1 ijk), (v2 ijk); repeat split; first [lia | exact Hid].
    + right; right. flags; try contradiction; apply elem_of_app; right; apply row_major_elem;
        exists (v0 ijk), (v1 ijk), (v2 ijk); repeat split; first [lia | exact Hid].
Qed.
Lemma in_point_box_spec (B : ExtentType) (ijk : Vec3 Z) :
  in_point_box B ijk
  <-> B.[0] <= v0 ijk <= B.[1] /\ B.[2] <= v1 ijk <= B.[3] /\ B.[4] <= v2 ijk <= B.[5].
Proof.
  unfold in_point_box. split.
  - intros Hbox. exact (conj (Hbox AxisX) (conj (Hbox AxisY) (Hbox AxisZ))).
  - intros (BX & BY & BZ) a. destruct a; assumption.
Qed.

Variable ComputePointIdForExtent : ExtentType -> Vec3 Z -> Z.
Hypothesis Hinj_points :
  forall ijk ijk', in_point_box E ijk -> in_point_box E ijk' ->
                   ComputePointIdForExtent E ijk = ComputePointIdForExtent E ijk' ->
                   ijk = ijk'.

(** The places [fill_hidden_ghosts] writes the point marker at are the
    points outside the extent without ghosts. *)
Lemma hidden_point_ids_elem (ijk : Vec3 Z) :
  in_point_box E ijk ->
  ComputePointIdForExtent E ijk ∈ hidden_point_ids ComputePointIdForExtent E N
  <-> ~ in_point_box N ijk.
Proof.
  intros Hbox. rewrite (in_point_box_spec N).
  pose proof (proj1 (in_point_box_spec E ijk) Hbox) as (BX & BY & BZ).
  destruct box_bounds as (HX & HY & HZ).
  unfold hidden_point_ids. rewrite !elem_of_app. split.
  - assert (Hpoint : forall i j k,
              E.[0] <= i <= E.[1] -> E.[2] <= j <= E.[3] -> E.[4] <= k <= E.[5] ->
              ComputePointIdForExtent E ijk = ComputePointIdForExtent E (MkVec3 i j k) ->
              v0 ijk = i /\ v1 ijk = j /\ v2 ijk = k).
    { intros i j k Hi Hj Hk Heq.
      rewrite (Hinj_points ijk (MkVec3 i j k) Hbox); [auto | | exact Heq].
      apply in_point_box_spec. auto. }
    intros [Hin | [Hin | Hin]];
      (destruct (negb (nz _)) eqn:Hflag in Hin;
       [| apply elem_of_nil in Hin; contradiction]);
      apply elem_of_app in Hin as [Hin | Hin];
      apply row_major_elem in Hin as (i & j & k & Hi & Hj & Hk & Heq);
      (apply Hpoint in Heq as (Ei & Ej & Ek); [| lia ..]); lia.
  - intros Hout.
    assert (Hside : (E.[0] <> E.[1] /\ (v0 ijk < N.[0] \/ N.[1] < v0 ijk))
                    \/ (E.[2] <> E.[3] /\ (v1 ijk < N.[2] \/ N.[3] < v1 ijk))
                    \/ (E.[4] <> E.[5] /\ (v2 ijk < N.[4] \/ N.[5] < v2 ijk))) by lia.
    assert (Hid : ComputePointIdForExtent E ijk
                  = ComputePointIdForExtent E (MkVec3 (v0 ijk) (v1 ijk) (v2 ijk)))
      by (destruct ijk; reflexivity).
    destruct Hside as [[Hne [Hlo | Hhi]] | [[Hne [Hlo | Hhi]] | [Hne [Hlo | Hhi]]]].
    + left. flags; try contradiction; apply elem_of_app; left; apply row_major_elem;
        exists (v0 ijk), (v1 ijk), (v2 ijk); repeat split; first [lia | exact Hid].
    + left. flags; try contradiction; apply elem_of_app; right; apply row_major_elem;
        exists (v0 ijk), (v1 ijk), (v2 ijk); repeat split; first [lia | exact Hid].
    + right; left. flags; try contradiction; apply elem_of_app; left; apply row_major_elem;
        exists (v0 ijk), (v1 ijk), (v2 ijk); repeat split; first [lia | exact Hid].
    + right; left. flags; try contradiction; apply elem_of_app; right; apply row_major_elem;
        exists (v0 ijk), (v1 ijk), (v2 ijk); repeat split; first [lia | exact Hid].
    + right; right. flags; try contradiction; apply elem_of_app; left; apply row_major_elem;
        exists (v0 ijk), (v1 ijk), (v2 ijk); repeat split; first [lia | exact Hid].
    + right; right. flags; try contradiction; apply elem_of_app; right; apply row_major_elem;
        exists (v0 ijk), (v1 ijk), (v2 ijk); repeat split; first [lia | exact Hid].
Qed.
End HiddenMarks.

Lemma radix_inj (n A A' a a' : Z) :
  0 <= a < n -> 0 <= a' < n -> A * n + a = A' * n + a' -> A = A' /\ a = a'.
Proof.
  intros Ha Ha' Heq.
  assert (A = A') as -> by nia. split; [reflexivity | lia].
Qed.

Lemma row_major_cell_id_inj (extent : ExtentType) (ijk ijk' : Vec3 Z) :
  in_cell_box extent ijk -> in_cell_box extent ijk' ->
  row_major_cell_id extent ijk = row_major_cell_id extent ijk' -> ijk = ijk'.
Proof.
  intros Hbox Hbox'. unfold row_major_cell_id, in_cell_box, cells_along in *.
  pose proof (Hbox AxisX) as BX. pose proof (Hbox AxisY) as BY.
  pose proof (Hbox' AxisX) as BX'. pose proof (Hbox' AxisY) as BY'.
  destruct ijk as [i j k], ijk' as [i' j' k'].
  cbn [axis_min axis_max vget v0 v1 v2] in *. intros Heq.
  apply radix_inj in Heq as [Heq Hi]; [| lia | lia].
  apply radix_inj in Heq as [Hk Hj]; [| lia | lia].
  f_equal; lia.
Qed.

Lemma row_major_point_id_inj (extent : ExtentType) (ijk ijk' : Vec3 Z) :
  in_point_box extent ijk -> in_point_box extent ijk' ->
  row_major_point_id extent ijk = row_major_point_id extent ijk' -> ijk = ijk'.
Proof.
  intros Hbox Hbox'. unfold row_major_point_id, in_point_box in *.
  pose proof (Hbox AxisX) as BX. pose proof (Hbox AxisY) as BY.
  pose proof (Hbox' AxisX) as BX'. pose proof (Hbox' AxisY) as BY'.
  destruct ijk as [i j k], ijk' as [i' j' k'].
  cbn [axis_min axis_max vget v0 v1 v2] in *. intros Heq.
  apply radix_inj in Heq as [Heq Hi]; [| lia | lia].
  apply radix_inj in Heq as [Hk Hj]; [| lia | lia].
  f_equal; lia.
Qed.

(** X12: [FillGridHiddenGhosts] marks exactly the cells outside the block's
    own extent. For an output extent that contains the block's extent
    without ghosts, and cell ids that tell the cells of the output extent
    apart, a cell of the output whose id is within the array reads
    [HIDDENCELL] afterwards when it lies outside the extent without ghosts,
    and what it held before when it lies inside; the array keeps its
    length. *)
Theorem X12_hidden_cells_are_those_outside_the_block
    (ComputeCellIdForExtent ComputePointIdForExtent : ExtentType -> Vec3 Z -> Z)
    (HIDDENCELL HIDDENPOINT : Z) (BS : Type) (localExtent : ExtentType) (block : Block BS)
    (ijk : Vec3 Z) :
  let noGhosts := GridInformation.Extent (Information block) in
  let cells :=
    GhostCellArray
      (fill_hidden_ghosts ComputeCellIdForExtent ComputePointIdForExtent HIDDENCELL
         HIDDENPOINT localExtent block) in
  (forall a, axis_min localExtent a <= axis_min noGhosts a
             /\ axis_min noGhosts a <= axis_max noGhosts a
             /\ axis_max noGhosts a <= axis_max localExtent a) ->
  (forall c c', in_cell_box localExtent c -> in_cell_box localExtent c' ->
                ComputeCellIdForExtent localExtent c = ComputeCellIdForExtent localExtent c' ->
                c = c') ->
  in_cell_box localExtent ijk ->
  0 <= ComputeCellIdForExtent localExtent ijk < Z.of_nat (length (GhostCellArray block)) ->
  length cells = length (GhostCellArray block)
  /\ (in_sub_extent localExtent noGhosts ijk ->
      GetValue cells (ComputeCellIdForExtent localExtent ijk)
      = GetValue (GhostCellArray block) (ComputeCellIdForExtent localExtent ijk))
  /\ (~ in_sub_extent localExtent noGhosts ijk ->
      GetValue cells (ComputeCellIdForExtent localExtent ijk) = HIDDENCELL).
Proof.
  cbv zeta. intros Hcontain Hinj Hbox Hrange.
  rewrite fill_hidden_ghosts_ids. cbn [GhostCellArray].
  pose proof (hidden_cell_ids_elem ComputeCellIdForExtent localExtent
                (GridInformation.Extent (Information block)) Hcontain Hinj ijk Hbox) as Helem.
  split; [apply set_many_length |]. split.
  - intros Hin. apply set_many_miss. rewrite Helem. tauto.
  - intros Hout. apply set_many_hit; [apply Helem; exact Hout | exact Hrange].
Qed.

Lemma line_block_contained :
  forall a, axis_min (MkExtent 0 4 0 0 0 0) a <= axis_min (MkExtent 1 3 0 0 0 0) a
            /\ axis_min (MkExtent 1 3 0 0 0 0) a <= axis_max (MkExtent 1 3 0 0 0 0) a
            /\ axis_max (MkExtent 1 3 0 0 0 0) a <= axis_max (MkExtent 0 4 0 0 0 0) a.
Proof. intros a. destruct a; cbn; lia. Qed.

Lemma X12_hidden_cells_witness :
  let block : Block unit :=
    MkBlock (GridInformation.Make (MkExtent 1 3 0 0 0 0) (MkExtent 1 1 0 0 0 0)) []
      [0; 0; 0; 0] [0; 0; 0; 0; 0] in
  let cells :=
    GhostCellArray
      (fill_hidden_ghosts row_major_cell_id row_major_point_id 32 2 (MkExtent 0 4 0 0 0 0)
         block) in
  length cells = length (GhostCellArray block)
  /\ (in_sub_extent (MkExtent 0 4 0 0 0 0) (MkExtent 1 3 0 0 0 0) (MkVec3 3 0 0) ->
      GetValue cells (row_major_cell_id (MkExtent 0 4 0 0 0 0) (MkVec3 3 0 0))
      = GetValue (GhostCellArray block)
          (row_major_cell_id (MkExtent 0 4 0 0 0 0) (MkVec3 3 0 0)))
  /\ (~ in_sub_extent (MkExtent 0 4 0 0 0 0) (MkExtent 1 3 0 0 0 0) (MkVec3 3 0 0) ->
      GetValue cells (row_major_cell_id (MkExtent 0 4 0 0 0 0) (MkVec3 3 0 0)) = 32).
Proof.
  apply (X12_hidden_cells_are_those_outside_the_block row_major_cell_id row_major_point_id
           32 2 unit (MkExtent 0 4 0 0 0 0)
           (MkBlock (GridInformation.Make (MkExtent 1 3 0 0 0 0) (MkExtent 1 1 0 0 0 0)) []
              [0; 0; 0; 0] [0; 0; 0; 0; 0])
           (MkVec3 3 0 0)).
  - exact line_block_contained.
  - apply row_major_cell_id_inj.
  - intros a. destruct a; vm_compute; split; congruence.
  - vm_compute. split; congruence.
Defined.

(** X13: [FillGridHiddenGhosts] marks exactly the points outside the block's
    own extent. Under the same conditions on the two extents, and point ids
    that tell the points of the output extent apart, a point of the output
    whose id is within the array reads [HIDDENPOINT] afterwards when it lies
    outside the extent without ghosts, and what it held before when it lies
    inside; the array keeps its length. *)
Theorem X13_hidden_points_are_those_outside_the_block
    (ComputeCellIdForExtent ComputePointIdForExtent : ExtentType -> Vec3 Z -> Z)
    (HIDDENCELL HIDDENPOINT : Z) (BS : Type) (localExtent : ExtentType) (block : Block BS)
    (ijk : Vec3 Z) :
  let noGhosts := GridInformation.Extent (Information block) in
  let points :=
    GhostPointArray
      (fill_hidden_ghosts ComputeCellIdForExtent ComputePointIdForExtent HIDDENCELL
         HIDDENPOINT localExtent block) in
  (forall a, axis_min localExtent a <= axis_min noGhosts a
             /\ axis_min noGhosts a <= axis_max noGhosts a
             /\ axis_max noGhosts a <= axis_max localExtent a) ->
  (forall p p', in_point_box localExtent p -> in_point_box localExtent p' ->
                ComputePointIdForExtent localExtent p = ComputePointIdForExtent localExtent p' ->
                p = p') ->
  in_point_box localExtent ijk ->
  0 <= ComputePointIdForExtent localExtent ijk < Z.of_nat (length (GhostPointArray block)) ->
  length points = length (GhostPointArray block)
  /\ (in_point_box noGhosts ijk ->
      GetValue points (ComputePointIdForExtent localExtent ijk)
      = GetValue (GhostPointArray block) (ComputePointIdForExtent localExtent ijk))
  /\ (~ in_point_box noGhosts ijk ->
      GetValue points (ComputePointIdForExtent localExtent ijk) = HIDDENPOINT).
Proof.
  cbv zeta. intros Hcontain Hinj Hbox Hrange.
  rewrite fill_hidden_ghosts_ids. cbn [GhostPointArray].
  pose proof (hidden_point_ids_elem localExtent
                (GridInformation.Extent (Information block)) Hcontain
                ComputePointIdForExtent Hinj ijk Hbox) as Helem.
  split; [apply set_many_length |]. split.
  - intros Hin. apply set_many_miss. rewrite Helem. tauto.
  - intros Hout. apply set_many_hit; [apply Helem; exact Hout | exact Hrange].
Qed.

Lemma X13_hidden_points_witness :
  let block : Block unit :=
    MkBlock (GridInformation.Make (MkExtent 1 3 0 0 0 0) (MkExtent 1 1 0 0 0 0)) []
      [0; 0; 0; 0] [0; 0; 0; 0; 0] in
  let points :=
    GhostPointArray
      (fill_hidden_ghosts row_major_cell_id row_major_point_id 32 2 (MkExtent 0 4 0 0 0 0)
         block) in
  length points = length (GhostPointArray block)
  /\ (in_point_box (MkExtent 1 3 0 0 0 0) (MkVec3 4 0 0) ->
      GetValue points (row_major_point_id (MkExtent 0 4 0 0 0 0) (MkVec3 4 0 0))
      = GetValue (GhostPointArray block)
          (row_major_point_id (MkExtent 0 4 0 0 0 0) (MkVec3 4 0 0)))
  /\ (~ in_point_box (MkExtent 1 3 0 0 0 0) (MkVec3 4 0 0) ->
      GetValue points (row_major_point_id (MkExtent 0 4 0 0 0 0) (MkVec3 4 0 0)) = 2).
Proof.
  apply (X13_hidden_points_are_those_outside_the_block row_major_cell_id row_major_point_id
           32 2 unit (MkExtent 0 4 0 0 0 0)
           (MkBlock (GridInformation.Make (MkExtent 1 3 0 0 0 0) (MkExtent 1 1 0 0 0 0)) []
              [0; 0; 0; 0] [0; 0; 0; 0; 0])
           (MkVec3 4 0 0)).
  - exact line_block_contained.
  - apply row_major_point_id_inj.
  - intros a. destruct a; vm_compute; split; congruence.
  - vm_compute. split; congruence.
Defined.

(** ** The descriptor round *)

Section DescriptorRound.
Context {V : Type}.

Lemma buffers_from_cons (g : Z) (b : Buffer V) (queue : list (Z * Buffer V)) (gid : Z) :
  buffers_from ((g, b) :: queue) gid
  = if g =? gid then b :: buffers_from queue gid else buffers_from queue gid.
Proof. unfold buffers_from; cbn [omap list_omap]. destruct (g =? gid); reflexivity. Qed.

(** Taking the first buffer from a block leaves what the queue holds from
    the other blocks as it was. *)
Lemma dequeue_first (queue : list (Z * Buffer V)) (gid : Z) (b : Buffer V)
    (bs : list (Buffer V)) :
  buffers_from queue gid = b :: bs ->
  exists queue',
    dequeue queue gid = Some (b, queue')
    /\ buffers_from queue' gid = bs
    /\ forall g, g <> gid -> buffers_from queue' g = buffers_from queue g.
Proof.
  induction queue as [|[g0 b0] queue IH]; [discriminate |].
  rewrite buffers_from_cons. cbn [dequeue].
  destruct (Z.eqb_spec g0 gid) as [-> | Hne].
  - intros [= -> <-]. exists queue. split; [reflexivity |]. split; [reflexivity |].
    intros g Hg. rewrite buffers_from_cons.
    destruct (Z.eqb_spec gid g); [congruence | reflexivity].
  - intros Hfrom. destruct (IH Hfrom) as (queue' & -> & Hsame & Hother).
    exists ((g0, b0) :: queue'). split; [reflexivity |].
    rewrite buffers_from_cons. destruct (Z.eqb_spec g0 gid); [contradiction |].
    split; [exact Hsame |].
    intros g Hg. rewrite !buffers_from_cons, (Hother g Hg). reflexivity.
Qed.

(** The five buffers of a descriptor, taken from the queue, give the
    descriptor back. *)
Lemma dequeue_descriptor_ImageData_enqueued (queue : list (Z * Buffer V)) (me gid : Z)
    (dimension : Z) (origin spacing : VectorType) (q : QuaternionType) (extent : ExtentType)
    (rest : list (Buffer V)) :
  gid <> me ->
  buffers_from queue gid
  = map snd (enqueue_ImageData gid [me] dimension origin spacing q extent) ++ rest ->
  exists queue',
    dequeue_descriptor_ImageData queue gid
    = Some (ImageDataBlockStructure_new extent dimension origin spacing q, queue')
    /\ buffers_from queue' gid = rest
    /\ forall g, g <> gid -> buffers_from queue' g = buffers_from queue g.
Proof.
  intros Hne. unfold enqueue_ImageData; cbn [fold_left].
  unfold neqb. rewrite (proj2 (Z.eqb_neq me gid)) by congruence.
  cbn [negb app map snd]. intros Hfrom.
  unfold dequeue_descriptor_ImageData.
  destruct (dequeue_first _ _ _ _ Hfrom) as (q1 & -> & Hfrom1 & Hother1).
  destruct (dequeue_first _ _ _ _ Hfrom1) as (q2 & -> & Hfrom2 & Hother2).
  destruct (dequeue_first _ _ _ _ Hfrom2) as (q3 & -> & Hfrom3 & Hother3).
  destruct (dequeue_first _ _ _ _ Hfrom3) as (q4 & -> & Hfrom4 & Hother4).
  unfold extent_values in Hfrom4.
  destruct (dequeue_first _ _ _ _ Hfrom4) as (q5 & -> & Hfrom5 & Hother5).
  exists q5. split.
  - destruct extent, origin, spacing, q. reflexivity.
  - split; [exact Hfrom5 |]. intros g Hg.
    rewrite Hother5, Hother4, Hother3, Hother2, Hother1 by exact Hg. reflexivity.
Qed.
End DescriptorRound.

(** X14: the descriptor round of [ExchangeBlockStructures] on uniform grids
    brings every descriptor across: when the blocks of a block's in-link are
    distinct and the queue holds, from each of them other than the block
    itself, the five buffers that block enqueues for it, interleaved in any
    way, round 1 adds to [BlockStructures], under the sender's gid, the
    descriptor built from the sender's extent, dimension, origin, spacing and
    quaternion. *)
Theorem X14_descriptor_round_trip
    (V : Type) (myBlockId : Z) (in_link : list Z) (queue : list (Z * Buffer V))
    (blockStructures : list (Z * ImageDataBlockStructure.t))
    (dimension : Z -> Z) (origin spacing : Z -> VectorType) (q : Z -> QuaternionType)
    (extent : Z -> ExtentType) :
  NoDup in_link ->
  (forall gid, gid ∈ in_link -> gid <> myBlockId ->
     buffers_from queue gid
     = map snd (enqueue_ImageData gid [myBlockId] (dimension gid) (origin gid) (spacing gid)
                  (q gid) (extent gid))) ->
  dequeue_ImageData myBlockId in_link queue blockStructures
  = Some (fold_left
            (fun structures gid =>
               if neqb gid myBlockId
               then emplace structures gid
                      (ImageDataBlockStructure_new (extent gid) (dimension gid) (origin gid)
                         (spacing gid) (q gid))
               else structures)
            in_link blockStructures).
Proof.
  intros Hnodup Hqueue. unfold dequeue_ImageData.
  match goal with
  | |- fold_left ?step _ _ ≫= _ = _ =>
      enough (exists queue',
                fold_left step in_link (Some (queue, blockStructures))
                = Some (queue',
                        fold_left
                          (fun structures gid =>
                             if neqb gid myBlockId
                             then emplace structures gid
                                    (ImageDataBlockStructure_new (extent gid) (dimension gid)
                                       (origin gid) (spacing gid) (q gid))
                             else structures)
                          in_link blockStructures)) as [queue' ->]; [reflexivity |]
  end.
  revert queue blockStructures Hqueue.
  induction Hnodup as [|gid in_link Hnotin Hnodup IH]; intros queue blockStructures Hqueue;
    cbn [fold_left]; [eauto |].
  destruct (neqb gid myBlockId) eqn:Hnb.
  2: { apply IH. intros g Hg Hgne. apply Hqueue; [right; exact Hg | exact Hgne]. }
  apply neqb_true in Hnb. rename Hnb into Hne.
  - destruct (dequeue_descriptor_ImageData_enqueued queue myBlockId gid (dimension gid)
                (origin gid) (spacing gid) (q gid) (extent gid) [] Hne)
      as (queue' & -> & _ & Hother).
    { rewrite app_nil_r. apply Hqueue; [left | exact Hne]. }
    apply IH. intros g Hg Hgne. rewrite Hother.
    + apply Hqueue; [right; exact Hg | exact Hgne].
    + intros ->. contradiction.
Qed.

Lemma X14_descriptor_round_trip_witness :
  dequeue_ImageData 0 [0; 1; 2] queue_from_blocks_1_2 []
  = Some [(1, unit_image (MkExtent 0 4 0 4 0 4) 3);
          (2, ImageDataBlockStructure_new (MkExtent 0 2 0 4 0 4) 3 (MkVec3 4 0 0)%float
                (MkVec3 1 1 1)%float (MkVec4 1 0 0 0)%float)].
Proof.
  apply (X14_descriptor_round_trip Z 0 [0; 1; 2] queue_from_blocks_1_2 []
           (fun _ => 3)
           (fun gid => if gid =? 1 then (MkVec3 0 0 0)%float else (MkVec3 4 0 0)%float)
           (fun _ => MkVec3 1 1 1)%float (fun _ => MkVec4 1 0 0 0)%float
           (fun gid => if gid =? 1 then MkExtent 0 4 0 4 0 4 else MkExtent 0 2 0 4 0 4)).
  - repeat (apply NoDup_cons_2; [rewrite ?elem_of_cons, elem_of_nil; lia |]).
    apply NoDup_nil_2.
  - intros gid Hin Hne.
    apply elem_of_cons in Hin as [-> | Hin]; [contradiction |].
    apply elem_of_cons in Hin as [-> | Hin]; [reflexivity |].
    apply elem_of_cons in Hin as [-> | Hin]; [reflexivity |].
    apply elem_of_nil in Hin. contradiction.
Defined.

(** ** The fitter on two arrays that share a run *)

Lemma bounded_while_steps {S : Type} (cond : S -> bool) (body : S -> S) (k turns : nat)
    (s : S) :
  (k <= turns)%nat ->
  (forall t, (t < k)%nat -> cond (Nat.iter t body s) = true) ->
  cond (Nat.iter k body s) = false ->
  bounded_while cond body turns s = Nat.iter k body s.
Proof.
  revert turns s. induction k as [|k IH]; intros turns s Hk Htrue Hfalse.
  - change (cond s = false) in Hfalse. change (Nat.iter 0 body s) with s.
    destruct turns; cbn [bounded_while]; [reflexivity |].
    rewrite Hfalse. reflexivity.
  - destruct turns as [|turns]; [lia |]. cbn [bounded_while].
    pose proof (Htrue 0%nat ltac:(lia)) as Hfirst. change (cond s = true) in Hfirst.
    rewrite Hfirst. rewrite Nat.iter_succ_r in Hfalse.
    rewrite Nat.iter_succ_r. apply IH; [lia | | exact Hfalse].
    intros t Ht. rewrite <- Nat.iter_succ_r. apply Htrue. lia.
Qed.

Lemma iter_count (t : nat) (z : Z) : Nat.iter t (fun id => id + 1) z = z + Z.of_nat t.
Proof.
  induction t as [|t IH]; [unfold Nat.iter; cbn [nat_rect]; lia |].
  rewrite Nat.iter_succ, IH. lia.
Qed.

Lemma iter_count_pair (t : nat) (a b : Z) :
  Nat.iter t (fun '(lowerId, upperId) => (lowerId + 1, upperId + 1)) (a, b)
  = (a + Z.of_nat t, b + Z.of_nat t).
Proof.
  induction t as [|t IH]; [unfold Nat.iter; cbn [nat_rect]; f_equal; lia |].
  rewrite Nat.iter_succ, IH. f_equal; lia.
Qed.

Section IntegerFit.
Import RectilinearGridFittingWorker.

Lemma GetCoordinate_app_l (l1 l2 : list Z) (id : Z) :
  0 <= id < Z.of_nat (length l1) -> GetCoordinate (l1 ++ l2) id = GetCoordinate l1 id.
Proof.
  intros Hid. unfold GetCoordinate. destruct (id <? 0); [reflexivity |].
  rewrite lookup_app_l by lia. reflexivity.
Qed.

Lemma GetCoordinate_app_r (l1 l2 : list Z) (id : Z) :
  Z.of_nat (length l1) <= id ->
  GetCoordinate (l1 ++ l2) id = GetCoordinate l2 (id - Z.of_nat (length l1)).
Proof.
  intros Hid. unfold GetCoordinate.
  destruct (Z.ltb_spec id 0); [lia |]. destruct (Z.ltb_spec (id - Z.of_nat (length l1)) 0); [lia |].
  rewrite lookup_app_r by lia. do 2 f_equal. lia.
Qed.

Lemma GetCoordinate_elem (l : list Z) (id : Z) :
  0 <= id < Z.of_nat (length l) -> GetCoordinate l id ∈ l.
Proof.
  intros Hid. unfold GetCoordinate. destruct (Z.ltb_spec id 0); [lia |].
  destruct (l !! Z.to_nat id) as [x|] eqn:Hx.
  - cbn. apply list_elem_of_lookup_2 in Hx. exact Hx.
  - apply lookup_ge_None in Hx. lia.
Qed.

Variables (p s r : list Z).
Hypothesis Hp : p <> [].
Hypothesis Hs : s <> [].
Hypothesis Hbelow : forall x y, x ∈ p -> y ∈ s -> x < y.
Hypothesis Habove : forall x y, x ∈ s -> y ∈ r -> x < y.

Lemma lengths_positive : (0 < length p)%nat /\ (0 < length s)%nat.
Proof. destruct p, s; cbn [length]; try contradiction; lia. Qed.

Lemma first_of_run : GetCoordinate (s ++ r) 0 ∈ s.
Proof.
  destruct lengths_positive as [_ Hls].
  rewrite GetCoordinate_app_l by lia. apply GetCoordinate_elem. lia.
Qed.

(** The fit of the array that ends with the shared run against the array
    that begins with it. *)
Lemma FitArrays_abutting :
  FitArrays init (p ++ s) (s ++ r)
  = Make (Z.of_nat (length p)) (Z.of_nat (length p) + Z.of_nat (length s) - 1)
      0 (Z.of_nat (length s) - 1) true.
Proof.
  destruct lengths_positive as [Hlp Hls].
  pose proof first_of_run as Hfirst.
  assert (Hp0 : GetCoordinate (p ++ s) 0 < GetCoordinate (s ++ r) 0).
  { apply Hbelow; [| exact Hfirst].
    rewrite GetCoordinate_app_l by lia. apply GetCoordinate_elem. lia. }
  unfold FitArrays, greater. cbn [less Equals Comparator_true].
  rewrite (proj2 (Z.ltb_ge _ _)) by lia. rewrite (proj2 (Z.ltb_lt _ _) Hp0).
  rewrite (bounded_while_steps _ _ (length p)).
  - rewrite iter_count, Z.add_0_l.
    unfold SubArraysAreEqual.
    rewrite (bounded_while_steps _ _ (length s)).
    + rewrite iter_count_pair. unfold GetNumberOfTuples. rewrite length_app.
      rewrite (proj2 (Z.eqb_eq _ _)) by lia.
      cbn [MinId MaxId LocalMinId LocalMaxId Overlaps]. f_equal; lia.
    + rewrite length_app. lia.
    + intros t Ht. rewrite iter_count_pair. unfold GetNumberOfTuples. rewrite !length_app.
      rewrite (proj2 (Z.ltb_lt _ _)) by lia. rewrite (proj2 (Z.ltb_lt _ _)) by lia.
      rewrite GetCoordinate_app_r by lia. rewrite GetCoordinate_app_l by lia.
      replace (Z.of_nat (length p) + Z.of_nat t - Z.of_nat (length p)) with (0 + Z.of_nat t)
        by lia.
      cbn [Equals Comparator_true]. unfold nz. rewrite Z.sub_diag. reflexivity.
    + rewrite iter_count_pair. unfold GetNumberOfTuples. rewrite !length_app.
      rewrite (proj2 (Z.ltb_ge _ _)) by lia. reflexivity.
  - rewrite length_app. lia.
  - intros t Ht. rewrite iter_count, Z.add_0_l. unfold GetNumberOfTuples. rewrite length_app.
    rewrite (proj2 (Z.ltb_lt _ _)) by lia.
    assert (Hlt : GetCoordinate (p ++ s) (Z.of_nat t) < GetCoordinate (s ++ r) 0).
    { apply Hbelow; [| exact Hfirst].
      rewrite GetCoordinate_app_l by lia. apply GetCoordinate_elem. lia. }
    cbn [less Equals Comparator_true].
    rewrite (proj2 (Z.ltb_lt _ _) Hlt). unfold nz.
    rewrite (proj2 (Z.eqb_neq _ _)) by lia. reflexivity.
  - rewrite iter_count, Z.add_0_l.
    rewrite GetCoordinate_app_r by lia. rewrite Z.sub_diag.
    rewrite (GetCoordinate_app_l s r) by lia.
    cbn [less Equals Comparator_true].
    rewrite Z.ltb_irrefl. apply andb_false_r.
Qed.

Lemma last_of_lower :
  GetCoordinate (p ++ s) (GetNumberOfTuples (p ++ s) - 1) ∈ s.
Proof.
  destruct lengths_positive as [Hlp Hls]. unfold GetNumberOfTuples. rewrite length_app.
  rewrite GetCoordinate_app_r by lia. apply GetCoordinate_elem. lia.
Qed.

Lemma last_of_upper :
  GetCoordinate (s ++ r) (GetNumberOfTuples (s ++ r) - 1)
  = (if decide (r = []) then GetCoordinate (p ++ s) (GetNumberOfTuples (p ++ s) - 1)
     else GetCoordinate (s ++ r) (GetNumberOfTuples (s ++ r) - 1))
  /\ (r <> [] -> GetCoordinate (s ++ r) (GetNumberOfTuples (s ++ r) - 1) ∈ r).
Proof.
  destruct lengths_positive as [Hlp Hls]. unfold GetNumberOfTuples. split.
  - destruct (decide (r = [])) as [-> | Hr]; [| reflexivity].
    rewrite app_nil_r, length_app. rewrite GetCoordinate_app_r by lia. f_equal. lia.
  - intros Hr. assert (0 < length r)%nat by (destruct r; cbn; [contradiction | lia]).
    rewrite length_app. rewrite GetCoordinate_app_r by lia. apply GetCoordinate_elem. lia.
Qed.
End IntegerFit.

Section IntegerFitResults.
Import RectilinearGridFittingWorker.

(** The local array ends with the run the remote array begins with. *)
Lemma fit_local_below (p s r : list Z) :
  p <> [] -> s <> [] ->
  (forall x y, x ∈ p -> y ∈ s -> x < y) -> (forall x y, x ∈ s -> y ∈ r -> x < y) ->
  fit (s ++ r) (p ++ s)
  = Make 0 (Z.of_nat (length s) - 1) (Z.of_nat (length p))
      (Z.of_nat (length p) + Z.of_nat (length s) - 1) true.
Proof.
  intros Hp Hs Hbelow Habove. unfold fit, greater. cbn [less Comparator_true].
  destruct (last_of_upper p s r Hp Hs Hbelow Habove) as [Hlast Hin].
  pose proof (last_of_lower p s r Hp Hs Hbelow Habove) as Hlower.
  assert (Hle : GetCoordinate (p ++ s) (GetNumberOfTuples (p ++ s) - 1)
                <= GetCoordinate (s ++ r) (GetNumberOfTuples (s ++ r) - 1)).
  { destruct (decide (r = [])) as [Hr | Hr]; [rewrite Hlast; lia |].
    pose proof (Habove _ _ Hlower (Hin Hr)). lia. }
  rewrite (proj2 (Z.ltb_ge _ _) Hle).
  rewrite (FitArrays_abutting p s r Hp Hs Hbelow Habove). reflexivity.
Qed.

(** The local array begins with the run the remote array ends with, and
    goes on after it. *)
Lemma fit_local_above (p s r : list Z) :
  p <> [] -> s <> [] -> r <> [] ->
  (forall x y, x ∈ p -> y ∈ s -> x < y) -> (forall x y, x ∈ s -> y ∈ r -> x < y) ->
  fit (p ++ s) (s ++ r)
  = Make (Z.of_nat (length p)) (Z.of_nat (length p) + Z.of_nat (length s) - 1)
      0 (Z.of_nat (length s) - 1) true.
Proof.
  intros Hp Hs Hr Hbelow Habove. unfold fit, greater. cbn [less Comparator_true].
  destruct (last_of_upper p s r Hp Hs Hbelow Habove) as [_ Hin].
  pose proof (last_of_lower p s r Hp Hs Hbelow Habove) as Hlower.
  rewrite (proj2 (Z.ltb_lt _ _) (Habove _ _ Hlower (Hin Hr))).
  apply (FitArrays_abutting p s r Hp Hs Hbelow Habove).
Qed.

(** An array against itself. *)
Lemma fit_same (a : list Z) :
  fit a a = Make 0 (Z.of_nat (length a) - 1) 0 (Z.of_nat (length a) - 1) true.
Proof.
  unfold fit, greater. cbn [less Comparator_true]. rewrite Z.ltb_irrefl.
  unfold FitArrays, greater. cbn [less Equals Comparator_true]. rewrite Z.ltb_irrefl.
  rewrite (bounded_while_steps _ _ 0).
  - unfold Nat.iter; cbn [nat_rect]. unfold SubArraysAreEqual.
    rewrite (bounded_while_steps _ _ (length a)).
    + rewrite iter_count_pair. unfold GetNumberOfTuples.
      rewrite (proj2 (Z.eqb_eq _ _)) by lia.
      cbn [MinId MaxId LocalMinId LocalMaxId Overlaps]. f_equal; lia.
    + lia.
    + intros t Ht. rewrite iter_count_pair. unfold GetNumberOfTuples.
      rewrite (proj2 (Z.ltb_lt _ _)) by lia. cbn [Equals Comparator_true].
      unfold nz. rewrite Z.sub_diag. reflexivity.
    + rewrite iter_count_pair. unfold GetNumberOfTuples.
      rewrite (proj2 (Z.ltb_ge _ _)) by lia. reflexivity.
  - lia.
  - intros t Ht. lia.
  - unfold Nat.iter; cbn [nat_rect]. rewrite Z.ltb_irrefl. apply andb_false_r.
Qed.
End IntegerFitResults.

(** X15: the fitter of rectilinear grids on two integer coordinate arrays
    that share a run of values [s], one made of values [p] below the run
    followed by the run, the other of the run followed by values [r] above
    it: it reports an overlap, the run's first and last positions in the
    remote array as [MinId] and [MaxId], and its first and last positions
    in the local array as [LocalMinId] and [LocalMaxId], whether the local
    array is the lower of the two or (with [r] not empty) the upper. *)
Theorem X15_fit_of_arrays_that_share_a_run (p s r : list Z) :
  p <> [] -> s <> [] ->
  (forall x y, x ∈ p -> y ∈ s -> x < y) ->
  (forall x y, x ∈ s -> y ∈ r -> x < y) ->
  fit (s ++ r) (p ++ s)
  = RectilinearGridFittingWorker.Make 0 (Z.of_nat (length s) - 1) (Z.of_nat (length p))
      (Z.of_nat (length p) + Z.of_nat (length s) - 1) true
  /\ (r <> [] ->
      fit (p ++ s) (s ++ r)
      = RectilinearGridFittingWorker.Make (Z.of_nat (length p))
          (Z.of_nat (length p) + Z.of_nat (length s) - 1) 0 (Z.of_nat (length s) - 1) true).
Proof.
  intros Hp Hs Hbelow Habove. split.
  - apply fit_local_below; assumption.
  - intros Hr. apply fit_local_above; assumption.
Qed.

Lemma shared_run_below : forall x y : Z, x ∈ [0; 1] -> y ∈ [2; 3] -> x < y.
Proof. intros x y Hx Hy. rewrite !elem_of_cons, elem_of_nil in Hx.
  rewrite !elem_of_cons, elem_of_nil in Hy. lia. Qed.

Lemma shared_run_above : forall x y : Z, x ∈ [2; 3] -> y ∈ [4; 5; 6] -> x < y.
Proof. intros x y Hx Hy. rewrite !elem_of_cons, elem_of_nil in Hx.
  rewrite !elem_of_cons, elem_of_nil in Hy. lia. Qed.

Lemma X15_fit_of_arrays_that_share_a_run_witness :
  fit [2; 3; 4; 5; 6] [0; 1; 2; 3] = RectilinearGridFittingWorker.Make 0 1 2 3 true
  /\ ([4; 5; 6] <> [] ->
      fit [0; 1; 2; 3] [2; 3; 4; 5; 6] = RectilinearGridFittingWorker.Make 2 3 0 1 true).
Proof.
  apply (X15_fit_of_arrays_that_share_a_run [0; 1] [2; 3] [4; 5; 6]);
    [discriminate | discriminate | exact shared_run_below | exact shared_run_above].
Defined.

(** X16: the matcher of rectilinear grids on two blocks side by side along
    x. When the blocks have the same dimension and the same y and z
    coordinate arrays, the remote extent is valid, and the local x
    coordinates end with the run of values the remote x coordinates begin
    with, the matcher accepts the remote block and returns its extent moved
    into the local frame: it starts, along x, at the position of the run in
    the local array, and along y and z where the local extent starts; its
    widths are those of the remote extent. *)
Theorem X16_matcher_of_rectilinear_blocks_side_by_side
    (localExtent extent : ExtentType) (dim : Z) (p s r ys zs : list Z)
    (localRest rest : GridBlockStructure.t) :
  GridBlockStructure.Extent localRest = localExtent ->
  GridBlockStructure.Extent rest = extent ->
  GridBlockStructure.DataDimension localRest = dim ->
  GridBlockStructure.DataDimension rest = dim ->
  IsExtentValid extent = true ->
  p <> [] -> s <> [] ->
  (forall x y, x ∈ p -> y ∈ s -> x < y) ->
  (forall x y, x ∈ s -> y ∈ r -> x < y) ->
  SynchronizeGridExtents_RectilinearGrid
    (RectilinearGridBlockStructure.Make localRest (p ++ s) ys zs)
    (RectilinearGridBlockStructure.Make rest (s ++ r) ys zs)
  = Some (MkExtent
            (localExtent.[0] + Z.of_nat (length p))
            (localExtent.[0] + Z.of_nat (length p) + (extent.[1] - extent.[0]))
            localExtent.[2] (localExtent.[2] + (extent.[3] - extent.[2]))
            localExtent.[4] (localExtent.[4] + (extent.[5] - extent.[4]))).
Proof.
  intros HlocalExtent Hextent HlocalDim Hdim Hvalid Hp Hs Hbelow Habove.
  unfold SynchronizeGridExtents_RectilinearGrid.
  cbn [RectilinearGridBlockStructure.base RectilinearGridBlockStructure.XCoordinates
       RectilinearGridBlockStructure.YCoordinates RectilinearGridBlockStructure.ZCoordinates].
  rewrite HlocalExtent, Hextent, HlocalDim, Hdim.
  rewrite (proj2 (neqb_false dim dim) eq_refl). cbn [orb].
  rewrite link_block_guard, Hvalid. cbn [negb].
  rewrite (fit_local_below p s r Hp Hs Hbelow Habove), !fit_same.
  cbn [RectilinearGridFittingWorker.Overlaps RectilinearGridFittingWorker.MinId
       RectilinearGridFittingWorker.MaxId RectilinearGridFittingWorker.LocalMinId
       negb orb andb v0 v1 v2].
  f_equal. f_equal; lia.
Qed.

Lemma X16_matcher_of_rectilinear_blocks_witness :
  SynchronizeGridExtents_RectilinearGrid rectilinear_west rectilinear_east
  = Some (MkExtent 2 5 0 3 0 1).
Proof.
  apply (X16_matcher_of_rectilinear_blocks_side_by_side (MkExtent 0 2 0 3 0 1)
           (MkExtent 10 13 0 3 0 1) 3 [0; 1] [2] [3; 4; 5] [0; 1; 2; 3] [0; 5]
           (GridBlockStructure.Make (MkExtent 0 2 0 3 0 1) 3 zero_extent 0)
           (GridBlockStructure.Make (MkExtent 10 13 0 3 0 1) 3 zero_extent 0));
    try reflexivity; try discriminate.
  - intros x y Hx Hy. rewrite !elem_of_cons, elem_of_nil in Hx.
  rewrite !elem_of_cons, elem_of_nil in Hy. lia.
  - intros x y Hx Hy. rewrite !elem_of_cons, elem_of_nil in Hx.
  rewrite !elem_of_cons, elem_of_nil in Hy. lia.
Defined.

(** ** A flat block gets no ghosts across its plane *)

Lemma neighbor_faces_not_flat (BS : Type) (family : GridBlock BS) (localBlockStructure : BS)
    (localExtent : ExtentType) (dim : Z) (blockStructure : BS) (f : Adjacency) :
  axis_min localExtent (face_axis f) = axis_max localExtent (face_axis f) ->
  f ∉ neighbor_faces localBlockStructure localExtent dim blockStructure.
Proof.
  intros Hflat. unfold neighbor_faces.
  destruct (SynchronizeGridExtents localBlockStructure blockStructure) as [shifted|];
    [| apply not_elem_of_nil].
  pose proof (adjacency_bit localExtent shifted f) as Hbit.
  destruct (ComputeAdjacencyAndOverlapMasks localExtent shifted) as [m o]. cbn [fst] in Hbit.
  destruct (linked_faces m o dim) as [faces|] eqn:Hfaces; cbn [default from_option id];
    [| apply not_elem_of_nil].
  destruct (linked_faces_of_mask _ _ _ _ Hfaces) as [-> _].
  rewrite faces_of_mask_elem, Hbit. unfold face_touches.
  rewrite Hflat, Z.eqb_refl, andb_false_r. discriminate.
Qed.

Lemma contributions_flat (BS : Type) (family : GridBlock BS) (localBlockStructure : BS)
    (localExtent : ExtentType) (outputGhostLevels dim : Z) (f : Adjacency)
    (entries : list (Z * BS)) :
  axis_min localExtent (face_axis f) = axis_max localExtent (face_axis f) ->
  contributions localBlockStructure localExtent outputGhostLevels dim f entries = [].
Proof.
  intros Hflat. unfold contributions.
  induction entries as [|[gid bs] entries IH]; [reflexivity |].
  cbn [omap list_omap]. rewrite decide_False by (apply neighbor_faces_not_flat; exact Hflat).
  exact IH.
Qed.

(** X17: the link-map computation adds no ghost layer across the plane of a
    flat block: on an axis where the block's extent is degenerate, the
    thickness of both sides is left as it was, whatever the neighbours are,
    and the output extent keeps the block's bounds moved by that
    thickness. *)
Theorem X17_no_ghost_layer_on_a_degenerate_axis
    (BS : Type) (family : GridBlock BS) (outputGhostLevels : Z)
    (localBlockStructure : BS) (dim : Z) (block : Block BS) (f : Adjacency) :
  let extent := GridInformation.Extent (Information block) in
  let thickness := GridInformation.ExtentGhostThickness (Information block) in
  let linked := link_block outputGhostLevels localBlockStructure dim block in
  IsExtentValid extent = true ->
  axis_min extent (face_axis f) = axis_max extent (face_axis f) ->
  (GridInformation.ExtentGhostThickness (Information (linked_block linked))).[face_index f]
  = thickness.[face_index f]
  /\ exists outputExtent,
       linked_output_extent linked = Some outputExtent
       /\ outputExtent.[face_index f]
          = extent.[face_index f] + outwards f * thickness.[face_index f].
Proof.
  cbv zeta. intros Hvalid Hflat.
  destruct (link_block_information BS family outputGhostLevels localBlockStructure dim block
              Hvalid) as (Hextent & Hthickness & Houtput).
  assert (Hsame : (GridInformation.ExtentGhostThickness
                     (Information
                        (linked_block
                           (link_block outputGhostLevels localBlockStructure dim block)))).[
                    face_index f]
                  = (GridInformation.ExtentGhostThickness (Information block)).[face_index f]).
  { rewrite Hthickness, contributions_flat by exact Hflat. reflexivity. }
  split; [exact Hsame |].
  eexists. split; [exact Houtput |].
  destruct (UpdateOutputGridStructure_axis
              (Information
                 (linked_block (link_block outputGhostLevels localBlockStructure dim block)))
              (face_axis f)) as [Hmin Hmax].
  rewrite Hextent in Hmin, Hmax.
  destruct f; cbn [face_axis face_index outwards axis_min axis_max] in *;
    first [rewrite Hmin | rewrite Hmax]; rewrite Hsame; lia.
Qed.

Lemma X17_no_ghost_layer_witness :
  let linked := link_block 3 (unit_image (MkExtent 0 4 0 4 0 0) 2) 2 two_on_a_face in
  (GridInformation.ExtentGhostThickness (Information (linked_block linked))).[face_index Top]
  = zero_extent.[face_index Top]
  /\ exists outputExtent,
       linked_output_extent linked = Some outputExtent
       /\ outputExtent.[face_index Top]
          = (MkExtent 0 4 0 4 0 0).[face_index Top]
            + outwards Top * zero_extent.[face_index Top].
Proof.
  apply (X17_no_ghost_layer_on_a_degenerate_axis ImageDataBlockStructure.t ImageDataBlock 3
           (unit_image (MkExtent 0 4 0 4 0 0) 2) 2 two_on_a_face Top); reflexivity.
Defined.

(** ** Interface cell ids *)

Lemma interface_cell_bounds_axis (localExtent extent : ExtentType) (a : Axis) :
  axis_min (interface_cell_bounds localExtent extent) a
  = Z.max (axis_min extent a) (axis_min localExtent a)
  /\ axis_max (interface_cell_bounds localExtent extent) a
     = Z.min (axis_max extent a) (axis_max localExtent a)
       + [? axis_min localExtent a =? axis_max localExtent a].
Proof. destruct a; split; reflexivity. Qed.

(** X18: [ComputeGridInterfaceCellIds] goes over the cells of the box in
    which the two extents meet, the box being one cell thick on an axis
    where the local extent is degenerate, and lists their ids in row-major
    order: the cell at offset [(di, dj, dk)] in the box is at position
    [(dk * nj + dj) * ni + di]. The number of ids it announces is the product
    of the three widths, and it is the number of ids it writes when no width
    is negative. The input-side variant runs it on the block's extent and the
    neighbour's extent with new ghosts, the output-side variant on the
    output's extent and the neighbour's extent, and both find no descriptor
    exactly where [BlockStructures] holds none for the gid. *)
Theorem X18_interface_cell_ids
    (ComputeCellIdForExtent : ExtentType -> Vec3 Z -> Z)
    (localExtent extent gridExtent : ExtentType) :
  let b := interface_cell_bounds localExtent extent in
  let ids := ComputeGridInterfaceCellIds ComputeCellIdForExtent localExtent extent gridExtent in
  let ni := axis_max b AxisX - axis_min b AxisX in
  let nj := axis_max b AxisY - axis_min b AxisY in
  let nk := axis_max b AxisZ - axis_min b AxisZ in
  (forall a : Axis,
     axis_min b a = Z.max (axis_min extent a) (axis_min localExtent a)
     /\ axis_max b a
        = Z.min (axis_max extent a) (axis_max localExtent a)
          + [? axis_min localExtent a =? axis_max localExtent a])
  /\ NumberOfIds ids = ni * nj * nk
  /\ Z.of_nat (length (Ids ids)) = Z.max 0 ni * Z.max 0 nj * Z.max 0 nk
  /\ (0 <= ni -> 0 <= nj -> 0 <= nk -> Z.of_nat (length (Ids ids)) = NumberOfIds ids)
  /\ (forall di dj dk : Z,
        0 <= di < ni -> 0 <= dj < nj -> 0 <= dk < nk ->
        Ids ids !! Z.to_nat ((dk * nj + dj) * ni + di)
        = Some (ComputeCellIdForExtent gridExtent
                  (MkVec3 (axis_min b AxisX + di) (axis_min b AxisY + dj)
                     (axis_min b AxisZ + dk))))
  /\ (forall (BS : Type) (family : GridBlock BS) (block : Block BS) (gid : Z),
        ComputeInputGridInterfaceCellIds ComputeCellIdForExtent block gid gridExtent
        = (fun blockStructure =>
             ComputeGridInterfaceCellIds ComputeCellIdForExtent
               (GridInformation.Extent (Information block))
               (GridBlockStructure.ExtentWithNewGhosts (grid blockStructure)) gridExtent)
          <$> map_at (BlockStructures block) gid
        /\ ComputeOutputGridInterfaceCellIds ComputeCellIdForExtent block gid gridExtent
           = (fun blockStructure =>
                ComputeGridInterfaceCellIds ComputeCellIdForExtent gridExtent
                  (GridBlockStructure.Extent (grid blockStructure)) gridExtent)
             <$> map_at (BlockStructures block) gid).
Proof.
  intros b ids ni nj nk.
  assert (Ids ids
          = row_major (fun i j k => ComputeCellIdForExtent gridExtent (MkVec3 i j k))
              (axis_min b AxisX) (axis_max b AxisX)
              (axis_min b AxisY) (axis_max b AxisY)
              (axis_min b AxisZ) (axis_max b AxisZ)) as Hids.
  { subst ids. unfold ComputeGridInterfaceCellIds. fold b. cbn [Ids].
    apply (nested_for_loops (fun i j k => ComputeCellIdForExtent gridExtent (MkVec3 i j k))). }
  assert (Hlength : Z.of_nat (length (Ids ids)) = Z.max 0 ni * Z.max 0 nj * Z.max 0 nk).
  { rewrite Hids, row_major_length. reflexivity. }
  split; [intros a; apply interface_cell_bounds_axis |].
  split; [reflexivity |].
  split; [exact Hlength |].
  split.
  { intros Hi Hj Hk. rewrite Hlength. change (NumberOfIds ids) with (ni * nj * nk).
    rewrite !Z.max_r by assumption. reflexivity. }
  split.
  { intros di dj dk Hi Hj Hk. rewrite Hids.
    apply (row_major_lookup (fun i j k => ComputeCellIdForExtent gridExtent (MkVec3 i j k)));
      assumption. }
  intros BS family block gid.
  unfold ComputeInputGridInterfaceCellIds, ComputeOutputGridInterfaceCellIds.
  destruct (map_at (BlockStructures block) gid); split; reflexivity.
Qed.

(** The flat block [[0,4]x[0,4]] and a neighbour on its right whose extent
    with new ghosts starts at 2: the interface is two cells wide, four cells
    high and one cell thick, and the cell at offset [(1, 2, 0)] in it is
    listed at position 5. *)
Lemma X18_interface_cell_ids_witness :
  let ids := ComputeGridInterfaceCellIds row_major_cell_id
               (MkExtent 0 4 0 4 0 0) (MkExtent 2 8 0 4 0 0) (MkExtent 0 4 0 4 0 0) in
  Z.of_nat (length (Ids ids)) = NumberOfIds ids
  /\ Ids ids !! 5%nat = Some (row_major_cell_id (MkExtent 0 4 0 4 0 0) (MkVec3 3 2 0)).
Proof.
  cbv zeta.
  pose proof (X18_interface_cell_ids row_major_cell_id (MkExtent 0 4 0 4 0 0)
                (MkExtent 2 8 0 4 0 0) (MkExtent 0 4 0 4 0 0))
    as (_ & _ & _ & Hcount & Hlookup & _).
  split.
  - apply Hcount; vm_compute; discriminate.
  - exact (Hlookup 1 2 0 ltac:(vm_compute; split; [discriminate | reflexivity])
             ltac:(vm_compute; split; [discriminate | reflexivity])
             ltac:(vm_compute; split; [discriminate | reflexivity])).
Defined.

(** ** Copies of tuples *)

Lemma SetTuple_length {T : Type} (array : list T) (dstId srcId : Z) (source : list T) :
  length (SetTuple array dstId srcId source) = length array.
Proof.
  unfold SetTuple. destruct (_ || _); [reflexivity |].
  destruct (source !! Z.to_nat srcId); [apply length_insert | reflexivity].
Qed.

Lemma copy_many_length {T : Type} (pairs : list (Z * Z)) (source array : list T) :
  length (copy_many pairs source array) = length array.
Proof.
  unfold copy_many. revert array.
  induction pairs as [|[d s] pairs IH]; intros array; cbn [fold_left]; [reflexivity |].
  rewrite IH. apply SetTuple_length.
Qed.

Lemma copy_many_snoc {T : Type} (pairs : list (Z * Z)) (d s : Z) (source array : list T) :
  copy_many (pairs ++ [(d, s)]) source array
  = SetTuple (copy_many pairs source array) d s source.
Proof. unfold copy_many. rewrite fold_left_app. reflexivity. Qed.

(** A place no copy of the run writes at holds what it held. *)
Lemma copy_many_miss {T : Type} (pairs : list (Z * Z)) (source array : list T) (id : Z) :
  0 <= id -> id ∉ map fst pairs ->
  copy_many pairs source array !! Z.to_nat id = array !! Z.to_nat id.
Proof.
  intros Hid. induction pairs as [|[d s] pairs IH] using rev_ind; intros Hnotin;
    [reflexivity |].
  rewrite map_app, not_elem_of_app in Hnotin. destruct Hnotin as [Hpairs Hlast].
  cbn [map fst] in Hlast. rewrite not_elem_of_cons in Hlast. destruct Hlast as [Hne _].
  rewrite copy_many_snoc. unfold SetTuple.
  destruct (Z.ltb_spec d 0); cbn [orb]; [exact (IH Hpairs) |].
  destruct (s <? 0); [exact (IH Hpairs) |].
  destruct (source !! Z.to_nat s); [| exact (IH Hpairs)].
  rewrite list_lookup_insert_ne by lia. exact (IH Hpairs).
Qed.

(** A place the copies of the run write at, all of them from one place of
    the source, holds what the source holds there. *)
Lemma copy_many_hit {T : Type} (pairs : list (Z * Z)) (source array : list T) (d s : Z) :
  (d, s) ∈ pairs ->
  (forall s', (d, s') ∈ pairs -> s' = s) ->
  0 <= d < Z.of_nat (length array) ->
  0 <= s < Z.of_nat (length source) ->
  copy_many pairs source array !! Z.to_nat d = source !! Z.to_nat s.
Proof.
  intros Hin Hsame Hd Hs. induction pairs as [|[d' s'] pairs IH] using rev_ind.
  - apply elem_of_nil in Hin. contradiction.
  - rewrite copy_many_snoc. unfold SetTuple.
    destruct (decide (d' = d)) as [-> | Hne].
    + assert (s' = s) as -> by (apply Hsame, elem_of_app; right; left).
      destruct (Z.ltb_spec d 0); [lia |]. destruct (Z.ltb_spec s 0); [lia |]. cbn [orb].
      destruct (source !! Z.to_nat s) as [tuple|] eqn:Htuple.
      * rewrite list_lookup_insert_eq; [reflexivity |]. rewrite copy_many_length. lia.
      * apply lookup_ge_None in Htuple. lia.
    + assert (Hrest : copy_many pairs source array !! Z.to_nat d = source !! Z.to_nat s).
      { apply IH.
        - apply elem_of_app in Hin as [Hin | Hin]; [exact Hin |].
          apply list_elem_of_singleton in Hin. congruence.
        - intros s0 Hs0. apply Hsame, elem_of_app. left. exact Hs0. }
      destruct (Z.ltb_spec d' 0); cbn [orb]; [exact Hrest |].
      destruct (s' <? 0); [exact Hrest |].
      destruct (source !! Z.to_nat s'); [| exact Hrest].
      rewrite list_lookup_insert_ne by lia. exact Hrest.
Qed.

(** Three nested loops that each copy the tuple of their cursor. *)
Lemma nested_copy {T : Type} (dst src : Z -> Z -> Z -> Z) (ilo ihi jlo jhi klo khi : Z)
    (source array : list T) :
  for_loop klo khi (fun k =>
    for_loop jlo jhi (fun j =>
      for_loop ilo ihi (fun i array => SetTuple array (dst i j k) (src i j k) source))) array
  = copy_many (row_major (fun i j k => (dst i j k, src i j k)) ilo ihi jlo jhi klo khi)
      source array.
Proof.
  unfold copy_many, row_major.
  apply (for_loop_fold (fun array '(d, s) => SetTuple array d s source)). intros k array'.
  apply (for_loop_fold (fun array '(d, s) => SetTuple array d s source)). intros j array''.
  apply (for_loop_fold (fun array '(d, s) => SetTuple array d s source)). reflexivity.
Qed.

(** The copies of a box, when the places written at tell the cursors of the
    box apart. *)
Lemma box_copy {T : Type} (dst src : Vec3 Z -> Z) (ilo ihi jlo jhi klo khi : Z)
    (source array : list T) :
  let inside ijk :=
    ilo <= v0 ijk < ihi /\ jlo <= v1 ijk < jhi /\ klo <= v2 ijk < khi in
  let copy :=
    copy_many (row_major (fun i j k => (dst (MkVec3 i j k), src (MkVec3 i j k)))
                 ilo ihi jlo jhi klo khi) source array in
  (forall c c', inside c -> inside c' -> dst c = dst c' -> c = c') ->
  length copy = length array
  /\ (forall ijk, inside ijk ->
        0 <= dst ijk < Z.of_nat (length array) ->
        0 <= src ijk < Z.of_nat (length source) ->
        copy !! Z.to_nat (dst ijk) = source !! Z.to_nat (src ijk))
  /\ (forall id, 0 <= id -> (forall ijk, inside ijk -> dst ijk <> id) ->
        copy !! Z.to_nat id = array !! Z.to_nat id).
Proof.
  intros inside copy Hinj. split; [apply copy_many_length |]. split.
  - intros ijk Hin Hd Hs. apply copy_many_hit; [| | exact Hd | exact Hs].
    + apply row_major_elem. exists (v0 ijk), (v1 ijk), (v2 ijk).
      destruct ijk as [i j k]. destruct Hin as (Hi & Hj & Hk). auto.
    + intros s' Hs'. apply row_major_elem in Hs' as (i & j & k & Hi & Hj & Hk & Heq).
      injection Heq as Hdst ->.
      rewrite (Hinj ijk (MkVec3 i j k) Hin); [reflexivity | | exact Hdst].
      repeat split; cbn [v0 v1 v2]; lia.
  - intros id Hid Hnot. apply copy_many_miss; [exact Hid |].
    intros Hin. apply list_elem_of_fmap in Hin as ([d s] & -> & Hin).
    apply row_major_elem in Hin as (i & j & k & Hi & Hj & Hk & Heq).
    injection Heq as -> ->.
    apply (Hnot (MkVec3 i j k)); [| reflexivity].
    repeat split; cbn [v0 v1 v2]; lia.
Qed.

(** ** The clone of a grid *)

Lemma in_cell_box_ranges (extent : ExtentType) (ijk : Vec3 Z) :
  in_cell_box extent ijk
  <-> extent.[0] <= v0 ijk < Z.max extent.[1] (extent.[0] + 1)
      /\ extent.[2] <= v1 ijk < Z.max extent.[3] (extent.[2] + 1)
      /\ extent.[4] <= v2 ijk < Z.max extent.[5] (extent.[4] + 1).
Proof.
  unfold in_cell_box, cells_along. split.
  - intros Hbox. pose proof (Hbox AxisX). pose proof (Hbox AxisY). pose proof (Hbox AxisZ).
    cbn [axis_min axis_max vget] in *. lia.
  - intros (HX & HY & HZ) a. destruct a; cbn [axis_min axis_max vget]; lia.
Qed.

Lemma in_point_box_ranges (extent : ExtentType) (ijk : Vec3 Z) :
  in_point_box extent ijk
  <-> extent.[0] <= v0 ijk < extent.[1] + 1
      /\ extent.[2] <= v1 ijk < extent.[3] + 1
      /\ extent.[4] <= v2 ijk < extent.[5] + 1.
Proof. rewrite in_point_box_spec. lia. Qed.

(** X19: [CloneGrid] copies the grid into its clone, cell by cell and point
    by point. When the ids of the clone tell the cells (points) of the grid
    apart, every cell (point) of the grid's extent whose ids are within the
    two arrays holds in the clone the tuple it holds in the grid, at the id
    the clone gives it; the places of the clone that are no cell (point) of
    the grid keep what they held; the arrays keep their lengths, the clone
    its extent, and the field data is the grid's. *)
Theorem X19_clone_holds_the_data_of_the_grid
    (ComputeCellIdForExtent ComputePointIdForExtent : ExtentType -> Vec3 Z -> Z)
    (T F : Type) (grid clone : GridData T F) :
  let gridExtent := DataExtent grid in
  let cloneExtent := DataExtent clone in
  let result := CloneGrid ComputeCellIdForExtent ComputePointIdForExtent grid clone in
  (forall c c', in_cell_box gridExtent c -> in_cell_box gridExtent c' ->
                ComputeCellIdForExtent cloneExtent c = ComputeCellIdForExtent cloneExtent c' ->
                c = c') ->
  (forall p p', in_point_box gridExtent p -> in_point_box gridExtent p' ->
                ComputePointIdForExtent cloneExtent p = ComputePointIdForExtent cloneExtent p' ->
                p = p') ->
  DataExtent result = cloneExtent
  /\ FieldData result = FieldData grid
  /\ length (CellData result) = length (CellData clone)
  /\ length (PointData result) = length (PointData clone)
  /\ (forall ijk,
        in_cell_box gridExtent ijk ->
        0 <= ComputeCellIdForExtent cloneExtent ijk < Z.of_nat (length (CellData clone)) ->
        0 <= ComputeCellIdForExtent gridExtent ijk < Z.of_nat (length (CellData grid)) ->
        CellData result !! Z.to_nat (ComputeCellIdForExtent cloneExtent ijk)
        = CellData grid !! Z.to_nat (ComputeCellIdForExtent gridExtent ijk))
  /\ (forall id,
        0 <= id ->
        (forall ijk, in_cell_box gridExtent ijk ->
                     ComputeCellIdForExtent cloneExtent ijk <> id) ->
        CellData result !! Z.to_nat id = CellData clone !! Z.to_nat id)
  /\ (forall ijk,
        in_point_box gridExtent ijk ->
        0 <= ComputePointIdForExtent cloneExtent ijk < Z.of_nat (length (PointData clone)) ->
        0 <= ComputePointIdForExtent gridExtent ijk < Z.of_nat (length (PointData grid)) ->
        PointData result !! Z.to_nat (ComputePointIdForExtent cloneExtent ijk)
        = PointData grid !! Z.to_nat (ComputePointIdForExtent gridExtent ijk))
  /\ (forall id,
        0 <= id ->
        (forall ijk, in_point_box gridExtent ijk ->
                     ComputePointIdForExtent cloneExtent ijk <> id) ->
        PointData result !! Z.to_nat id = PointData clone !! Z.to_nat id).
Proof.
  cbv zeta. intros Hcells Hpoints.
  unfold CloneGrid. cbn [DataExtent FieldData CellData PointData].
  rewrite (nested_copy (fun i j k => ComputeCellIdForExtent (DataExtent clone) (MkVec3 i j k))
             (fun i j k => ComputeCellIdForExtent (DataExtent grid) (MkVec3 i j k))).
  rewrite (nested_copy (fun i j k => ComputePointIdForExtent (DataExtent clone) (MkVec3 i j k))
             (fun i j k => ComputePointIdForExtent (DataExtent grid) (MkVec3 i j k))).
  destruct (box_copy (ComputeCellIdForExtent (DataExtent clone))
              (ComputeCellIdForExtent (DataExtent grid))
              (DataExtent grid).[0] (Z.max (DataExtent grid).[1] ((DataExtent grid).[0] + 1))
              (DataExtent grid).[2] (Z.max (DataExtent grid).[3] ((DataExtent grid).[2] + 1))
              (DataExtent grid).[4] (Z.max (DataExtent grid).[5] ((DataExtent grid).[4] + 1))
              (CellData grid) (CellData clone)) as (Hclen & Hchit & Hcmiss).
  { intros c c' Hc Hc'. apply Hcells; apply in_cell_box_ranges; assumption. }
  destruct (box_copy (ComputePointIdForExtent (DataExtent clone))
              (ComputePointIdForExtent (DataExtent grid))
              (DataExtent grid).[0] ((DataExtent grid).[1] + 1)
              (DataExtent grid).[2] ((DataExtent grid).[3] + 1)
              (DataExtent grid).[4] ((DataExtent grid).[5] + 1)
              (PointData grid) (PointData clone)) as (Hplen & Hphit & Hpmiss).
  { intros p p' Hp Hp'. apply Hpoints; apply in_point_box_ranges; assumption. }
  split; [reflexivity |]. split; [reflexivity |].
  split; [exact Hclen |]. split; [exact Hplen |].
  split; [| split; [| split]].
  - intros ijk Hbox. apply Hchit. apply in_cell_box_ranges. exact Hbox.
  - intros id Hid Hnot. apply Hcmiss; [exact Hid |].
    intros ijk Hin. apply Hnot. apply in_cell_box_ranges. exact Hin.
  - intros ijk Hbox. apply Hphit. apply in_point_box_ranges. exact Hbox.
  - intros id Hid Hnot. apply Hpmiss; [exact Hid |].
    intros ijk Hin. apply Hnot. apply in_point_box_ranges. exact Hin.
Qed.

Lemma short_line_cells_apart :
  forall c c', in_cell_box (MkExtent 1 3 0 0 0 0) c -> in_cell_box (MkExtent 1 3 0 0 0 0) c' ->
               row_major_cell_id (MkExtent 0 4 0 0 0 0) c
               = row_major_cell_id (MkExtent 0 4 0 0 0 0) c' -> c = c'.
Proof.
  intros [i j k] [i' j' k'] Hc Hc'.
  apply in_cell_box_ranges in Hc, Hc'. unfold row_major_cell_id.
  cbn [v0 v1 v2 ext_at ext0 ext1 ext2 ext3 ext4 ext5] in *. intros Heq.
  f_equal; lia.
Qed.

Lemma short_line_points_apart :
  forall p p', in_point_box (MkExtent 1 3 0 0 0 0) p -> in_point_box (MkExtent 1 3 0 0 0 0) p' ->
               row_major_point_id (MkExtent 0 4 0 0 0 0) p
               = row_major_point_id (MkExtent 0 4 0 0 0 0) p' -> p = p'.
Proof.
  intros [i j k] [i' j' k'] Hp Hp'.
  apply in_point_box_ranges in Hp, Hp'. unfold row_major_point_id.
  cbn [v0 v1 v2 ext_at ext0 ext1 ext2 ext3 ext4 ext5] in *. intros Heq.
  f_equal; lia.
Qed.

Lemma X19_clone_holds_the_data_witness :
  CellData (CloneGrid row_major_cell_id row_major_point_id short_line long_line)
    !! Z.to_nat (row_major_cell_id (MkExtent 0 4 0 0 0 0) (MkVec3 2 0 0))
  = CellData short_line !! Z.to_nat (row_major_cell_id (MkExtent 1 3 0 0 0 0) (MkVec3 2 0 0)).
Proof.
  pose proof (X19_clone_holds_the_data_of_the_grid row_major_cell_id row_major_point_id
                Z unit short_line long_line short_line_cells_apart short_line_points_apart)
    as (_ & _ & _ & _ & Hcells & _).
  apply (Hcells (MkVec3 2 0 0)).
  - intros a. destruct a; vm_compute; split; congruence.
  - vm_compute. split; congruence.
  - vm_compute. split; congruence.
Defined.

(** ** The outer faces of a structured grid *)

(** X20: the faces of a structured grid, as the sender and the receiver see
    them. For the face of slot [i], the two slots swept by
    [CopyOuterLayerGridPoints], [GridsFit] and [SweepGrids] are the lower
    slots of the two other axes, in the cyclic order x, y, z, x. The extent
    the constructor of [StructuredGridFittingWorker] stores for that face of
    the neighbour is the neighbour's extent made flat at the bound of the
    face, whatever the member held before; it is the extent in which
    [CopyOuterLayerGridPoints] numbers the points it copies. *)
Theorem X20_faces_of_a_structured_grid (uninitialized extent : ExtentType) (f : Adjacency) :
  face_sweep_slots (face_index f)
  = (face_index (lower_face (next_axis (face_axis f))),
     face_index (lower_face (next_axis (next_axis (face_axis f)))))
  /\ StructuredGridFittingWorker_Extent uninitialized extent (face_index f)
     = face_of_extent extent f
  /\ face_of_extent extent f
     = ext_set extent (face_index f + (if nz (Z.rem (face_index f) 2) then -1 else 1))
         extent.[face_index f]
  /\ forall a : Axis,
       axis_min (face_of_extent extent f) a
       = (if decide (a = face_axis f) then extent.[face_index f] else axis_min extent a)
       /\ axis_max (face_of_extent extent f) a
          = (if decide (a = face_axis f) then extent.[face_index f] else axis_max extent a).
Proof.
  destruct extent as [e0 e1 e2 e3 e4 e5], uninitialized as [u0 u1 u2 u3 u4 u5].
  split; [destruct f; reflexivity |].
  split; [destruct f; reflexivity |].
  split; [destruct f; reflexivity |].
  intros a. destruct f, a; split; reflexivity.
Qed.

(** The point of the face [f] at bound [c] with the coordinates [x] and [y]
    on the two swept axes. *)
Lemma face_cursor (uninitialized : Vec3 Z) (f : Adjacency) (c x y : Z) :
  let i := face_index f in
  let '(j, k) := face_sweep_slots i in
  let ijk := vset_at (vset_at (vset_at uninitialized (Z.quot i 2) c) (Z.quot k 2) y)
               (Z.quot j 2) x in
  vget ijk (face_axis f) = c
  /\ vget ijk (next_axis (face_axis f)) = x
  /\ vget ijk (next_axis (next_axis (face_axis f))) = y.
Proof. destruct f; cbv; auto. Qed.

Lemma next_axis_cases (a b : Axis) :
  b = a \/ b = next_axis a \/ b = next_axis (next_axis a).
Proof. destruct a, b; auto. Qed.

(** Two nested loops that each copy the tuple of their cursor. *)
Lemma nested_copy2 {T : Type} (dst src : Z -> Z -> Z) (xlo xhi ylo yhi : Z)
    (source array : list T) :
  for_loop ylo yhi (fun y array =>
    for_loop xlo xhi (fun x array => SetTuple array (dst x y) (src x y) source) array) array
  = copy_many (flat_map (fun y => flat_map (fun x => [(dst x y, src x y)]) (zrange xlo xhi))
                 (zrange ylo yhi)) source array.
Proof.
  unfold copy_many.
  apply (for_loop_fold (fun array '(d, s) => SetTuple array d s source)). intros y array'.
  apply (for_loop_fold (fun array '(d, s) => SetTuple array d s source)). reflexivity.
Qed.

Lemma plane_elem {A : Type} (g : Z -> Z -> A) (xlo xhi ylo yhi : Z) (p : A) :
  p ∈ flat_map (fun y => flat_map (fun x => [g x y]) (zrange xlo xhi)) (zrange ylo yhi)
  <-> exists x y, xlo <= x < xhi /\ ylo <= y < yhi /\ p = g x y.
Proof.
  rewrite list_elem_of_In, in_flat_map. split.
  - intros (y & Hy & Hp). apply in_flat_map in Hp as (x & Hx & Hp).
    apply list_elem_of_In, zrange_elem_iff in Hy, Hx.
    destruct Hp as [<- | []]. exists x, y. auto.
  - intros (x & y & Hx & Hy & ->).
    exists y. split; [apply zrange_elem; exact Hy |].
    apply in_flat_map. exists x. split; [apply zrange_elem; exact Hx |]. left. reflexivity.
Qed.

Section OuterLayerProperties.
Variable ComputePointIdForExtent : ExtentType -> Vec3 Z -> Z.
Context {T : Type}.
Variables (inputPoints : list T) (inputExtent : ExtentType) (fresh : list T).
Variables (uninitialized : Vec3 Z) (extent : ExtentType) (f : Adjacency).

(** The points of a face are the points [face_point] gives for the
    coordinates of the two swept axes. *)
Lemma face_point_box (ijk : Vec3 Z) :
  in_point_box (face_of_extent extent f) ijk
  <-> exists x y,
        axis_min extent (next_axis (face_axis f)) <= x
          < axis_max extent (next_axis (face_axis f)) + 1
        /\ axis_min extent (next_axis (next_axis (face_axis f))) <= y
             < axis_max extent (next_axis (next_axis (face_axis f))) + 1
        /\ ijk = face_point (face_axis f) extent.[face_index f] x y.
Proof.
  rewrite in_point_box_spec.
  destruct extent as [e0 e1 e2 e3 e4 e5], ijk as [i j k].
  destruct f; cbn [face_of_extent face_index opposite ext_set ext_at ext0 ext1 ext2 ext3 ext4
                   ext5 face_axis next_axis axis_min axis_max face_point vset v0 v1 v2];
    (split;
     [ intros (HX & HY & HZ);
       first [ exists j, k; repeat split; try lia; f_equal; lia
             | exists k, i; repeat split; try lia; f_equal; lia
             | exists i, j; repeat split; try lia; f_equal; lia ]
     | intros (x & y & Hx & Hy & [= -> -> ->]); lia ]).
Qed.
(** The pairs of ids [CopyOuterLayerGridPoints] copies from and to. *)
Let pairs : list (Z * Z) :=
  flat_map
    (fun y =>
       flat_map
         (fun x =>
            [(ComputePointIdForExtent (face_of_extent extent f)
                (face_point (face_axis f) extent.[face_index f] x y),
              ComputePointIdForExtent inputExtent
                (face_point (face_axis f) extent.[face_index f] x y))])
         (zrange (axis_min extent (next_axis (face_axis f)))
            (axis_max extent (next_axis (face_axis f)) + 1)))
    (zrange (axis_min extent (next_axis (next_axis (face_axis f))))
       (axis_max extent (next_axis (next_axis (face_axis f))) + 1)).

Lemma CopyOuterLayerGridPoints_copy :
  CopyOuterLayerGridPoints ComputePointIdForExtent inputPoints inputExtent fresh
    uninitialized extent (face_index f)
  = ((axis_max extent (next_axis (face_axis f))
      - axis_min extent (next_axis (face_axis f)) + 1)
     * (axis_max extent (next_axis (next_axis (face_axis f)))
        - axis_min extent (next_axis (next_axis (face_axis f))) + 1),
     copy_many pairs inputPoints fresh).
Proof.
  subst pairs. destruct extent as [e0 e1 e2 e3 e4 e5], uninitialized as [u0 u1 u2].
  destruct f; (apply injective_projections; [reflexivity |]).
  - apply (nested_copy2
             (fun x y => ComputePointIdForExtent (MkExtent e0 e0 e2 e3 e4 e5) (MkVec3 e0 x y))
             (fun x y => ComputePointIdForExtent inputExtent (MkVec3 e0 x y))).
  - apply (nested_copy2
             (fun x y => ComputePointIdForExtent (MkExtent e1 e1 e2 e3 e4 e5) (MkVec3 e1 x y))
             (fun x y => ComputePointIdForExtent inputExtent (MkVec3 e1 x y))).
  - apply (nested_copy2
             (fun x y => ComputePointIdForExtent (MkExtent e0 e1 e2 e2 e4 e5) (MkVec3 y e2 x))
             (fun x y => ComputePointIdForExtent inputExtent (MkVec3 y e2 x))).
  - apply (nested_copy2
             (fun x y => ComputePointIdForExtent (MkExtent e0 e1 e3 e3 e4 e5) (MkVec3 y e3 x))
             (fun x y => ComputePointIdForExtent inputExtent (MkVec3 y e3 x))).
  - apply (nested_copy2
             (fun x y => ComputePointIdForExtent (MkExtent e0 e1 e2 e3 e4 e4) (MkVec3 x y e4))
             (fun x y => ComputePointIdForExtent inputExtent (MkVec3 x y e4))).
  - apply (nested_copy2
             (fun x y => ComputePointIdForExtent (MkExtent e0 e1 e2 e3 e5 e5) (MkVec3 x y e5))
             (fun x y => ComputePointIdForExtent inputExtent (MkVec3 x y e5))).
Qed.

End OuterLayerProperties.

(** X21: [CopyOuterLayerGridPoints] copies the points of one face of the
    extent. It asks for as many points as the face has. When the ids of the
    face's extent tell the points of the face apart, every point of the face
    whose ids are within the two arrays holds in the output, at the id the
    flat extent of the face gives it, the point the input holds at the id the
    input's extent gives it; the places that are no point of the face keep
    what they held, the output keeps its length, and nothing depends on what
    the cursor held before it was written. *)
Theorem X21_outer_layer_holds_the_points_of_the_face
    (ComputePointIdForExtent : ExtentType -> Vec3 Z -> Z) (T : Type)
    (inputPoints : list T) (inputExtent : ExtentType) (fresh : list T)
    (uninitialized : Vec3 Z) (extent : ExtentType) (f : Adjacency) :
  let face := face_of_extent extent f in
  let a1 := next_axis (face_axis f) in
  let a2 := next_axis a1 in
  let result :=
    CopyOuterLayerGridPoints ComputePointIdForExtent inputPoints inputExtent fresh
      uninitialized extent (face_index f) in
  (forall p p', in_point_box face p -> in_point_box face p' ->
                ComputePointIdForExtent face p = ComputePointIdForExtent face p' -> p = p') ->
  fst result
  = (axis_max extent a1 - axis_min extent a1 + 1) * (axis_max extent a2 - axis_min extent a2 + 1)
  /\ length (snd result) = length fresh
  /\ (forall ijk,
        in_point_box face ijk ->
        0 <= ComputePointIdForExtent face ijk < Z.of_nat (length fresh) ->
        0 <= ComputePointIdForExtent inputExtent ijk < Z.of_nat (length inputPoints) ->
        snd result !! Z.to_nat (ComputePointIdForExtent face ijk)
        = inputPoints !! Z.to_nat (ComputePointIdForExtent inputExtent ijk))
  /\ (forall id,
        0 <= id ->
        (forall ijk, in_point_box face ijk -> ComputePointIdForExtent face ijk <> id) ->
        snd result !! Z.to_nat id = fresh !! Z.to_nat id).
Proof.
  cbv zeta. intros Hinj. rewrite CopyOuterLayerGridPoints_copy. cbn [fst snd].
  split; [reflexivity |]. split; [apply copy_many_length |]. split.
  - intros ijk Hbox Hdst Hsrc.
    pose proof (proj1 (face_point_box extent f ijk) Hbox) as (x & y & Hx & Hy & Hijk).
    apply copy_many_hit; [| | exact Hdst | exact Hsrc].
    + apply plane_elem. exists x, y. rewrite Hijk. auto.
    + intros s' Hs'. apply plane_elem in Hs' as (x' & y' & Hx' & Hy' & Heq).
      injection Heq as Hd ->.
      rewrite (Hinj ijk (face_point (face_axis f) extent.[face_index f] x' y') Hbox);
        [reflexivity | | exact Hd].
      apply face_point_box. exists x', y'. auto.
  - intros id Hid Hnot. apply copy_many_miss; [exact Hid |].
    intros Hin. apply list_elem_of_fmap in Hin as ([d s] & -> & Hin).
    apply plane_elem in Hin as (x & y & Hx & Hy & Heq). injection Heq as -> ->.
    apply (Hnot (face_point (face_axis f) extent.[face_index f] x y)); [| reflexivity].
    apply face_point_box. exists x, y. auto.
Qed.

Lemma cube_face_points_apart :
  forall p p', in_point_box (face_of_extent (MkExtent 0 1 0 1 0 1) Right) p ->
               in_point_box (face_of_extent (MkExtent 0 1 0 1 0 1) Right) p' ->
               row_major_point_id (face_of_extent (MkExtent 0 1 0 1 0 1) Right) p
               = row_major_point_id (face_of_extent (MkExtent 0 1 0 1 0 1) Right) p' ->
               p = p'.
Proof. apply row_major_point_id_inj. Qed.

Lemma X21_outer_layer_witness :
  snd (CopyOuterLayerGridPoints row_major_point_id cube_points (MkExtent 0 1 0 1 0 1)
         [0; 0; 0; 0] (MkVec3 0 0 0) (MkExtent 0 1 0 1 0 1) (face_index Right))
    !! Z.to_nat (row_major_point_id (face_of_extent (MkExtent 0 1 0 1 0 1) Right)
                   (MkVec3 1 0 1))
  = cube_points !! Z.to_nat (row_major_point_id (MkExtent 0 1 0 1 0 1) (MkVec3 1 0 1)).
Proof.
  pose proof (X21_outer_layer_holds_the_points_of_the_face row_major_point_id Z cube_points
                (MkExtent 0 1 0 1 0 1) [0; 0; 0; 0] (MkVec3 0 0 0) (MkExtent 0 1 0 1 0 1)
                Right cube_face_points_apart) as (_ & _ & Hface & _).
  apply (Hface (MkVec3 1 0 1)).
  - intros a. destruct a; vm_compute; split; congruence.
  - vm_compute. split; congruence.
  - vm_compute. split; congruence.
Defined.

(** * The 3D drawing context *)

Section Context3DProperties.
Context {P : Type}.

Lemma context_run_app (calls1 calls2 : list (ContextCall P)) (s : vtkContext3D * World P) :
  context_run (calls1 ++ calls2) s = context_run calls1 s ≫= context_run calls2.
Proof.
  revert s. induction calls1 as [|c calls1 IH]; intros s; cbn [context_run app];
    [reflexivity |].
  destruct (context_step s c); [apply IH | reflexivity].
Qed.

(** Drawing calls with a device at hand reach that device, in order, and
    leave the context and the reference counts as they are. *)
Lemma context_run_drawing (calls : list (ContextCall P)) (this : vtkContext3D) (w : World P)
    (d : Z) (drawn : list (DeviceCall P)) :
  Device this = Some d ->
  mapM drawing_call calls = Some drawn ->
  context_run calls (this, w)
  = Some (this, MkWorld (ReferenceCount w) (device_calls w ++ map (fun c => (d, c)) drawn)).
Proof.
  intros Hdevice. revert w drawn.
  induction calls as [|c calls IH]; intros w drawn Hdrawn.
  - injection Hdrawn as <-. cbn. rewrite app_nil_r. destruct w; reflexivity.
  - cbn [mapM] in Hdrawn. destruct (drawing_call c) as [dc|] eqn:Hc; [| discriminate].
    cbn in Hdrawn. destruct (mapM drawing_call calls) as [drawn'|]; [| discriminate].
    injection Hdrawn as <-. cbn [context_run].
    assert (Hstep : context_step (this, w) c = Some (this, call d dc w)).
    { destruct c; try discriminate; injection Hc as <-; cbn [context_step];
        unfold vtkContext3D_DrawLine, vtkContext3D_DrawPoint, vtkContext3D_DrawPoints,
          vtkContext3D_PushMatrix, vtkContext3D_PopMatrix, on_device;
        rewrite Hdevice; reflexivity. }
    rewrite Hstep, (IH (call d dc w) drawn' eq_refl). cbn [call ReferenceCount device_calls map].
    rewrite <- app_assoc. reflexivity.
Qed.
End Context3DProperties.

(** X22: a bracket of [Begin] and [End] around drawing calls is balanced.
    From a context without device, [Begin(d)], then any run of [DrawLine],
    [DrawPoint], [DrawPoints], [PushMatrix] and [PopMatrix] calls, then
    [End()]: the run is defined, the device [d] receives the call of each
    drawing call, in order, then [End], and no other device receives
    anything; afterwards the context has no device and the reference count
    of every device is what it was before. *)
Theorem X22_begin_and_end_are_balanced
    (P : Type) (mtime d : Z) (w : World P) (calls : list (ContextCall P))
    (drawn : list (DeviceCall P)) :
  mapM drawing_call calls = Some drawn ->
  exists this' w',
    context_run (CallBegin (Some d) :: calls ++ [CallEnd]) (vtkContext3D_new mtime, w)
    = Some (this', w')
    /\ Device this' = None
    /\ (forall device, ReferenceCount w' device = ReferenceCount w device)
    /\ device_calls w' = device_calls w ++ map (fun c => (d, c)) (drawn ++ [DeviceEnd]).
Proof.
  intros Hdrawn.
  change (context_run (CallBegin (Some d) :: calls ++ [CallEnd]) (vtkContext3D_new mtime, w))
    with (context_run (calls ++ [CallEnd])
            (Modified (MkContext3D (Some d) mtime), Register d w)).
  rewrite context_run_app.
  rewrite (context_run_drawing calls (Modified (MkContext3D (Some d) mtime)) (Register d w) d
             drawn eq_refl Hdrawn).
  exists (MkContext3D None (mtime + 1 + 1)).
  exists (MkWorld
            (fun device =>
               if device =? d
               then (if device =? d then ReferenceCount w device + 1
                     else ReferenceCount w device) - 1
               else if device =? d then ReferenceCount w device + 1
                    else ReferenceCount w device)
            ((device_calls w ++ map (fun c => (d, c)) drawn) ++ [(d, DeviceEnd)])).
  split; [reflexivity |]. cbn [Device ReferenceCount device_calls].
  split; [reflexivity |]. split.
  - intros device. destruct (device =? d); lia.
  - rewrite map_app, app_assoc. reflexivity.
Qed.

Lemma X22_begin_and_end_witness :
  exists this' w',
    context_run [CallBegin (Some 7); CallDrawLine 1 2; CallDrawPoint 3; CallEnd]
      (vtkContext3D_new 0, MkWorld (fun _ => 1) [])
    = Some (this', w')
    /\ Device this' = None
    /\ (forall device, ReferenceCount w' device = 1)
    /\ device_calls w'
       = [(7, DeviceDrawPoly [1; 2] 2); (7, DeviceDrawPoints [3] 1); (7, DeviceEnd)].
Proof.
  apply (X22_begin_and_end_are_balanced Z 0 7 (MkWorld (fun _ => 1) [])
           [CallDrawLine 1 2; CallDrawPoint 3]
           [DeviceDrawPoly [1; 2] 2; DeviceDrawPoints [3] 1]).
  reflexivity.
Defined.

Section Context3DInvariant.
Context {P : Type}.
Variable initial : Z -> Z.

(** The context holds the references it has taken: no count is below its
    initial value, and the count of the device at hand is above it. *)
Let holds (s : vtkContext3D * World P) : Prop :=
  (forall d, initial d <= ReferenceCount (snd s) d)
  /\ (forall d, Device (fst s) = Some d -> initial d < ReferenceCount (snd s) d).

Lemma on_device_holds (this : vtkContext3D) (w w' : World P) (c : DeviceCall P) :
  holds (this, w) -> on_device this w c = Some w' -> holds (this, w').
Proof.
  unfold on_device. destruct (Device this) as [d|]; [| discriminate].
  intros Hholds [= <-]. exact Hholds.
Qed.

Lemma context_step_holds (s s' : vtkContext3D * World P) (c : ContextCall P) :
  holds s -> context_step s c = Some s' -> holds s'.
Proof.
  destruct s as [this w]. unfold holds. cbn [fst snd]. intros [Hall Hdevice] Hstep.
  destruct c as [device | | start end_ | point | points n | |]; cbn [context_step] in Hstep.
  - unfold vtkContext3D_Begin in Hstep.
    destruct (option_Z_eqb (Device this) device).
    + injection Hstep as <-. split; assumption.
    + destruct device as [d|]; [| discriminate]. injection Hstep as <-.
      split; cbn [fst snd Register ReferenceCount Modified Device].
      * intros d'. specialize (Hall d'). destruct (d' =? d); lia.
      * intros d' [= ->]. specialize (Hall d'). rewrite Z.eqb_refl. lia.
  - unfold vtkContext3D_End in Hstep. destruct (Device this) as [d|] eqn:Hd.
    + injection Hstep as <-.
      split; cbn [fst snd Delete call ReferenceCount Modified Device]; [| discriminate].
      intros d'. specialize (Hall d'). destruct (Z.eqb_spec d' d) as [-> | Hne]; [| lia].
      specialize (Hdevice d eq_refl). lia.
    + injection Hstep as <-. split; [exact Hall |].
      cbn [fst]. rewrite Hd. discriminate.
  - destruct (vtkContext3D_DrawLine this w start end_) as [w'|] eqn:Hw; [| discriminate].
    injection Hstep as <-. exact (on_device_holds this w w' _ (conj Hall Hdevice) Hw).
  - destruct (vtkContext3D_DrawPoint this w point) as [w'|] eqn:Hw; [| discriminate].
    injection Hstep as <-. exact (on_device_holds this w w' _ (conj Hall Hdevice) Hw).
  - destruct (vtkContext3D_DrawPoints this w points n) as [w'|] eqn:Hw; [| discriminate].
    injection Hstep as <-. exact (on_device_holds this w w' _ (conj Hall Hdevice) Hw).
  - destruct (vtkContext3D_PushMatrix this w) as [w'|] eqn:Hw; [| discriminate].
    injection Hstep as <-. exact (on_device_holds this w w' _ (conj Hall Hdevice) Hw).
  - destruct (vtkContext3D_PopMatrix this w) as [w'|] eqn:Hw; [| discriminate].
    injection Hstep as <-. exact (on_device_holds this w w' _ (conj Hall Hdevice) Hw).
Qed.

Lemma context_run_holds (calls : list (ContextCall P)) (s s' : vtkContext3D * World P) :
  holds s -> context_run calls s = Some s' -> holds s'.
Proof.
  revert s. induction calls as [|c calls IH]; intros s Hholds; cbn [context_run].
  - intros [= <-]. exact Hholds.
  - destruct (context_step s c) as [s1|] eqn:Hstep; [| discriminate].
    apply IH. exact (context_step_holds s s1 c Hholds Hstep).
Qed.
End Context3DInvariant.

(** X23: the context never releases a reference it does not hold. After any
    run of calls on a context that starts without device ([Begin] of any
    device or of none, [End], drawing calls, in any order), if the run is
    defined then no device's reference count is below what it was at the
    start, and the count of the device at hand is above it; a [Begin] of a
    second device without an [End] in between is such a run, in which the
    first device keeps the reference the context took. *)
Theorem X23_context_never_releases_what_it_does_not_hold
    (P : Type) (mtime : Z) (w w' : World P) (this' : vtkContext3D)
    (calls : list (ContextCall P)) :
  context_run calls (vtkContext3D_new mtime, w) = Some (this', w') ->
  (forall d, ReferenceCount w d <= ReferenceCount w' d)
  /\ (forall d, Device this' = Some d -> ReferenceCount w d < ReferenceCount w' d).
Proof.
  intros Hrun.
  apply (context_run_holds (ReferenceCount w) calls (vtkContext3D_new mtime, w) (this', w'));
    [| exact Hrun].
  split; cbn [fst snd vtkContext3D_new Device]; [intros d; lia | discriminate].
Qed.

Lemma X23_context_never_releases_witness :
  (forall d, ReferenceCount (MkWorld (P := Z) (fun _ => 1) []) d
             <= ReferenceCount
                  (MkWorld (P := Z)
                     (fun d => if d =? 8
                               then (if d =? 7 then 1 + 1 else 1) + 1
                               else if d =? 7 then 1 + 1 else 1) []) d)
  /\ (forall d, Device (MkContext3D (Some 8) 2) = Some d ->
                ReferenceCount (MkWorld (P := Z) (fun _ => 1) []) d
                < ReferenceCount
                    (MkWorld (P := Z)
                       (fun d => if d =? 8
                                 then (if d =? 7 then 1 + 1 else 1) + 1
                                 else if d =? 7 then 1 + 1 else 1) []) d).
Proof.
  apply (X23_context_never_releases_what_it_does_not_hold Z 0 (MkWorld (fun _ => 1) [])
           (MkWorld
              (fun d => if d =? 8
                        then (if d =? 7 then 1 + 1 else 1) + 1
                        else if d =? 7 then 1 + 1 else 1) [])
           (MkContext3D (Some 8) 2) [CallBegin (Some 7); CallBegin (Some 8)]).
  reflexivity.
Defined.

(** * Ghost points of the output *)

(** X24: [UpdateOutputGridPoints] on a structured grid asks for as many
    points as the output's extent has, and copies the input's points into
    the numbering of the output. When the ids of the output's extent tell
    the points of the block's extent apart, every point of the block's
    extent whose ids are within the two arrays holds in the output the point
    the input holds for it; the places that are no point of the block (the
    ghost points to come) keep what they held, and the array keeps its
    length. *)
Theorem X24_output_points_of_a_structured_grid
    (ComputePointIdForExtent : ExtentType -> Vec3 Z -> Z) (T : Type)
    (inputPoints : list T) (inputExtent extent : ExtentType) (fresh : list T) :
  let result :=
    UpdateOutputGridPoints_StructuredGrid ComputePointIdForExtent inputPoints inputExtent
      extent fresh in
  (forall p p', in_point_box inputExtent p -> in_point_box inputExtent p' ->
                ComputePointIdForExtent extent p = ComputePointIdForExtent extent p' ->
                p = p') ->
  fst result
  = (axis_max extent AxisX - axis_min extent AxisX + 1)
    * (axis_max extent AxisY - axis_min extent AxisY + 1)
    * (axis_max extent AxisZ - axis_min extent AxisZ + 1)
  /\ length (snd result) = length fresh
  /\ (forall ijk,
        in_point_box inputExtent ijk ->
        0 <= ComputePointIdForExtent extent ijk < Z.of_nat (length fresh) ->
        0 <= ComputePointIdForExtent inputExtent ijk < Z.of_nat (length inputPoints) ->
        snd result !! Z.to_nat (ComputePointIdForExtent extent ijk)
        = inputPoints !! Z.to_nat (ComputePointIdForExtent inputExtent ijk))
  /\ (forall id,
        0 <= id ->
        (forall ijk, in_point_box inputExtent ijk -> ComputePointIdForExtent extent ijk <> id) ->
        snd result !! Z.to_nat id = fresh !! Z.to_nat id).
Proof.
  cbv zeta. intros Hinj. unfold UpdateOutputGridPoints_StructuredGrid. cbn [fst snd].
  rewrite (nested_copy (fun i j k => ComputePointIdForExtent extent (MkVec3 i j k))
             (fun i j k => ComputePointIdForExtent inputExtent (MkVec3 i j k))).
  destruct (box_copy (ComputePointIdForExtent extent) (ComputePointIdForExtent inputExtent)
              inputExtent.[0] (inputExtent.[1] + 1) inputExtent.[2] (inputExtent.[3] + 1)
              inputExtent.[4] (inputExtent.[5] + 1) inputPoints fresh)
    as (Hlen & Hhit & Hmiss).
  { intros p p' Hp Hp'. apply Hinj; apply in_point_box_ranges; assumption. }
  split; [reflexivity |]. split; [exact Hlen |]. split.
  - intros ijk Hbox. apply Hhit. apply in_point_box_ranges. exact Hbox.
  - intros id Hid Hnot. apply Hmiss; [exact Hid |].
    intros ijk Hin. apply Hnot. apply in_point_box_ranges. exact Hin.
Qed.

Lemma X24_output_points_witness :
  snd (UpdateOutputGridPoints_StructuredGrid row_major_point_id [20; 21; 22]
         (MkExtent 1 3 0 0 0 0) (MkExtent 0 4 0 0 0 0) [0; 0; 0; 0; 0])
    !! Z.to_nat (row_major_point_id (MkExtent 0 4 0 0 0 0) (MkVec3 3 0 0))
  = [20; 21; 22] !! Z.to_nat (row_major_point_id (MkExtent 1 3 0 0 0 0) (MkVec3 3 0 0)).
Proof.
  pose proof (X24_output_points_of_a_structured_grid row_major_point_id Z [20; 21; 22]
                (MkExtent 1 3 0 0 0 0) (MkExtent 0 4 0 0 0 0) [0; 0; 0; 0; 0]
                short_line_points_apart) as (_ & _ & Hpoints & _).
  apply (Hpoints (MkVec3 3 0 0)).
  - intros a. destruct a; vm_compute; split; congruence.
  - vm_compute. split; congruence.
  - vm_compute. split; congruence.
Defined.

Lemma insert_tuples_append {V : Type} (array : list V) (n srcStart : Z) (source : list V) :
  0 <= n -> 0 <= srcStart -> srcStart + n <= number_of_tuples source ->
  insert_tuples array (number_of_tuples array) n srcStart source
  = array ++ take (Z.to_nat n) (drop (Z.to_nat srcStart) source).
Proof.
  intros Hn Hs Hsource. unfold insert_tuples, number_of_tuples.
  rewrite Nat2Z.id, firstn_all, (drop_ge array) by lia. rewrite app_nil_r. reflexivity.
Qed.

(** X25: the ghost coordinates of a rectilinear grid. With [InsertTuples]
    appending to an array the tuples it is asked to copy,
    [AddGhostLayerOfGridPoints] leaves the ghost coordinates of a side as
    they are when they already hold as many values as the side is thick;
    otherwise, with [g] values held, a thickness [t] and a neighbour with
    more than [t] coordinates along the axis, it puts the [t - g]
    coordinates of the neighbour that start [t + 1] places before its end in
    front of them on a lower side, and it appends the [t - g] coordinates of
    the neighbour that follow its first one on an upper side. So the first
    neighbour of a side gives it the [t] coordinates next to the shared one.
    [AppendGhostPointsForRectilinearGrid] then returns the ghost coordinates
    of the lower side, the block's coordinates and the ghost coordinates of
    the upper side, in this order. *)
Theorem X25_ghost_coordinates_of_a_rectilinear_grid
    (V : Type) (InsertTuples : list V -> Z -> Z -> Z -> list V -> list V) :
  (forall array n srcStart source,
     0 <= n -> 0 <= srcStart -> srcStart + n <= number_of_tuples source ->
     InsertTuples array (number_of_tuples array) n srcStart source
     = array ++ take (Z.to_nat n) (drop (Z.to_nat srcStart) source)) ->
  (forall (f : Adjacency) (thickness : ExtentType) (coordinateGhosts : option (list V))
          (coordinates : Vec3 (list V)),
     let coords := vget coordinates (face_axis f) in
     let t := thickness.[face_index f] in
     let ghosts := default [] coordinateGhosts in
     let g := number_of_tuples ghosts in
     let result :=
       AddGhostLayerOfGridPoints_RectilinearGrid InsertTuples (face_index f) thickness
         coordinateGhosts coordinates in
     (t <= g -> result = ghosts)
     /\ (g < t -> t < number_of_tuples coords ->
         result
         = if decide (f = lower_face (face_axis f))
           then take (Z.to_nat (t - g))
                  (drop (Z.to_nat (number_of_tuples coords - t - 1)) coords) ++ ghosts
           else ghosts ++ take (Z.to_nat (t - g)) (drop 1 coords)))
  /\ (forall (coordinates : list V) (preCoordinates postCoordinates : option (list V)),
        AppendGhostPointsForRectilinearGrid InsertTuples coordinates preCoordinates
          postCoordinates
        = default [] preCoordinates ++ coordinates ++ default [] postCoordinates).
Proof.
  intros Happend. split.
  - intros f thickness coordinateGhosts coordinates coords t ghosts g result.
    assert (Hg : 0 <= g) by (subst g; unfold number_of_tuples; lia).
    assert (Hcoords : AddGhostLayerOfGridPoints_RectilinearGrid InsertTuples (face_index f)
                        thickness coordinateGhosts coordinates
                      = if g <? t
                        then if negb (nz (Z.rem (face_index f) 2))
                             then
                               let tmp :=
                                 InsertTuples [] 0 (t - g) (number_of_tuples coords - t - 1)
                                   coords in
                               InsertTuples tmp (number_of_tuples tmp) g 0 ghosts
                             else InsertTuples ghosts g (t - g) 1 coords
                        else ghosts).
    { subst coords. destruct f; reflexivity. }
    subst result. rewrite Hcoords. split.
    + intros Hle. rewrite (proj2 (Z.ltb_ge g t) Hle). reflexivity.
    + intros Hlt Hlong. rewrite (proj2 (Z.ltb_lt g t) Hlt).
      destruct (decide (f = lower_face (face_axis f))) as [Hlower | Hupper].
      * replace (negb (nz (Z.rem (face_index f) 2))) with true
          by (rewrite Hlower; destruct (face_axis f); reflexivity).
        cbv zeta.
        pose proof (Happend [] (t - g) (number_of_tuples coords - t - 1) coords
                      ltac:(lia) ltac:(lia) ltac:(lia)) as Hfirst.
        change (number_of_tuples []) with 0 in Hfirst. rewrite Hfirst.
        rewrite app_nil_l. subst g. rewrite Happend by (unfold number_of_tuples; lia).
        unfold number_of_tuples at 3. rewrite Nat2Z.id, drop_0, firstn_all. reflexivity.
      * replace (negb (nz (Z.rem (face_index f) 2))) with false
          by (destruct f; try reflexivity; contradiction Hupper; reflexivity).
        subst g. rewrite Happend by lia. reflexivity.
  - intros coordinates preCoordinates postCoordinates.
    unfold AppendGhostPointsForRectilinearGrid.
    destruct preCoordinates as [pre|], postCoordinates as [post|]; cbn [default from_option id];
      rewrite ?Happend by (unfold number_of_tuples; lia);
      unfold number_of_tuples; rewrite ?Nat2Z.id, ?drop_0, ?firstn_all, ?app_nil_r, <- ?app_assoc;
      reflexivity.
Qed.

(** The blocks with x coordinates [0,1,2] and [2,3,4], one ghost layer: the
    ghost coordinate appended on the right of the first is 3. *)
Lemma X25_ghost_coordinates_witness :
  AddGhostLayerOfGridPoints_RectilinearGrid insert_tuples (face_index Right)
    (MkExtent 0 1 0 0 0 0) None (MkVec3 [2; 3; 4] [0; 1; 2; 3] [0]) = [3]
  /\ AppendGhostPointsForRectilinearGrid insert_tuples [0; 1; 2] None (Some [3])
     = [0; 1; 2; 3].
Proof.
  pose proof (X25_ghost_coordinates_of_a_rectilinear_grid Z insert_tuples
                (fun array n srcStart source => insert_tuples_append array n srcStart source))
    as [Hadd Hjoin].
  split.
  - exact (proj2 (Hadd Right (MkExtent 0 1 0 0 0 0) None (MkVec3 [2; 3; 4] [0; 1; 2; 3] [0]))
             ltac:(vm_compute; reflexivity) ltac:(vm_compute; reflexivity)).
  - exact (Hjoin [0; 1; 2] None (Some [3])).
Defined.

(** X26: peeling a rectilinear block peels its coordinates. Under the
    conditions of X3 (the ghost array marks the [lo] lowest and [hi] highest
    layers of cells of each axis, and these fit the ghost level), with
    coordinate arrays that hold one value for each point of the input's
    extent and [InsertTuples] appending what it is asked to copy, the first
    loop of [ExchangeBlockStructures] gives the block the input's extent
    without the layers and, on each axis, the input's coordinates without
    the first [lo] and the last [hi] of them: one for each point of the
    peeled extent. *)
Theorem X26_peeled_coordinates_of_a_rectilinear_block
    (ComputeCellIdForExtent : ExtentType -> Vec3 Z -> Z) (V : Type)
    (InsertTuples : list V -> Z -> Z -> Z -> list V -> list V)
    (extent : ExtentType) (ghosts : list Z) (ghostLevel : Z) (lo hi : Vec3 Z)
    (inputCoordinates : Vec3 (list V)) :
  (forall array n srcStart source,
     0 <= n -> 0 <= srcStart -> srcStart + n <= number_of_tuples source ->
     InsertTuples array (number_of_tuples array) n srcStart source
     = array ++ take (Z.to_nat n) (drop (Z.to_nat srcStart) source)) ->
  IsExtentValid extent = true ->
  0 <= ghostLevel ->
  layers_fit extent ghostLevel lo hi ->
  marks_layers ComputeCellIdForExtent extent ghosts lo hi ->
  (forall a, number_of_tuples (vget inputCoordinates a)
             = axis_max extent a - axis_min extent a + 1) ->
  exists peeled coordinates,
    peel_rectilinear_block ComputeCellIdForExtent InsertTuples (MkGrid extent (Some ghosts))
      inputCoordinates ghostLevel = Some (peeled, coordinates)
    /\ forall a,
         axis_min peeled a = axis_min extent a + vget lo a
         /\ axis_max peeled a = axis_max extent a - vget hi a
         /\ vget coordinates a
            = take (Z.to_nat (axis_max peeled a - axis_min peeled a + 1))
                (drop (Z.to_nat (vget lo a)) (vget inputCoordinates a))
         /\ number_of_tuples (vget coordinates a) = axis_max peeled a - axis_min peeled a + 1.
Proof.
  intros Happend Hvalid Hlevel Hfit Hmarks Hsize.
  unfold peel_rectilinear_block.
  rewrite (PeelOffGhostLayers_layers ComputeCellIdForExtent extent ghosts ghostLevel lo hi
             Hvalid Hlevel Hfit Hmarks).
  do 2 eexists. split; [reflexivity |].
  intros a. specialize (Hfit a). specialize (Hsize a).
  pose proof (proj1 (IsExtentValid_spec extent) Hvalid a) as Hle.
  assert (Hlayers : 0 <= vget lo a /\ 0 <= vget hi a
                    /\ vget lo a + vget hi a <= axis_max extent a - axis_min extent a).
  { unfold cells_along in Hfit.
    destruct (decide (axis_min extent a = axis_max extent a)); lia. }
  assert (Hslice : forall n s source,
            0 <= n -> 0 <= s -> s + n <= number_of_tuples source ->
            InsertTuples [] 0 n s source = take (Z.to_nat n) (drop (Z.to_nat s) source)).
  { intros n s source Hn Hs Hsource.
    pose proof (Happend [] n s source Hn Hs Hsource) as Hfirst.
    change (number_of_tuples []) with 0 in Hfirst. exact Hfirst. }
  destruct a; cbn [axis_min axis_max vget v0 v1 v2 GetExtent ext_at ext0 ext1 ext2 ext3 ext4
                   ext5] in *;
    (split; [reflexivity |]); (split; [reflexivity |]);
    rewrite Hslice by lia;
    (split; [do 2 f_equal; lia |]);
    unfold number_of_tuples in *; rewrite length_take, length_drop; lia.
Qed.

Lemma X26_peeled_coordinates_witness :
  exists peeled coordinates,
    peel_rectilinear_block row_major_cell_id insert_tuples line_grid
      (MkVec3 [0; 1; 2; 3; 4; 5; 6] [0] [0]) 1 = Some (peeled, coordinates)
    /\ forall a,
         axis_min peeled a = axis_min (MkExtent 0 6 0 0 0 0) a + vget (MkVec3 1 0 0) a
         /\ axis_max peeled a = axis_max (MkExtent 0 6 0 0 0 0) a - vget (MkVec3 1 0 0) a
         /\ vget coordinates a
            = take (Z.to_nat (axis_max peeled a - axis_min peeled a + 1))
                (drop (Z.to_nat (vget (MkVec3 1 0 0) a))
                   (vget (MkVec3 [0; 1; 2; 3; 4; 5; 6] [0] [0]) a))
         /\ number_of_tuples (vget coordinates a) = axis_max peeled a - axis_min peeled a + 1.
Proof.
  apply (X26_peeled_coordinates_of_a_rectilinear_block row_major_cell_id Z insert_tuples
           (MkExtent 0 6 0 0 0 0) [1; 0; 0; 0; 0; 1] 1 (MkVec3 1 0 0) (MkVec3 1 0 0)
           (MkVec3 [0; 1; 2; 3; 4; 5; 6] [0] [0])).
  - intros array n srcStart source. apply insert_tuples_append.
  - reflexivity.
  - lia.
  - exact line_grid_layers_fit.
  - exact line_grid_marks_layers.
  - intros a. destruct a; reflexivity.
Defined.
